(** * Docsify plugins of the documentation site: framework switcher and
      "on this page" sidebar

    A shallow embedding of the two browser scripts of the repository,
    [docs/assets/framework-switcher.js] and the on-this-page plugin, and the
    properties of them that the specification states.

    Conventions of the embedding.
    - A JavaScript string is a [string]; its characters are the 256 code
      points of Latin-1, and [toLowerCase], [\s] and [\w] are given on that
      range.
    - [null] / [undefined] is [None]; a JavaScript value used as a condition
      is tested with [truthy] (a string is truthy when it is not empty).
    - A regular expression taken from the configuration is a function from
      the subject string to the text captured by its first group, [None]
      when the expression does not match.  This covers expressions without
      the [g] and [y] flags whose first group takes part in every match,
      which are the ones [detectFramework] can use at all.
    - The DOM is kept as the data the scripts read and write: element
      records with their class list, dataset and text, and child lists in
      document order.  Calls to [console.log] and to Prism are left out. *)

From Stdlib Require Import Ascii String QArith.
From stdpp Require Import gmap strings list.

Set Default Proof Using "Type".

(* ===================================================================== *)
(** ** JavaScript strings *)
(* ===================================================================== *)

Module JS.

(** [\s] of a JavaScript regular expression and the characters removed by
    [String.prototype.trim], on Latin-1. *)
Definition isWhiteSpace (c : ascii) : bool :=
  match nat_of_ascii c with
  | 9 | 10 | 11 | 12 | 13 | 32 | 160 => true
  | _ => false
  end.

(** [\w]: ASCII letters, digits and the underscore. *)
Definition isWordChar (c : ascii) : bool :=
  let n := nat_of_ascii c in
  ((65 <=? n) && (n <=? 90)) || ((97 <=? n) && (n <=? 122))
  || ((48 <=? n) && (n <=? 57)) || (n =? 95).

Definition lowerChar (c : ascii) : ascii :=
  let n := nat_of_ascii c in
  if ((65 <=? n) && (n <=? 90))
     || ((192 <=? n) && (n <=? 222) && negb (n =? 215))
  then ascii_of_nat (n + 32) else c.

Fixpoint toLowerCase (s : string) : string :=
  match s with
  | EmptyString => EmptyString
  | String c r => String (lowerChar c) (toLowerCase r)
  end.

Fixpoint trimStart (s : string) : string :=
  match s with
  | EmptyString => EmptyString
  | String c r => if isWhiteSpace c then trimStart r else s
  end.

Fixpoint rev (s : string) : string :=
  match s with
  | EmptyString => EmptyString
  | String c r => rev r +:+ String c EmptyString
  end.

Definition trimEnd (s : string) : string := rev (trimStart (rev s)).

Definition trim (s : string) : string := trimEnd (trimStart s).

Fixpoint startsWith (s p : string) : bool :=
  match p, s with
  | EmptyString, _ => true
  | String a p', String b s' => if decide (a = b) then startsWith s' p' else false
  | String _ _, EmptyString => false
  end.

(** [s.substring(n)] *)
Fixpoint substring (n : nat) (s : string) : string :=
  match n, s with
  | O, _ => s
  | S n', String _ r => substring n' r
  | S _, EmptyString => EmptyString
  end.

(** Keep / drop the characters that satisfy [f]:
    [s.replace(/[...]/g, "")] for a character class. *)
Fixpoint filterChars (f : ascii -> bool) (s : string) : string :=
  match s with
  | EmptyString => EmptyString
  | String c r => if f c then String c (filterChars f r) else filterChars f r
  end.

(** [s.replace(/\s+/g, "")] *)
Definition removeWhiteSpace (s : string) : string :=
  filterChars (fun c => negb (isWhiteSpace c)) s.

(** [s.replace(/X+/g, "-")] for a character class [X] given by [f]: every
    maximal run of characters of the class becomes one hyphen.  [inRun]
    tells that the previous character belonged to a run already replaced. *)
Fixpoint replaceRuns (f : ascii -> bool) (inRun : bool) (s : string) : string :=
  match s with
  | EmptyString => EmptyString
  | String c r =>
      if f c
      then if inRun then replaceRuns f true r
           else String "-"%char (replaceRuns f true r)
      else String c (replaceRuns f false r)
  end.

Definition isHyphen (c : ascii) : bool := if decide (c = "-"%char) then true else false.

(** [s.replace(/--+/g, "-")]: runs of two or more hyphens become one hyphen;
    a single hyphen is a run of length one and stays as it is, so this is
    the replacement of every hyphen run by one hyphen. *)
Definition collapseHyphens (s : string) : string := replaceRuns isHyphen false s.

(** [s.split(/\r?\n/)]: a line feed ends a line, and a carriage return
    that stands right before a line feed belongs to the separator. *)
Definition startsWithLF (s : string) : bool :=
  match s with
  | String d _ => if decide (d = "010"%char) then true else false
  | EmptyString => false
  end.

Fixpoint splitLines (s : string) : list string :=
  match s with
  | EmptyString => [EmptyString]
  | String c r =>
      if decide (c = "010"%char) then EmptyString :: splitLines r
      else if (if decide (c = "013"%char) then startsWithLF r else false)
      then splitLines r
      else
        match splitLines r with
        | l :: ls => String c l :: ls
        | [] => [String c EmptyString]
        end
  end.

(** [lines.join("\n")] *)
Fixpoint joinLines (ls : list string) : string :=
  match ls with
  | [] => EmptyString
  | [l] => l
  | l :: rest => l +:+ String "010"%char (joinLines rest)
  end.

(** [s.indexOf(p) > -1] and the parts around the first occurrence. *)
Fixpoint breakAt (p s : string) : option (string * string) :=
  if startsWith s p then Some (EmptyString, substring (String.length p) s)
  else match s with
       | EmptyString => None
       | String c r =>
           match breakAt p r with
           | Some (before, after) => Some (String c before, after)
           | None => None
           end
       end.

(** [s.replace(p, "")] for a string pattern: the first occurrence goes. *)
Definition removeFirst (p s : string) : string :=
  match breakAt p s with
  | Some (before, after) => before +:+ after
  | None => s
  end.

(** [s.split(p)[0]] for a non-empty string pattern. *)
Definition beforeFirst (p s : string) : string :=
  match breakAt p s with
  | Some (before, _) => before
  | None => s
  end.

(** A string used as a condition. *)
Definition truthy (s : string) : bool :=
  match s with EmptyString => false | _ => true end.

(** [a || b] on strings that may be [null]. *)
Definition orElse (a : option string) (b : string) : string :=
  match a with
  | Some s => if truthy s then s else b
  | None => b
  end.

End JS.

(* ===================================================================== *)
(** ** The framework switcher: configuration and page data *)
(* ===================================================================== *)

Module FrameworkSwitcher.

(** A configured regular expression ([toRegExp] of the user's pattern):
    the text of the first capture group when the expression matches. *)
Definition regexp := string -> option string.

(** [pattern.test(s)] *)
Definition test (p : regexp) (s : string) : bool :=
  match p s with Some _ => true | None => false end.

(** The options a site gives in [window.$docsify.frameworkSwitcher]. *)
Record userConfig := {
  user_storageKey : option string;
  user_frameworks : option (list string);
  user_defaultFramework : option string;
  user_frameworkNames : option (gmap string string);
  user_markerPattern : option regexp;
  user_labelPattern : option regexp;
  user_maxLinesToCheck : option nat
}.

Record config := {
  storageKey : string;
  frameworks : list string;
  defaultFramework : string;
  frameworkNames : gmap string string;
  markerPattern : option regexp;
  labelPattern : option regexp;
  maxLinesToCheck : nat
}.

(** The constant [CONFIG] of the script, with its defaults. *)
Definition mkConfig (u : userConfig) : config :=
  {| storageKey := JS.orElse (user_storageKey u) "docsify-fw";
     frameworks := default [] (user_frameworks u);
     defaultFramework := JS.orElse (user_defaultFramework u) "";
     frameworkNames := default ∅ (user_frameworkNames u);
     markerPattern := user_markerPattern u;
     labelPattern := user_labelPattern u;
     maxLinesToCheck :=
       match user_maxLinesToCheck u with
       | Some (S n) => S n
       | _ => 5
       end |}.

(** A [code] element: its text, its classes and the two dataset entries
    the script uses. *)
Record codeElement := {
  textContent : string;
  classList : list string;
  dataset_framework : option string;
  dataset_markerStripped : option string
}.

(** A [pre] element with its [code] child.  [pre_id] is the identity of the
    element: the script holds references to elements while it moves them. *)
Record preElement := {
  pre_id : nat;
  pre_classList : list string;
  pre_code : codeElement
}.

(** A button of a switcher. *)
Record button := {
  btn_textContent : string;
  btn_framework : string;          (* dataset.framework *)
  btn_pressed : string;            (* aria-pressed *)
  btn_label : string;              (* aria-label *)
  btn_display : string             (* style.display *)
}.

(** The children of a [div.fw-group]: the switcher, the label paragraphs
    and the [pre] elements moved into it. *)
Inductive groupChild :=
  | GSwitcher (buttons : list button)
  | GPara (text : string)
  | GPre (p : preElement).

(** The children of the element that holds the code blocks of a page, in
    sibling order: nodes that are not elements (text, comments), paragraphs
    (which hold text only, the HTML parser closes a [p] before a [pre]),
    [pre > code] blocks, groups built by the script, and any other
    element. *)
Inductive node :=
  | NText (data : string)
  | NPara (text : string)
  | NPre (p : preElement)
  | NGroup (children : list groupChild)
  | NOther (tagName : string).

(** [classList.add], [classList.remove], [classList.contains] *)
Definition classAdd (c : string) (l : list string) : list string :=
  if bool_decide (c ∈ l) then l else l ++ [c].

Definition classRemove (c : string) (l : list string) : list string :=
  filter (λ x, x ≠ c) l.

Definition classContains (c : string) (l : list string) : bool :=
  bool_decide (c ∈ l).

(** [array.includes(x)] *)
Definition includes (l : list string) (x : string) : bool :=
  bool_decide (x ∈ l).

Definition setFrameworkData (fw : option string) (c : codeElement) : codeElement :=
  {| textContent := textContent c; classList := classList c;
     dataset_framework := fw;
     dataset_markerStripped := dataset_markerStripped c |}.

Definition setMarkerStripped (m : option string) (c : codeElement) : codeElement :=
  {| textContent := textContent c; classList := classList c;
     dataset_framework := dataset_framework c;
     dataset_markerStripped := m |}.

Definition setTextContent (t : string) (c : codeElement) : codeElement :=
  {| textContent := t; classList := classList c;
     dataset_framework := dataset_framework c;
     dataset_markerStripped := dataset_markerStripped c |}.

Definition setCode (c : codeElement) (p : preElement) : preElement :=
  {| pre_id := pre_id p; pre_classList := pre_classList p; pre_code := c |}.

Definition setPreClasses (l : list string) (p : preElement) : preElement :=
  {| pre_id := pre_id p; pre_classList := l; pre_code := pre_code p |}.

(** [!line.trim()] *)
Definition isBlank (line : string) : bool := negb (JS.truthy (JS.trim line)).

(** The test that ends both line scans: the trimmed line starts with
    none of the three comment openers. *)
Definition isCommentLine (line : string) : bool :=
  JS.startsWith (JS.trim line) "//"
  || JS.startsWith (JS.trim line) "#"
  || JS.startsWith (JS.trim line) "<!--".

Section Switcher.

Variable CONFIG : config.

Definition normalizeFrameworkName (name : string) : string :=
  JS.removeWhiteSpace (JS.toLowerCase name).

(** The name a pattern finds in a string, when that name is configured:
    the shape shared by the marker test, the label test on a line and the
    label test on the paragraph in front of the block. *)
Definition configuredName (pat : option regexp) (s : string) : option string :=
  match pat with
  | Some p =>
      match p s with
      | Some captured =>
          let fw := normalizeFrameworkName captured in
          if includes (frameworks CONFIG) fw then Some fw else None
      | None => None
      end
  | None => None
  end.

(** The loop over the first lines in [detectFramework]: [n] lines are
    still to be looked at. *)
Fixpoint detectInLines (n : nat) (lines : list string) : option string :=
  match n, lines with
  | S n', line :: rest =>
      if isBlank line then detectInLines n' rest
      else
        match configuredName (markerPattern CONFIG) line with
        | Some fw => Some fw
        | None =>
            match configuredName (labelPattern CONFIG) line with
            | Some fw => Some fw
            | None =>
                if isCommentLine line then detectInLines n' rest else None
            end
        end
  | _, _ => None
  end.

(** The class-name fallback: the first configured framework that is one
    of the classes of the element. *)
Definition detectInClasses (classes : list string) : option string :=
  head (filter (λ fw, fw ∈ classes) (frameworks CONFIG)).

(** [detectFramework(codeElement)].  [prevParagraph] is the text of
    [codeElement.parentElement.previousElementSibling] when that element
    exists and is a [P].  The result is the returned value and the element
    with the dataset as the call leaves it.  [detectUncached] is the body
    after the check of the cache. *)
Definition detectUncached (prevParagraph : option string) (c : codeElement)
  : option string * codeElement :=
  let found :=
    match detectInLines (maxLinesToCheck CONFIG) (JS.splitLines (textContent c)) with
    | Some fw => Some fw
    | None =>
        match
          match prevParagraph with
          | Some text => configuredName (labelPattern CONFIG) (JS.trim text)
          | None => None
          end
        with
        | Some fw => Some fw
        | None => detectInClasses (classList c)
        end
    end in
  match found with
  | Some fw => (Some fw, setFrameworkData (Some fw) c)
  | None => (None, c)
  end.

Definition detectFramework (prevParagraph : option string) (c : codeElement)
  : option string * codeElement :=
  match dataset_framework c with
  | Some cached =>
      if JS.truthy cached then (Some cached, c)
      else detectUncached prevParagraph c
  | None => detectUncached prevParagraph c
  end.

(** The index of the line [stripMarkerLine] splices out, if any. *)
Fixpoint markerLineIndex (n i : nat) (lines : list string) : option nat :=
  match n, lines with
  | S n', line :: rest =>
      if isBlank line then markerLineIndex n' (S i) rest
      else if match markerPattern CONFIG with
              | Some p => test p line | None => false end
      then Some i
      else if match labelPattern CONFIG with
              | Some p => test p line | None => false end
      then Some i
      else if isCommentLine line then markerLineIndex n' (S i) rest
      else None
  | _, _ => None
  end.

(** [stripMarkerLine(codeElement)] *)
Definition stripMarkerLine (c : codeElement) : codeElement :=
  if bool_decide (dataset_markerStripped c = Some "true") then c
  else
    let lines := JS.splitLines (textContent c) in
    match markerLineIndex (maxLinesToCheck CONFIG) 0 lines with
    | Some i =>
        setMarkerStripped (Some "true")
          (setTextContent (JS.joinLines (delete i lines)) c)
    | None => setMarkerStripped (Some "true") c
    end.

(** [framework.charAt(0).toUpperCase() + framework.slice(1)]; the three
    Latin-1 letters whose capitals lie outside Latin-1 stay as they are. *)
Definition capitalize (s : string) : string :=
  match s with
  | String c r =>
      let n := nat_of_ascii c in
      String (if ((97 <=? n) && (n <=? 122))
                 || ((224 <=? n) && (n <=? 254) && negb (n =? 247))
              then ascii_of_nat (n - 32) else c) r
  | EmptyString => EmptyString
  end.

(** [formatFrameworkName(framework)] *)
Definition formatFrameworkName (framework : string) : string :=
  match frameworkNames CONFIG !! framework with
  | Some name => if JS.truthy name then name else capitalize framework
  | None => capitalize framework
  end.

(** A value that may be [null], used as a condition. *)
Definition isTruthy (o : option string) : bool :=
  match o with Some s => JS.truthy s | None => false end.

(** [codeBlock.dataset.framework || detectFramework(codeBlock)] *)
Definition frameworkOf (prevParagraph : option string) (c : codeElement)
  : option string * codeElement :=
  match dataset_framework c with
  | Some fw =>
      if JS.truthy fw then (Some fw, c) else detectFramework prevParagraph c
  | None => detectFramework prevParagraph c
  end.

(** The text of a child of a group when it is a paragraph: what
    [detectFramework] reads from the element in front of a [pre]. *)
Definition paragraphOfChild (k : option groupChild) : option string :=
  match k with
  | Some (GPara text) => Some text
  | _ => None
  end.

Definition isPreChild (k : groupChild) : bool :=
  match k with GPre _ => true | _ => false end.

(** [createSwitcher(onSelect, selectedFramework, availableFrameworks)];
    every button calls [setFramework] with its framework when clicked. *)
Definition createSwitcher (selectedFramework : string)
    (availableFrameworks : list string) : groupChild :=
  GSwitcher
    (map (λ framework,
            {| btn_textContent := formatFrameworkName framework;
               btn_framework := framework;
               btn_pressed :=
                 if bool_decide (framework = selectedFramework)
                 then "true" else "false";
               btn_label :=
                 "Switch to " +:+ formatFrameworkName framework +:+ " examples";
               btn_display := "" |})
         availableFrameworks).

(** The first loop of [updateGroupVisibility]: hide the blocks of the other
    frameworks, show the blocks of the current one.  [prev] is the child in
    front of the one looked at, [visible] is [visibleFramework]. *)
Fixpoint showCurrent (currentFramework : string) (prev : option groupChild)
    (kids : list groupChild) (visible : option string)
  : list groupChild * option string :=
  match kids with
  | [] => ([], visible)
  | k :: rest =>
      let '(k', visible') :=
        match k with
        | GPre p =>
            let '(framework, c) :=
              frameworkOf (paragraphOfChild prev) (pre_code p) in
            if isTruthy framework then
              if bool_decide (framework = Some currentFramework)
              then (GPre (setPreClasses
                            (classRemove "fw-hidden" (pre_classList p))
                            (setCode c p)),
                    framework)
              else (GPre (setPreClasses
                            (classAdd "fw-hidden" (pre_classList p))
                            (setCode c p)),
                    visible)
            else (GPre (setCode c p), visible)
        | _ => (k, visible)
        end in
      let '(rest', v) := showCurrent currentFramework (Some k') rest visible' in
      (k' :: rest', v)
  end.

(** The loop of [getAvailableFrameworks]: the frameworks of the blocks of a
    group, in the order of the blocks. *)
Fixpoint groupFrameworks (prev : option groupChild) (kids : list groupChild)
  : list groupChild * list string :=
  match kids with
  | [] => ([], [])
  | k :: rest =>
      let '(k', found) :=
        match k with
        | GPre p =>
            let '(framework, c) :=
              frameworkOf (paragraphOfChild prev) (pre_code p) in
            (GPre (setCode c p),
             match framework with
             | Some fw => if JS.truthy fw then [fw] else []
             | None => []
             end)
        | _ => (k, [])
        end in
      let '(rest', found') := groupFrameworks (Some k') rest in
      (k' :: rest', found ++ found')
  end.

(** [getAvailableFrameworks(groupElement)]: the configured frameworks that
    occur in the group, in the configured order. *)
Definition getAvailableFrameworks (kids : list groupChild)
  : list groupChild * list string :=
  let '(kids', found) := groupFrameworks None kids in
  (kids', filter (λ fw, fw ∈ found) (frameworks CONFIG)).

(** The second loop of [updateGroupVisibility]: show the blocks of
    [firstFramework]. *)
Fixpoint showFramework (firstFramework : string) (prev : option groupChild)
    (kids : list groupChild) : list groupChild :=
  match kids with
  | [] => []
  | k :: rest =>
      let k' :=
        match k with
        | GPre p =>
            let '(framework, c) :=
              frameworkOf (paragraphOfChild prev) (pre_code p) in
            if bool_decide (framework = Some firstFramework)
            then GPre (setPreClasses
                         (classRemove "fw-hidden" (pre_classList p))
                         (setCode c p))
            else GPre (setCode c p)
        | _ => k
        end in
      k' :: showFramework firstFramework (Some k') rest
  end.

(** [updateGroupVisibility(groupElement)], on the children of the group. *)
Definition updateGroupVisibility (currentFramework : string)
    (kids : list groupChild) : list groupChild :=
  let '(kids1, visibleFramework) := showCurrent currentFramework None kids None in
  if negb (isTruthy visibleFramework) && existsb isPreChild kids1 then
    let '(kids2, availableFrameworks) := getAvailableFrameworks kids1 in
    match availableFrameworks with
    | firstFramework :: _ => showFramework firstFramework None kids2
    | [] => kids2
    end
  else kids1.

(** [updateAllGroups()] *)
Definition updateAllGroups (currentFramework : string) (dom : list node)
  : list node :=
  map (λ n, match n with
            | NGroup kids => NGroup (updateGroupVisibility currentFramework kids)
            | _ => n
            end) dom.

(** The loop over the buttons in [updateAllSwitchers]. *)
Definition updateButton (currentFramework : string)
    (availableFrameworks : list string) (b : button) : button :=
  if includes availableFrameworks (btn_framework b)
  then {| btn_textContent := btn_textContent b;
          btn_framework := btn_framework b;
          btn_pressed :=
            if bool_decide (btn_framework b = currentFramework)
            then "true" else "false";
          btn_label := btn_label b;
          btn_display := "" |}
  else {| btn_textContent := btn_textContent b;
          btn_framework := btn_framework b;
          btn_pressed := btn_pressed b;
          btn_label := btn_label b;
          btn_display := "none" |}.

(** [firstButton.setAttribute("aria-pressed", "true")] on the first button
    of the framework. *)
Fixpoint pressFirst (framework : string) (bs : list button) : list button :=
  match bs with
  | [] => []
  | b :: rest =>
      if bool_decide (btn_framework b = framework)
      then {| btn_textContent := btn_textContent b;
              btn_framework := btn_framework b;
              btn_pressed := "true";
              btn_label := btn_label b;
              btn_display := btn_display b |} :: rest
      else b :: pressFirst framework rest
  end.

(** The body of the loop of [updateAllSwitchers] for the buttons of the
    switcher of a group. *)
Definition updateSwitcherButtons (currentFramework : string)
    (availableFrameworks : list string) (bs : list button) : list button :=
  let bs1 := map (updateButton currentFramework availableFrameworks) bs in
  match availableFrameworks with
  | firstFramework :: _ =>
      if negb (includes availableFrameworks currentFramework)
      then pressFirst firstFramework bs1 else bs1
  | [] => bs1
  end.

(** Apply [f] to the first switcher among the children of a group:
    [groupElement.querySelector(".fw-switcher")]. *)
Fixpoint onFirstSwitcher (f : list button -> list button)
    (kids : list groupChild) : list groupChild :=
  match kids with
  | [] => []
  | GSwitcher bs :: rest => GSwitcher (f bs) :: rest
  | k :: rest => k :: onFirstSwitcher f rest
  end.

Definition hasSwitcher (kids : list groupChild) : bool :=
  existsb (λ k, match k with GSwitcher _ => true | _ => false end) kids.

(** [updateAllSwitchers()] *)
Definition updateAllSwitchers (currentFramework : string) (dom : list node)
  : list node :=
  map (λ n, match n with
            | NGroup kids =>
                if hasSwitcher kids then
                  let '(kids', availableFrameworks) := getAvailableFrameworks kids in
                  NGroup (onFirstSwitcher
                            (updateSwitcherButtons currentFramework availableFrameworks)
                            kids')
                else n
            | _ => n
            end) dom.

(** *** Grouping the blocks of a page *)

Definition isElement (n : node) : bool :=
  match n with NText _ => false | _ => true end.

(** [pre.previousElementSibling], from the siblings in front of the [pre]. *)
Definition previousElementSibling (front : list node) : option node :=
  last (filter (λ n, isElement n = true) front).

Definition paragraphOfNode (n : option node) : option string :=
  match n with
  | Some (NPara text) => Some text
  | _ => None
  end.

(** Following a reference to a [pre] element: the siblings in front of it,
    the element, the siblings behind it. *)
Fixpoint splitAtPre (id : nat) (dom : list node)
  : option (list node * preElement * list node) :=
  match dom with
  | [] => None
  | n :: rest =>
      if match n with
         | NPre p => bool_decide (pre_id p = id)
         | _ => false
         end
      then match n with
           | NPre p => Some ([], p, rest)
           | _ => None
           end
      else match splitAtPre id rest with
           | Some (front, p, back) => Some (n :: front, p, back)
           | None => None
           end
  end.

(** [labelPattern.test(text.trim())] with no pattern configured giving
    [false]: the test of a "framework label" paragraph. *)
Definition isLabelText (text : string) : bool :=
  match labelPattern CONFIG with
  | Some p => test p (JS.trim text)
  | None => false
  end.

(** The loop of [isAdjacentBlock] over the siblings behind the last block
    of the batch: [true] when it arrives at [currentPre]. *)
Fixpoint walkToBlock (currentPre : nat) (siblings : list node) : bool :=
  match siblings with
  | [] => false
  | NPre p :: rest => bool_decide (pre_id p = currentPre)
  | NText _ :: rest => walkToBlock currentPre rest
  | NPara text :: rest =>
      if isBlank text then walkToBlock currentPre rest
      else if isLabelText text then walkToBlock currentPre rest
      else false
  | NGroup _ :: _ => false
  | NOther _ :: _ => false
  end.

(** [isAdjacentBlock(batch, codeBlock)].  All blocks of [dom] have the same
    parent, so the comparison of the parents is not [false] here. *)
Definition isAdjacentBlock (dom : list node) (batch : list nat)
    (codeBlock : nat) : bool :=
  match last batch with
  | None => false
  | Some lastBlock =>
      match splitAtPre lastBlock dom with
      | Some (_, _, behind) => walkToBlock codeBlock behind
      | None => false
      end
  end.

(** The loop of [createGroupFromBatch] that collects [elementsToMove],
    from the first [pre] of the batch up to the last one: the elements to
    move, and the siblings that stay where they are (with all that follows
    the last [pre]). *)
Fixpoint collectElementsToMove (batch : list nat) (lastPre : nat)
    (siblings : list node) : list groupChild * list node :=
  match siblings with
  | [] => ([], [])
  | current :: next =>
      let '(moved, kept) :=
        if match current with
           | NPre p => bool_decide (pre_id p = lastPre)
           | _ => false
           end
        then ([], next)
        else collectElementsToMove batch lastPre next in
      match current with
      | NPara text =>
          if isLabelText text then (GPara text :: moved, kept)
          else (moved, current :: kept)
      | NPre p =>
          if bool_decide (pre_id p ∈ batch) then (GPre p :: moved, kept)
          else (moved, current :: kept)
      | _ => (moved, current :: kept)
      end
  end.

(** The loop "set initial visibility" of [createGroupFromBatch]. *)
Fixpoint hideOthers (selectedFramework : string) (prev : option groupChild)
    (kids : list groupChild) : list groupChild :=
  match kids with
  | [] => []
  | k :: rest =>
      let k' :=
        match k with
        | GPre p =>
            let '(framework, c) :=
              frameworkOf (paragraphOfChild prev) (pre_code p) in
            if isTruthy framework
               && negb (bool_decide (framework = Some selectedFramework))
            then GPre (setPreClasses
                         (classAdd "fw-hidden" (pre_classList p))
                         (setCode c p))
            else GPre (setCode c p)
        | _ => k
        end in
      k' :: hideOthers selectedFramework (Some k') rest
  end.

(** The variables of [processPage] that its loop changes. *)
Record pageState := {
  dom : list node;
  currentBatch : list nat;
  batchFrameworks : gset string
}.

(** "Determine which framework to show initially" *)
Definition selectFramework (currentFramework : string)
    (availableFrameworks : list string) : string :=
  match availableFrameworks with
  | first :: _ =>
      if includes availableFrameworks currentFramework
      then currentFramework else first
  | [] => currentFramework
  end.

(** [createGroupFromBatch()] *)
Definition createGroupFromBatch (currentFramework : string) (st : pageState)
  : pageState :=
  match currentBatch st with
  | firstBlock :: _ :: _ =>
      match last (currentBatch st), splitAtPre firstBlock (dom st) with
      | Some lastBlock, Some (front, firstPre, behind) =>
          let availableFrameworks :=
            filter (λ fw, fw ∈ batchFrameworks st) (frameworks CONFIG) in
          let selectedFramework :=
            selectFramework currentFramework availableFrameworks in
          let switcher := createSwitcher selectedFramework availableFrameworks in
          let '(elementsToMove, kept) :=
            collectElementsToMove (currentBatch st) lastBlock
              (NPre firstPre :: behind) in
          {| dom := front
                    ++ NGroup (hideOthers selectedFramework None
                                 (switcher :: elementsToMove))
                    :: kept;
             currentBatch := [];
             batchFrameworks := ∅ |}
      | _, _ =>
          {| dom := dom st; currentBatch := []; batchFrameworks := ∅ |}
      end
  | _ => {| dom := dom st; currentBatch := []; batchFrameworks := ∅ |}
  end.

(** The body of the loop "process all code blocks" for the block
    [codeBlock]. *)
Definition processBlock (currentFramework : string) (st : pageState)
    (codeBlock : nat) : pageState :=
  match splitAtPre codeBlock (dom st) with
  | None => st
  | Some (front, pre, behind) =>
      let '(framework, c) :=
        detectFramework (paragraphOfNode (previousElementSibling front))
          (pre_code pre) in
      match framework with
      | Some fw =>
          if JS.truthy fw then
            let stripped :=
              front ++ NPre (setCode (stripMarkerLine c) pre) :: behind in
            if match currentBatch st with [] => true | _ => false end
               || isAdjacentBlock stripped (currentBatch st) codeBlock
            then {| dom := stripped;
                    currentBatch := currentBatch st ++ [codeBlock];
                    batchFrameworks := {[fw]} ∪ batchFrameworks st |}
            else
              let st' :=
                createGroupFromBatch currentFramework
                  {| dom := stripped;
                     currentBatch := currentBatch st;
                     batchFrameworks := batchFrameworks st |} in
              {| dom := dom st';
                 currentBatch := [codeBlock];
                 batchFrameworks := {[fw]} |}
          else
            createGroupFromBatch currentFramework
              {| dom := front ++ NPre (setCode c pre) :: behind;
                 currentBatch := currentBatch st;
                 batchFrameworks := batchFrameworks st |}
      | None =>
          createGroupFromBatch currentFramework
            {| dom := front ++ NPre (setCode c pre) :: behind;
               currentBatch := currentBatch st;
               batchFrameworks := batchFrameworks st |}
      end
  end.

(** "Clear any existing processing": the dataset entries of the blocks of
    the groups that exist already are deleted. *)
Definition clearProcessing (k : groupChild) : groupChild :=
  match k with
  | GPre p =>
      GPre (setCode (setMarkerStripped None
                       (setFrameworkData None (pre_code p))) p)
  | _ => k
  end.

Definition clearExistingGroups (nodes : list node) : list node :=
  map (λ n, match n with
            | NGroup kids => NGroup (map clearProcessing kids)
            | _ => n
            end) nodes.

(** The code blocks outside of every group, in document order. *)
Definition allCodeBlocks (nodes : list node) : list nat :=
  omap (λ n, match n with NPre p => Some (pre_id p) | _ => None end) nodes.

(** [processPage()] *)
Definition processPage (currentFramework : string) (nodes : list node)
  : list node :=
  let cleared := clearExistingGroups nodes in
  dom (createGroupFromBatch currentFramework
         (foldl (processBlock currentFramework)
            {| dom := cleared; currentBatch := []; batchFrameworks := ∅ |}
            (allCodeBlocks cleared))).

(** The state of the script on a page: the variable [currentFramework],
    the local storage of the browser and the children of the element that
    holds the code blocks. *)
Record state := {
  currentFramework : string;
  localStorage : gmap string string;
  document : list node
}.

(** [setFramework(framework)] *)
Definition setFramework (framework : string) (st : state) : state :=
  if bool_decide (currentFramework st = framework) then st
  else
    {| currentFramework := framework;
       localStorage := <[storageKey CONFIG := framework]> (localStorage st);
       document := updateAllSwitchers framework
                     (updateAllGroups framework (document st)) |}.

(** The initial value of [currentFramework], read when the script loads. *)
Definition load (storage : gmap string string) (dom : list node) : state :=
  {| currentFramework :=
       JS.orElse (storage !! storageKey CONFIG) (defaultFramework CONFIG);
     localStorage := storage;
     document := dom |}.

(** The callback of [hook.init] *)
Definition init (st : state) : state :=
  if includes (frameworks CONFIG) (currentFramework st) then st
  else
    {| currentFramework := defaultFramework CONFIG;
       localStorage :=
         <[storageKey CONFIG := defaultFramework CONFIG]> (localStorage st);
       document := document st |}.

(** The callback of [hook.doneEach], once the animation frame runs it *)
Definition doneEach (st : state) : state :=
  {| currentFramework := currentFramework st;
     localStorage := localStorage st;
     document := processPage (currentFramework st) (document st) |}.

(** What makes the script run once it is loaded: Docsify calls the two
    hooks, the reader clicks a button of a switcher. *)
Inductive event :=
  | Init
  | DoneEach
  | Click (framework : string).

Definition handle (ev : event) (st : state) : state :=
  match ev with
  | Init => init st
  | DoneEach => doneEach st
  | Click framework => setFramework framework st
  end.

End Switcher.

End FrameworkSwitcher.

(* ===================================================================== *)
(** ** The "on this page" sidebar *)
(* ===================================================================== *)

Module OnThisPage.

(** The headings the script selects: [.content h1] ... [.content h6]. *)
Inductive headingTag := H1 | H2 | H3 | H4 | H5 | H6.

(** [parseInt(heading.tagName.charAt(1))] *)
Definition levelOf (t : headingTag) : nat :=
  match t with
  | H1 => 1 | H2 => 2 | H3 => 3 | H4 => 4 | H5 => 5 | H6 => 6
  end.

(** The elements of the document that the script can reach through a
    heading selector or through [getElementById], in document order.
    [el_heading] is the tag of a heading inside [.content]; [el_top] is
    [getBoundingClientRect().top]. *)
Record element := {
  el_heading : option headingTag;
  el_id : string;
  el_textContent : string;
  el_top : Q
}.

(** The elements of the sidebar, kept in a store: an element is named by
    its index, [document.createElement] adds an entry at the end. *)
Inductive tocTag := UL | LI | A.

Record tocElement := {
  toc_tag : tocTag;
  toc_children : list nat;
  toc_href : string;
  toc_textContent : string;
  toc_headingId : option string;     (* data-heading-id *)
  toc_active : bool                  (* class "active" *)
}.

Definition newElement (tag : tocTag) : tocElement :=
  {| toc_tag := tag; toc_children := []; toc_href := "";
     toc_textContent := ""; toc_headingId := None; toc_active := false |}.

Definition createElement (e : tocElement) (store : list tocElement)
  : nat * list tocElement :=
  (length store, store ++ [e]).

Definition addChild (child : nat) (e : tocElement) : tocElement :=
  {| toc_tag := toc_tag e; toc_children := toc_children e ++ [child];
     toc_href := toc_href e; toc_textContent := toc_textContent e;
     toc_headingId := toc_headingId e; toc_active := toc_active e |}.

(** [parent.appendChild(child)] for a child that has no parent yet. *)
Definition appendChild (parent child : nat) (store : list tocElement)
  : list tocElement :=
  alter (addChild child) parent store.

(** [list.lastElementChild] *)
Definition lastElementChild (ul : nat) (store : list tocElement) : option nat :=
  match store !! ul with
  | Some e => last (toc_children e)
  | None => None
  end.

(** The local variables of the loop over the headings in
    [createOnThisPageSidebar].  The top of [listStack] is its head. *)
Record builder := {
  tocStore : list tocElement;
  currentLevel : nat;
  currentList : nat;
  listStack : list nat
}.

(** The id made from the text of a heading that has none. *)
Definition slugify (text : string) : string :=
  JS.trim
    (JS.collapseHyphens
       (JS.replaceRuns JS.isWhiteSpace false
          (JS.filterChars
             (λ c, JS.isWordChar c || JS.isWhiteSpace c || JS.isHyphen c)
             (JS.toLowerCase text)))).

(** "Going deeper": [n] rounds of the loop that creates a nested list. *)
Fixpoint nestLists (n : nat) (b : builder) : builder :=
  match n with
  | O => b
  | S n' =>
      let '(nestedList, store1) := createElement (newElement UL) (tocStore b) in
      let store2 :=
        match lastElementChild (currentList b) store1 with
        | Some lastLi => appendChild lastLi nestedList store1
        | None => appendChild (currentList b) nestedList store1
        end in
      nestLists n'
        {| tocStore := store2; currentLevel := currentLevel b;
           currentList := nestedList;
           listStack := nestedList :: listStack b |}
  end.

(** "Going back up": at most [n] pops, the bottom of the stack stays. *)
Fixpoint popLists (n : nat) (stack : list nat) : list nat :=
  match n, stack with
  | S n', _ :: (_ :: _) as rest => popLists n' rest
  | _, _ => stack
  end.

(** The path the links of the sidebar point to: the stored route, then
    the hash of the location, then [README]. *)
Definition currentPath (currentRoute hash : string) : string :=
  let path1 :=
    if JS.startsWith currentRoute "/" then JS.substring 1 currentRoute
    else currentRoute in
  let path2 :=
    if JS.truthy path1 then path1
    else JS.beforeFirst "?" (JS.removeFirst "#/" hash) in
  if JS.truthy path2 then path2 else "README".

(** The id a heading has after the loop looked at it. *)
Definition headingId (e : element) : string :=
  if JS.truthy (el_id e) then el_id e
  else slugify (JS.trim (el_textContent e)).

Definition setId (id : string) (e : element) : element :=
  {| el_heading := el_heading e; el_id := id;
     el_textContent := el_textContent e; el_top := el_top e |}.

(** "Adjust nesting level" *)
Definition adjustNesting (level : nat) (b : builder) : builder :=
  if currentLevel b <? level then
    nestLists (level - 1 - currentLevel b) b
  else if level <? currentLevel b then
    let stack := popLists (currentLevel b - level + 1) (listStack b) in
    {| tocStore := tocStore b; currentLevel := currentLevel b;
       currentList := default (currentList b) (head stack);
       listStack := stack |}
  else b.

(** The body of [headings.forEach] for a heading of tag [tag]: the
    builder and the heading as the callback leaves them. *)
Definition addHeading (currentRoute hash : string) (b : builder)
    (tag : headingTag) (heading : element) : builder * element :=
  let level := levelOf tag in
  let text := JS.trim (el_textContent heading) in
  if level =? 1 then (b, heading)
  else
    let id := headingId heading in
    let b1 := adjustNesting level b in
    let '(li, store1) := createElement (newElement LI) (tocStore b1) in
    let '(link, store2) :=
      createElement
        {| toc_tag := A; toc_children := [];
           toc_href := "#/" +:+ currentPath currentRoute hash +:+ "?id=" +:+ id;
           toc_textContent := text;
           toc_headingId := Some id;
           toc_active := false |} store1 in
    ({| tocStore := appendChild (currentList b1) li (appendChild li link store2);
        currentLevel := level;
        currentList := currentList b1;
        listStack := listStack b1 |},
     setId id heading).

(** [headings.forEach(...)] over the elements of the document: the
    elements that are no headings of the content are passed by. *)
Fixpoint addHeadings (currentRoute hash : string) (b : builder)
    (elements : list element) : builder * list element :=
  match elements with
  | [] => (b, [])
  | e :: rest =>
      let '(b1, e1) :=
        match el_heading e with
        | Some tag => addHeading currentRoute hash b tag e
        | None => (b, e)
        end in
      let '(b2, rest') := addHeadings currentRoute hash b1 rest in
      (b2, e1 :: rest')
  end.

(** The builder at the start of the loop: the store holds [nav]. *)
Definition newBuilder : builder :=
  {| tocStore := [newElement UL]; currentLevel := 0; currentList := 0;
     listStack := [0] |}.

(** The [div.on-this-page]: its title, the store of the elements under
    [nav] (which is element 0) and the address of the "view as markdown"
    link. *)
Record sidebar := {
  sb_title : string;
  sb_store : list tocElement;
  sb_markdown : string
}.

(** The elements under [root] in document order, [fuel] levels deep. *)
Fixpoint descendants (fuel : nat) (store : list tocElement) (root : nat)
  : list nat :=
  match fuel with
  | O => []
  | S fuel' =>
      match store !! root with
      | Some e =>
          root :: flat_map (descendants fuel' store) (toc_children e)
      | None => []
      end
  end.

Definition isLink (store : list tocElement) (i : nat) : bool :=
  match store !! i with
  | Some e =>
      match toc_tag e, toc_headingId e with
      | A, Some _ => true
      | _, _ => false
      end
  | None => false
  end.

(** [querySelectorAll(".on-this-page a[data-heading-id]")] *)
Definition sidebarLinks (sb : sidebar) : list nat :=
  filter (λ i, isLink (sb_store sb) i = true)
    (descendants (length (sb_store sb)) (sb_store sb) 0).

(** The nesting of the links: every link of the sidebar with its text and
    the number of lists between it and [nav]. *)
Fixpoint linkDepths (fuel : nat) (store : list tocElement) (depth : nat)
    (root : nat) : list (string * nat) :=
  match fuel with
  | O => []
  | S fuel' =>
      match store !! root with
      | Some e =>
          match toc_tag e with
          | A => [(toc_textContent e, depth)]
          | LI => flat_map (linkDepths fuel' store depth) (toc_children e)
          | UL => flat_map (linkDepths fuel' store (S depth)) (toc_children e)
          end
      | None => []
      end
  end.

(** The depth of the links below the top-level list [nav]: the children of
    [nav] are at depth 0. *)
Definition navLinkDepths (store : list tocElement) : list (string * nat) :=
  match store !! 0 with
  | Some nav => flat_map (linkDepths (length store) store 0) (toc_children nav)
  | None => []
  end.

(** [s.endsWith(p)] *)
Definition endsWith (s p : string) : bool :=
  JS.startsWith (JS.rev s) (JS.rev p).

(** The part of [window.location] the script reads: the path of the URL
    in front of the hash, and the hash. *)
Record location := {
  pathname : string;
  hash : string
}.

(** What [setupScrollSpy] keeps for its scroll handler: the links of the
    sidebar and the headings they resolve to (indices of elements). *)
Record spy := {
  spy_links : list nat;
  spy_headings : list nat
}.

Section Page.

(** The content of the [.sidebar-nav] of Docsify's left sidebar, and what
    [removeNestedFromLeftSidebar] makes of it once both of its guards have
    passed (the removal of the [?id=] links, of the lists and items left
    empty, and the restoring of the active item).  No property below
    depends on what that rewriting does, so it is a parameter. *)
Variable sidebarNav : Type.
Variable rewriteSidebarNav : sidebarNav -> sidebarNav.

(** The page as the script sees it.  [onThisPage] is the element of class
    [on-this-page] (the script removes the one it finds before it adds
    one, so there is at most one); [leftSidebar] is [aside.sidebar], with
    its [.sidebar-nav] when it has one; [pendingTimeouts] counts the
    callbacks of [updateLeftSidebarActiveState] handed to [setTimeout];
    [currentRoute] is the variable of the script. *)
Record document := {
  onThisPage : option sidebar;
  elements : list element;
  leftSidebar : option (option sidebarNav);
  scrollListeners : list spy;
  pendingTimeouts : nat;
  windowLocation : location;
  currentRoute : string
}.

Definition setOnThisPage (sb : option sidebar) (d : document) : document :=
  {| onThisPage := sb; elements := elements d;
     leftSidebar := leftSidebar d; scrollListeners := scrollListeners d;
     pendingTimeouts := pendingTimeouts d;
     windowLocation := windowLocation d; currentRoute := currentRoute d |}.

Definition setElements (els : list element) (d : document) : document :=
  {| onThisPage := onThisPage d; elements := els;
     leftSidebar := leftSidebar d; scrollListeners := scrollListeners d;
     pendingTimeouts := pendingTimeouts d;
     windowLocation := windowLocation d; currentRoute := currentRoute d |}.

(** [removeNestedFromLeftSidebar()] *)
Definition removeNestedFromLeftSidebar (d : document) : document :=
  match leftSidebar d with
  | None => d
  | Some None => d
  | Some (Some nav) =>
      {| onThisPage := onThisPage d; elements := elements d;
         leftSidebar := Some (Some (rewriteSidebarNav nav));
         scrollListeners := scrollListeners d;
         pendingTimeouts := pendingTimeouts d;
         windowLocation := windowLocation d; currentRoute := currentRoute d |}
  end.

(** [updateLeftSidebarActiveState()]: all it does at once is to hand its
    callback to [setTimeout]. *)
Definition updateLeftSidebarActiveState (d : document) : document :=
  {| onThisPage := onThisPage d; elements := elements d;
     leftSidebar := leftSidebar d; scrollListeners := scrollListeners d;
     pendingTimeouts := S (pendingTimeouts d);
     windowLocation := windowLocation d; currentRoute := currentRoute d |}.

(** [window.addEventListener("scroll", handleScroll)] *)
Definition addScrollListener (s : spy) (d : document) : document :=
  {| onThisPage := onThisPage d; elements := elements d;
     leftSidebar := leftSidebar d; scrollListeners := s :: scrollListeners d;
     pendingTimeouts := pendingTimeouts d;
     windowLocation := windowLocation d; currentRoute := currentRoute d |}.

(** [createViewAsMarkdownLink()]: the address of the link. *)
Definition createViewAsMarkdownLink (d : document) : string :=
  let pathPrefix :=
    if endsWith (pathname (windowLocation d)) "/"
    then pathname (windowLocation d)
    else pathname (windowLocation d) +:+ "/" in
  let path1 :=
    if JS.startsWith (currentRoute d) "/" then JS.substring 1 (currentRoute d)
    else currentRoute d in
  let path2 :=
    if negb (JS.truthy path1) || bool_decide (path1 = "README")
    then "README.md"
    else if negb (endsWith path1 ".md") then path1 +:+ ".md"
    else path1 in
  pathPrefix +:+ path2.

(** [document.getElementById(id)]: the first element with that id. *)
Definition getElementById (id : string) (els : list element) : option nat :=
  if JS.truthy id then fst <$> list_find (λ e, el_id e = id) els else None.

Definition setActive (a : bool) (e : tocElement) : tocElement :=
  {| toc_tag := toc_tag e; toc_children := toc_children e;
     toc_href := toc_href e; toc_textContent := toc_textContent e;
     toc_headingId := toc_headingId e; toc_active := a |}.

Definition setStore (st : list tocElement) (sb : sidebar) : sidebar :=
  {| sb_title := sb_title sb; sb_store := st; sb_markdown := sb_markdown sb |}.

(** [rect.top <= 100] for the heading at index [i]. *)
Definition aboveFold (els : list element) (i : nat) : bool :=
  match els !! i with
  | Some e => Qle_bool (el_top e) 100
  | None => false
  end.

(** "Find the current heading": the last heading that is above the fold,
    the first heading when there is none. *)
Definition activeHeading (els : list element) (headings : list nat)
  : option nat :=
  match last (filter (λ i, aboveFold els i = true) headings) with
  | Some h => Some h
  | None => head headings
  end.

(** [document.querySelector('.on-this-page a[data-heading-id="..."]')]:
    the first link whose attribute is the id.  The script writes the id
    between the quotes of the selector as it is, so this is what the
    selector means for an id without a double quote, a backslash, a line
    break or a NUL, as the ids made by [slugify] and by Docsify are.  What
    the browser makes of the selector for another id (another selector,
    or an error) is not part of the embedding; the property of the link
    found assumes such ids away. *)
Definition findLink (id : string) (sb : sidebar) : option nat :=
  head (filter (λ i, (sb_store sb !! i) ≫= toc_headingId = Some id)
          (sidebarLinks sb)).

(** [updateActiveLink()], the function [setupScrollSpy] defines, for the
    links and the headings it holds.  The sidebar of the document is the
    one the links belong to. *)
Definition updateActiveLink (s : spy) (d : document) : document :=
  match onThisPage d with
  | None => updateLeftSidebarActiveState d
  | Some sb =>
      let cleared :=
        setStore (foldr (alter (setActive false)) (sb_store sb) (spy_links s)) sb in
      let marked :=
        match activeHeading (elements d) (spy_headings s) with
        | Some h =>
            match elements d !! h with
            | Some heading =>
                match findLink (el_id heading) cleared with
                | Some activeLink =>
                    setStore (alter (setActive true) activeLink (sb_store cleared))
                      cleared
                | None => cleared
                end
            | None => cleared
            end
        | None => cleared
        end in
      updateLeftSidebarActiveState (setOnThisPage (Some marked) d)
  end.

(** The links and headings [setupScrollSpy] collects. *)
Definition collectSpy (d : document) : spy :=
  match onThisPage d with
  | Some sb =>
      let links := sidebarLinks sb in
      {| spy_links := links;
         spy_headings :=
           omap (M := list)
             (λ link,
                match (sb_store sb !! link) ≫= toc_headingId with
                | Some id => getElementById id (elements d)
                | None => None
                end)
             links |}
  | None => {| spy_links := []; spy_headings := [] |}
  end.

(** [setupScrollSpy()] *)
Definition setupScrollSpy (d : document) : document :=
  let s := collectSpy d in
  match spy_headings s with
  | [] => d
  | _ :: _ => updateActiveLink s (addScrollListener s d)
  end.

Definition isHeading (e : element) : bool :=
  match el_heading e with Some _ => true | None => false end.

(** [createOnThisPageSidebar()] *)
Definition createOnThisPageSidebar (d : document) : document :=
  let d1 := setOnThisPage None d in
  if negb (existsb isHeading (elements d1)) then d1
  else
    let d2 := updateLeftSidebarActiveState (removeNestedFromLeftSidebar d1) in
    let '(b, els) :=
      addHeadings (currentRoute d2) (hash (windowLocation d2)) newBuilder
        (elements d2) in
    let sb :=
      {| sb_title := "ON THIS PAGE";
         sb_store := tocStore b;
         sb_markdown := createViewAsMarkdownLink d2 |} in
    setupScrollSpy (setOnThisPage (Some sb) (setElements els d2)).

(** The page after the reader scrolled: the headings have new positions. *)
Definition setTop (e : element) (top : Q) : element :=
  {| el_heading := el_heading e; el_id := el_id e;
     el_textContent := el_textContent e; el_top := top |}.

Definition scrolled (tops : nat -> Q) (d : document) : document :=
  setElements (imap (λ i e, setTop e (tops i)) (elements d)) d.

End Page.

End OnThisPage.

(* ===================================================================== *)
(** ** Sample data: a configuration and some pages *)
(* ===================================================================== *)

Module Samples.

Import FrameworkSwitcher.

(** The longest prefix of word characters. *)
Fixpoint takeWord (s : string) : string :=
  match s with
  | String c r => if JS.isWordChar c then String c (takeWord r) else EmptyString
  | EmptyString => EmptyString
  end.

(** The expression [/framework: (\w+)/]: the first place where the text
    [framework: ] is followed by a word. *)
Fixpoint markerRegExp (s : string) : option string :=
  if JS.startsWith s "framework: "
     && JS.truthy (takeWord (JS.substring 11 s))
  then Some (takeWord (JS.substring 11 s))
  else match s with
       | String _ r => markerRegExp r
       | EmptyString => None
       end.

(** The expression [/^(\w+):$/], for paragraphs such as [Hono:]. *)
Definition labelRegExp (s : string) : option string :=
  if JS.truthy (takeWord s)
     && bool_decide (JS.substring (String.length (takeWord s)) s = ":")
  then Some (takeWord s) else None.

Definition sampleConfig : config :=
  {| storageKey := "docsify-fw";
     frameworks := ["hono"; "express"; "koa"];
     defaultFramework := "hono";
     frameworkNames := ∅;
     markerPattern := Some markerRegExp;
     labelPattern := Some labelRegExp;
     maxLinesToCheck := 5 |}.

Definition LF : string := String "010"%char EmptyString.

Definition code (text : string) : codeElement :=
  {| textContent := text; classList := ["lang-js"];
     dataset_framework := None; dataset_markerStripped := None |}.

Definition block (id : nat) (text : string) : node :=
  NPre {| pre_id := id; pre_classList := []; pre_code := code text |}.

(** A code element that carries a [data-framework] attribute of its own. *)
Definition foreignCode : codeElement :=
  {| textContent := "// framework: hono"; classList := [];
     dataset_framework := Some "vue"; dataset_markerStripped := None |}.

(** Two examples one after the other, for Hono and for Express. *)
Definition honoExpressPage : list node :=
  [ NPara "Create the app:";
    block 1 ("// framework: hono" +:+ LF +:+ "const app = new Hono()");
    NText LF;
    block 2 ("// framework: express" +:+ LF +:+ "const app = express()");
    NPara "Then start it." ].

(** The same configuration without a label pattern. *)
Definition markerOnlyConfig : config :=
  {| storageKey := "docsify-fw";
     frameworks := ["hono"; "express"; "koa"];
     defaultFramework := "hono";
     frameworkNames := ∅;
     markerPattern := Some markerRegExp;
     labelPattern := None;
     maxLinesToCheck := 5 |}.

(** A block whose annotation stands in a comment of another kind. *)
Definition starCommentCode : codeElement :=
  code ("/* framework: hono */" +:+ LF +:+ "const app = new Hono()").

(** The children of a group with an example for Hono and one for
    Express, both hidden. *)
Definition hiddenGroup : list groupChild :=
  [ GSwitcher [];
    GPre {| pre_id := 1; pre_classList := ["fw-hidden"];
            pre_code := code "// framework: hono" |};
    GPre {| pre_id := 2; pre_classList := ["fw-hidden"];
            pre_code :=
              {| textContent := "const app = express()"; classList := [];
                 dataset_framework := Some "express";
                 dataset_markerStripped := Some "true" |} |} ].

(** The children of a group whose two blocks carry a [data-framework]
    that is not configured. *)
Definition foreignGroup : list groupChild :=
  [ GSwitcher [];
    GPre {| pre_id := 1; pre_classList := []; pre_code := foreignCode |};
    GPre {| pre_id := 2; pre_classList := [];
            pre_code :=
              {| textContent := "createApp(App)"; classList := [];
                 dataset_framework := Some "vue";
                 dataset_markerStripped := Some "true" |} |} ].

(** Headings of a page, not yet looked at by the sidebar script. *)
Definition heading (tag : OnThisPage.headingTag) (text : string)
  : OnThisPage.element :=
  {| OnThisPage.el_heading := Some tag; OnThisPage.el_id := "";
     OnThisPage.el_textContent := text; OnThisPage.el_top := 0 |}.

(** A page with a section and a subsection, and one with a second
    section behind them. *)
Definition sectionAndSubsection : list OnThisPage.element :=
  [heading OnThisPage.H2 "Guide"; heading OnThisPage.H3 "Details"].

Definition twoSections : list OnThisPage.element :=
  [heading OnThisPage.H2 "Guide"; heading OnThisPage.H3 "Details";
   heading OnThisPage.H2 "Reference"].

(** A sidebar left over from the page shown before. *)
Definition staleSidebar : OnThisPage.sidebar :=
  {| OnThisPage.sb_title := "ON THIS PAGE";
     OnThisPage.sb_store := [OnThisPage.newElement OnThisPage.UL];
     OnThisPage.sb_markdown := "/docs/README.md" |}.

(** A page without headings that still shows that sidebar; its left
    sidebar is of no interest here. *)
Definition pageWithoutHeadings : OnThisPage.document unit :=
  {| OnThisPage.onThisPage := Some staleSidebar;
     OnThisPage.elements := [];
     OnThisPage.leftSidebar := None;
     OnThisPage.scrollListeners := [];
     OnThisPage.pendingTimeouts := 0;
     OnThisPage.windowLocation :=
       {| OnThisPage.pathname := "/docs/"; OnThisPage.hash := "#/routing" |};
     OnThisPage.currentRoute := "/routing" |}.

(** A page with two sections, the second one 640 pixels down. *)
Definition pageWithSections : OnThisPage.document unit :=
  {| OnThisPage.onThisPage := None;
     OnThisPage.elements :=
       [ {| OnThisPage.el_heading := Some OnThisPage.H1;
            OnThisPage.el_id := "routing";
            OnThisPage.el_textContent := "Routing";
            OnThisPage.el_top := 20 |};
         {| OnThisPage.el_heading := Some OnThisPage.H2;
            OnThisPage.el_id := "";
            OnThisPage.el_textContent := "Defining routes";
            OnThisPage.el_top := 80 |};
         {| OnThisPage.el_heading := Some OnThisPage.H2;
            OnThisPage.el_id := "";
            OnThisPage.el_textContent := "Shorthand routes";
            OnThisPage.el_top := 640 |} ];
     OnThisPage.leftSidebar := None;
     OnThisPage.scrollListeners := [];
     OnThisPage.pendingTimeouts := 0;
     OnThisPage.windowLocation :=
       {| OnThisPage.pathname := "/docs/"; OnThisPage.hash := "#/routing" |};
     OnThisPage.currentRoute := "/routing" |}.

(** The reader has scrolled down to the second section. *)
Definition atSecondSection (i : nat) : Q :=
  match i with
  | 0 => (-1180)%Q
  | 1 => (-560)%Q
  | _ => 60%Q
  end.

End Samples.

(* ===================================================================== *)
(** ** Properties of the framework switcher *)
(* ===================================================================== *)

Module SwitcherSpec.

Import FrameworkSwitcher.

Section Detection.

Variable CONFIG : config.

Lemma includes_true (l : list string) (x : string) :
  includes l x = true ↔ x ∈ l.
Proof. unfold includes. apply bool_decide_eq_true. Qed.

Lemma configuredName_member pat s fw :
  configuredName CONFIG pat s = Some fw → fw ∈ frameworks CONFIG.
Proof.
  unfold configuredName. destruct pat as [p|]; [|done].
  destruct (p s) as [captured|]; [|done].
  destruct (includes _ _) eqn:Hin; [|done].
  intros [= <-]. by apply includes_true.
Qed.

Lemma detectInLines_member n lines fw :
  detectInLines CONFIG n lines = Some fw → fw ∈ frameworks CONFIG.
Proof.
  revert lines. induction n as [|n IH]; intros [|line rest]; simpl; try done.
  destruct (isBlank line); [by apply IH|].
  destruct (configuredName CONFIG (markerPattern CONFIG) line) eqn:Hm.
  { intros [= <-]. by eapply configuredName_member. }
  destruct (configuredName CONFIG (labelPattern CONFIG) line) eqn:Hl.
  { intros [= <-]. by eapply configuredName_member. }
  destruct (isCommentLine line); [by apply IH|done].
Qed.

Lemma detectInClasses_member classes fw :
  detectInClasses CONFIG classes = Some fw → fw ∈ frameworks CONFIG.
Proof.
  unfold detectInClasses. intros H%head_Some_elem_of.
  by apply list_elem_of_filter in H as [_ ?].
Qed.

(** What the body of [detectFramework] behind the cache check gives. *)
Lemma detectUncached_cases prev c :
  detectUncached CONFIG prev c = (None, c)
  ∨ ∃ fw, fw ∈ frameworks CONFIG
          ∧ detectUncached CONFIG prev c
            = (Some fw, setFrameworkData (Some fw) c).
Proof.
  unfold detectUncached.
  destruct (detectInLines _ _ _) as [fw|] eqn:H1.
  { right. exists fw. split; [by eapply detectInLines_member|done]. }
  destruct (match prev with Some _ => _ | None => _ end) as [fw|] eqn:H2.
  { right. exists fw. split; [|done].
    destruct prev; [|done]. by eapply configuredName_member. }
  destruct (detectInClasses _ _) as [fw|] eqn:H3.
  { right. exists fw. split; [by eapply detectInClasses_member|done]. }
  by left.
Qed.

Lemma detectFramework_cached prev c fw :
  dataset_framework c = Some fw → JS.truthy fw = true →
  detectFramework CONFIG prev c = (Some fw, c).
Proof. unfold detectFramework. by intros -> ->. Qed.

Lemma detectFramework_uncached prev c :
  isTruthy (dataset_framework c) = false →
  detectFramework CONFIG prev c = detectUncached CONFIG prev c.
Proof.
  unfold detectFramework, isTruthy.
  destruct (dataset_framework c) as [fw|]; [|done]. by intros ->.
Qed.

(** The dataset invariant of the script: the cache of a code element is
    empty or holds a configured framework.  [detectFramework] is the only
    writer of the cache, and it keeps the invariant. *)
Definition cacheConfigured (c : codeElement) : Prop :=
  ∀ fw, dataset_framework c = Some fw → JS.truthy fw = true →
        fw ∈ frameworks CONFIG.

Lemma detectFramework_keeps_cache prev c :
  cacheConfigured c →
  cacheConfigured (detectFramework CONFIG prev c).2
  ∧ ∀ fw, (detectFramework CONFIG prev c).1 = Some fw → fw ∈ frameworks CONFIG.
Proof.
  intros Hc. destruct (isTruthy (dataset_framework c)) eqn:Ht.
  - unfold isTruthy in Ht. destruct (dataset_framework c) as [fw|] eqn:Hd; [|done].
    rewrite (detectFramework_cached prev c fw Hd Ht). simpl. split; [done|].
    intros ? [= <-]. by apply Hc.
  - rewrite detectFramework_uncached by done.
    destruct (detectUncached_cases prev c) as [->|(fw & Hin & ->)]; simpl.
    + split; [done|]. done.
    + split; [|by intros ? [= <-]].
      intros fw' [= <-] _. done.
Qed.

End Detection.

(** C9 as it is stated fails: the value found in [dataset.framework] is
    returned as it is, configured or not. *)
Lemma detectFramework_returns_foreign_cache :
  ¬ (∀ (CONFIG : config) prev c,
       (detectFramework CONFIG prev c).1 = None
       ∨ ∃ fw, (detectFramework CONFIG prev c).1 = Some fw
               ∧ fw ∈ frameworks CONFIG).
Proof.
  intros H.
  destruct (H Samples.sampleConfig None Samples.foreignCode) as [H1|(fw & H1 & H2)].
  - vm_compute in H1. discriminate.
  - vm_compute in H1. injection H1 as <-.
    revert H2. unfold Samples.sampleConfig. simpl.
    rewrite !elem_of_cons, elem_of_nil. intros [?|[?|[?|[]]]]; discriminate.
Qed.

(** C9, amended.  [detectFramework] returns the value cached in
    [dataset.framework] when that is a non-empty string, and leaves the
    element as it is; otherwise it returns [null] or a member of
    [CONFIG.frameworks], and a member it returns is stored in
    [dataset.framework].  Whatever non-empty name a call returns is in the
    dataset afterwards, and every later call on the element returns it
    again, whatever the text of the element and the paragraph in front of it
    have become.  On an element whose cache is empty or holds a configured
    framework the result is therefore [null] or a member of
    [CONFIG.frameworks], and the cache stays of that kind. *)
Theorem detectFramework_cache_or_configured (CONFIG : config)
    (prev : option string) (c : codeElement) :
  let '(result, c') := detectFramework CONFIG prev c in
  (∀ cached, dataset_framework c = Some cached → JS.truthy cached = true →
     result = Some cached ∧ c' = c)
  ∧ (isTruthy (dataset_framework c) = false →
     (result = None ∧ c' = c)
     ∨ ∃ fw, result = Some fw ∧ fw ∈ frameworks CONFIG
             ∧ c' = setFrameworkData (Some fw) c)
  ∧ (∀ fw, result = Some fw → dataset_framework c' = Some fw)
  ∧ (∀ fw, result = Some fw → JS.truthy fw = true →
     ∀ prev' text,
       detectFramework CONFIG prev' (setTextContent text c')
       = (Some fw, setTextContent text c'))
  ∧ (cacheConfigured CONFIG c →
     cacheConfigured CONFIG c'
     ∧ (result = None ∨ ∃ fw, result = Some fw ∧ fw ∈ frameworks CONFIG)).
Proof.
  destruct (detectFramework CONFIG prev c) as [result c'] eqn:Hd.
  assert (Hset : ∀ fw, result = Some fw → dataset_framework c' = Some fw).
  { intros fw ->.
    destruct (isTruthy (dataset_framework c)) eqn:Ht.
    - unfold isTruthy in Ht.
      destruct (dataset_framework c) as [cached|] eqn:Hc; [|done].
      rewrite (detectFramework_cached CONFIG prev c cached Hc Ht) in Hd.
      by injection Hd as <- <-.
    - rewrite detectFramework_uncached in Hd by done.
      destruct (detectUncached_cases CONFIG prev c) as [E|(fw' & _ & E)];
        rewrite E in Hd; [done|]. by injection Hd as <- <-. }
  split_and!.
  - intros cached Hc Ht.
    rewrite (detectFramework_cached CONFIG prev c cached Hc Ht) in Hd.
    by injection Hd as <- <-.
  - intros Ht. rewrite detectFramework_uncached in Hd by done.
    destruct (detectUncached_cases CONFIG prev c) as [E|(fw & Hin & E)];
      rewrite E in Hd; injection Hd as <- <-; [by left|].
    right. by exists fw.
  - done.
  - intros fw Hr Ht prev' text.
    apply detectFramework_cached; [|done]. simpl. by apply Hset.
  - intros Hc. pose proof (detectFramework_keeps_cache CONFIG prev c Hc) as [H1 H2].
    rewrite Hd in H1, H2. simpl in *. split; [done|].
    destruct result as [fw|]; [|by left]. right. exists fw. auto.
Qed.

Section Stripping.

Variable CONFIG : config.

(** The two tests of [stripMarkerLine] on a line. *)
Definition isAnnotationLine (line : string) : bool :=
  match markerPattern CONFIG with Some p => test p line | None => false end
  || match labelPattern CONFIG with Some p => test p line | None => false end.

Lemma markerLineIndex_found n i0 lines k :
  markerLineIndex CONFIG n i0 lines = Some k →
  ∃ j line,
    k = i0 + j ∧ j < n ∧ lines !! j = Some line
    ∧ isBlank line = false ∧ isAnnotationLine line = true
    ∧ ∀ j' l, j' < j → lines !! j' = Some l → isBlank l = false →
              isAnnotationLine l = false ∧ isCommentLine l = true.
Proof.
  revert i0 lines.
  induction n as [|n IH]; intros i0 [|line rest]; simpl; try done.
  assert (Hrec : markerLineIndex CONFIG n (S i0) rest = Some k →
                 (isBlank line = false →
                  isAnnotationLine line = false ∧ isCommentLine line = true) →
                 ∃ j line0,
                   k = i0 + j ∧ j < S n ∧ (line :: rest) !! j = Some line0
                   ∧ isBlank line0 = false ∧ isAnnotationLine line0 = true
                   ∧ ∀ j' l, j' < j → (line :: rest) !! j' = Some l →
                             isBlank l = false →
                             isAnnotationLine l = false ∧ isCommentLine l = true).
  { intros H Hline.
    destruct (IH _ _ H) as (j & line0 & -> & Hj & Hl & Hb & Ha & Hfirst).
    exists (S j), line0. split_and!; [lia|lia|done|done|done|].
    intros [|j'] l Hlt; simpl.
    - intros [= <-]. apply Hline.
    - apply Hfirst. lia. }
  destruct (isBlank line) eqn:Hb.
  { intros H. apply Hrec; [done|]. intros Hb'. congruence. }
  unfold isAnnotationLine in *.
  destruct (match markerPattern CONFIG with Some p => test p line | None => false end)
    eqn:Hm.
  { intros [= <-]. exists 0, line.
    split_and!; [lia|lia|done|done|by rewrite Hm|]. intros; lia. }
  destruct (match labelPattern CONFIG with Some p => test p line | None => false end)
    eqn:Hl.
  { intros [= <-]. exists 0, line.
    split_and!; [lia|lia|done|done|by rewrite Hm, Hl|]. intros; lia. }
  destruct (isCommentLine line) eqn:Hc; [|done].
  intros H. apply Hrec; [done|]. intros _. done.
Qed.

Lemma stripMarkerLine_stripped c :
  dataset_markerStripped c = Some "true" → stripMarkerLine CONFIG c = c.
Proof.
  intros H. unfold stripMarkerLine. by rewrite bool_decide_eq_true_2.
Qed.

Lemma stripMarkerLine_marks c :
  dataset_markerStripped (stripMarkerLine CONFIG c) = Some "true".
Proof.
  unfold stripMarkerLine. case_bool_decide as H; [done|].
  by destruct (markerLineIndex _ _ _ _).
Qed.

Lemma stripMarkerLine_framework c :
  dataset_framework (stripMarkerLine CONFIG c) = dataset_framework c.
Proof.
  unfold stripMarkerLine. case_bool_decide as H; [done|].
  by destruct (markerLineIndex _ _ _ _).
Qed.

Lemma stripMarkerLine_classes c :
  classList (stripMarkerLine CONFIG c) = classList c.
Proof.
  unfold stripMarkerLine. case_bool_decide as H; [done|].
  by destruct (markerLineIndex _ _ _ _).
Qed.

End Stripping.

(** C10.  [stripMarkerLine] takes at most one line out of the text of a
    code element: either the text stays as it is, or the lines are joined
    again without one line, which stands among the first
    [maxLinesToCheck] lines, passes the marker test or the label test, and
    is the first line that the scan looks at (the lines that are not
    blank) to do so.  The call sets [dataset.markerStripped] to ["true"]
    and touches nothing else; it is idempotent, and on an element whose
    flag is ["true"] already it changes nothing. *)
Theorem stripMarkerLine_once (CONFIG : config) (c : codeElement) :
  let c' := stripMarkerLine CONFIG c in
  let lines := JS.splitLines (textContent c) in
  dataset_markerStripped c' = Some "true"
  ∧ classList c' = classList c
  ∧ dataset_framework c' = dataset_framework c
  ∧ (textContent c' = textContent c
     ∨ ∃ i line,
         i < maxLinesToCheck CONFIG ∧ lines !! i = Some line
         ∧ isBlank line = false ∧ isAnnotationLine CONFIG line = true
         ∧ (∀ j l, j < i → lines !! j = Some l → isBlank l = false →
                   isAnnotationLine CONFIG l = false)
         ∧ textContent c' = JS.joinLines (delete i lines)
         ∧ length (delete i lines) + 1 = length lines)
  ∧ stripMarkerLine CONFIG c' = c'
  ∧ (∀ d, dataset_markerStripped d = Some "true" →
          stripMarkerLine CONFIG d = d).
Proof.
  intros c' lines. subst c'. split_and!.
  - apply stripMarkerLine_marks.
  - apply stripMarkerLine_classes.
  - apply stripMarkerLine_framework.
  - unfold stripMarkerLine. case_bool_decide as Hs; [by left|].
    fold lines.
    destruct (markerLineIndex CONFIG (maxLinesToCheck CONFIG) 0 lines)
      as [k|] eqn:Hk; [|by left].
    right.
    destruct (markerLineIndex_found _ _ _ _ _ Hk)
      as (j & line & -> & Hj & Hl & Hb & Ha & Hfirst).
    exists j, line. simpl. split_and!; try done.
    + intros j' l Hlt Hl' Hb'. by destruct (Hfirst j' l Hlt Hl' Hb').
    + rewrite length_delete by eauto.
      apply lookup_lt_Some in Hl. lia.
  - apply stripMarkerLine_stripped, stripMarkerLine_marks.
  - apply stripMarkerLine_stripped.
Qed.

(** C3 as it is stated fails in its last part: a stored value that is not
    one of the configured frameworks is not used, the default is. *)
Lemma stored_framework_not_configured :
  ¬ (∀ (CONFIG : config) (storage : gmap string string) dom v,
       storage !! storageKey CONFIG = Some v →
       currentFramework (init CONFIG (load CONFIG storage dom)) = v).
Proof.
  intros H.
  specialize (H Samples.sampleConfig {["docsify-fw" := "vue"]} [] "vue").
  assert (Hl : ({["docsify-fw" := "vue"]} : gmap string string)
               !! storageKey Samples.sampleConfig = Some "vue")
    by apply lookup_singleton_eq.
  specialize (H Hl). vm_compute in H. discriminate.
Qed.

(** C3, amended.  [setFramework(f)], for [f] other than the current
    selection, makes [f] the selection, writes [f] under
    [CONFIG.storageKey] and updates the groups and the switchers for [f];
    for the current selection it does nothing.  No event the script
    handles changes the local storage at a key other than
    [CONFIG.storageKey].  The value stored under that key is the selection
    after start-up when it is a non-empty member of [CONFIG.frameworks],
    and the local storage is then left as it is.  A stored value that is
    not empty and not a member of [CONFIG.frameworks] is not used: the
    selection after start-up is [CONFIG.defaultFramework], and that name
    is written under the key in place of the stored value.  When nothing
    or the empty string is stored, the selection after start-up is
    [CONFIG.defaultFramework] as well; it is written under the key
    exactly when it is not a member of [CONFIG.frameworks]. *)
Theorem selection_persisted_under_storageKey (CONFIG : config) :
  (∀ f st,
     currentFramework st ≠ f →
     setFramework CONFIG f st
     = {| currentFramework := f;
          localStorage := <[storageKey CONFIG := f]> (localStorage st);
          document := updateAllSwitchers CONFIG f
                        (updateAllGroups CONFIG f (document st)) |})
  ∧ (∀ st, setFramework CONFIG (currentFramework st) st = st)
  ∧ (∀ ev st k,
       k ≠ storageKey CONFIG →
       localStorage (handle CONFIG ev st) !! k = localStorage st !! k)
  ∧ (∀ storage dom v,
       storage !! storageKey CONFIG = Some v →
       JS.truthy v = true → v ∈ frameworks CONFIG →
       init CONFIG (load CONFIG storage dom)
       = {| currentFramework := v; localStorage := storage; document := dom |})
  ∧ (∀ storage dom v,
       storage !! storageKey CONFIG = Some v →
       JS.truthy v = true → v ∉ frameworks CONFIG →
       init CONFIG (load CONFIG storage dom)
       = {| currentFramework := defaultFramework CONFIG;
            localStorage :=
              <[storageKey CONFIG := defaultFramework CONFIG]> storage;
            document := dom |})
  ∧ (∀ storage dom,
       storage !! storageKey CONFIG = None
       ∨ storage !! storageKey CONFIG = Some EmptyString →
       (defaultFramework CONFIG ∈ frameworks CONFIG →
        init CONFIG (load CONFIG storage dom)
        = {| currentFramework := defaultFramework CONFIG;
             localStorage := storage;
             document := dom |})
       ∧ (defaultFramework CONFIG ∉ frameworks CONFIG →
          init CONFIG (load CONFIG storage dom)
          = {| currentFramework := defaultFramework CONFIG;
               localStorage :=
                 <[storageKey CONFIG := defaultFramework CONFIG]> storage;
               document := dom |})).
Proof.
  split_and!.
  - intros f st Hne. unfold setFramework. by rewrite bool_decide_eq_false_2.
  - intros st. unfold setFramework. by rewrite bool_decide_eq_true_2.
  - intros ev st k Hk. destruct ev as [| |f]; simpl.
    + unfold init. destruct (includes _ _); [done|]. simpl.
      by rewrite lookup_insert_ne.
    + done.
    + unfold setFramework. case_bool_decide; [done|]. simpl.
      by rewrite lookup_insert_ne.
  - intros storage dom v Hv Ht Hin. unfold init, load. simpl.
    rewrite Hv. simpl. rewrite Ht.
    by rewrite (proj2 (includes_true _ _) Hin).
  - intros storage dom v Hv Ht Hout. unfold init, load. simpl.
    rewrite Hv. simpl. rewrite Ht.
    destruct (includes (frameworks CONFIG) v) eqn:Hinc; [|done].
    by apply includes_true in Hinc.
  - intros storage dom Hnone.
    assert (JS.orElse (storage !! storageKey CONFIG) (defaultFramework CONFIG)
            = defaultFramework CONFIG) as Hcur
      by (by destruct Hnone as [-> | ->]).
    unfold init, load. simpl. rewrite Hcur.
    destruct (includes (frameworks CONFIG) (defaultFramework CONFIG)) eqn:Hinc.
    + apply includes_true in Hinc. by split.
    + split; [|done]. intros Hin. apply includes_true in Hin. congruence.
Qed.

Section Groups.

Variable CONFIG : config.

Lemma frameworkOf_detect para c :
  frameworkOf CONFIG para c = detectFramework CONFIG para c.
Proof.
  unfold frameworkOf, detectFramework.
  destruct (dataset_framework c) as [fw|]; [|done]. by destruct (JS.truthy fw).
Qed.

Lemma detectUncached_ext para c c' :
  textContent c' = textContent c → classList c' = classList c →
  (detectUncached CONFIG para c').1 = (detectUncached CONFIG para c).1.
Proof.
  intros Ht Hc. unfold detectUncached. rewrite Ht, Hc.
  by destruct (match detectInLines _ _ _ with Some _ => _ | None => _ end).
Qed.

(** A second call of [detectFramework] on the element the first call left
    gives the same value and leaves the element as it is. *)
Lemma detectFramework_stable para c :
  detectFramework CONFIG para (detectFramework CONFIG para c).2
  = detectFramework CONFIG para c.
Proof.
  destruct (isTruthy (dataset_framework c)) eqn:Ht.
  - unfold isTruthy in Ht. destruct (dataset_framework c) as [fw|] eqn:Hd; [|done].
    rewrite (detectFramework_cached CONFIG para c fw Hd Ht). simpl.
    by rewrite (detectFramework_cached CONFIG para c fw Hd Ht).
  - rewrite (detectFramework_uncached CONFIG para c Ht).
    destruct (detectUncached_cases CONFIG para c) as [E|(fw & _ & E)].
    + rewrite E. simpl. by rewrite (detectFramework_uncached CONFIG para c Ht).
    + rewrite E. simpl. destruct (JS.truthy fw) eqn:Hfw.
      * by apply detectFramework_cached.
      * rewrite detectFramework_uncached by (simpl; by rewrite Hfw).
        pose proof (detectUncached_ext para c (setFrameworkData (Some fw) c)
                      eq_refl eq_refl) as Hext.
        rewrite E in Hext. simpl in Hext.
        destruct (detectUncached_cases CONFIG para (setFrameworkData (Some fw) c))
          as [E'|(fw' & _ & E')]; rewrite E' in Hext |- *; simpl in Hext.
        -- done.
        -- by injection Hext as ->.
Qed.

(** The dataset after a call holds the value the call returned, when
    that is a non-empty name, and no non-empty name otherwise. *)
Lemma detectFramework_dataset para c :
  (isTruthy (detectFramework CONFIG para c).1 = true →
   dataset_framework (detectFramework CONFIG para c).2
   = (detectFramework CONFIG para c).1)
  ∧ (isTruthy (detectFramework CONFIG para c).1 = false →
     isTruthy (dataset_framework (detectFramework CONFIG para c).2) = false).
Proof.
  destruct (isTruthy (dataset_framework c)) eqn:Ht.
  - pose proof Ht as Ht'. unfold isTruthy in Ht'.
    destruct (dataset_framework c) as [fw|] eqn:Hd; [|done].
    rewrite (detectFramework_cached CONFIG para c fw Hd Ht'). simpl.
    split; [done|]. by rewrite Ht'.
  - rewrite (detectFramework_uncached CONFIG para c Ht).
    destruct (detectUncached_cases CONFIG para c) as [E|(fw & _ & E)];
      rewrite E; simpl; [done|]. split; [done|]. done.
Qed.

(** The children of a group, each with the text of the paragraph that is
    its previous sibling (if that is a paragraph). *)
Fixpoint withPrev (para : option string) (kids : list groupChild)
  : list (option string * groupChild) :=
  match kids with
  | [] => []
  | k :: rest => (para, k) :: withPrev (paragraphOfChild (Some k)) rest
  end.

(** Apply [f] to a child that is a block. *)
Definition onPre (f : option string → preElement → preElement)
    (x : option string * groupChild) : groupChild :=
  match x.2 with
  | GPre p => GPre (f x.1 p)
  | k => k
  end.

Lemma paragraphOfChild_onPre f x :
  paragraphOfChild (Some (onPre f x)) = paragraphOfChild (Some x.2).
Proof. destruct x as [para [| |p]]; done. Qed.

Lemma withPrev_map f para kids :
  withPrev para (map (onPre f) (withPrev para kids))
  = map (λ x, (x.1, onPre f x)) (withPrev para kids).
Proof.
  revert para. induction kids as [|k rest IH]; intros para;
    cbn [withPrev map]; [done|].
  f_equal. rewrite (paragraphOfChild_onPre f (para, k)). cbn [snd]. apply IH.
Qed.

Lemma withPrev_elem para kids x :
  x ∈ withPrev para kids → x.2 ∈ kids.
Proof.
  revert para. induction kids as [|k rest IH]; intros para; simpl.
  - by intros ?%elem_of_nil.
  - intros [->|H]%elem_of_cons; [left|right; eauto].
Qed.

Lemma elem_withPrev para kids k :
  k ∈ kids → ∃ para', (para', k) ∈ withPrev para kids.
Proof.
  revert para. induction kids as [|k0 rest IH]; intros para.
  - by intros ?%elem_of_nil.
  - intros [->|H]%elem_of_cons; simpl.
    + exists para. left.
    + destruct (IH (paragraphOfChild (Some k0)) H) as [para' ?].
      exists para'. by right.
Qed.

(** The framework of a block of a group and the block with its cache
    filled, as each loop over the blocks of a group computes them. *)
Definition fwOf (para : option string) (p : preElement) : option string :=
  (detectFramework CONFIG para (pre_code p)).1.

Definition cached (para : option string) (p : preElement) : preElement :=
  setCode (detectFramework CONFIG para (pre_code p)).2 p.

Lemma fwOf_cached para p : fwOf para (cached para p) = fwOf para p.
Proof. unfold fwOf, cached. simpl. by rewrite detectFramework_stable. Qed.

Lemma cached_cached para p : cached para (cached para p) = cached para p.
Proof. unfold cached. simpl. by rewrite detectFramework_stable. Qed.

Lemma fwOf_setPreClasses para l p : fwOf para (setPreClasses l p) = fwOf para p.
Proof. done. Qed.

Lemma cached_setPreClasses para l p :
  cached para (setPreClasses l p) = setPreClasses l (cached para p).
Proof. done. Qed.

(** The blocks after the first loop of [updateGroupVisibility]. *)
Definition shownFor (cur : string) (para : option string) (p : preElement)
  : preElement :=
  if isTruthy (fwOf para p) then
    if bool_decide (fwOf para p = Some cur)
    then setPreClasses (classRemove "fw-hidden" (pre_classList p)) (cached para p)
    else setPreClasses (classAdd "fw-hidden" (pre_classList p)) (cached para p)
  else cached para p.

Definition matchesCurrent (cur : string) (x : option string * groupChild) : bool :=
  match x.2 with
  | GPre p => isTruthy (fwOf x.1 p) && bool_decide (fwOf x.1 p = Some cur)
  | _ => false
  end.

Lemma showCurrent_map cur prev kids vis :
  showCurrent CONFIG cur prev kids vis
  = (map (onPre (shownFor cur)) (withPrev (paragraphOfChild prev) kids),
     if existsb (matchesCurrent cur) (withPrev (paragraphOfChild prev) kids)
     then Some cur else vis).
Proof.
  revert prev vis. induction kids as [|k rest IH]; intros prev vis; [done|].
  cbn [showCurrent withPrev map existsb].
  destruct k as [bs|text|p].
  - rewrite IH. done.
  - rewrite IH. done.
  - rewrite frameworkOf_detect.
    unfold matchesCurrent at 1, onPre at 1, shownFor at 1. cbn [fst snd].
    unfold fwOf, cached.
    destruct (detectFramework CONFIG (paragraphOfChild prev) (pre_code p))
      as [fw c] eqn:Hd. cbn [fst snd].
    destruct (isTruthy fw) eqn:Ht; cbn [andb].
    + case_bool_decide as Hcur.
      * rewrite IH. cbn [orb paragraphOfChild]. subst fw.
        by destruct (existsb _ _).
      * rewrite IH. done.
    + rewrite IH. done.
Qed.

Definition foundIn (x : option string * groupChild) : list string :=
  match x.2 with
  | GPre p =>
      match fwOf x.1 p with
      | Some fw => if JS.truthy fw then [fw] else []
      | None => []
      end
  | _ => []
  end.

Lemma groupFrameworks_map prev kids :
  groupFrameworks CONFIG prev kids
  = (map (onPre cached) (withPrev (paragraphOfChild prev) kids),
     flat_map foundIn (withPrev (paragraphOfChild prev) kids)).
Proof.
  revert prev. induction kids as [|k rest IH]; intros prev; [done|].
  cbn [groupFrameworks withPrev map flat_map].
  destruct k as [bs|text|p].
  - rewrite IH. done.
  - rewrite IH. done.
  - rewrite frameworkOf_detect.
    unfold foundIn at 1, onPre at 1. cbn [fst snd]. unfold fwOf, cached.
    destruct (detectFramework CONFIG (paragraphOfChild prev) (pre_code p))
      as [fw c] eqn:Hd. cbn [fst snd].
    rewrite IH. done.
Qed.

(** The blocks after the second loop of [updateGroupVisibility]. *)
Definition shownFirst (first : string) (para : option string) (p : preElement)
  : preElement :=
  if bool_decide (fwOf para p = Some first)
  then setPreClasses (classRemove "fw-hidden" (pre_classList p)) (cached para p)
  else cached para p.

Lemma showFramework_map first prev kids :
  showFramework CONFIG first prev kids
  = map (onPre (shownFirst first)) (withPrev (paragraphOfChild prev) kids).
Proof.
  revert prev. induction kids as [|k rest IH]; intros prev; [done|].
  cbn [showFramework withPrev map].
  destruct k as [bs|text|p].
  - rewrite IH. done.
  - rewrite IH. done.
  - rewrite frameworkOf_detect.
    unfold onPre at 1, shownFirst at 1. cbn [fst snd]. unfold fwOf, cached.
    destruct (detectFramework CONFIG (paragraphOfChild prev) (pre_code p))
      as [fw c] eqn:Hd. cbn [fst snd].
    rewrite IH. case_bool_decide; done.
Qed.

Lemma classRemove_not_elem c l : c ∉ classRemove c l.
Proof. unfold classRemove. by intros [H _]%list_elem_of_filter. Qed.

Lemma classAdd_elem c l : c ∈ classAdd c l.
Proof.
  unfold classAdd. case_bool_decide; [done|]. apply elem_of_app. right. left.
Qed.

Lemma classAdd_other c c' l : c' ∈ classAdd c l ↔ c' = c ∨ c' ∈ l.
Proof.
  unfold classAdd. case_bool_decide as H.
  - split; [by right|]. by intros [->|?].
  - rewrite elem_of_app, list_elem_of_singleton.
    split; (intros [?|?]; [by right|by left]).
Qed.

End Groups.

Section Visibility.

Variable CONFIG : config.

Lemma fwOf_shownFor cur para p :
  fwOf CONFIG para (shownFor CONFIG cur para p) = fwOf CONFIG para p.
Proof.
  unfold shownFor. destruct (isTruthy _); [case_bool_decide|];
    rewrite ?fwOf_setPreClasses; apply fwOf_cached.
Qed.

Lemma foundIn_shownFor cur x :
  foundIn CONFIG (x.1, onPre (shownFor CONFIG cur) x) = foundIn CONFIG x.
Proof.
  destruct x as [para [bs|text|p]]; try done.
  unfold foundIn, onPre. cbn [fst snd]. by rewrite fwOf_shownFor.
Qed.

Lemma foundIn_truthy x fw : fw ∈ foundIn CONFIG x → JS.truthy fw = true.
Proof.
  unfold foundIn. destruct x.2 as [| |p]; try by intros ?%elem_of_nil.
  destruct (fwOf CONFIG x.1 p) as [fw'|]; [|by intros ?%elem_of_nil].
  destruct (JS.truthy fw') eqn:Ht; [|by intros ?%elem_of_nil].
  by intros ->%list_elem_of_singleton.
Qed.

Lemma foundIn_fwOf x fw :
  fw ∈ foundIn CONFIG x ↔
  ∃ p, x.2 = GPre p ∧ fwOf CONFIG x.1 p = Some fw ∧ JS.truthy fw = true.
Proof.
  unfold foundIn. destruct x.2 as [| |p].
  - split; [by intros ?%elem_of_nil|]. by intros (? & ? & _).
  - split; [by intros ?%elem_of_nil|]. by intros (? & ? & _).
  - destruct (fwOf CONFIG x.1 p) as [fw'|] eqn:Hfw.
    + destruct (JS.truthy fw') eqn:Ht.
      * rewrite list_elem_of_singleton. split.
        -- intros ->. by exists p.
        -- intros (p' & [= <-] & Hp & _). rewrite Hfw in Hp. by injection Hp.
      * split; [by intros ?%elem_of_nil|].
        intros (p' & [= <-] & Hp & Ht'). rewrite Hfw in Hp.
        injection Hp as ->. congruence.
    + split; [by intros ?%elem_of_nil|].
      intros (p' & [= <-] & Hp & _). by rewrite Hfw in Hp.
Qed.

Lemma flat_map_fmap {X Y Z : Type} (f : Y → list Z) (g : X → Y) (l : list X) :
  flat_map f (map g l) = flat_map (λ x, f (g x)) l.
Proof. induction l as [|x l IH]; simpl; [done|]. by rewrite IH. Qed.

Lemma existsb_isPreChild_onPre f para kids :
  existsb isPreChild (map (onPre f) (withPrev para kids))
  = existsb isPreChild kids.
Proof.
  revert para. induction kids as [|k rest IH]; intros para; [done|].
  cbn [withPrev map existsb]. rewrite IH. by destruct k.
Qed.

(** The blocks of a group after [updateGroupVisibility] took the second
    loop with [first]. *)
Definition shownFallback (cur first : string) (x : option string * groupChild)
  : groupChild :=
  onPre (shownFirst CONFIG first)
    (x.1, onPre (cached CONFIG) (x.1, onPre (shownFor CONFIG cur) x)).

Lemma updateGroupVisibility_cases cur kids :
  let W := withPrev None kids in
  let available :=
    filter (λ fw, fw ∈ flat_map (foundIn CONFIG) W) (frameworks CONFIG) in
  (getAvailableFrameworks CONFIG kids).2 = available
  ∧ updateGroupVisibility CONFIG cur kids
    = if existsb (matchesCurrent CONFIG cur) W
      then map (onPre (shownFor CONFIG cur)) W
      else match available with
           | first :: _ =>
               if existsb isPreChild kids
               then map (shownFallback cur first) W
               else map (onPre (shownFor CONFIG cur)) W
           | [] =>
               if existsb isPreChild kids
               then map (onPre (cached CONFIG))
                      (map (λ x, (x.1, onPre (shownFor CONFIG cur) x)) W)
               else map (onPre (shownFor CONFIG cur)) W
           end.
Proof.
  intros W available. split.
  { unfold getAvailableFrameworks. by rewrite groupFrameworks_map. }
  unfold updateGroupVisibility.
  rewrite showCurrent_map. cbn [paragraphOfChild]. fold W.
  destruct (existsb (matchesCurrent CONFIG cur) W) eqn:Hex.
  { apply existsb_exists in Hex as (x & _ & Hx).
    unfold matchesCurrent in Hx. destruct x.2 as [| |p]; try done.
    apply andb_prop in Hx as [Ht Hc]. apply bool_decide_eq_true in Hc.
    rewrite Hc in Ht. cbn [isTruthy] in *. rewrite Ht. cbn [negb andb].
    reflexivity. }
  cbn [isTruthy negb andb].
  unfold W at 1. rewrite existsb_isPreChild_onPre. destruct (existsb isPreChild kids); [|by destruct available].
  unfold getAvailableFrameworks. rewrite groupFrameworks_map.
  cbn [paragraphOfChild]. subst W. rewrite withPrev_map.
  rewrite flat_map_fmap.
  assert (Hfound :
    flat_map (λ x, foundIn CONFIG (x.1, onPre (shownFor CONFIG cur) x))
      (withPrev None kids)
    = flat_map (foundIn CONFIG) (withPrev None kids)).
  { apply flat_map_ext. intros x. apply foundIn_shownFor. }
  rewrite Hfound. fold available.
  destruct available as [|first rest]; [done|].
  rewrite showFramework_map. cbn [paragraphOfChild].
  rewrite <- (withPrev_map (shownFor CONFIG cur)) at 1.
  rewrite withPrev_map, withPrev_map. rewrite !map_map. done.
Qed.

Lemma shownFallback_pre cur first para p :
  shownFallback cur first (para, GPre p)
  = GPre (shownFirst CONFIG first para
            (cached CONFIG para (shownFor CONFIG cur para p))).
Proof. done. Qed.

Lemma shownFallback_visible cur first para p :
  fwOf CONFIG para p = Some first →
  "fw-hidden" ∉ pre_classList
                  (shownFirst CONFIG first para
                     (cached CONFIG para (shownFor CONFIG cur para p))).
Proof.
  intros Hfw. unfold shownFirst.
  rewrite fwOf_cached, fwOf_shownFor, Hfw, bool_decide_eq_true_2 by done.
  cbn [setPreClasses pre_classList]. apply classRemove_not_elem.
Qed.

Lemma shownFallback_dataset cur first para p :
  JS.truthy first = true →
  dataset_framework
    (pre_code (shownFirst CONFIG first para
                 (cached CONFIG para (shownFor CONFIG cur para p))))
  = Some first →
  fwOf CONFIG para p = Some first.
Proof.
  intros Ht.
  set (q := cached CONFIG para (shownFor CONFIG cur para p)).
  assert (Hcode : pre_code (shownFirst CONFIG first para q)
                  = (detectFramework CONFIG para (pre_code q)).2).
  { unfold shownFirst. by case_bool_decide. }
  rewrite Hcode.
  assert (Hq : (detectFramework CONFIG para (pre_code q)).1 = fwOf CONFIG para p).
  { change ((detectFramework CONFIG para (pre_code q)).1) with (fwOf CONFIG para q).
    subst q. by rewrite fwOf_cached, fwOf_shownFor. }
  destruct (detectFramework_dataset CONFIG para (pre_code q)) as [H1 H2].
  rewrite Hq in H1, H2.
  destruct (isTruthy (fwOf CONFIG para p)) eqn:Hr.
  - rewrite H1 by done. done.
  - intros Hd. specialize (H2 eq_refl). rewrite Hd in H2. cbn in H2. congruence.
Qed.

End Visibility.

(** C8 as it is stated fails: the blocks of a group can have a detected
    framework and all be hidden.  The available frameworks are the
    configured ones only, so a group whose blocks all carry a name that is
    neither configured nor selected has no first available framework, and
    the blocks keep the [fw-hidden] that the first loop gave them. *)
Lemma foreign_group_stays_hidden :
  ¬ (∀ (CONFIG : config) (cur : string) (kids : list groupChild) (fw : string),
       fw ∈ (groupFrameworks CONFIG None kids).2 →
       ∃ p, GPre p ∈ updateGroupVisibility CONFIG cur kids
            ∧ "fw-hidden" ∉ pre_classList p).
Proof.
  intros H.
  destruct (H Samples.sampleConfig "hono" Samples.foreignGroup "vue")
    as (p & Hin & Hvisible).
  - vm_compute. apply list_elem_of_here.
  - apply Hvisible. apply list_elem_of_In in Hin. vm_compute in Hin.
    destruct Hin as [Hin|[Hin|[Hin|[]]]]; [done| |];
      injection Hin as <-; apply list_elem_of_here.
Qed.

(** C8, amended.  When some block of a group has a detected framework
    (the value of [dataset.framework || detectFramework(block)] is a
    non-empty name) that is the selected framework or one of
    [CONFIG.frameworks], then after [updateGroupVisibility] at least one
    block of the group does not have the class [fw-hidden].  When no block
    has the current framework, the first available framework exists, and
    every block of it (after the call these are the blocks with that name
    in [dataset.framework]) is without [fw-hidden]. *)
Theorem updateGroupVisibility_leaves_a_block_visible (CONFIG : config)
    (cur : string) (kids : list groupChild) (fw : string) :
  fw ∈ (groupFrameworks CONFIG None kids).2 →
  fw = cur ∨ fw ∈ frameworks CONFIG →
  (∃ p, GPre p ∈ updateGroupVisibility CONFIG cur kids
        ∧ "fw-hidden" ∉ pre_classList p)
  ∧ (cur ∉ (groupFrameworks CONFIG None kids).2 →
     ∃ first,
       head (getAvailableFrameworks CONFIG kids).2 = Some first
       ∧ (∃ p, GPre p ∈ updateGroupVisibility CONFIG cur kids
               ∧ dataset_framework (pre_code p) = Some first)
       ∧ ∀ p, GPre p ∈ updateGroupVisibility CONFIG cur kids →
              dataset_framework (pre_code p) = Some first →
              "fw-hidden" ∉ pre_classList p).
Proof.
  intros Hfw Hcfg.
  rewrite groupFrameworks_map in Hfw |- *. cbn [snd paragraphOfChild] in *.
  destruct (updateGroupVisibility_cases CONFIG cur kids) as [Hav Hupd].
  cbn zeta in Hav, Hupd. rewrite Hav, Hupd. clear Hav Hupd.
  set (W := withPrev None kids) in *.
  set (found := flat_map (foundIn CONFIG) W) in *.
  assert (Hpre : existsb isPreChild kids = true).
  { apply list_elem_of_In, in_flat_map in Hfw as (x & Hx & Hin).
    apply list_elem_of_In, foundIn_fwOf in Hin as (p & Hp & _).
    apply existsb_exists. exists x.2. split.
    - apply list_elem_of_In. eapply withPrev_elem. by apply list_elem_of_In.
    - by rewrite Hp. }
  rewrite Hpre.
  assert (Hsel : ∀ first,
    first ∈ found →
    ∃ para p, (para, GPre p) ∈ W ∧ fwOf CONFIG para p = Some first
              ∧ JS.truthy first = true).
  { intros first Hin.
    apply list_elem_of_In, in_flat_map in Hin as ([para k] & Hx & Hin).
    apply list_elem_of_In, foundIn_fwOf in Hin as (p & Hp & Hf & Ht).
    cbn [fst snd] in *. subst k. exists para, p.
    split; [by apply list_elem_of_In|done]. }
  destruct (existsb (matchesCurrent CONFIG cur) W) eqn:Hex.
  - apply existsb_exists in Hex as ([para k] & Hx & Hm).
    unfold matchesCurrent in Hm. cbn [fst snd] in Hm.
    destruct k as [| |p]; try done.
    apply andb_prop in Hm as [Ht Hc]. apply bool_decide_eq_true in Hc.
    split.
    + exists (shownFor CONFIG cur para p). split.
      * apply list_elem_of_fmap. exists (para, GPre p).
        split; [done|by apply list_elem_of_In].
      * unfold shownFor. rewrite Ht, bool_decide_eq_true_2 by done.
        apply classRemove_not_elem.
    + intros Hnot. exfalso. apply Hnot.
      apply list_elem_of_In, in_flat_map. exists (para, GPre p).
      split; [done|]. apply list_elem_of_In, foundIn_fwOf.
      exists p. rewrite Hc in Ht. by split_and!.
  - assert (fw ∈ frameworks CONFIG) as Hconfigured.
    { destruct Hcfg as [->|Hcfg]; [exfalso|done].
      destruct (Hsel cur Hfw) as (para & p & Hx & Hf & Ht).
      assert (existsb (matchesCurrent CONFIG cur) W = true) as Hyes.
      { apply existsb_exists. exists (para, GPre p).
        split; [by apply list_elem_of_In|].
        unfold matchesCurrent. cbn [fst snd]. rewrite Hf. cbn [isTruthy].
        rewrite Ht. by apply bool_decide_eq_true_2. }
      congruence. }
    destruct (filter (λ fw0, fw0 ∈ found) (frameworks CONFIG))
      as [|first rest] eqn:Hfilter.
    { exfalso. eapply (filter_nil_not_elem_of _ _ fw); eauto. }
    assert (Hfirst : first ∈ found).
    { assert (H : first ∈ filter (λ fw0, fw0 ∈ found) (frameworks CONFIG))
        by (rewrite Hfilter; left).
      by apply list_elem_of_filter in H as [? _]. }
    destruct (Hsel first Hfirst) as (para & p & Hx & Hf & Ht).
    assert (Hshown :
      GPre (shownFirst CONFIG first para
              (cached CONFIG para (shownFor CONFIG cur para p)))
      ∈ map (shownFallback CONFIG cur first) W).
    { apply list_elem_of_fmap. exists (para, GPre p). by split. }
    split.
    + eexists. split; [exact Hshown|]. by apply shownFallback_visible.
    + intros _. exists first. split; [done|]. split.
      * eexists. split; [exact Hshown|].
        set (q := cached CONFIG para (shownFor CONFIG cur para p)).
        assert (Hcode : pre_code (shownFirst CONFIG first para q)
                        = (detectFramework CONFIG para (pre_code q)).2).
        { unfold shownFirst. by case_bool_decide. }
        rewrite Hcode.
        destruct (detectFramework_dataset CONFIG para (pre_code q)) as [H1 _].
        change ((detectFramework CONFIG para (pre_code q)).1)
          with (fwOf CONFIG para q) in H1.
        subst q. rewrite fwOf_cached, fwOf_shownFor, Hf in H1.
        apply H1. done.
      * intros p' Hin Hd.
        apply list_elem_of_fmap in Hin as ([para' k] & Hk & Hin).
        destruct k as [bs|text|p0]; try done.
        rewrite shownFallback_pre in Hk. injection Hk as ->.
        apply shownFallback_visible.
        by eapply shownFallback_dataset.
Qed.

(** A group with blocks for Hono and Express while Koa is selected. *)
Lemma updateGroupVisibility_leaves_a_block_visible_witness :
  (∃ p, GPre p ∈ updateGroupVisibility Samples.sampleConfig "koa" Samples.hiddenGroup
        ∧ "fw-hidden" ∉ pre_classList p)
  ∧ ("koa" ∉ (groupFrameworks Samples.sampleConfig None Samples.hiddenGroup).2 →
     ∃ first,
       head (getAvailableFrameworks Samples.sampleConfig Samples.hiddenGroup).2
       = Some first
       ∧ (∃ p, GPre p ∈ updateGroupVisibility Samples.sampleConfig "koa"
                          Samples.hiddenGroup
               ∧ dataset_framework (pre_code p) = Some first)
       ∧ ∀ p, GPre p ∈ updateGroupVisibility Samples.sampleConfig "koa"
                         Samples.hiddenGroup →
              dataset_framework (pre_code p) = Some first →
              "fw-hidden" ∉ pre_classList p).
Proof.
  apply (updateGroupVisibility_leaves_a_block_visible
           Samples.sampleConfig "koa" Samples.hiddenGroup "hono").
  - vm_compute. apply list_elem_of_here.
  - right. vm_compute. apply list_elem_of_here.
Defined.

Section Annotation.

Variable CONFIG : config.

(** The framework a line of a block names: through the marker pattern,
    and through the label pattern when the marker pattern gives none. *)
Definition annotationOf (line : string) : option string :=
  match configuredName CONFIG (markerPattern CONFIG) line with
  | Some fw => Some fw
  | None => configuredName CONFIG (labelPattern CONFIG) line
  end.

Lemma detectInLines_first n lines fw :
  detectInLines CONFIG n lines = Some fw ↔
  ∃ i line,
    i < n ∧ lines !! i = Some line ∧ isBlank line = false
    ∧ annotationOf line = Some fw
    ∧ ∀ j l, j < i → lines !! j = Some l → isBlank l = false →
             annotationOf l = None ∧ isCommentLine l = true.
Proof.
  revert lines. induction n as [|n IH]; intros lines.
  { simpl. split; [done|]. intros (i & ? & ? & _). lia. }
  destruct lines as [|line0 rest].
  { simpl. split; [done|]. by intros (i & line & _ & ? & _). }
  cbn [detectInLines].
  assert (Hskip :
    (isBlank line0 = false →
     annotationOf line0 = None ∧ isCommentLine line0 = true) →
    (detectInLines CONFIG n rest = Some fw ↔
     ∃ i line,
       i < S n ∧ (line0 :: rest) !! i = Some line ∧ isBlank line = false
       ∧ annotationOf line = Some fw
       ∧ ∀ j l, j < i → (line0 :: rest) !! j = Some l → isBlank l = false →
                annotationOf l = None ∧ isCommentLine l = true)).
  { intros H0. rewrite IH. split.
    - intros (i & line & Hi & Hl & Hb & Ha & Hfirst).
      exists (S i), line. split_and!; [lia|done|done|done|].
      intros [|j] l Hj; simpl; [intros [= <-]; apply H0|].
      apply Hfirst. lia.
    - intros (i & line & Hi & Hl & Hb & Ha & Hfirst).
      destruct i as [|i].
      + simpl in Hl. injection Hl as <-.
        destruct (H0 Hb) as [Hn _]. congruence.
      + exists i, line. split_and!; [lia|done|done|done|].
        intros j l Hj Hl'. apply (Hfirst (S j)); [lia|done]. }
  assert (Hhere : ∀ fw0,
    isBlank line0 = false → annotationOf line0 = Some fw0 →
    (Some fw0 = Some fw ↔
     ∃ i line,
       i < S n ∧ (line0 :: rest) !! i = Some line ∧ isBlank line = false
       ∧ annotationOf line = Some fw
       ∧ ∀ j l, j < i → (line0 :: rest) !! j = Some l → isBlank l = false →
                annotationOf l = None ∧ isCommentLine l = true)).
  { intros fw0 Hb Ha. split.
    - intros [= <-]. exists 0, line0.
      split_and!; [lia|done|done|done|]. intros; lia.
    - intros (i & line & Hi & Hl & Hb' & Ha' & Hfirst).
      destruct i as [|i].
      + simpl in Hl. injection Hl as <-. congruence.
      + destruct (Hfirst 0 line0) as [Hn _]; [lia|done|done|]. congruence. }
  destruct (isBlank line0) eqn:Hb.
  { apply Hskip. congruence. }
  destruct (configuredName CONFIG (markerPattern CONFIG) line0) as [fw0|] eqn:Hm.
  { apply Hhere; [done|]. unfold annotationOf. by rewrite Hm. }
  destruct (configuredName CONFIG (labelPattern CONFIG) line0) as [fw0|] eqn:Hl.
  { apply Hhere; [done|]. unfold annotationOf. by rewrite Hm. }
  destruct (isCommentLine line0) eqn:Hc.
  { apply Hskip. intros _. unfold annotationOf. by rewrite Hm, Hl. }
  split; [done|].
  intros (i & line & Hi & Hli & Hb' & Ha & Hfirst).
  destruct i as [|i].
  - simpl in Hli. injection Hli as <-. unfold annotationOf in Ha.
    rewrite Hm, Hl in Ha. done.
  - destruct (Hfirst 0 line0) as [_ Hcom]; [lia|done|done|]. congruence.
Qed.

Lemma markerLineIndex_first n i0 lines i line :
  i < n → lines !! i = Some line → isBlank line = false →
  isAnnotationLine CONFIG line = true →
  (∀ j l, j < i → lines !! j = Some l → isBlank l = false →
          isAnnotationLine CONFIG l = false ∧ isCommentLine l = true) →
  markerLineIndex CONFIG n i0 lines = Some (i0 + i).
Proof.
  revert i0 lines i. induction n as [|n IH]; intros i0 lines i Hi; [lia|].
  destruct lines as [|line0 rest]; [done|].
  intros Hl Hb Ha Hfirst. cbn [markerLineIndex].
  destruct i as [|i].
  - simpl in Hl. injection Hl as <-. rewrite Hb.
    unfold isAnnotationLine in Ha.
    destruct (match markerPattern CONFIG with Some p => test p line0 | None => false end).
    + f_equal. lia.
    + simpl in Ha. rewrite Ha. f_equal. lia.
  - simpl in Hl.
    assert (Hrec : markerLineIndex CONFIG n (S i0) rest = Some (i0 + S i)).
    { replace (i0 + S i) with (S i0 + i) by lia.
      apply (IH (S i0) rest i); [lia|done|done|done|].
      intros j l Hj Hl'. apply (Hfirst (S j)); [lia|done]. }
    destruct (isBlank line0) eqn:Hb0; [done|].
    destruct (Hfirst 0 line0) as [Hn Hc]; [lia|done|done|].
    unfold isAnnotationLine in Hn. apply orb_false_elim in Hn as [-> ->].
    by rewrite Hc.
Qed.

Lemma configuredName_test pat s fw :
  configuredName CONFIG pat s = Some fw →
  match pat with Some p => test p s | None => false end = true.
Proof.
  unfold configuredName, test. destruct pat as [p|]; [|done].
  by destruct (p s).
Qed.

Lemma annotation_is_annotationLine line fw :
  annotationOf line = Some fw → isAnnotationLine CONFIG line = true.
Proof.
  unfold annotationOf, isAnnotationLine.
  destruct (configuredName CONFIG (markerPattern CONFIG) line) eqn:Hm.
  - intros _. by rewrite (configuredName_test _ _ _ Hm).
  - intros Hl. rewrite (configuredName_test _ _ _ Hl). apply orb_true_r.
Qed.

Lemma createGroupFromBatch_clears cur st :
  currentBatch (createGroupFromBatch CONFIG cur st) = []
  ∧ batchFrameworks (createGroupFromBatch CONFIG cur st) = ∅.
Proof.
  unfold createGroupFromBatch.
  destruct (currentBatch st) as [|b1 [|b2 batch]]; [done|done|].
  destruct (last _); [|done].
  destruct (splitAtPre _ _) as [[[front firstPre] behind]|]; [|done].
  by destruct (collectElementsToMove _ _ _ _).
Qed.

End Annotation.

(** The condition of C4 as it is stated: line [i] stands before the first
    line that is neither blank nor a comment, and it names a configured
    framework through the marker pattern. *)
Definition beforeFirstCodeLine (lines : list string) (i : nat) : Prop :=
  ∀ j l, j ≤ i → lines !! j = Some l → isBlank l = false →
         isCommentLine l = true.

Definition markedAsStated (CONFIG : config) (lines : list string) : Prop :=
  ∃ i line,
    i < maxLinesToCheck CONFIG ∧ lines !! i = Some line
    ∧ beforeFirstCodeLine lines i
    ∧ is_Some (configuredName CONFIG (markerPattern CONFIG) line).

(** C4 as it is stated fails: the first line that is no comment is still
    tested, so a marker on it assigns the framework. *)
Lemma marker_on_first_code_line :
  ¬ (∀ (CONFIG : config) (c : codeElement),
       is_Some (detectInLines CONFIG (maxLinesToCheck CONFIG)
                  (JS.splitLines (textContent c)))
       ↔ markedAsStated CONFIG (JS.splitLines (textContent c))).
Proof.
  intros H.
  destruct (H Samples.markerOnlyConfig Samples.starCommentCode) as [H1 _].
  destruct H1 as (i & line & _ & _ & Hbefore & _).
  { vm_compute. eauto. }
  specialize (Hbefore 0 "/* framework: hono */").
  assert (Hc : isCommentLine "/* framework: hono */" = true).
  { apply Hbefore; [lia| |]; by vm_compute. }
  vm_compute in Hc. discriminate.
Qed.

(** C4, amended.  On a code block without a cached framework the scan of
    the lines assigns the framework [fw] exactly when some line among the
    first [maxLinesToCheck] lines is not blank and names [fw] (its text
    matches [markerPattern], or failing that [labelPattern], and the
    captured name, in lower case and without white space, is a member of
    [CONFIG.frameworks]) while every line in front of it that is not blank
    names no framework and begins, once trimmed, with [//], [#] or [<!--];
    the line itself need not be a comment.  Without a label pattern the
    naming line is a marker line.  When no line in front of it passes the
    marker or label test at all, that line is the one [stripMarkerLine]
    takes out of the text.  In [processPage] a block for which a framework
    was detected is the last block of the batch afterwards and its
    framework is among those of the batch; a block without one leaves the
    batch empty. *)
Theorem annotation_assigns_framework (CONFIG : config) :
  (∀ c prev fw,
     isTruthy (dataset_framework c) = false →
     detectInLines CONFIG (maxLinesToCheck CONFIG)
       (JS.splitLines (textContent c)) = Some fw →
     detectFramework CONFIG prev c = (Some fw, setFrameworkData (Some fw) c))
  ∧ (∀ lines fw,
       detectInLines CONFIG (maxLinesToCheck CONFIG) lines = Some fw ↔
       ∃ i line,
         i < maxLinesToCheck CONFIG ∧ lines !! i = Some line
         ∧ isBlank line = false ∧ annotationOf CONFIG line = Some fw
         ∧ ∀ j l, j < i → lines !! j = Some l → isBlank l = false →
                  annotationOf CONFIG l = None ∧ isCommentLine l = true)
  ∧ (labelPattern CONFIG = None →
     ∀ line, annotationOf CONFIG line
             = configuredName CONFIG (markerPattern CONFIG) line)
  ∧ (∀ c i line fw,
       dataset_markerStripped c ≠ Some "true" →
       i < maxLinesToCheck CONFIG →
       JS.splitLines (textContent c) !! i = Some line →
       isBlank line = false → annotationOf CONFIG line = Some fw →
       (∀ j l, j < i → JS.splitLines (textContent c) !! j = Some l →
               isBlank l = false →
               isAnnotationLine CONFIG l = false ∧ isCommentLine l = true) →
       textContent (stripMarkerLine CONFIG c)
       = JS.joinLines (delete i (JS.splitLines (textContent c))))
  ∧ (∀ cur st id front p behind,
       splitAtPre id (dom st) = Some (front, p, behind) →
       let r := (detectFramework CONFIG
                   (paragraphOfNode (previousElementSibling front))
                   (pre_code p)).1 in
       (isTruthy r = true →
        last (currentBatch (processBlock CONFIG cur st id)) = Some id
        ∧ ∃ fw, r = Some fw
                ∧ fw ∈ batchFrameworks (processBlock CONFIG cur st id))
       ∧ (isTruthy r = false →
          currentBatch (processBlock CONFIG cur st id) = [])).
Proof.
  split_and!.
  - intros c prev fw Hc Hd. rewrite detectFramework_uncached by done.
    unfold detectUncached. by rewrite Hd.
  - intros lines fw. apply detectInLines_first.
  - intros Hl line. unfold annotationOf. rewrite Hl.
    by destruct (configuredName CONFIG (markerPattern CONFIG) line).
  - intros c i line fw Hs Hi Hl Hb Ha Hfirst.
    unfold stripMarkerLine. rewrite bool_decide_eq_false_2 by done.
    rewrite (markerLineIndex_first CONFIG _ 0 _ i line); try done.
    by eapply annotation_is_annotationLine.
  - intros cur st id front p behind Hsplit r. subst r.
    unfold processBlock. rewrite Hsplit.
    destruct (detectFramework CONFIG _ (pre_code p)) as [r c] eqn:Hd.
    cbn [fst]. split.
    + intros Ht. destruct r as [fw|]; [|done]. cbn [isTruthy] in Ht.
      rewrite Ht.
      destruct (match currentBatch st with [] => true | _ => false end
                || isAdjacentBlock CONFIG _ _ _).
      * cbn [currentBatch batchFrameworks]. split.
        -- by rewrite last_snoc.
        -- exists fw. split; [done|]. set_solver.
      * cbn [currentBatch batchFrameworks]. split; [done|].
        exists fw. split; [done|]. set_solver.
    + intros Ht. destruct r as [fw|].
      * cbn [isTruthy] in Ht. rewrite Ht.
        apply createGroupFromBatch_clears.
      * apply createGroupFromBatch_clears.
Qed.

(** *** [processPage], read from left to right

    [processPage] visits the blocks in document order, and every block it
    has put into the batch stands before the block it looks at.  So the
    run of the loop can be followed on the list of siblings itself: [zdone]
    are the siblings the loop has left for good, [zseg] are the siblings
    from the first to the last block of the batch, [ztrail] are those
    behind the last block of the batch that the loop has passed. *)

Section Scan.

Variable CONFIG : config.
Variable cur : string.

Record zstate := {
  zdone : list node;
  zseg : list node;
  ztrail : list node;
  zfws : gset string
}.

(** The siblings [isAdjacentBlock] steps over. *)
Definition isSeparator (n : node) : bool :=
  match n with
  | NText _ => true
  | NPara text => isBlank text || isLabelText CONFIG text
  | _ => false
  end.

Definition movedOf (seg : list node) : list groupChild :=
  omap (λ n, match n with
             | NPara text =>
                 if isLabelText CONFIG text then Some (GPara text) else None
             | NPre p => Some (GPre p)
             | _ => None
             end) seg.

Definition stays (n : node) : bool :=
  match n with
  | NPara text => negb (isLabelText CONFIG text)
  | NPre _ => false
  | _ => true
  end.

Definition keptOf (seg : list node) : list node :=
  filter (λ n, stays n = true) seg.

Definition availableOf (fws : gset string) : list string :=
  filter (λ fw, fw ∈ fws) (frameworks CONFIG).

(** The group made of the batch in [seg]. *)
Definition groupOf (seg : list node) (fws : gset string) : node :=
  NGroup (hideOthers CONFIG (selectFramework cur (availableOf fws)) None
            (createSwitcher CONFIG (selectFramework cur (availableOf fws))
               (availableOf fws)
             :: movedOf seg)).

(** What [createGroupFromBatch] leaves in the place of [seg]. *)
Definition flushSeg (seg : list node) (fws : gset string) : list node :=
  match allCodeBlocks seg with
  | _ :: _ :: _ => groupOf seg fws :: keptOf seg
  | _ => seg
  end.

Definition lastParagraph (front : list node) : option string :=
  paragraphOfNode (previousElementSibling front).

Definition zstep (st : zstate) (n : node) : zstate :=
  match n with
  | NPre p =>
      let '(r, c) :=
        detectFramework CONFIG
          (lastParagraph (zdone st ++ zseg st ++ ztrail st)) (pre_code p) in
      if isTruthy r then
        let n' := NPre (setCode (stripMarkerLine CONFIG c) p) in
        if match zseg st with [] => true | _ => false end
           || forallb isSeparator (ztrail st)
        then {| zdone := zdone st; zseg := zseg st ++ ztrail st ++ [n'];
                ztrail := [];
                zfws := match r with
                        | Some fw => {[fw]} ∪ zfws st
                        | None => zfws st
                        end |}
        else {| zdone := zdone st ++ flushSeg (zseg st) (zfws st) ++ ztrail st;
                zseg := [n']; ztrail := [];
                zfws := match r with
                        | Some fw => {[fw]}
                        | None => ∅
                        end |}
      else {| zdone := zdone st ++ flushSeg (zseg st) (zfws st) ++ ztrail st
                       ++ [NPre (setCode c p)];
              zseg := []; ztrail := []; zfws := ∅ |}
  | _ =>
      match zseg st with
      | [] => {| zdone := zdone st ++ ztrail st ++ [n]; zseg := [];
                 ztrail := []; zfws := zfws st |}
      | _ => {| zdone := zdone st; zseg := zseg st;
                ztrail := ztrail st ++ [n]; zfws := zfws st |}
      end
  end.

Definition zfinish (st : zstate) : list node :=
  zdone st ++ flushSeg (zseg st) (zfws st) ++ ztrail st.

Definition zinit : zstate :=
  {| zdone := []; zseg := []; ztrail := []; zfws := ∅ |}.

(** The shape of the state: the segment of the batch is empty or goes from
    a block to a block, and no block stands behind it. *)
Definition isPreNode (n : node) : bool :=
  match n with NPre _ => true | _ => false end.

Definition zwf (st : zstate) : Prop :=
  allCodeBlocks (ztrail st) = []
  ∧ ((zseg st = [] ∧ ztrail st = [] ∧ zfws st = ∅)
     ∨ (∃ p tl, zseg st = NPre p :: tl) ∧ (∃ hd p, zseg st = hd ++ [NPre p]))
  ∧ Forall (λ n, isSeparator n || isPreNode n = true) (zseg st).

Lemma allCodeBlocks_app l k :
  allCodeBlocks (l ++ k) = allCodeBlocks l ++ allCodeBlocks k.
Proof. apply omap_app. Qed.

Lemma allCodeBlocks_cons n l :
  allCodeBlocks (n :: l)
  = match n with NPre p => [pre_id p] | _ => [] end ++ allCodeBlocks l.
Proof. by destruct n. Qed.

Lemma movedOf_cons n l :
  movedOf (n :: l)
  = match n with
    | NPara text => if isLabelText CONFIG text then [GPara text] else []
    | NPre p => [GPre p]
    | _ => []
    end ++ movedOf l.
Proof.
  destruct n as [d|t|q|kids|tag]; try done. unfold movedOf. simpl.
  by destruct (isLabelText CONFIG t).
Qed.

Lemma keptOf_cons n l :
  keptOf (n :: l) = if stays n then n :: keptOf l else keptOf l.
Proof.
  unfold keptOf. destruct (stays n) eqn:Hs.
  - by rewrite filter_cons_True.
  - rewrite filter_cons_False; [done|]. by rewrite Hs.
Qed.


Lemma keptOf_app l k : keptOf (l ++ k) = keptOf l ++ keptOf k.
Proof. apply filter_app. Qed.

Lemma splitAtPre_here front p behind :
  pre_id p ∉ allCodeBlocks front →
  splitAtPre (pre_id p) (front ++ NPre p :: behind) = Some (front, p, behind).
Proof.
  induction front as [|n front IH]; intros Hnot.
  - simpl. by rewrite bool_decide_eq_true_2.
  - cbn [app splitAtPre].
    rewrite allCodeBlocks_cons in Hnot.
    destruct n as [d|t|q|kids|tag]; cbn [app] in Hnot;
      try (rewrite IH by done; done).
    apply not_elem_of_cons in Hnot as [Hne Hnot].
    rewrite bool_decide_eq_false_2 by done. by rewrite IH.
Qed.

Lemma walkToBlock_trail id trail p X :
  allCodeBlocks trail = [] → pre_id p = id →
  walkToBlock CONFIG id (trail ++ NPre p :: X) = forallb isSeparator trail.
Proof.
  intros Htrail Hid. induction trail as [|n trail IH].
  - simpl. by rewrite bool_decide_eq_true_2.
  - destruct n as [d|t|q|kids|tag]; cbn [app walkToBlock forallb isSeparator];
      try done.
    + apply IH. done.
    + destruct (isBlank t); cbn [orb]; [by apply IH|].
      destruct (isLabelText CONFIG t); [by apply IH|done].
Qed.

Lemma collect_seg batch lastPre hd p X :
  pre_id p = lastPre → lastPre ∉ allCodeBlocks hd →
  (∀ id, id ∈ allCodeBlocks hd → id ∈ batch) → lastPre ∈ batch →
  collectElementsToMove CONFIG batch lastPre (hd ++ NPre p :: X)
  = (movedOf (hd ++ [NPre p]), keptOf (hd ++ [NPre p]) ++ X).
Proof.
  intros Hid Hnot Hbatch Hlast. induction hd as [|n hd IH].
  - cbn [app collectElementsToMove]. rewrite bool_decide_eq_true_2 by done.
    rewrite Hid, bool_decide_eq_true_2 by done. done.
  - cbn [app collectElementsToMove].
    assert (Hn : match n with
                 | NPre p0 => bool_decide (pre_id p0 = lastPre)
                 | _ => false
                 end = false).
    { destruct n as [d|t|q|kids|tag]; try done.
      apply bool_decide_eq_false_2. intros Hq. apply Hnot.
      rewrite allCodeBlocks_cons, Hq. left. }
    rewrite Hn. rewrite IH; cycle 1.
    { intros Hin. apply Hnot. rewrite allCodeBlocks_cons.
      apply elem_of_app. by right. }
    { intros id Hin. apply Hbatch. rewrite allCodeBlocks_cons.
      apply elem_of_app. by right. }
    rewrite movedOf_cons, keptOf_cons.
    destruct n as [d|t|q|kids|tag]; cbn [stays app]; try done.
    + by destruct (isLabelText CONFIG t).
    + rewrite bool_decide_eq_true_2; [done|].
      apply Hbatch. rewrite allCodeBlocks_cons. left.
Qed.

(** The variables of [processPage] that correspond to a state of the
    scan, when [rest] are the siblings still in front of the loop. *)
Definition pageOf (st : zstate) (rest : list node) : pageState :=
  {| dom := zdone st ++ zseg st ++ ztrail st ++ rest;
     currentBatch := allCodeBlocks (zseg st);
     batchFrameworks := zfws st |}.

Lemma allCodeBlocks_keptOf seg : allCodeBlocks (keptOf seg) = [].
Proof.
  induction seg as [|n seg IH]; [done|]. rewrite keptOf_cons.
  destruct n; cbn [stays]; try done.
  destruct (negb _); [|done]. by rewrite allCodeBlocks_cons.
Qed.

Lemma allCodeBlocks_flushSeg seg fws :
  allCodeBlocks (flushSeg seg fws) `sublist_of` allCodeBlocks seg.
Proof.
  unfold flushSeg. destruct (allCodeBlocks seg) as [|a [|b l]] eqn:E.
  - by rewrite E.
  - by rewrite E.
  - unfold groupOf. rewrite allCodeBlocks_cons. cbn [app].
    rewrite allCodeBlocks_keptOf. apply sublist_nil_l.
Qed.

Lemma createGroupFromBatch_local st rest :
  zwf st → NoDup (allCodeBlocks (zdone st ++ zseg st)) →
  createGroupFromBatch CONFIG cur (pageOf st rest)
  = {| dom := zdone st ++ flushSeg (zseg st) (zfws st) ++ ztrail st ++ rest;
       currentBatch := []; batchFrameworks := ∅ |}.
Proof.
  intros (Htrail & Hseg & _) Hnd. unfold createGroupFromBatch, flushSeg.
  cbn [pageOf currentBatch dom batchFrameworks].
  destruct (allCodeBlocks (zseg st)) as [|b1 [|b2 batch]] eqn:Hbatch; [done|done|].
  destruct Hseg as [[Hseg _]|[(pf & tl & Hfirst) (hd & pl & Hlast)]].
  { rewrite Hseg in Hbatch. done. }
  assert (Hb1 : b1 = pre_id pf).
  { rewrite Hfirst, allCodeBlocks_cons in Hbatch. by injection Hbatch. }
  assert (Hall : allCodeBlocks (zseg st) = allCodeBlocks hd ++ [pre_id pl]).
  { rewrite Hlast, allCodeBlocks_app. done. }
  rewrite <- Hbatch. rewrite Hall at 1. rewrite last_snoc.
  rewrite allCodeBlocks_app in Hnd. apply NoDup_app in Hnd as (_ & Hdisj & Hnd).
  subst b1.
  assert (Hs : splitAtPre (pre_id pf) (zdone st ++ zseg st ++ ztrail st ++ rest)
               = Some (zdone st, pf, tl ++ ztrail st ++ rest)).
  { rewrite Hfirst. apply splitAtPre_here.
    intros Hin. apply (Hdisj _ Hin). rewrite Hfirst, allCodeBlocks_cons. left. }
  rewrite Hs.
  replace (NPre pf :: tl ++ ztrail st ++ rest)
    with (hd ++ NPre pl :: (ztrail st ++ rest)); cycle 1.
  { change (NPre pf :: tl ++ ztrail st ++ rest)
      with ((NPre pf :: tl) ++ ztrail st ++ rest).
    rewrite <- Hfirst, Hlast, <- app_assoc. done. }
  rewrite (collect_seg _ (pre_id pl)); try done.
  - rewrite <- Hlast. done.
  - rewrite Hall in Hnd. apply NoDup_app in Hnd as (_ & Hd & _).
    intros Hin. apply (Hd _ Hin). left.
  - intros id Hin. rewrite Hall. apply elem_of_app. by left.
  - rewrite Hall. apply elem_of_app. right. left.
Qed.

Lemma zstep_wf st n : zwf st → zwf (zstep st n).
Proof.
  intros (Htrail & Hseg & Hsep). unfold zstep.
  destruct n as [d|t|p|kids|tag].
  1,2,4,5:
    destruct (zseg st) as [|n0 seg] eqn:E;
      [split_and!; [done|left; by destruct Hseg as [(_ & _ & ?)|[[? [? ?]] _]]|done]
      |split_and!; [cbn [ztrail]; by rewrite allCodeBlocks_app, Htrail
                   |cbn [zseg]; destruct Hseg as [[? _]|?]; [done|by right]
                   |done]].
  destruct (detectFramework CONFIG _ (pre_code p)) as [r c].
  destruct (isTruthy r); [|split_and!; [done|by left|done]].
  destruct (match zseg st with [] => true | _ => false end
            || forallb isSeparator (ztrail st)) eqn:Hadj.
  - split_and!; [done| |].
    + right. cbn [zseg]. split.
      * destruct Hseg as [(-> & -> & _)|[(pf & tl & ->) _]].
        -- by eexists _, _.
        -- eexists _, _. rewrite <- app_comm_cons. done.
      * eexists (zseg st ++ ztrail st), _. by rewrite app_assoc.
    + cbn [zseg]. apply Forall_app. split; [done|].
      apply Forall_app. split; [|by repeat constructor].
      destruct Hseg as [(_ & -> & _)|[(pf & tl & Hf) _]]; [done|].
      rewrite Hf in Hadj. cbn [orb] in Hadj.
      apply Forall_forall. intros x Hx.
      rewrite forallb_forall in Hadj.
      rewrite (Hadj x) by (by apply list_elem_of_In). done.
  - split_and!; [done| |by repeat constructor].
    right. cbn [zseg]. split.
    + by eexists _, _.
    + by eexists [], _.
Qed.

Lemma pageOf_dom_split st n rest :
  dom (pageOf st (n :: rest))
  = (zdone st ++ zseg st ++ ztrail st) ++ n :: rest.
Proof. cbn [pageOf dom]. by rewrite <- !app_assoc. Qed.

Lemma isAdjacentBlock_local st hd pl p id rest :
  zseg st = hd ++ [NPre pl] → allCodeBlocks (ztrail st) = [] →
  NoDup (allCodeBlocks (zdone st ++ zseg st)) → pre_id p = id →
  isAdjacentBlock CONFIG
    ((zdone st ++ zseg st ++ ztrail st) ++ NPre p :: rest)
    (allCodeBlocks (zseg st)) id
  = forallb isSeparator (ztrail st).
Proof.
  intros Hlast Htrail Hnd Hid. unfold isAdjacentBlock.
  assert (Hall : allCodeBlocks (zseg st) = allCodeBlocks hd ++ [pre_id pl]).
  { rewrite Hlast, allCodeBlocks_app. done. }
  rewrite Hall, last_snoc.
  replace ((zdone st ++ zseg st ++ ztrail st) ++ NPre p :: rest)
    with ((zdone st ++ hd) ++ NPre pl :: (ztrail st ++ NPre p :: rest)).
  2:{ rewrite Hlast, <- !app_assoc. done. }
  rewrite splitAtPre_here.
  - by apply walkToBlock_trail.
  - rewrite Hlast, app_assoc, allCodeBlocks_app in Hnd.
    apply NoDup_app in Hnd as (_ & Hd & _).
    intros Hin. apply (Hd _ Hin). left.
Qed.

Lemma processBlock_zstep st p rest :
  zwf st →
  NoDup (allCodeBlocks (zdone st ++ zseg st ++ ztrail st ++ NPre p :: rest)) →
  processBlock CONFIG cur (pageOf st (NPre p :: rest)) (pre_id p)
  = pageOf (zstep st (NPre p)) rest.
Proof.
  intros Hwf Hnd.
  assert (Hfront : pre_id p ∉ allCodeBlocks (zdone st ++ zseg st ++ ztrail st)).
  { rewrite !app_assoc, allCodeBlocks_app in Hnd.
    apply NoDup_app in Hnd as (_ & Hd & _).
    rewrite <- !app_assoc in Hd. intros Hin. apply (Hd _ Hin).
    rewrite allCodeBlocks_cons. left. }
  assert (Hnd2 : NoDup (allCodeBlocks (zdone st ++ zseg st))).
  { rewrite app_assoc, allCodeBlocks_app in Hnd.
    by apply NoDup_app in Hnd as (? & _). }
  unfold processBlock. rewrite pageOf_dom_split.
  rewrite splitAtPre_here by done.
  unfold zstep, lastParagraph.
  destruct (detectFramework CONFIG _ (pre_code p)) as [r c].
  cbn [pageOf currentBatch batchFrameworks].
  assert (Hfalsy :
    createGroupFromBatch CONFIG cur
      {| dom := (zdone st ++ zseg st ++ ztrail st) ++ NPre (setCode c p) :: rest;
         currentBatch := allCodeBlocks (zseg st);
         batchFrameworks := zfws st |}
    = pageOf
        {| zdone := zdone st ++ flushSeg (zseg st) (zfws st) ++ ztrail st
                    ++ [NPre (setCode c p)];
           zseg := []; ztrail := []; zfws := ∅ |} rest).
  { rewrite <- pageOf_dom_split.
    change {| dom := dom (pageOf st (NPre (setCode c p) :: rest));
              currentBatch := allCodeBlocks (zseg st);
              batchFrameworks := zfws st |}
      with (pageOf st (NPre (setCode c p) :: rest)).
    rewrite createGroupFromBatch_local by done.
    unfold pageOf. cbn [zdone zseg ztrail zfws]. f_equal.
    rewrite <- !app_assoc. done. }
  destruct r as [fw|]; [|exact Hfalsy].
  cbn [isTruthy]. destruct (JS.truthy fw); [|exact Hfalsy].
  pose proof Hwf as Hwf0.
  destruct Hwf as (Htrail & [(Hseg & Htr & _)|[(pf & tl & Hfirst) (hd & pl & Hlast)]] & _).
  - rewrite Hseg, Htr. cbn [allCodeBlocks omap orb app].
    unfold pageOf. cbn [zdone zseg ztrail zfws]. f_equal.
    by rewrite app_nil_r.
  - rewrite (isAdjacentBlock_local st hd pl _ (pre_id p)) by done.
    assert (Hm1 : match allCodeBlocks (zseg st) with
                  | [] => true | _ => false end = false).
    { by rewrite Hfirst, allCodeBlocks_cons. }
    assert (Hm2 : match zseg st with [] => true | _ => false end = false).
    { by rewrite Hfirst. }
    rewrite Hm1, Hm2. cbn [orb].
    destruct (forallb isSeparator (ztrail st)).
    + unfold pageOf. cbn [zdone zseg ztrail zfws]. f_equal.
      * rewrite <- !app_assoc. done.
      * rewrite !allCodeBlocks_app, Htrail. done.
    + rewrite <- pageOf_dom_split.
      change {| dom := dom (pageOf st (NPre (setCode (stripMarkerLine CONFIG c) p) :: rest));
                currentBatch := allCodeBlocks (zseg st);
                batchFrameworks := zfws st |}
        with (pageOf st (NPre (setCode (stripMarkerLine CONFIG c) p) :: rest)).
      rewrite createGroupFromBatch_local by done.
      unfold pageOf. cbn [dom zdone zseg ztrail zfws]. f_equal.
      rewrite <- !app_assoc. done.
Qed.

Lemma zstep_ids st n rest :
  allCodeBlocks (zdone (zstep st n) ++ zseg (zstep st n)
                 ++ ztrail (zstep st n) ++ rest)
  `sublist_of`
  allCodeBlocks (zdone st ++ zseg st ++ ztrail st ++ n :: rest).
Proof.
  assert (Hflush : ∀ X,
    allCodeBlocks (zdone st ++ flushSeg (zseg st) (zfws st) ++ ztrail st ++ X)
    `sublist_of` allCodeBlocks (zdone st ++ zseg st ++ ztrail st ++ X)).
  { intros X. rewrite !allCodeBlocks_app.
    apply sublist_app; [done|]. apply sublist_app; [|done].
    apply allCodeBlocks_flushSeg. }
  unfold zstep. destruct n as [d|t|p|kids|tag].
  1,2,4,5:
    destruct (zseg st); cbn [zdone zseg ztrail];
      rewrite <- ?app_assoc; cbn [app]; done.
  destruct (detectFramework CONFIG _ (pre_code p)) as [r c].
  destruct (isTruthy r).
  - destruct (match zseg st with [] => true | _ => false end
              || forallb isSeparator (ztrail st));
      cbn [zdone zseg ztrail].
    + rewrite <- !app_assoc. cbn [app].
      rewrite !allCodeBlocks_app, !allCodeBlocks_cons. done.
    + rewrite <- !app_assoc. cbn [app].
      etrans; [|apply Hflush].
      rewrite !allCodeBlocks_app, !allCodeBlocks_cons. done.
  - cbn [zdone zseg ztrail]. rewrite <- !app_assoc. cbn [app].
    etrans; [|apply Hflush].
    rewrite !allCodeBlocks_app, !allCodeBlocks_cons. done.
Qed.

(** The loop of [processPage] and the scan arrive at the same state. *)
Lemma foldl_processBlock_zstep rest st :
  zwf st →
  NoDup (allCodeBlocks (zdone st ++ zseg st ++ ztrail st ++ rest)) →
  foldl (processBlock CONFIG cur) (pageOf st rest) (allCodeBlocks rest)
  = pageOf (foldl zstep st rest) [].
Proof.
  revert st. induction rest as [|n rest IH]; intros st Hwf Hnd; [done|].
  cbn [foldl].
  assert (Hnext : NoDup (allCodeBlocks
            (zdone (zstep st n) ++ zseg (zstep st n)
             ++ ztrail (zstep st n) ++ rest))).
  { eapply sublist_NoDup; [done|apply zstep_ids]. }
  rewrite <- (IH (zstep st n)) by (done || by apply zstep_wf).
  rewrite allCodeBlocks_cons.
  destruct n as [d|t|p|kids|tag]; cbn [app foldl].
  3: { by rewrite processBlock_zstep. }
  all: f_equal; unfold pageOf, zstep;
    destruct Hwf as (_ & [(-> & -> & _)|[(pf & tl & ->) _]] & _);
    cbn [zdone zseg ztrail zfws app]; f_equal;
    rewrite <- ?app_assoc; done.
Qed.

Lemma allCodeBlocks_clearExistingGroups nodes :
  allCodeBlocks (clearExistingGroups nodes) = allCodeBlocks nodes.
Proof.
  induction nodes as [|n nodes IH]; [done|].
  cbn [clearExistingGroups map]. rewrite !allCodeBlocks_cons.
  fold (clearExistingGroups nodes). rewrite IH. by destruct n.
Qed.

(** [processPage] is the scan of the siblings. *)
Lemma processPage_scan nodes :
  NoDup (allCodeBlocks nodes) →
  processPage CONFIG cur nodes
  = zfinish (foldl zstep zinit (clearExistingGroups nodes)).
Proof.
  intros Hnd. unfold processPage.
  change {| dom := clearExistingGroups nodes; currentBatch := [];
            batchFrameworks := ∅ |}
    with (pageOf zinit (clearExistingGroups nodes)).
  assert (Hwf : zwf zinit) by (split_and!; [done|by left|done]).
  assert (Hnd' : NoDup (allCodeBlocks
                   (zdone zinit ++ zseg zinit ++ ztrail zinit
                    ++ clearExistingGroups nodes))).
  { cbn [zinit zdone zseg ztrail app].
    by rewrite allCodeBlocks_clearExistingGroups. }
  rewrite foldl_processBlock_zstep by done.
  set (st := foldl zstep zinit (clearExistingGroups nodes)).
  assert (Hwf' : zwf st).
  { subst st. generalize (clearExistingGroups nodes) zinit Hwf.
    intros l. induction l as [|n l IH]; intros st0 H0; [done|].
    cbn [foldl]. apply IH. by apply zstep_wf. }
  assert (Hnd'' : NoDup (allCodeBlocks (zdone st ++ zseg st))).
  { subst st. revert Hnd'. generalize zinit.
    generalize (clearExistingGroups nodes).
    intros l. induction l as [|n l IH]; intros st0 H0.
    - cbn [foldl]. rewrite !app_nil_r in H0.
      rewrite app_assoc, allCodeBlocks_app in H0.
      by apply NoDup_app in H0 as (? & _).
    - cbn [foldl]. apply IH.
      eapply sublist_NoDup; [done|apply zstep_ids]. }
  rewrite createGroupFromBatch_local by done.
  cbn [dom]. unfold zfinish. by rewrite app_nil_r.
Qed.

(** *** The blocks stay in document order *)

Definition groupPreIds (kids : list groupChild) : list nat :=
  omap (λ k, match k with GPre p => Some (pre_id p) | _ => None end) kids.

(** The blocks of a page, those inside groups too, in document order. *)
Definition allPreIds (nodes : list node) : list nat :=
  flat_map (λ n, match n with
                 | NPre p => [pre_id p]
                 | NGroup kids => groupPreIds kids
                 | _ => []
                 end) nodes.

Lemma allPreIds_app l k : allPreIds (l ++ k) = allPreIds l ++ allPreIds k.
Proof. apply flat_map_app. Qed.

Lemma allPreIds_cons n l :
  allPreIds (n :: l)
  = match n with
    | NPre p => [pre_id p]
    | NGroup kids => groupPreIds kids
    | _ => []
    end ++ allPreIds l.
Proof. done. Qed.

Lemma groupPreIds_hideOthers sel prev kids :
  groupPreIds (hideOthers CONFIG sel prev kids) = groupPreIds kids.
Proof.
  revert prev. induction kids as [|k kids IH]; intros prev; [done|].
  cbn [hideOthers]. destruct k as [bs|t|p].
  - unfold groupPreIds in *. cbn [omap list_omap]. apply IH.
  - unfold groupPreIds in *. cbn [omap list_omap]. apply IH.
  - destruct (frameworkOf CONFIG _ (pre_code p)) as [fw c].
    destruct (isTruthy fw && _);
      unfold groupPreIds in *; cbn [omap list_omap]; f_equal; apply IH.
Qed.

Lemma groupPreIds_movedOf seg : groupPreIds (movedOf seg) = allCodeBlocks seg.
Proof.
  induction seg as [|n seg IH]; [done|].
  rewrite movedOf_cons, allCodeBlocks_cons. unfold groupPreIds in *.
  rewrite omap_app, IH. f_equal.
  destruct n as [d|t|q|kids|tag]; try done. by destruct (isLabelText CONFIG t).
Qed.

Lemma allPreIds_separated seg :
  Forall (λ n, isSeparator n || isPreNode n = true) seg →
  allPreIds seg = allCodeBlocks seg ∧ allPreIds (keptOf seg) = [].
Proof.
  induction 1 as [|n seg Hn _ [IH1 IH2]]; [done|].
  rewrite allPreIds_cons, allCodeBlocks_cons, keptOf_cons, IH1.
  destruct n as [d|t|q|kids|tag]; try done; cbn [stays].
  destruct (negb _); [|done]. by rewrite allPreIds_cons.
Qed.

Lemma allPreIds_flushSeg seg fws :
  Forall (λ n, isSeparator n || isPreNode n = true) seg →
  allPreIds (flushSeg seg fws) = allPreIds seg.
Proof.
  intros Hsep. destruct (allPreIds_separated seg Hsep) as [H1 H2].
  unfold flushSeg. destruct (allCodeBlocks seg) as [|a [|b l]] eqn:E; try done.
  unfold groupOf. rewrite allPreIds_cons, H2, app_nil_r, H1.
  rewrite groupPreIds_hideOthers. unfold createSwitcher.
  change (groupPreIds (GSwitcher ?bs :: ?l)) with (groupPreIds l).
  rewrite groupPreIds_movedOf. done.
Qed.

Lemma allPreIds_clearExistingGroups nodes :
  allPreIds (clearExistingGroups nodes) = allPreIds nodes.
Proof.
  induction nodes as [|n nodes IH]; [done|].
  cbn [clearExistingGroups map]. fold (clearExistingGroups nodes).
  rewrite !allPreIds_cons, IH. f_equal. destruct n as [d|t|q|kids|tag]; try done.
  induction kids as [|k kids IHk]; [done|].
  destruct k; cbn [map clearProcessing]; unfold groupPreIds in *;
    cbn [omap list_omap]; by rewrite ?IHk.
Qed.

Lemma zstep_delta st n :
  zwf st →
  ∃ Δ, zdone (zstep st n) = zdone st ++ Δ
       ∧ allPreIds (Δ ++ zseg (zstep st n) ++ ztrail (zstep st n))
         = allPreIds (zseg st ++ ztrail st ++ [n]).
Proof.
  intros (Htrail & Hseg & Hsep).
  pose proof (allPreIds_flushSeg (zseg st) (zfws st) Hsep) as Hflush.
  unfold zstep. destruct n as [d|t|p|kids|tag].
  1,2,4,5:
    destruct (zseg st) as [|n0 seg] eqn:E; cbn [zdone zseg ztrail];
      [eexists; split; [done|by rewrite !app_nil_r]
      |exists []; split; [by rewrite app_nil_r|done]].
  destruct (detectFramework CONFIG _ (pre_code p)) as [r c].
  destruct (isTruthy r).
  - destruct (match zseg st with [] => true | _ => false end
              || forallb isSeparator (ztrail st)); cbn [zdone zseg ztrail].
    + exists []. split; [by rewrite app_nil_r|].
      cbn [app]. rewrite app_nil_r, !allPreIds_app. done.
    + eexists. split; [done|].
      rewrite <- !app_assoc, !allPreIds_app, Hflush. done.
  - cbn [zdone zseg ztrail]. eexists. split; [done|].
    rewrite <- !app_assoc, !allPreIds_app, Hflush. done.
Qed.

(** The scan leaves what it has put aside, and every block of the page
    is in the result, in the order of the page. *)
Lemma zfinish_prefix l st :
  zwf st →
  ∃ X, zfinish (foldl zstep st l) = zdone st ++ X
       ∧ allPreIds X = allPreIds (zseg st ++ ztrail st ++ l).
Proof.
  revert st. induction l as [|n l IH]; intros st Hwf.
  - cbn [foldl]. unfold zfinish. eexists. split; [done|].
    destruct Hwf as (_ & _ & Hsep).
    rewrite !allPreIds_app, (allPreIds_flushSeg _ _ Hsep).
    change (allPreIds []) with (@nil nat). by rewrite app_nil_r.
  - cbn [foldl].
    destruct (IH (zstep st n) (zstep_wf st n Hwf)) as (X & HX & Hids).
    destruct (zstep_delta st n Hwf) as (Δ & HΔ & Hd).
    exists (Δ ++ X). split.
    + rewrite HX, HΔ, <- app_assoc. done.
    + rewrite allPreIds_app, Hids.
      rewrite !allPreIds_app in Hd |- *.
      rewrite !app_assoc in Hd |- *. rewrite Hd.
      rewrite <- !app_assoc.
      change (n :: l) with ([n] ++ l). by rewrite allPreIds_app.
Qed.


(** *** The paragraph in front of a block *)

Lemma lastParagraph_snoc X n :
  lastParagraph (X ++ [n])
  = if isElement n then paragraphOfNode (Some n) else lastParagraph X.
Proof.
  unfold lastParagraph, previousElementSibling. rewrite filter_app.
  destruct (isElement n) eqn:He.
  - rewrite filter_cons_True by done. cbn [filter list_filter].
    by rewrite last_snoc.
  - rewrite filter_cons_False by (by rewrite He). cbn [filter list_filter].
    by rewrite app_nil_r.
Qed.

Lemma lastParagraph_congr A B l :
  lastParagraph A = lastParagraph B →
  lastParagraph (A ++ l) = lastParagraph (B ++ l).
Proof.
  intros HAB. induction l as [|n l IH] using rev_ind.
  - by rewrite !app_nil_r.
  - rewrite !app_assoc, !lastParagraph_snoc. by rewrite IH.
Qed.

Lemma lastParagraph_after_pre X q q' seps :
  lastParagraph (X ++ NPre q :: seps) = lastParagraph (NPre q' :: seps).
Proof.
  change (X ++ NPre q :: seps) with (X ++ [NPre q] ++ seps).
  change (NPre q' :: seps) with ([NPre q'] ++ seps).
  rewrite app_assoc. apply lastParagraph_congr.
  rewrite lastParagraph_snoc. done.
Qed.

Definition clearNode (n : node) : node :=
  match n with
  | NGroup kids => NGroup (map clearProcessing kids)
  | _ => n
  end.

Lemma clearExistingGroups_map nodes :
  clearExistingGroups nodes = map clearNode nodes.
Proof. done. Qed.

Lemma lastParagraph_clear A :
  lastParagraph (clearExistingGroups A) = lastParagraph A.
Proof.
  rewrite clearExistingGroups_map.
  induction A as [|n A IH] using rev_ind; [done|].
  rewrite map_app. cbn [map]. rewrite !lastParagraph_snoc, IH.
  by destruct n.
Qed.

Definition znodes (st : zstate) : list node :=
  zdone st ++ zseg st ++ ztrail st.

Lemma zstep_lastParagraph st n :
  lastParagraph (znodes (zstep st n)) = lastParagraph (znodes st ++ [n]).
Proof.
  unfold znodes, zstep. destruct n as [d|t|p|kids|tag].
  1,2,4,5:
    destruct (zseg st) as [|n0 seg]; cbn [zdone zseg ztrail];
      rewrite <- ?app_assoc; cbn [app]; rewrite ?app_nil_r;
      rewrite <- ?app_assoc; done.
  destruct (detectFramework CONFIG _ (pre_code p)) as [r c].
  rewrite (lastParagraph_snoc _ (NPre p)). cbn [isElement paragraphOfNode].
  destruct (isTruthy r).
  - destruct (match zseg st with [] => true | _ => false end
              || forallb isSeparator (ztrail st)); cbn [zdone zseg ztrail].
    + rewrite app_nil_r, !app_assoc. by rewrite lastParagraph_snoc.
    + rewrite app_nil_r. by rewrite lastParagraph_snoc.
  - cbn [zdone zseg ztrail]. rewrite !app_nil_r, !app_assoc.
    by rewrite lastParagraph_snoc.
Qed.

Lemma foldl_lastParagraph l st A :
  lastParagraph (znodes st) = lastParagraph A →
  lastParagraph (znodes (foldl zstep st l)) = lastParagraph (A ++ l).
Proof.
  revert st A. induction l as [|n l IH]; intros st A HA.
  - by rewrite app_nil_r.
  - cbn [foldl]. rewrite (IH _ (A ++ [n])).
    + by rewrite <- app_assoc.
    + rewrite zstep_lastParagraph. by apply lastParagraph_congr.
Qed.

Lemma foldl_zstep_wf l st : zwf st → zwf (foldl zstep st l).
Proof.
  revert st. induction l as [|n l IH]; intros st Hwf; [done|].
  cbn [foldl]. apply IH. by apply zstep_wf.
Qed.

(** *** The ends of a run *)

(** The framework detected for the block [p] that stands behind the
    siblings [front]. *)
Definition detectedAt (front : list node) (p : preElement) : option string :=
  (detectFramework CONFIG (lastParagraph front) (pre_code p)).1.

(** The run does not go on to the left: going left over separators from
    the first block of the run, read from the reversed list [rb] of the
    siblings in front of it, one comes to the start of the list, to an
    element that is no separator, or to a block without a detected
    framework. *)
Fixpoint closedLeft (rb : list node) : bool :=
  match rb with
  | [] => true
  | n :: rb' =>
      if isSeparator n then closedLeft rb'
      else match n with
           | NPre q => negb (isTruthy (detectedAt (rev rb') q))
           | _ => true
           end
  end.

(** The run does not go on to the right, for the siblings [after] behind
    its last block; [front] are the siblings from that block on that have
    been passed. *)
Fixpoint closedRight (front : list node) (after : list node) : bool :=
  match after with
  | [] => true
  | n :: after' =>
      if isSeparator n then closedRight (front ++ [n]) after'
      else match n with
           | NPre q => negb (isTruthy (detectedAt front q))
           | _ => true
           end
  end.

(** The batch cannot take another block. *)
Definition sealed (st : zstate) : Prop :=
  zseg st = [] ∨ forallb isSeparator (ztrail st) = false.

Lemma isSeparator_clearNode n : isSeparator (clearNode n) = isSeparator n.
Proof. by destruct n. Qed.

Lemma zstep_other_sealed st n :
  isPreNode n = false →
  sealed st ∨ isSeparator n = false → sealed (zstep st n).
Proof.
  intros Hn Hs. unfold sealed, zstep in *.
  destruct n as [d|t|p|kids|tag]; try done;
    (destruct (zseg st) as [|n0 seg] eqn:E; cbn [zseg ztrail]; [by left|];
     right; rewrite forallb_app; cbn [forallb];
     destruct Hs as [[? | ->] | ->]; try done; by rewrite ?andb_false_r).
Qed.

Lemma closedLeft_sealed B :
  closedLeft (rev B) = true →
  sealed (foldl zstep zinit (clearExistingGroups B)).
Proof.
  induction B as [|n B IH] using rev_ind; [by left|].
  rewrite rev_unit. cbn [closedLeft]. intros Hc.
  rewrite clearExistingGroups_map, map_app, foldl_app. cbn [map foldl].
  rewrite <- clearExistingGroups_map.
  set (st := foldl zstep zinit (clearExistingGroups B)) in *.
  destruct (isSeparator n) eqn:Hsep.
  - apply zstep_other_sealed.
    + destruct n; try done.
    + left. by apply IH.
  - destruct n as [d|t|p|kids|tag]; try done.
    + apply zstep_other_sealed; [done|]. right. done.
    + rewrite rev_involutive in Hc. apply negb_true_iff in Hc.
      unfold detectedAt in Hc. cbn [clearNode]. unfold zstep.
      assert (Hctx : lastParagraph (zdone st ++ zseg st ++ ztrail st)
                     = lastParagraph B).
      { subst st. fold (znodes (foldl zstep zinit (clearExistingGroups B))).
        rewrite (foldl_lastParagraph (clearExistingGroups B) zinit []) by done.
        cbn [app]. apply lastParagraph_clear. }
      rewrite Hctx.
      destruct (detectFramework CONFIG (lastParagraph B) (pre_code p)) as [r c].
      cbn [fst] in Hc. rewrite Hc. by left.
    + apply zstep_other_sealed; [done|]. right. done.
    + apply zstep_other_sealed; [done|]. right. done.
Qed.

(** *** A run of annotated blocks

    A run is given by its first block [b1] and by [more]: each further
    block with the siblings between it and the block before. *)

Fixpoint moreNodes (more : list (list node * preElement)) : list node :=
  match more with
  | [] => []
  | (seps, b) :: more' => seps ++ NPre b :: moreNodes more'
  end.

Definition runNodes (b1 : preElement) (more : list (list node * preElement))
  : list node :=
  NPre b1 :: moreNodes more.

(** Between two blocks of the run stand separators only, and every
    further block has a detected framework. *)
Fixpoint annotatedMore (b : preElement) (more : list (list node * preElement))
  : Prop :=
  match more with
  | [] => True
  | (seps, b') :: more' =>
      forallb isSeparator seps = true
      ∧ isTruthy (detectedAt (NPre b :: seps) b') = true
      ∧ annotatedMore b' more'
  end.

(** A block of the run as the loop leaves it: the framework cached, the
    marker line stripped. *)
Definition processedBlock (front : list node) (p : preElement) : preElement :=
  setCode (stripMarkerLine CONFIG
             (detectFramework CONFIG (lastParagraph front) (pre_code p)).2) p.

Fixpoint processedMore (b : preElement) (more : list (list node * preElement))
  : list node :=
  match more with
  | [] => []
  | (seps, b') :: more' =>
      seps ++ NPre (processedBlock (NPre b :: seps) b') :: processedMore b' more'
  end.

Definition processedRun (before : list node) (b1 : preElement)
    (more : list (list node * preElement)) : list node :=
  NPre (processedBlock before b1) :: processedMore b1 more.

Definition nameOf (r : option string) : list string :=
  match r with Some fw => [fw] | None => [] end.

Fixpoint moreNames (b : preElement) (more : list (list node * preElement))
  : list string :=
  match more with
  | [] => []
  | (seps, b') :: more' =>
      nameOf (detectedAt (NPre b :: seps) b') ++ moreNames b' more'
  end.


Fixpoint lastOf (b : preElement) (more : list (list node * preElement))
  : preElement :=
  match more with
  | [] => b
  | (_, b') :: more' => lastOf b' more'
  end.

Lemma zstate_eta st :
  st = {| zdone := zdone st; zseg := zseg st; ztrail := ztrail st;
          zfws := zfws st |}.
Proof. by destruct st. Qed.

Lemma zstep_separator st n :
  zseg st ≠ [] → isPreNode n = false →
  zstep st n = {| zdone := zdone st; zseg := zseg st;
                  ztrail := ztrail st ++ [n]; zfws := zfws st |}.
Proof.
  intros Hseg Hn. unfold zstep.
  destruct n as [d|t|p|kids|tag]; try done; by destruct (zseg st).
Qed.

Lemma isSeparator_not_pre n : isSeparator n = true → isPreNode n = false.
Proof. by destruct n. Qed.

Lemma scan_separators seps st :
  zseg st ≠ [] → forallb isSeparator seps = true →
  foldl zstep st seps
  = {| zdone := zdone st; zseg := zseg st; ztrail := ztrail st ++ seps;
       zfws := zfws st |}.
Proof.
  revert st. induction seps as [|n seps IH]; intros st Hseg Hsep.
  - cbn [foldl]. rewrite app_nil_r. apply zstate_eta.
  - cbn [forallb] in Hsep. apply andb_prop in Hsep as [Hn Hsep].
    cbn [foldl]. rewrite zstep_separator by (done || by apply isSeparator_not_pre).
    rewrite IH by done. cbn [zdone zseg ztrail zfws].
    by rewrite <- app_assoc.
Qed.

(** One more block joins the batch. *)
Lemma zstep_joins st hd q b seps p :
  zseg st = hd ++ [NPre q] → ztrail st = seps →
  forallb isSeparator seps = true →
  isTruthy (detectedAt (NPre b :: seps) p) = true →
  zstep st (NPre p)
  = {| zdone := zdone st;
       zseg := zseg st ++ seps ++ [NPre (processedBlock (NPre b :: seps) p)];
       ztrail := [];
       zfws := list_to_set (nameOf (detectedAt (NPre b :: seps) p)) ∪ zfws st |}.
Proof.
  intros Hseg Htrail Hsep Hdet. unfold zstep.
  assert (Hctx : lastParagraph (zdone st ++ zseg st ++ ztrail st)
                 = lastParagraph (NPre b :: seps)).
  { rewrite Hseg, Htrail, <- !app_assoc, app_assoc. cbn [app].
    apply lastParagraph_after_pre. }
  rewrite Hctx. unfold detectedAt, processedBlock in *.
  destruct (detectFramework CONFIG _ (pre_code p)) as [r c].
  cbn [fst snd] in *. rewrite Hdet, Htrail, Hsep, orb_true_r.
  f_equal. destruct r as [fw|]; [|done]. cbn [nameOf list_to_set].
  by rewrite union_empty_r_L.
Qed.

Lemma scan_more more :
  ∀ b st hd q,
    zseg st = hd ++ [NPre q] → ztrail st = [] → annotatedMore b more →
    foldl zstep st (moreNodes more)
    = {| zdone := zdone st; zseg := zseg st ++ processedMore b more;
         ztrail := [];
         zfws := list_to_set (moreNames b more) ∪ zfws st |}.
Proof.
  induction more as [|[seps b'] more IH]; intros b st hd q Hseg Htrail Hann.
  - cbn [moreNodes foldl processedMore moreNames list_to_set].
    rewrite app_nil_r, (zstate_eta st) at 1. rewrite Htrail. f_equal.
    by rewrite union_empty_l_L.
  - destruct Hann as (Hsep & Hdet & Hann).
    cbn [moreNodes processedMore moreNames].
    rewrite foldl_app. cbn [foldl].
    rewrite (scan_separators seps st); [|by rewrite Hseg; destruct hd|done].
    rewrite Htrail. cbn [app].
    rewrite (zstep_joins _ hd q b seps) by done.
    cbn [zdone zseg ztrail zfws].
    rewrite (IH b' _ (zseg st ++ seps) (processedBlock (NPre b :: seps) b'));
      [|by rewrite app_assoc|done|done].
    cbn [zdone zseg ztrail zfws]. f_equal.
    + rewrite <- !app_assoc. done.
    + rewrite list_to_set_app_L.
      rewrite (assoc_L (∪)). f_equal. apply (comm_L (∪)).
Qed.

(** The first block of the run starts a batch of its own. *)
Lemma zstep_first st front b1 :
  zwf st → sealed st →
  lastParagraph (znodes st) = lastParagraph front →
  isTruthy (detectedAt front b1) = true →
  zstep st (NPre b1)
  = {| zdone := zfinish st; zseg := [NPre (processedBlock front b1)];
       ztrail := []; zfws := list_to_set (nameOf (detectedAt front b1)) |}.
Proof.
  intros (Htrail & Hshape & _) Hsealed Hctx Hdet. unfold zstep.
  unfold znodes in Hctx. rewrite Hctx.
  unfold detectedAt, processedBlock in *.
  destruct (detectFramework CONFIG _ (pre_code b1)) as [r c].
  cbn [fst snd] in *. rewrite Hdet. unfold zfinish.
  destruct Hshape as [(Hseg & Htr & Hfws)|[(pf & tl & Hfirst) _]].
  - rewrite Hseg, Htr, Hfws. cbn [orb app flushSeg allCodeBlocks].
    f_equal.
    + unfold flushSeg. cbn. by rewrite app_nil_r.
    + destruct r; cbn [nameOf list_to_set]; by rewrite ?union_empty_r_L.
  - destruct Hsealed as [Hs|Hs]; [by rewrite Hs in Hfirst|].
    rewrite Hs, Hfirst. cbn [orb]. f_equal.
    destruct r; cbn [nameOf list_to_set]; by rewrite ?union_empty_r_L.
Qed.

Lemma forallb_snoc_false {X : Type} (f : X → bool) (l : list X) (x : X) :
  forallb f l = false ∨ f x = false → forallb f (l ++ [x]) = false.
Proof.
  rewrite forallb_app. cbn [forallb].
  intros [-> | ->]; [done|]. by rewrite andb_false_r.
Qed.

(** Behind a run that is closed to the right, the batch is turned into its
    group whatever follows, and what follows keeps its blocks. *)
Lemma scan_after A :
  ∀ st front,
    zwf st → zseg st ≠ [] →
    forallb isSeparator (ztrail st) = false
    ∨ (closedRight front A = true
       ∧ lastParagraph (znodes st) = lastParagraph front) →
    ∃ A', zfinish (foldl zstep st A)
          = zdone st ++ flushSeg (zseg st) (zfws st) ++ A'
          ∧ allPreIds A' = allPreIds (ztrail st ++ A).
Proof.
  induction A as [|n A IH]; intros st front Hwf Hseg Hclosed.
  { exists (ztrail st). by rewrite app_nil_r. }
  cbn [foldl].
  destruct (isPreNode n) eqn:Hpre.
  - destruct n as [d|t|q|kids|tag]; try done.
    pose proof (zstep_wf st (NPre q) Hwf) as Hwf'.
    destruct (zfinish_prefix A (zstep st (NPre q)) Hwf') as (X & HX & Hids).
    rewrite HX. revert Hids. clear HX Hwf'.
    unfold zstep.
    destruct (detectFramework CONFIG (lastParagraph (zdone st ++ zseg st ++ ztrail st))
                (pre_code q)) as [r c] eqn:Hd.
    destruct (isTruthy r) eqn:Hr.
    + assert (Hfalse : forallb isSeparator (ztrail st) = false).
      { destruct Hclosed as [?|[Hc Hctx]]; [done|].
        cbn [closedRight isSeparator] in Hc. apply negb_true_iff in Hc.
        unfold detectedAt in Hc. unfold znodes in Hctx.
        rewrite <- Hctx, Hd in Hc. cbn [fst] in Hc. congruence. }
      rewrite Hfalse. destruct (zseg st) as [|n0 seg] eqn:E; [done|].
      cbn [orb zdone zseg ztrail]. intros Hids.
      exists (ztrail st ++ X). split.
      * by rewrite <- !app_assoc.
      * rewrite !allPreIds_app, Hids. cbn [app]. by rewrite !allPreIds_cons.
    + cbn [zdone zseg ztrail]. intros Hids.
      exists (ztrail st ++ [NPre (setCode c q)] ++ X). split.
      * by rewrite <- !app_assoc.
      * rewrite !allPreIds_app, Hids. cbn [app]. by rewrite !allPreIds_cons.
  - rewrite zstep_separator by done.
    set (st' := {| zdone := zdone st; zseg := zseg st;
                   ztrail := ztrail st ++ [n]; zfws := zfws st |}).
    assert (Hwf' : zwf st').
    { subst st'. rewrite <- (zstep_separator st n) by done. by apply zstep_wf. }
    destruct (IH st' (front ++ [n]) Hwf' Hseg) as (A' & HA & Hids).
    { cbn [st' ztrail].
      destruct Hclosed as [Hf|[Hc Hctx]].
      - left. apply forallb_snoc_false. by left.
      - cbn [closedRight] in Hc. destruct (isSeparator n) eqn:Hs.
        + right. split; [done|].
          subst st'. rewrite <- (zstep_separator st n) by done.
          rewrite zstep_lastParagraph. by apply lastParagraph_congr.
        + left. apply forallb_snoc_false. by right. }
    exists A'. split; [done|].
    rewrite Hids. cbn [st' ztrail]. by rewrite <- app_assoc.
Qed.

(** *** The group of a run *)

(** What the loop "set initial visibility" does to a block whose cache is
    filled. *)
Definition hideOne (selected : string) (k : groupChild) : groupChild :=
  match k with
  | GPre q =>
      if bool_decide (dataset_framework (pre_code q) = Some selected) then k
      else GPre (setPreClasses (classAdd "fw-hidden" (pre_classList q)) q)
  | _ => k
  end.

Lemma setCode_same p : setCode (pre_code p) p = p.
Proof. by destruct p. Qed.

Lemma hideOthers_cached selected prev kids :
  (∀ q, GPre q ∈ kids → isTruthy (dataset_framework (pre_code q)) = true) →
  hideOthers CONFIG selected prev kids = map (hideOne selected) kids.
Proof.
  revert prev. induction kids as [|k kids IH]; intros prev Hc; [done|].
  cbn [hideOthers map].
  assert (Hrest : ∀ q, GPre q ∈ kids →
                       isTruthy (dataset_framework (pre_code q)) = true).
  { intros q Hq. apply Hc. by right. }
  destruct k as [bs|t|p]; cbn [hideOne].
  - by rewrite IH.
  - by rewrite IH.
  - specialize (Hc p (list_elem_of_here _ _)).
    unfold isTruthy in Hc.
    destruct (dataset_framework (pre_code p)) as [fw|] eqn:Hd; [|done].
    unfold frameworkOf. rewrite Hd, Hc. cbn [isTruthy]. rewrite Hc.
    cbn [andb]. rewrite setCode_same.
    case_bool_decide; cbn [negb]; by rewrite IH.
Qed.

Lemma processedBlock_dataset front p :
  isTruthy (detectedAt front p) = true →
  dataset_framework (pre_code (processedBlock front p)) = detectedAt front p.
Proof.
  intros Ht. unfold processedBlock, detectedAt in *. cbn [pre_code setCode].
  rewrite stripMarkerLine_framework.
  by apply detectFramework_dataset.
Qed.


Lemma clearNode_separator n : isSeparator n = true → clearNode n = n.
Proof. by destruct n. Qed.

Lemma clear_separators seps :
  forallb isSeparator seps = true → map clearNode seps = seps.
Proof.
  induction seps as [|n seps IH]; [done|]. cbn [forallb map].
  intros [Hn Hs]%andb_prop. by rewrite clearNode_separator, IH.
Qed.

Lemma clear_moreNodes more b :
  annotatedMore b more → map clearNode (moreNodes more) = moreNodes more.
Proof.
  revert b. induction more as [|[seps b'] more IH]; intros b Hann; [done|].
  destruct Hann as (Hsep & _ & Hann). cbn [moreNodes].
  rewrite map_app. cbn [map clearNode].
  by rewrite clear_separators, (IH b').
Qed.

Lemma closedRight_clear after :
  ∀ front, closedRight front (map clearNode after) = closedRight front after.
Proof.
  induction after as [|n after IH]; intros front; [done|].
  cbn [map closedRight]. rewrite isSeparator_clearNode.
  destruct (isSeparator n) eqn:Hs.
  - by rewrite clearNode_separator, IH.
  - by destruct n.
Qed.




(** The page around a run. *)
Lemma run_decomposition before after b1 more :
  NoDup (allCodeBlocks (before ++ runNodes b1 more ++ after)) →
  isTruthy (detectedAt before b1) = true →
  annotatedMore b1 more →
  closedLeft (rev before) = true →
  closedRight [NPre (lastOf b1 more)] after = true →
  ∃ after',
    processPage CONFIG cur (before ++ runNodes b1 more ++ after)
    = processPage CONFIG cur before
      ++ flushSeg (processedRun before b1 more)
           (list_to_set (moreNames b1 more)
            ∪ list_to_set (nameOf (detectedAt before b1)))
      ++ after'
    ∧ allPreIds after' = allPreIds after.
Proof.
  intros Hnd Hdet Hann Hleft Hright.
  assert (Hndb : NoDup (allCodeBlocks before)).
  { rewrite allCodeBlocks_app in Hnd. by apply NoDup_app in Hnd as (? & _). }
  rewrite !processPage_scan by done.
  rewrite !clearExistingGroups_map, !map_app. unfold runNodes.
  cbn [map clearNode]. rewrite (clear_moreNodes more b1) by done.
  rewrite <- !clearExistingGroups_map.
  rewrite !foldl_app. cbn [foldl].
  set (stb := foldl zstep zinit (clearExistingGroups before)).
  assert (Hwfb : zwf stb).
  { apply foldl_zstep_wf. by split_and!; [|left|]. }
  assert (Hctx : lastParagraph (znodes stb) = lastParagraph before).
  { subst stb.
    rewrite (foldl_lastParagraph (clearExistingGroups before) zinit []) by done.
    apply lastParagraph_clear. }
  pose proof (closedLeft_sealed before Hleft) as Hsealed. fold stb in Hsealed.
  pose proof (zstep_wf stb (NPre b1) Hwfb) as Hwf1.
  rewrite (zstep_first stb before b1) in Hwf1 |- * by done.
  set (st1 := {| zdone := zfinish stb;
                 zseg := [NPre (processedBlock before b1)]; ztrail := [];
                 zfws := list_to_set (nameOf (detectedAt before b1)) |}) in *.
  pose proof (foldl_zstep_wf (moreNodes more) st1 Hwf1) as Hwf2.
  rewrite (scan_more more b1 st1 [] (processedBlock before b1)) in Hwf2 |- *
    by done.
  cbn [st1 zdone zseg ztrail zfws] in Hwf2 |- *.
  fold (processedRun before b1 more) in Hwf2 |- *.
  set (st2 := {| zdone := zfinish stb; zseg := processedRun before b1 more;
                 ztrail := [];
                 zfws := list_to_set (moreNames b1 more)
                         ∪ list_to_set (nameOf (detectedAt before b1)) |}) in *.
  destruct (scan_after (clearExistingGroups after) st2
              [NPre (lastOf b1 more)] Hwf2) as (A' & HA & Hids).
  { done. }
  { right. split.
    - by rewrite clearExistingGroups_map, closedRight_clear.
    - destruct Hwf2 as (_ & [(Hs & _)|[_ (hd & pl & Hl)]] & _); [done|].
      unfold znodes. cbn [st2 zdone zseg ztrail] in Hl |- *.
      change ([NPre (processedBlock before b1)] ++ processedMore b1 more)
        with (processedRun before b1 more) in Hl.
      rewrite Hl, app_nil_r, app_assoc, lastParagraph_snoc.
      symmetry. apply (lastParagraph_snoc [] (NPre (lastOf b1 more))). }
  exists A'. split; [done|].
  rewrite Hids. cbn [st2 ztrail app]. apply allPreIds_clearExistingGroups.
Qed.



Lemma groupPreIds_hideOne selected kids :
  groupPreIds (map (hideOne selected) kids) = groupPreIds kids.
Proof.
  induction kids as [|k kids IH]; [done|].
  unfold groupPreIds in *. cbn [map omap list_omap].
  destruct k as [bs|t|p]; cbn [hideOne]; try done.
  case_bool_decide; cbn [pre_id setPreClasses]; by rewrite IH.
Qed.


Definition notSwitcher (k : groupChild) : Prop :=
  match k with GSwitcher _ => False | _ => True end.

Lemma movedOf_hideOne_notSwitcher selected seg :
  Forall notSwitcher (map (hideOne selected) (movedOf seg)).
Proof.
  induction seg as [|n seg IH]; [constructor|].
  rewrite movedOf_cons, map_app. apply Forall_app. split; [|done].
  destruct n as [d|t|p|kids|tag]; try constructor.
  - destruct (isLabelText CONFIG t); repeat constructor.
  - cbn [hideOne]. by case_bool_decide.
  - constructor.
Qed.

Lemma processedBlock_classes front p :
  pre_classList (processedBlock front p) = pre_classList p.
Proof. done. Qed.

Lemma processedBlock_id front p : pre_id (processedBlock front p) = pre_id p.
Proof. done. Qed.


End Scan.



End SwitcherSpec.

(* ===================================================================== *)
(** ** Properties of the "on this page" sidebar *)
(* ===================================================================== *)

Module SidebarSpec.

Import OnThisPage.

(** C2 fails on the code.  For a section ([h2]) with a subsection ([h3])
    both links end up in the same list, one level below the top-level
    list: the loop that opens nested lists runs from [currentLevel] to
    [level - 1], so it opens one list for the first [h2] and none for the
    step from [h2] to [h3].  A second section then lands in the top-level
    list, above the first one. *)
Theorem sidebar_nesting_of_sections :
  navLinkDepths
    (tocStore (addHeadings "/routing" "" newBuilder
                 Samples.sectionAndSubsection).1)
  = [("Guide", 1); ("Details", 1)]
  ∧ navLinkDepths
      (tocStore (addHeadings "/routing" "" newBuilder Samples.twoSections).1)
    = [("Guide", 1); ("Details", 1); ("Reference", 0)].
Proof. split; vm_compute; reflexivity. Qed.

(** C7 as it is stated fails: on a page without headings
    [createOnThisPageSidebar] still removes the sidebar it finds. *)
Lemma sidebar_removed_without_headings :
  ¬ (∀ (sidebarNav : Type) (rewriteSidebarNav : sidebarNav → sidebarNav)
       (d : document sidebarNav),
       existsb isHeading (elements _ d) = false →
       createOnThisPageSidebar _ rewriteSidebarNav d = d).
Proof.
  intros H.
  specialize (H unit id Samples.pageWithoutHeadings eq_refl).
  vm_compute in H. discriminate.
Qed.

Section Guards.

Context {sidebarNav : Type} (rewriteSidebarNav : sidebarNav → sidebarNav).

Implicit Types d : document sidebarNav.

(** C7, amended.  When the content holds no heading,
    [createOnThisPageSidebar] removes the [.on-this-page] element it finds
    and returns: no sidebar is made and nothing else of the document
    changes, so a document without such an element stays as it is.
    [removeNestedFromLeftSidebar] leaves the document as it is when
    [aside.sidebar] or its [.sidebar-nav] is missing, and [setupScrollSpy]
    does when no link of the sidebar resolves to an element. *)
Theorem missing_elements_return_early :
  (∀ d, existsb isHeading (elements _ d) = false →
        createOnThisPageSidebar _ rewriteSidebarNav d = setOnThisPage _ None d)
  ∧ (∀ d, existsb isHeading (elements _ d) = false →
          onThisPage _ d = None →
          createOnThisPageSidebar _ rewriteSidebarNav d = d)
  ∧ (∀ d, leftSidebar _ d = None ∨ leftSidebar _ d = Some None →
          removeNestedFromLeftSidebar _ rewriteSidebarNav d = d)
  ∧ (∀ d, spy_headings (collectSpy _ d) = [] → setupScrollSpy _ d = d).
Proof.
  split_and!.
  - intros d Hd. unfold createOnThisPageSidebar. cbn [setOnThisPage elements].
    by rewrite Hd.
  - intros d Hd Hnone. unfold createOnThisPageSidebar.
    cbn [setOnThisPage elements]. rewrite Hd. cbn [negb].
    destruct d. cbn in *. by subst.
  - intros d [Hd|Hd]; unfold removeNestedFromLeftSidebar; by rewrite Hd.
  - intros d Hd. unfold setupScrollSpy. by rewrite Hd.
Qed.

End Guards.


(** *** The scroll spy *)

Implicit Types (s : list tocElement) (i h : nat) (l : list nat) (sb : sidebar).

(** What of a sidebar element does not change while the page is scrolled:
    all but its class. *)
Definition shape (e : tocElement)
  : tocTag * list nat * option string * string * string :=
  (toc_tag e, toc_children e, toc_headingId e, toc_href e, toc_textContent e).

Lemma shape_lookup s1 s2 i :
  shape <$> s1 = shape <$> s2 → shape <$> s1 !! i = shape <$> s2 !! i.
Proof. intros H. by rewrite <- !list_lookup_fmap, H. Qed.

Lemma descendants_shape s1 s2 :
  shape <$> s1 = shape <$> s2 →
  ∀ fuel root, descendants fuel s1 root = descendants fuel s2 root.
Proof.
  intros H fuel. induction fuel as [|fuel IH]; intros root; [done|].
  cbn [descendants]. pose proof (shape_lookup _ _ root H) as Hr.
  destruct (s1 !! root) as [e1|], (s2 !! root) as [e2|]; try done.
  cbn in Hr. injection Hr as _ Hc _ _ _. rewrite Hc. f_equal.
  by apply flat_map_ext.
Qed.

Lemma headingId_shape s1 s2 i :
  shape <$> s1 = shape <$> s2 →
  (s1 !! i) ≫= toc_headingId = (s2 !! i) ≫= toc_headingId.
Proof.
  intros H. pose proof (shape_lookup _ _ i H) as Hi.
  destruct (s1 !! i) as [e1|], (s2 !! i) as [e2|]; try done.
  cbn in *. by injection Hi as _ _ -> _ _.
Qed.

Lemma isLink_shape s1 s2 i :
  shape <$> s1 = shape <$> s2 → isLink s1 i = isLink s2 i.
Proof.
  intros H. unfold isLink. pose proof (shape_lookup _ _ i H) as Hi.
  destruct (s1 !! i) as [e1|], (s2 !! i) as [e2|]; try done.
  cbn in Hi. by injection Hi as -> _ -> _ _.
Qed.

Lemma sidebarLinks_shape sb1 sb2 :
  shape <$> sb_store sb1 = shape <$> sb_store sb2 →
  sidebarLinks sb1 = sidebarLinks sb2.
Proof.
  intros H. unfold sidebarLinks.
  assert (length (sb_store sb1) = length (sb_store sb2)) as ->.
  { by rewrite <- (length_fmap shape (sb_store sb1)), H, length_fmap. }
  rewrite (descendants_shape _ _ H).
  apply list_filter_iff. intros i. by rewrite (isLink_shape _ _ i H).
Qed.

Lemma findLink_shape id sb1 sb2 :
  shape <$> sb_store sb1 = shape <$> sb_store sb2 →
  findLink id sb1 = findLink id sb2.
Proof.
  intros H. unfold findLink. rewrite (sidebarLinks_shape _ _ H). f_equal.
  apply list_filter_iff. intros i. by rewrite (headingId_shape _ _ i H).
Qed.

Lemma shape_alter a i s : shape <$> alter (setActive a) i s = shape <$> s.
Proof.
  apply list_eq. intros j. rewrite !list_lookup_fmap.
  destruct (decide (i = j)) as [->|Hne].
  - rewrite list_lookup_alter_eq. by destruct (s !! j).
  - by rewrite list_lookup_alter_ne.
Qed.

Lemma shape_foldr_alter a l s :
  shape <$> foldr (alter (setActive a)) s l = shape <$> s.
Proof.
  induction l as [|i l IH]; [done|]. cbn [foldr]. by rewrite shape_alter.
Qed.

(** Removing the class from every link of [l]. *)
Lemma lookup_foldr_setActive a l s i :
  foldr (alter (setActive a)) s l !! i
  = if bool_decide (i ∈ l) then setActive a <$> s !! i else s !! i.
Proof.
  induction l as [|j l IH]; [done|]. cbn [foldr].
  destruct (decide (j = i)) as [->|Hne].
  - rewrite list_lookup_alter_eq, IH.
    rewrite (bool_decide_eq_true_2 (i ∈ i :: l)) by apply list_elem_of_here.
    case_bool_decide; by destruct (s !! i).
  - rewrite list_lookup_alter_ne, IH by done.
    apply (f_equal (λ b : bool, if b then _ else _)).
    apply bool_decide_ext. rewrite elem_of_cons.
    split; [by right|intros [Heq|?]; [congruence|done]].
Qed.

Lemma sidebarLinks_lookup sb i :
  i ∈ sidebarLinks sb → is_Some (sb_store sb !! i).
Proof.
  unfold sidebarLinks. intros [Hl _]%list_elem_of_filter.
  unfold isLink in Hl. by destruct (sb_store sb !! i).
Qed.

(** The heading the loop of [updateActiveLink] stops at. *)
Lemma last_filter_split {X} (P : X → Prop) `{∀ x, Decision (P x)}
    (l : list X) (h : X) :
  last (filter P l) = Some h →
  ∃ before after, l = before ++ h :: after ∧ P h ∧ Forall (λ x, ¬ P x) after.
Proof.
  induction l as [|x l IH] using rev_ind; [done|].
  rewrite filter_app. cbn [filter list_filter].
  destruct (decide (P x)) as [Hx|Hx].
  - rewrite last_snoc. intros [= ->]. exists l, []. by split_and!.
  - rewrite app_nil_r. intros (before & after & -> & Hh & Hafter)%IH.
    exists before, (after ++ [x]). split_and!; [by rewrite <- app_assoc|done|].
    apply Forall_app. split; [done|]. by apply Forall_singleton.
Qed.

Lemma activeHeading_cases els headings h :
  activeHeading els headings = Some h →
  (∃ before after,
     headings = before ++ h :: after
     ∧ aboveFold els h = true
     ∧ Forall (λ i, aboveFold els i = false) after)
  ∨ (Forall (λ i, aboveFold els i = false) headings ∧ head headings = Some h).
Proof.
  unfold activeHeading.
  destruct (last (filter _ headings)) as [h'|] eqn:Hlast.
  - intros [= ->]. left.
    apply last_filter_split in Hlast as (before & after & -> & Hh & Hafter).
    exists before, after. split_and!; [done..|].
    eapply Forall_impl; [exact Hafter|]. intros i Hi. cbn beta in Hi.
    by apply not_true_is_false.
  - intros Hhead. right. split; [|done].
    apply last_None in Hlast. apply Forall_forall. intros i Hi.
    destruct (aboveFold els i) eqn:Hf; [|done].
    assert (i ∈ filter (λ i, aboveFold els i = true) headings) as Hin
      by by apply list_elem_of_filter.
    rewrite Hlast in Hin. by apply elem_of_nil in Hin.
Qed.

Lemma activeHeading_elem els headings :
  headings ≠ [] → ∃ h, activeHeading els headings = Some h ∧ h ∈ headings.
Proof.
  intros Hne. unfold activeHeading.
  destruct (last (filter _ headings)) as [h|] eqn:Hlast.
  - exists h. split; [done|].
    apply last_Some_elem_of in Hlast. by apply list_elem_of_filter in Hlast as [_ ?].
  - destruct headings as [|h rest]; [done|]. exists h. split; [done|].
    apply list_elem_of_here.
Qed.

Section ScrollSpy.

Context {sidebarNav : Type}.

Implicit Types d : document sidebarNav.

(** The documents the scroll handler of a spy can meet: [d0] is the page
    at the call of [setupScrollSpy], with the sidebar just added to it.
    The handler is registered; from then on the page is scrolled and the
    handler runs. *)
Inductive follows (d0 : document sidebarNav) : document sidebarNav → Prop :=
  | follows_setup :
      follows d0 (addScrollListener _ (collectSpy _ d0) d0)
  | follows_scroll tops d :
      follows d0 d → follows d0 (scrolled _ tops d)
  | follows_update d :
      follows d0 d → follows d0 (updateActiveLink _ (collectSpy _ d0) d).

(** The sidebar keeps its shape and the elements keep their ids. *)
Definition sameShape (d0 d : document sidebarNav) : Prop :=
  ∃ sb0 sb,
    onThisPage _ d0 = Some sb0
    ∧ onThisPage _ d = Some sb
    ∧ shape <$> sb_store sb = shape <$> sb_store sb0
    ∧ el_id <$> elements _ d = el_id <$> elements _ d0.

Lemma updateActiveLink_sameShape (s : spy) d0 d :
  sameShape d0 d → sameShape d0 (updateActiveLink _ s d).
Proof.
  intros (sb0 & sb & H0 & Hd & Hshape & Hids).
  unfold updateActiveLink. rewrite Hd. cbv zeta.
  eexists sb0, _. split_and!; [done|cbn; reflexivity| |done].
  destruct (activeHeading _ _) as [h|]; cbn [sb_store setStore];
    [destruct (elements _ d !! h) as [heading|]; cbn [sb_store setStore];
     [destruct (findLink _ _) as [link|]; cbn [sb_store setStore]|]|];
    by rewrite ?shape_alter, shape_foldr_alter.
Qed.

Lemma follows_sameShape d0 d :
  spy_headings (collectSpy _ d0) ≠ [] → follows d0 d → sameShape d0 d.
Proof.
  intros Hne Hd. induction Hd as [|tops d _ IH|d _ IH].
  - unfold collectSpy in Hne. destruct (onThisPage _ d0) as [sb0|] eqn:H0; [|done].
    by exists sb0, sb0.
  - destruct IH as (sb0 & sb & H0 & Hd & Hshape & Hids).
    exists sb0, sb. split_and!; [done..|].
    rewrite <- Hids. cbn [scrolled setElements elements].
    apply list_eq. intros i.
    rewrite !list_lookup_fmap, list_lookup_imap.
    by destruct (elements _ d !! i).
  - by apply updateActiveLink_sameShape.
Qed.

(** A heading the spy holds is the element its link names. *)
Lemma collectSpy_heading d0 sb0 h :
  onThisPage _ d0 = Some sb0 →
  h ∈ spy_headings (collectSpy _ d0) →
  ∃ link e,
    link ∈ sidebarLinks sb0
    ∧ (sb_store sb0 !! link) ≫= toc_headingId = Some (el_id e)
    ∧ elements _ d0 !! h = Some e.
Proof.
  intros H0. unfold collectSpy. rewrite H0. cbn [spy_headings].
  intros (link & Hlink & Hget)%list_elem_of_omap.
  destruct ((sb_store sb0 !! link) ≫= toc_headingId) as [id|] eqn:Hid; [|done].
  unfold getElementById in Hget. destruct (JS.truthy id); [|done].
  destruct (list_find _ _) as [[h' e]|] eqn:Hfind; [|done].
  injection Hget as <-. apply list_find_Some in Hfind as (He & <- & _).
  by exists link, e.
Qed.

(** What a run of [updateActiveLink] does with the headings the spy
    holds.  [d0] is the page at the call of [setupScrollSpy] and the spy
    holds at least one heading (otherwise no handler is registered).  On
    every page [d] that follows, the run leaves exactly one link of the
    sidebar with the class [active].  The active heading [h] is the last
    of the headings of the spy (the elements the links resolve to, in the
    order of the links) that is above the fold, or the first of them when
    there is none; the link marked is the first link whose
    [data-heading-id] is the id of that heading; every other link has
    lost the class. *)
Lemma updateActiveLink_marks_first_match (d0 d : document sidebarNav) :
  spy_headings (collectSpy _ d0) ≠ [] →
  follows d0 d →
  ∃ sb h heading link,
    onThisPage _ (updateActiveLink _ (collectSpy _ d0) d) = Some sb
    ∧ activeHeading (elements _ d) (spy_headings (collectSpy _ d0)) = Some h
    ∧ ((∃ before after,
          spy_headings (collectSpy _ d0) = before ++ h :: after
          ∧ aboveFold (elements _ d) h = true
          ∧ Forall (λ i, aboveFold (elements _ d) i = false) after)
       ∨ (Forall (λ i, aboveFold (elements _ d) i = false)
            (spy_headings (collectSpy _ d0))
          ∧ head (spy_headings (collectSpy _ d0)) = Some h))
    ∧ elements _ d !! h = Some heading
    ∧ findLink (el_id heading) sb = Some link
    ∧ link ∈ sidebarLinks sb
    ∧ sidebarLinks sb = spy_links (collectSpy _ d0)
    ∧ ∀ i, i ∈ sidebarLinks sb →
           toc_active <$> sb_store sb !! i = Some (bool_decide (i = link)).
Proof.
  intros Hne Hfollows.
  destruct (follows_sameShape _ _ Hne Hfollows)
    as (sb0 & sb & H0 & Hd & Hshape & Hids).
  destruct (activeHeading_elem (elements _ d) _ Hne) as (h & Hact & Hh).
  destruct (collectSpy_heading _ _ _ H0 Hh) as (link0 & e0 & Hlink0 & Hid0 & He0).
  assert (∃ heading, elements _ d !! h = Some heading ∧ el_id heading = el_id e0)
    as (heading & Hheading & Hid).
  { assert (el_id <$> elements _ d !! h = el_id <$> elements _ d0 !! h) as Hl
      by by rewrite <- !list_lookup_fmap, Hids.
    rewrite He0 in Hl. destruct (elements _ d !! h) as [heading|]; [|done].
    exists heading. split; [done|]. by injection Hl. }
  assert (spy_links (collectSpy _ d0) = sidebarLinks sb0) as Hlinks
    by (unfold collectSpy; by rewrite H0).
  set (cleared :=
         setStore (foldr (alter (setActive false)) (sb_store sb)
                     (spy_links (collectSpy _ d0))) sb).
  assert (shape <$> sb_store cleared = shape <$> sb_store sb0) as Hcleared
    by (cbn [cleared sb_store setStore]; by rewrite shape_foldr_alter).
  assert (∃ link, findLink (el_id heading) cleared = Some link
                  ∧ link ∈ sidebarLinks sb0) as (link & Hfind & Hlink).
  { rewrite (findLink_shape _ _ _ Hcleared). unfold findLink.
    destruct (filter _ (sidebarLinks sb0)) as [|link rest] eqn:Hf.
    - assert (link0 ∈ filter
                (λ i, (sb_store sb0 !! i) ≫= toc_headingId = Some (el_id heading))
                (sidebarLinks sb0)) as Hin.
      { apply list_elem_of_filter. split; [by rewrite Hid|done]. }
      rewrite Hf in Hin. by apply elem_of_nil in Hin.
    - exists link. split; [done|].
      assert (link ∈ filter
                (λ i, (sb_store sb0 !! i) ≫= toc_headingId = Some (el_id heading))
                (sidebarLinks sb0)) as Hin
        by (rewrite Hf; apply list_elem_of_here).
      by apply list_elem_of_filter in Hin as [_ ?]. }
  set (marked := setStore (alter (setActive true) link (sb_store cleared)) cleared).
  assert (shape <$> sb_store marked = shape <$> sb_store sb0) as Hmarked
    by (cbn [marked sb_store setStore]; by rewrite shape_alter).
  exists marked, h, heading, link. split_and!.
  - unfold updateActiveLink. rewrite Hd. cbv zeta. fold cleared.
    rewrite Hact, Hheading, Hfind. reflexivity.
  - done.
  - by apply activeHeading_cases.
  - done.
  - by rewrite (findLink_shape _ _ _ Hmarked), <- (findLink_shape _ _ _ Hcleared).
  - by rewrite (sidebarLinks_shape _ _ Hmarked).
  - by rewrite (sidebarLinks_shape _ _ Hmarked).
  - rewrite (sidebarLinks_shape _ _ Hmarked). intros i Hi.
    assert (is_Some (sb_store sb !! i)) as [e He].
    { apply sidebarLinks_lookup. by rewrite (sidebarLinks_shape _ _ Hshape). }
    cbn [marked cleared sb_store setStore].
    destruct (decide (link = i)) as [->|Hne'].
    + rewrite list_lookup_alter_eq, lookup_foldr_setActive, He, Hlinks.
      rewrite bool_decide_eq_true_2 by done. by case_bool_decide.
    + rewrite list_lookup_alter_ne, lookup_foldr_setActive, He by done.
      rewrite Hlinks, bool_decide_eq_true_2 by done.
      by rewrite bool_decide_eq_false_2 by done.
Qed.

End ScrollSpy.

(** *** The id made from the text of a heading *)

(** The slug in the words of the documentation: the text in lower case,
    without the characters that are no word characters, white space or
    hyphens, every run of white space replaced by one hyphen, and runs of
    hyphens made one hyphen. *)
Definition slugOfText (text : string) : string :=
  JS.collapseHyphens
    (JS.replaceRuns JS.isWhiteSpace false
       (JS.filterChars
          (λ c, JS.isWordChar c || JS.isWhiteSpace c || JS.isHyphen c)
          (JS.toLowerCase text))).

Fixpoint allChars (f : ascii → bool) (t : string) : bool :=
  match t with
  | EmptyString => true
  | String c r => f c && allChars f r
  end.

Definition notWhiteSpace (c : ascii) : bool := negb (JS.isWhiteSpace c).

Lemma append_cons c (t u : string) : String c t +:+ u = String c (t +:+ u).
Proof. reflexivity. Qed.

Lemma append_empty_r (t : string) : t +:+ EmptyString = t.
Proof. induction t as [|c t IH]; [done|]. by rewrite append_cons, IH. Qed.

Lemma append_assoc (t u v : string) : (t +:+ u) +:+ v = t +:+ (u +:+ v).
Proof. induction t as [|c t IH]; [done|]. by rewrite !append_cons, IH. Qed.

Lemma allChars_append f (t u : string) :
  allChars f (t +:+ u) = allChars f t && allChars f u.
Proof.
  induction t as [|c t IH]; [done|].
  rewrite append_cons. cbn [allChars]. by rewrite IH, andb_assoc.
Qed.

Lemma allChars_rev f t : allChars f (JS.rev t) = allChars f t.
Proof.
  induction t as [|c t IH]; [done|]. cbn [JS.rev allChars].
  rewrite allChars_append, IH. cbn [allChars].
  by rewrite andb_true_r, andb_comm.
Qed.

Lemma rev_append (t u : string) : JS.rev (t +:+ u) = JS.rev u +:+ JS.rev t.
Proof.
  induction t as [|c t IH]; [by rewrite append_empty_r|].
  rewrite append_cons. cbn [JS.rev]. by rewrite IH, append_assoc.
Qed.

Lemma rev_rev t : JS.rev (JS.rev t) = t.
Proof.
  induction t as [|c t IH]; [done|]. cbn [JS.rev].
  by rewrite rev_append, IH.
Qed.

Lemma trimStart_notWhiteSpace t :
  allChars notWhiteSpace t = true → JS.trimStart t = t.
Proof.
  destruct t as [|c t]; [done|]. cbn [allChars JS.trimStart].
  unfold notWhiteSpace. by destruct (JS.isWhiteSpace c).
Qed.

(** A string without white space is what [trim] makes of it. *)
Lemma trim_notWhiteSpace t : allChars notWhiteSpace t = true → JS.trim t = t.
Proof.
  intros Ht. unfold JS.trim, JS.trimEnd.
  rewrite (trimStart_notWhiteSpace t Ht).
  rewrite trimStart_notWhiteSpace by by rewrite allChars_rev.
  apply rev_rev.
Qed.

Lemma replaceRuns_whiteSpace inRun t :
  allChars notWhiteSpace (JS.replaceRuns JS.isWhiteSpace inRun t) = true.
Proof.
  revert inRun. induction t as [|c t IH]; intros inRun; [done|].
  cbn [JS.replaceRuns]. destruct (JS.isWhiteSpace c) eqn:Hc.
  - destruct inRun; [done|]. cbn [allChars]. by rewrite IH.
  - cbn [allChars]. unfold notWhiteSpace at 1. by rewrite Hc, IH.
Qed.

Lemma replaceRuns_notWhiteSpace f inRun t :
  allChars notWhiteSpace t = true →
  allChars notWhiteSpace (JS.replaceRuns f inRun t) = true.
Proof.
  revert inRun. induction t as [|c t IH]; intros inRun; [done|].
  cbn [allChars JS.replaceRuns]. intros [Hc Ht]%andb_true_iff.
  destruct (f c).
  - destruct inRun; [by apply IH|]. cbn [allChars]. by rewrite IH.
  - cbn [allChars]. by rewrite Hc, IH.
Qed.

(** The [trim] at the end of the chain of replacements finds nothing to
    remove: the id made by the script is the slug. *)
Lemma slugify_slugOfText text : slugify text = slugOfText text.
Proof.
  unfold slugify. fold (slugOfText text). apply trim_notWhiteSpace.
  unfold slugOfText, JS.collapseHyphens.
  apply replaceRuns_notWhiteSpace, replaceRuns_whiteSpace.
Qed.

(** *** The links of the sidebar *)

(** While the list is built an element only gains children. *)
Definition grows (e e' : tocElement) : Prop :=
  toc_tag e' = toc_tag e
  ∧ toc_href e' = toc_href e
  ∧ toc_textContent e' = toc_textContent e
  ∧ toc_headingId e' = toc_headingId e
  ∧ ∀ c, c ∈ toc_children e → c ∈ toc_children e'.

Definition extends (s s' : list tocElement) : Prop :=
  ∀ i e, s !! i = Some e → ∃ e', s' !! i = Some e' ∧ grows e e'.

Lemma grows_refl e : grows e e.
Proof. by split_and!. Qed.

Lemma grows_trans e1 e2 e3 : grows e1 e2 → grows e2 e3 → grows e1 e3.
Proof.
  intros (?&?&?&?&H12) (?&?&?&?&H23).
  split_and!; [congruence..|]. intros c Hc. by apply H23, H12.
Qed.

Lemma extends_refl s : extends s s.
Proof. intros i e Hi. exists e. split; [done|apply grows_refl]. Qed.

Lemma extends_trans s1 s2 s3 : extends s1 s2 → extends s2 s3 → extends s1 s3.
Proof.
  intros H12 H23 i e1 Hi.
  destruct (H12 _ _ Hi) as (e2 & Hi2 & Hg12).
  destruct (H23 _ _ Hi2) as (e3 & Hi3 & Hg23).
  exists e3. split; [done|]. by eapply grows_trans.
Qed.

Lemma extends_snoc s e : extends s (s ++ [e]).
Proof.
  intros i e0 Hi. exists e0. split; [|apply grows_refl].
  by apply lookup_app_l_Some.
Qed.

Lemma extends_appendChild p c s : extends s (appendChild p c s).
Proof.
  intros i e Hi. unfold appendChild. destruct (decide (p = i)) as [->|Hne].
  - exists (addChild c e). split; [by rewrite list_lookup_alter_eq, Hi|].
    split_and!; [done..|]. cbn. intros x Hx. apply elem_of_app. by left.
  - exists e. split; [by rewrite list_lookup_alter_ne|apply grows_refl].
Qed.

(** [reaches s i j]: [j] is [i] or stands below [i] in the tree. *)
Inductive reaches (s : list tocElement) : nat → nat → Prop :=
  | reaches_here i : is_Some (s !! i) → reaches s i i
  | reaches_child i e c j :
      s !! i = Some e → c ∈ toc_children e → reaches s c j → reaches s i j.

Lemma reaches_is_Some s i j : reaches s i j → is_Some (s !! j).
Proof. induction 1; done. Qed.

Lemma reaches_extends s s' i j : extends s s' → reaches s i j → reaches s' i j.
Proof.
  intros Hext. induction 1 as [i [e He]|i e c j He Hc _ IH].
  - destruct (Hext _ _ He) as (e' & He' & _). by apply reaches_here.
  - destruct (Hext _ _ He) as (e' & He' & Hg).
    eapply reaches_child; [exact He'| |exact IH]. by apply Hg.
Qed.

Lemma reaches_snoc s i j e c :
  reaches s i j → s !! j = Some e → c ∈ toc_children e → is_Some (s !! c) →
  reaches s i c.
Proof.
  intros Hij He Hc Hsome. induction Hij as [i _|i e0 c0 j He0 Hc0 _ IH].
  - eapply reaches_child; [exact He|exact Hc|]. by apply reaches_here.
  - eapply reaches_child; [exact He0|exact Hc0|]. by apply IH.
Qed.

(** A child is made after its parent. *)
Definition wfStore (s : list tocElement) : Prop :=
  ∀ i e, s !! i = Some e → ∀ c, c ∈ toc_children e → i < c < length s.

Lemma wfStore_snoc s e : toc_children e = [] → wfStore s → wfStore (s ++ [e]).
Proof.
  intros He Hwf i e0 Hi c Hc. rewrite length_app. cbn [length].
  apply lookup_app_Some in Hi as [Hi|[_ Hi]].
  - specialize (Hwf _ _ Hi _ Hc). lia.
  - apply list_lookup_singleton_Some in Hi as [_ <-].
    rewrite He in Hc. by apply elem_of_nil in Hc.
Qed.

Lemma wfStore_appendChild p c s :
  wfStore s → p < c < length s → wfStore (appendChild p c s).
Proof.
  intros Hwf Hpc i e Hi x Hx. unfold appendChild in *.
  rewrite length_alter. destruct (decide (p = i)) as [->|Hne].
  - rewrite list_lookup_alter_eq in Hi.
    destruct (s !! i) as [e0|] eqn:Hi0; [|done]. injection Hi as <-.
    cbn in Hx. apply elem_of_app in Hx as [Hx|Hx%list_elem_of_singleton].
    + by eapply Hwf.
    + by subst.
  - rewrite list_lookup_alter_ne in Hi by done. by eapply Hwf.
Qed.

(** [parent.appendChild(child)] puts the child into the tree. *)
Lemma attach s p c :
  wfStore s → reaches s 0 p → p < c < length s →
  wfStore (appendChild p c s)
  ∧ extends s (appendChild p c s)
  ∧ reaches (appendChild p c s) 0 c.
Proof.
  intros Hwf Hp Hpc.
  pose proof (extends_appendChild p c s) as Hext.
  split_and!; [by apply wfStore_appendChild|done|].
  destruct (reaches_is_Some _ _ _ Hp) as [e He].
  eapply (reaches_snoc _ _ p (addChild c e)).
  - by eapply reaches_extends.
  - unfold appendChild. by rewrite list_lookup_alter_eq, He.
  - cbn. apply elem_of_app. right. apply list_elem_of_here.
  - apply lookup_lt_is_Some. unfold appendChild. rewrite length_alter. lia.
Qed.

(** The tree every element of the document hangs in: all elements are
    below [nav], the element 0. *)
Lemma descendants_complete s :
  wfStore s →
  ∀ i j, reaches s i j →
  ∀ fuel, length s ≤ fuel + i → j ∈ descendants fuel s i.
Proof.
  intros Hwf i j. induction 1 as [i [e He]|i e c j He Hc _ IH]; intros fuel Hfuel.
  - pose proof (lookup_lt_Some _ _ _ He).
    destruct fuel as [|fuel]; [lia|]. cbn [descendants]. rewrite He.
    apply list_elem_of_here.
  - pose proof (lookup_lt_Some _ _ _ He).
    destruct fuel as [|fuel]; [lia|]. cbn [descendants]. rewrite He.
    apply list_elem_of_further, list_elem_of_In, in_flat_map.
    exists c. split; [by apply list_elem_of_In|].
    apply list_elem_of_In, IH. specialize (Hwf _ _ He _ Hc). lia.
Qed.

(** What the loop keeps true of its variables. *)
Definition builderOk (b : builder) : Prop :=
  wfStore (tocStore b)
  ∧ reaches (tocStore b) 0 (currentList b)
  ∧ Forall (reaches (tocStore b) 0) (listStack b).

Lemma newBuilder_ok : builderOk newBuilder.
Proof.
  assert (reaches (tocStore newBuilder) 0 0) by (apply reaches_here; by eexists).
  split_and!; [|done|by apply Forall_singleton].
  intros [|i] e Hi c Hc; [|done]. injection Hi as <-. by apply elem_of_nil in Hc.
Qed.

Lemma nestLists_ok n b :
  builderOk b →
  builderOk (nestLists n b) ∧ extends (tocStore b) (tocStore (nestLists n b)).
Proof.
  revert b. induction n as [|n IH]; intros b Hb; [by split; [|apply extends_refl]|].
  destruct Hb as (Hwf & Hcur & Hstack).
  cbn [nestLists createElement].
  set (s1 := tocStore b ++ [newElement UL]).
  assert (length s1 = S (length (tocStore b))) as Hlen
    by (unfold s1; rewrite length_app; cbn; lia).
  assert (wfStore s1) as Hwf1 by by apply wfStore_snoc.
  assert (extends (tocStore b) s1) as Hext1 by apply extends_snoc.
  assert (reaches s1 0 (currentList b)) as Hcur1 by by eapply reaches_extends.
  destruct (reaches_is_Some _ _ _ Hcur) as [e He].
  pose proof (lookup_lt_Some _ _ _ He) as Hlt.
  match goal with
  | |- context [nestLists n ?b'] => set (b1 := b')
  end.
  assert (builderOk b1 ∧ extends (tocStore b) (tocStore b1)) as [Hb1 Hext].
  { assert (s1 !! currentList b = Some e) as He1 by by apply lookup_app_l_Some.
    unfold b1, builderOk. cbn [tocStore currentList listStack].
    unfold lastElementChild. rewrite He1.
    destruct (last (toc_children e)) as [lastLi|] eqn:Hlast.
    - apply last_Some_elem_of in Hlast.
      pose proof (Hwf _ _ He _ Hlast) as Hrange.
      assert (reaches s1 0 lastLi) as HlastLi.
      { eapply reaches_snoc; [exact Hcur1|exact He1|exact Hlast|].
        apply lookup_lt_is_Some. lia. }
      destruct (attach s1 lastLi (length (tocStore b)) Hwf1 HlastLi)
        as (Hwf2 & Hext2 & Hnested); [lia|].
      split_and!; [done|done| |by eapply extends_trans].
      apply Forall_cons. split; [done|].
      eapply Forall_impl; [exact Hstack|]. intros u Hu.
      eapply reaches_extends; [|exact Hu]. by eapply extends_trans.
    - destruct (attach s1 (currentList b) (length (tocStore b)) Hwf1 Hcur1)
        as (Hwf2 & Hext2 & Hnested); [lia|].
      split_and!; [done|done| |by eapply extends_trans].
      apply Forall_cons. split; [done|].
      eapply Forall_impl; [exact Hstack|]. intros u Hu.
      eapply reaches_extends; [|exact Hu]. by eapply extends_trans. }
  destruct (IH b1 Hb1) as [Hok Hext']. split; [done|].
  by eapply extends_trans.
Qed.

Lemma popLists_Forall (P : nat → Prop) n stack :
  Forall P stack → Forall P (popLists n stack).
Proof.
  revert stack. induction n as [|n IH]; intros stack Hs; [by destruct stack|].
  destruct stack as [|u [|v rest]]; [done..|].
  cbn [popLists]. apply IH. by apply Forall_cons_1 in Hs as [_ ?].
Qed.

Lemma adjustNesting_ok level b :
  builderOk b →
  builderOk (adjustNesting level b)
  ∧ extends (tocStore b) (tocStore (adjustNesting level b)).
Proof.
  intros Hb. unfold adjustNesting.
  destruct (currentLevel b <? level); [by apply nestLists_ok|].
  destruct (level <? currentLevel b); [|by split; [|apply extends_refl]].
  split; [|apply extends_refl].
  destruct Hb as (Hwf & Hcur & Hstack).
  pose proof (popLists_Forall _ (currentLevel b - level + 1) _ Hstack) as Hpop.
  unfold builderOk. cbn [tocStore currentList listStack].
  split_and!; [done| |done].
  destruct (popLists _ _) as [|u rest]; [done|].
  cbn. by apply Forall_cons_1 in Hpop as [? _].
Qed.

(** The link made for a heading. *)
Definition linkFor (currentRoute hash : string) (heading : element)
  : tocElement :=
  {| toc_tag := A; toc_children := [];
     toc_href := "#/" +:+ currentPath currentRoute hash +:+ "?id="
                 +:+ headingId heading;
     toc_textContent := JS.trim (el_textContent heading);
     toc_headingId := Some (headingId heading);
     toc_active := false |}.

Definition hasLink (s : list tocElement) (a : tocElement) : Prop :=
  ∃ link a', reaches s 0 link ∧ s !! link = Some a' ∧ grows a a'.

Lemma hasLink_extends s s' a : extends s s' → hasLink s a → hasLink s' a.
Proof.
  intros Hext (link & a' & Hreach & Ha' & Hg).
  destruct (Hext _ _ Ha') as (a'' & Ha'' & Hg').
  exists link, a''. split_and!; [by eapply reaches_extends|done|].
  by eapply grows_trans.
Qed.

Lemma addHeading_ok route hash b tag heading :
  builderOk b → tag ≠ H1 →
  builderOk (addHeading route hash b tag heading).1
  ∧ extends (tocStore b) (tocStore (addHeading route hash b tag heading).1)
  ∧ (addHeading route hash b tag heading).2 = setId (headingId heading) heading
  ∧ hasLink (tocStore (addHeading route hash b tag heading).1)
      (linkFor route hash heading).
Proof.
  intros Hb Htag. unfold addHeading.
  destruct (levelOf tag =? 1) eqn:Hlevel; [by destruct tag|].
  destruct (adjustNesting_ok (levelOf tag) b Hb) as [(Hwf & Hcur & Hstack) Hext].
  set (b1 := adjustNesting (levelOf tag) b) in *.
  cbn [createElement fst snd tocStore currentList listStack].
  fold (linkFor route hash heading).
  set (s1 := tocStore b1) in *.
  set (li := length s1).
  set (s2 := (s1 ++ [newElement LI]) ++ [linkFor route hash heading]).
  assert (length (s1 ++ [newElement LI]) = S li) as Hlen1
    by (rewrite length_app; cbn; lia).
  rewrite Hlen1.
  assert (length s2 = S (S li)) as Hlen2
    by (unfold s2; rewrite length_app, Hlen1; cbn; lia).
  assert (wfStore s2) as Hwf2
    by (apply wfStore_snoc; [done|]; by apply wfStore_snoc).
  assert (extends s1 s2) as Hext2
    by (eapply extends_trans; apply extends_snoc).
  set (s3 := appendChild li (S li) s2).
  assert (wfStore s3) as Hwf3 by (apply wfStore_appendChild; [done|lia]).
  assert (extends s2 s3) as Hext3 by apply extends_appendChild.
  assert (reaches s3 0 (currentList b1)) as Hcur3.
  { eapply reaches_extends; [|exact Hcur]. by eapply extends_trans. }
  destruct (reaches_is_Some _ _ _ Hcur) as [e He].
  pose proof (lookup_lt_Some _ _ _ He) as Hlt. fold li in Hlt.
  assert (length s3 = S (S li)) as Hlen3
    by (unfold s3, appendChild; by rewrite length_alter).
  destruct (attach s3 (currentList b1) li Hwf3 Hcur3)
    as (Hwf4 & Hext4 & Hli); [lia|].
  set (s4 := appendChild (currentList b1) li s3) in *.
  assert (extends (tocStore b) s4) as Hall.
  { eapply extends_trans; [exact Hext|]. eapply extends_trans; [exact Hext2|].
    by eapply extends_trans. }
  assert (extends s1 s4) as Hall1.
  { eapply extends_trans; [exact Hext2|]. by eapply extends_trans. }
  split_and!.
  - split_and!; [done|by eapply reaches_extends|].
    eapply Forall_impl; [exact Hstack|]. intros u Hu.
    by eapply reaches_extends.
  - done.
  - done.
  - assert (s2 !! li = Some (newElement LI)) as Hli2.
    { unfold s2. rewrite lookup_app_l by (rewrite Hlen1; lia).
      by rewrite list_lookup_middle. }
    assert (s2 !! S li = Some (linkFor route hash heading)) as Hlink2.
    { unfold s2. by rewrite list_lookup_middle. }
    assert (s4 !! li = Some (addChild (S li) (newElement LI))) as Hli4.
    { unfold s4, s3, appendChild.
      rewrite list_lookup_alter_ne by lia.
      by rewrite list_lookup_alter_eq, Hli2. }
    assert (s4 !! S li = Some (linkFor route hash heading)) as Hlink4.
    { unfold s4, s3, appendChild. by rewrite !list_lookup_alter_ne by lia. }
    exists (S li), (linkFor route hash heading).
    split_and!; [|done|apply grows_refl].
    eapply reaches_snoc; [exact Hli|exact Hli4| |by eexists].
    cbn. apply list_elem_of_here.
Qed.

(** The elements after the loop: a heading other than [h1] has the id the
    loop gave to its link. *)
Definition withId (e : element) : element :=
  match el_heading e with
  | Some H1 | None => e
  | Some _ => setId (headingId e) e
  end.

Lemma addHeadings_ok route hash els :
  ∀ b, builderOk b →
    builderOk (addHeadings route hash b els).1
    ∧ extends (tocStore b) (tocStore (addHeadings route hash b els).1)
    ∧ (addHeadings route hash b els).2 = withId <$> els
    ∧ ∀ e tag, e ∈ els → el_heading e = Some tag → tag ≠ H1 →
        hasLink (tocStore (addHeadings route hash b els).1)
          (linkFor route hash e).
Proof.
  induction els as [|e els IH]; intros b Hb.
  - split_and!; [done|apply extends_refl|done|].
    intros e tag He. by apply elem_of_nil in He.
  - cbn [addHeadings].
    set (step := match el_heading e with
                 | Some tag => addHeading route hash b tag e
                 | None => (b, e)
                 end).
    assert (builderOk step.1
            ∧ extends (tocStore b) (tocStore step.1)
            ∧ step.2 = withId e
            ∧ ∀ tag, el_heading e = Some tag → tag ≠ H1 →
                hasLink (tocStore step.1) (linkFor route hash e))
      as (Hb1 & Hext1 & He1 & Hlink1).
    { unfold step, withId. destruct (el_heading e) as [tag|] eqn:Htag.
      - assert (tag = H1 ∨ tag ≠ H1) as [->|Hne]
          by (destruct tag; (by left) || by right).
        + split_and!; [done|apply extends_refl|done|]. by intros ? [= <-].
        + destruct (addHeading_ok route hash b tag e Hb Hne)
            as (? & ? & -> & ?).
          split_and!; [done|done|by destruct tag|]. by intros ? [= <-].
      - split_and!; [done|apply extends_refl|done|done]. }
    destruct step as [b1 e1]. cbn [fst snd] in *.
    destruct (IH b1 Hb1) as (Hb2 & Hext2 & Hels & Hlinks).
    destruct (addHeadings route hash b1 els) as [b2 els'].
    cbn [fst snd] in *. subst e1 els'.
    split_and!; [done|by eapply extends_trans|done|].
    intros e' tag [->|He']%elem_of_cons Htag Hne.
    + eapply hasLink_extends; [exact Hext2|]. by eapply Hlink1.
    + by eapply Hlinks.
Qed.

(** *** The permalink, in the words of the documentation *)

(** The address of a link as the documentation describes it, written on
    the characters of the strings with the functions of the standard
    library; nothing here is taken from the script. *)
Module Permalink.

Definition chars (t : string) : list ascii := list_ascii_of_string t.

Definition text (l : list ascii) : string := string_of_list_ascii l.

Definition code (c : ascii) : nat := nat_of_ascii c.

(** White space: tab, line feed, vertical tab, form feed, carriage
    return, space and no-break space. *)
Definition isSpace (c : ascii) : bool :=
  bool_decide (code c ∈ [9; 10; 11; 12; 13; 32; 160]).

(** Word characters: the letters of the alphabet, the digits and the
    underscore. *)
Definition isWord (c : ascii) : bool :=
  bool_decide
    (c ∈ chars
       "abcdefghijklmnopqrstuvwxyzABCDEFGHIJKLMNOPQRSTUVWXYZ0123456789_").

Definition isDash (c : ascii) : bool := bool_decide (c = "-"%char).

(** Capital letters: [A] to [Z], and in the upper half of Latin-1 the
    letters from [À] to [Þ], among which the multiplication sign stands. *)
Definition isCapital (c : ascii) : bool :=
  bool_decide (65 ≤ code c ≤ 90 ∨ (192 ≤ code c ≤ 222 ∧ code c ≠ 215)).

(** The small letter stands 32 places behind its capital. *)
Definition lowercase (c : ascii) : ascii :=
  if isCapital c then ascii_of_nat (code c + 32) else c.

Fixpoint dropSpaces (l : list ascii) : list ascii :=
  match l with
  | c :: rest => if isSpace c then dropSpaces rest else l
  | [] => []
  end.

(** The text of a heading: its content without the white space around
    it. *)
Definition trimmed (t : string) : string :=
  text (List.rev (dropSpaces (List.rev (dropSpaces (chars t))))).

(** One hyphen for every run of characters of a class: a character of
    the class that stands before another one goes, the last one of a run
    becomes the hyphen. *)
Fixpoint hyphenate (inClass : ascii → bool) (l : list ascii) : list ascii :=
  match l with
  | [] => []
  | c :: rest =>
      if inClass c
      then match rest with
           | d :: _ =>
               if inClass d then hyphenate inClass rest
               else "-"%char :: hyphenate inClass rest
           | [] => ["-"%char]
           end
      else c :: hyphenate inClass rest
  end.

(** The slug of a text: lowercased, without the characters that are no
    word characters, white space or hyphens, with white space runs
    replaced by single hyphens and repeated hyphens collapsed. *)
Definition slug (t : string) : string :=
  text
    (hyphenate isDash
       (hyphenate isSpace
          (List.filter (λ c, isWord c || isSpace c || isDash c)
             (List.map lowercase (chars t))))).

(** The id of a heading: the one it has, else the slug of its text. *)
Definition idOf (id content : string) : string :=
  if String.eqb id "" then slug (trimmed content) else id.

Definition withoutLeadingSlash (route : string) : string :=
  match route with
  | String "/"%char rest => rest
  | _ => route
  end.

(** [t] without the first place where [pattern] stands in it. *)
Definition without (pattern t : string) : string :=
  match String.index 0 pattern t with
  | Some n =>
      String.substring 0 n t
      +:+ String.substring (n + String.length pattern) (String.length t) t
  | None => t
  end.

(** [t] up to the first place where [pattern] stands in it. *)
Definition upTo (pattern t : string) : string :=
  match String.index 0 pattern t with
  | Some n => String.substring 0 n t
  | None => t
  end.

(** The path in the hash of the location: what stands behind [#/], up to
    the question mark. *)
Definition hashPath (hash : string) : string := upTo "?" (without "#/" hash).

(** The path of the page: the route without its leading slash; when that
    is empty the path in the hash; when that is empty too, [README]. *)
Definition path (route hash : string) : string :=
  if String.eqb (withoutLeadingSlash route) ""
  then if String.eqb (hashPath hash) "" then "README" else hashPath hash
  else withoutLeadingSlash route.

(** [#/<path>?id=<id>] *)
Definition href (route hash id : string) : string :=
  "#/" +:+ path route hash +:+ "?id=" +:+ id.

End Permalink.

(** The script computes what the documentation describes. *)

Lemma isSpace_isWhiteSpace c : Permalink.isSpace c = JS.isWhiteSpace c.
Proof. destruct c as [[] [] [] [] [] [] [] []]; vm_compute; reflexivity. Qed.

Lemma isWord_isWordChar c : Permalink.isWord c = JS.isWordChar c.
Proof. destruct c as [[] [] [] [] [] [] [] []]; vm_compute; reflexivity. Qed.

Lemma isDash_isHyphen c : Permalink.isDash c = JS.isHyphen c.
Proof. destruct c as [[] [] [] [] [] [] [] []]; vm_compute; reflexivity. Qed.

Lemma lowercase_lowerChar c : Permalink.lowercase c = JS.lowerChar c.
Proof. destruct c as [[] [] [] [] [] [] [] []]; vm_compute; reflexivity. Qed.

Lemma text_chars t : Permalink.text (Permalink.chars t) = t.
Proof. apply string_of_list_ascii_of_string. Qed.

Lemma chars_text (cs : list ascii) :
  Permalink.chars (Permalink.text cs) = cs.
Proof. apply list_ascii_of_string_of_list_ascii. Qed.

Lemma chars_append (t u : string) :
  Permalink.chars (t +:+ u) = Permalink.chars t ++ Permalink.chars u.
Proof.
  induction t as [|c t IH]; [done|]. rewrite append_cons.
  cbn [Permalink.chars list_ascii_of_string app]. f_equal. exact IH.
Qed.

Lemma chars_toLowerCase t :
  Permalink.chars (JS.toLowerCase t)
  = List.map Permalink.lowercase (Permalink.chars t).
Proof.
  induction t as [|c t IH]; [done|].
  cbn [JS.toLowerCase Permalink.chars list_ascii_of_string List.map].
  rewrite lowercase_lowerChar. f_equal. exact IH.
Qed.

Lemma chars_filterChars f t :
  Permalink.chars (JS.filterChars f t) = List.filter f (Permalink.chars t).
Proof.
  induction t as [|c t IH]; [done|].
  cbn [JS.filterChars Permalink.chars list_ascii_of_string List.filter].
  destruct (f c); [|exact IH].
  cbn [list_ascii_of_string]. f_equal. exact IH.
Qed.

Definition startsInClass (f : ascii → bool) (l : list ascii) : bool :=
  match l with
  | c :: _ => f c
  | [] => false
  end.

Lemma chars_replaceRuns_both f t :
  Permalink.chars (JS.replaceRuns f false t)
  = Permalink.hyphenate f (Permalink.chars t)
  ∧ "-"%char :: Permalink.chars (JS.replaceRuns f true t)
    = if startsInClass f (Permalink.chars t)
      then Permalink.hyphenate f (Permalink.chars t)
      else "-"%char :: Permalink.hyphenate f (Permalink.chars t).
Proof.
  induction t as [|c t [IHfalse IHtrue]]; [done|].
  cbn [JS.replaceRuns Permalink.chars list_ascii_of_string Permalink.hyphenate
       startsInClass].
  fold (Permalink.chars t). destruct (f c) eqn:Hc.
  - cbn [list_ascii_of_string]. fold (Permalink.chars (JS.replaceRuns f true t)).
    rewrite IHtrue. unfold startsInClass.
    destruct (Permalink.chars t) as [|d rest]; [done|]. by destruct (f d).
  - cbn [list_ascii_of_string]. fold (Permalink.chars (JS.replaceRuns f false t)).
    by rewrite IHfalse.
Qed.

Lemma chars_replaceRuns f t :
  Permalink.chars (JS.replaceRuns f false t)
  = Permalink.hyphenate f (Permalink.chars t).
Proof. apply chars_replaceRuns_both. Qed.

Lemma hyphenate_ext f g (cs : list ascii) :
  (∀ c, f c = g c) → Permalink.hyphenate f cs = Permalink.hyphenate g cs.
Proof.
  intros Hfg. induction cs as [|c cs IH]; [done|]. cbn [Permalink.hyphenate].
  rewrite Hfg, IH. destruct cs as [|d cs]; [done|]. by rewrite Hfg.
Qed.

(** The slug of the documentation is the slug of the script. *)
Lemma slugOfText_slug_of_documentation t : slugOfText t = Permalink.slug t.
Proof.
  rewrite <- (text_chars (slugOfText t)). unfold slugOfText, Permalink.slug.
  f_equal. unfold JS.collapseHyphens.
  rewrite !chars_replaceRuns, chars_filterChars, chars_toLowerCase.
  rewrite (hyphenate_ext JS.isHyphen Permalink.isDash)
    by (intros c; symmetry; apply isDash_isHyphen).
  rewrite (hyphenate_ext JS.isWhiteSpace Permalink.isSpace)
    by (intros c; symmetry; apply isSpace_isWhiteSpace).
  do 2 f_equal. apply List.filter_ext. intros c.
  rewrite <- isWord_isWordChar, <- isSpace_isWhiteSpace.
  f_equal; symmetry; apply isDash_isHyphen.
Qed.

Lemma chars_trimStart t :
  Permalink.chars (JS.trimStart t) = Permalink.dropSpaces (Permalink.chars t).
Proof.
  induction t as [|c t IH]; [done|].
  cbn [JS.trimStart Permalink.chars list_ascii_of_string Permalink.dropSpaces].
  rewrite isSpace_isWhiteSpace. destruct (JS.isWhiteSpace c); [exact IH|done].
Qed.

Lemma chars_rev t : Permalink.chars (JS.rev t) = List.rev (Permalink.chars t).
Proof.
  induction t as [|c t IH]; [done|]. cbn [JS.rev]. rewrite chars_append, IH.
  done.
Qed.

Lemma trim_trimmed t : JS.trim t = Permalink.trimmed t.
Proof.
  rewrite <- (text_chars (JS.trim t)). unfold Permalink.trimmed, JS.trim, JS.trimEnd.
  by rewrite chars_rev, chars_trimStart, chars_rev, chars_trimStart.
Qed.

Lemma truthy_eqb t : JS.truthy t = negb (String.eqb t "").
Proof. by destruct t. Qed.

Lemma headingId_idOf e :
  headingId e = Permalink.idOf (el_id e) (el_textContent e).
Proof.
  unfold headingId, Permalink.idOf. rewrite truthy_eqb.
  destruct (String.eqb (el_id e) ""); [|done]. cbn [negb].
  by rewrite slugify_slugOfText, slugOfText_slug_of_documentation, trim_trimmed.
Qed.

Lemma startsWith_prefix (t p : string) : JS.startsWith t p = String.prefix p t.
Proof.
  revert t. induction p as [|a p IH]; intros t; [by destruct t|].
  destruct t as [|b t]; [done|]. cbn [JS.startsWith String.prefix].
  destruct (ascii_dec a b) as [Heq|Hne'], (decide (a = b)) as [Heq'|Hne];
    try done.
Qed.

Lemma substring_to_end (k m : nat) (t : string) :
  String.length t ≤ m → String.substring k m t = JS.substring k t.
Proof.
  revert k m. induction t as [|c t IH]; intros k m Hm.
  - destruct k, m; done.
  - destruct k as [|k].
    + cbn [JS.substring]. destruct m as [|m]; [cbn in Hm; lia|].
      cbn [String.substring]. f_equal.
      rewrite (IH 0 m) by (cbn in Hm; lia). by destruct t.
    + cbn [JS.substring String.substring]. apply IH. cbn in Hm. lia.
Qed.

Lemma breakAt_index (p t : string) :
  JS.breakAt p t
  = match String.index 0 p t with
    | Some n =>
        Some (String.substring 0 n t, JS.substring (n + String.length p) t)
    | None => None
    end.
Proof.
  induction t as [|c t IH].
  - cbn [JS.breakAt String.index]. by destruct p.
  - cbn [JS.breakAt String.index]. rewrite startsWith_prefix.
    destruct (String.prefix p (String c t)); [done|].
    rewrite IH. by destruct (String.index 0 p t).
Qed.

Lemma removeFirst_without (p t : string) :
  JS.removeFirst p t = Permalink.without p t.
Proof.
  unfold JS.removeFirst, Permalink.without. rewrite breakAt_index.
  destruct (String.index 0 p t) as [n|]; [|done].
  by rewrite (substring_to_end (n + String.length p) (String.length t) t).
Qed.

Lemma beforeFirst_upTo (p t : string) : JS.beforeFirst p t = Permalink.upTo p t.
Proof.
  unfold JS.beforeFirst, Permalink.upTo. rewrite breakAt_index.
  by destruct (String.index 0 p t).
Qed.

Lemma currentPath_path route hash :
  currentPath route hash = Permalink.path route hash.
Proof.
  unfold currentPath, Permalink.path, Permalink.hashPath.
  rewrite !truthy_eqb, beforeFirst_upTo, removeFirst_without.
  assert ((if JS.startsWith route "/" then JS.substring 1 route else route)
          = Permalink.withoutLeadingSlash route) as ->.
  { destruct route as [|c route]; [done|].
    cbn [JS.startsWith JS.substring Permalink.withoutLeadingSlash].
    destruct (decide ("/"%char = c)) as [<-|Hne]; [by destruct route|].
    destruct c as [[] [] [] [] [] [] [] []]; done. }
  destruct (String.eqb (Permalink.withoutLeadingSlash route) "") eqn:Hroute;
    cbn [negb].
  - by destruct (String.eqb (Permalink.upTo "?" (Permalink.without "#/" hash))
                   "").
  - by rewrite Hroute.
Qed.

Section Links.

Context {sidebarNav : Type} (rewriteSidebarNav : sidebarNav → sidebarNav).

Implicit Types d : document sidebarNav.

Lemma setupScrollSpy_sameShape d sb :
  onThisPage _ d = Some sb → sameShape d (setupScrollSpy _ d).
Proof.
  intros Hd.
  assert (sameShape d d) as Hsame by by exists sb, sb.
  unfold setupScrollSpy. destruct (spy_headings (collectSpy _ d)); [done|].
  apply updateActiveLink_sameShape. by exists sb, sb.
Qed.

(** The link of a heading, with its address and its id as the script
    computes them. *)
Lemma createOnThisPageSidebar_link d (i : nat) (e : element)
    (tag : headingTag) :
  elements _ d !! i = Some e →
  el_heading e = Some tag →
  tag ≠ H1 →
  ∃ sb link a,
    onThisPage _ (createOnThisPageSidebar _ rewriteSidebarNav d) = Some sb
    ∧ link ∈ sidebarLinks sb
    ∧ sb_store sb !! link = Some a
    ∧ toc_href a
      = "#/" +:+ currentPath (currentRoute _ d) (hash (windowLocation _ d))
        +:+ "?id=" +:+ headingId e
    ∧ toc_textContent a = JS.trim (el_textContent e)
    ∧ toc_headingId a = Some (headingId e)
    ∧ headingId e
      = (if JS.truthy (el_id e) then el_id e
         else slugOfText (JS.trim (el_textContent e)))
    ∧ el_id <$> elements _ (createOnThisPageSidebar _ rewriteSidebarNav d) !! i
      = Some (headingId e).
Proof.
  intros Hi Htag Hne.
  assert (e ∈ elements _ d) as Hin by by eapply list_elem_of_lookup_2.
  assert (existsb isHeading (elements _ d) = true) as Hex.
  { apply existsb_exists. exists e. split; [by apply list_elem_of_In|].
    unfold isHeading. by rewrite Htag. }
  unfold createOnThisPageSidebar.
  cbn [setOnThisPage elements]. rewrite Hex. cbn [negb].
  set (d2 := updateLeftSidebarActiveState _ _).
  assert (elements _ d2 = elements _ d
          ∧ currentRoute _ d2 = currentRoute _ d
          ∧ windowLocation _ d2 = windowLocation _ d) as (-> & -> & ->).
  { unfold d2, updateLeftSidebarActiveState, removeNestedFromLeftSidebar.
    cbn [setOnThisPage leftSidebar].
    by destruct (leftSidebar _ d) as [[nav|]|]. }
  destruct (addHeadings_ok (currentRoute _ d) (hash (windowLocation _ d))
              (elements _ d) _ newBuilder_ok)
    as ((Hwf & _ & _) & _ & Hels & Hlinks).
  destruct (Hlinks e tag Hin Htag Hne)
    as (link & a & Hreach & Ha & (Ht & Hhref & Htext & Hid & _)).
  destruct (addHeadings _ _ newBuilder (elements _ d)) as [b els].
  cbn [fst snd] in *. subst els.
  match goal with
  | |- context [setupScrollSpy _ ?d'] => set (d3 := d')
  end.
  match goal with
  | d3 := setOnThisPage _ (Some ?sb') _ |- _ => set (sb0 := sb') in *
  end.
  destruct (setupScrollSpy_sameShape d3 sb0 eq_refl)
    as (sb0' & sb & [= <-] & Hsb & Hshape & Hids).
  pose proof (shape_lookup _ _ link Hshape) as Hl.
  cbn [sb_store sb0] in Hl. rewrite Ha in Hl.
  destruct (sb_store sb !! link) as [a'|] eqn:Ha'; [|done].
  injection Hl as Ht' _ Hid' Hhref' Htext'.
  exists sb, link, a'. split_and!.
  - done.
  - rewrite (sidebarLinks_shape _ _ Hshape). unfold sidebarLinks.
    apply list_elem_of_filter. split.
    + unfold isLink. cbn [sb_store sb0]. rewrite Ha, Ht, Hid. done.
    + apply descendants_complete; [done|done|lia].
  - done.
  - by rewrite Hhref', Hhref.
  - by rewrite Htext', Htext.
  - by rewrite Hid', Hid.
  - unfold headingId. by rewrite slugify_slugOfText.
  - assert (el_id <$> elements _ (setupScrollSpy _ d3) !! i
            = el_id <$> elements _ d3 !! i) as ->
      by by rewrite <- !list_lookup_fmap, Hids.
    cbn [d3 setOnThisPage setElements elements].
    rewrite list_lookup_fmap, Hi. cbn. unfold withId. rewrite Htag.
    by destruct tag.
Qed.

(** C5.  For every heading of the content other than [h1] the sidebar
    that [createOnThisPageSidebar] leaves in the document holds a link
    (one that [.on-this-page a[data-heading-id]] selects) whose address
    has the form [#/<path>?id=<id>]; the text of the link is the text of
    the heading, its [data-heading-id] is the id, and the heading has that
    id afterwards.  Path, id and text are those of [Permalink], which
    states them in the words of the documentation: the path is the route
    without its leading slash, else the path in the hash of the location,
    else [README]; the id is the id the heading has or, when it has none,
    the slug of its text: the text lowercased, without the characters
    that are no word characters, white space or hyphens, with every run
    of white space replaced by one hyphen and repeated hyphens
    collapsed; the text of a heading is its content without the white
    space around it. *)
Theorem createOnThisPageSidebar_links d (i : nat) (e : element)
    (tag : headingTag) :
  elements _ d !! i = Some e →
  el_heading e = Some tag →
  tag ≠ H1 →
  ∃ sb link a,
    onThisPage _ (createOnThisPageSidebar _ rewriteSidebarNav d) = Some sb
    ∧ link ∈ sidebarLinks sb
    ∧ sb_store sb !! link = Some a
    ∧ toc_href a
      = Permalink.href (currentRoute _ d) (hash (windowLocation _ d))
          (Permalink.idOf (el_id e) (el_textContent e))
    ∧ toc_textContent a = Permalink.trimmed (el_textContent e)
    ∧ toc_headingId a = Some (Permalink.idOf (el_id e) (el_textContent e))
    ∧ el_id <$> elements _ (createOnThisPageSidebar _ rewriteSidebarNav d) !! i
      = Some (Permalink.idOf (el_id e) (el_textContent e)).
Proof.
  intros Hi Htag Hne.
  destruct (createOnThisPageSidebar_link d i e tag Hi Htag Hne)
    as (sb & link & a & Hsb & Hlink & Ha & Hhref & Htext & Hid & _ & Hel).
  exists sb, link, a. unfold Permalink.href.
  rewrite <- headingId_idOf, <- currentPath_path, <- trim_trimmed.
  by split_and!.
Qed.

End Links.

(** A page shown without a route, whose first section has a title with
    an apostrophe, a dash and wide gaps, and no id. *)
Definition pageWithPunctuation : document unit :=
  {| onThisPage := None;
     elements :=
       [ {| el_heading := Some H1; el_id := "routing";
            el_textContent := "Routing"; el_top := 20 |};
         {| el_heading := Some H2; el_id := "";
            el_textContent := "  What's New -- and   why?  "; el_top := 80 |};
         {| el_heading := Some H2; el_id := "Shorthand";
            el_textContent := "Shorthand routes"; el_top := 640 |} ];
     leftSidebar := None;
     scrollListeners := [];
     pendingTimeouts := 0;
     windowLocation :=
       {| pathname := "/docs/"; hash := "#/guide/routing?id=old" |};
     currentRoute := "" |}.

Lemma createOnThisPageSidebar_links_witness :
  ∃ sb link a,
    onThisPage unit (createOnThisPageSidebar unit id pageWithPunctuation)
    = Some sb
    ∧ link ∈ sidebarLinks sb
    ∧ sb_store sb !! link = Some a
    ∧ toc_href a = "#/guide/routing?id=whats-new-and-why"
    ∧ toc_textContent a = "What's New -- and   why?"
    ∧ toc_headingId a = Some "whats-new-and-why"
    ∧ el_id <$> elements unit
                  (createOnThisPageSidebar unit id pageWithPunctuation) !! 1
      = Some "whats-new-and-why".
Proof.
  destruct (createOnThisPageSidebar_links id pageWithPunctuation 1
              {| el_heading := Some H2; el_id := "";
                 el_textContent := "  What's New -- and   why?  ";
                 el_top := 80 |} H2)
    as (sb & link & a & Hsb & Hlink & Ha & Hhref & Htext & Hid & Hel).
  - reflexivity.
  - reflexivity.
  - discriminate.
  - exists sb, link, a.
    split_and!;
      [exact Hsb|exact Hlink|exact Ha|exact Hhref|exact Htext|exact Hid
      |exact Hel].
Defined.

End SidebarSpec.

(* ===================================================================== *)
(** ** More properties of the framework switcher *)
(* ===================================================================== *)

Module SwitcherProps.

Import FrameworkSwitcher SwitcherSpec.

(** *** Names of frameworks *)

Lemma lowerChar_lowerChar c : JS.lowerChar (JS.lowerChar c) = JS.lowerChar c.
Proof. destruct c as [[] [] [] [] [] [] [] []]; vm_compute; reflexivity. Qed.

Lemma isWhiteSpace_lowerChar c :
  JS.isWhiteSpace (JS.lowerChar c) = JS.isWhiteSpace c.
Proof. destruct c as [[] [] [] [] [] [] [] []]; vm_compute; reflexivity. Qed.

Lemma toLowerCase_toLowerCase t : JS.toLowerCase (JS.toLowerCase t) = JS.toLowerCase t.
Proof.
  induction t as [|c t IH]; [done|]. cbn [JS.toLowerCase].
  by rewrite lowerChar_lowerChar, IH.
Qed.

Lemma toLowerCase_removeWhiteSpace t :
  JS.toLowerCase (JS.removeWhiteSpace t) = JS.removeWhiteSpace (JS.toLowerCase t).
Proof.
  unfold JS.removeWhiteSpace. induction t as [|c t IH]; [done|].
  cbn [JS.toLowerCase JS.filterChars]. rewrite isWhiteSpace_lowerChar.
  destruct (JS.isWhiteSpace c); cbn [negb JS.toLowerCase]; by rewrite IH.
Qed.

Lemma removeWhiteSpace_removeWhiteSpace t :
  JS.removeWhiteSpace (JS.removeWhiteSpace t) = JS.removeWhiteSpace t.
Proof.
  unfold JS.removeWhiteSpace. induction t as [|c t IH]; [done|].
  cbn [JS.filterChars]. destruct (JS.isWhiteSpace c) eqn:Hc; cbn [negb]; [done|].
  cbn [JS.filterChars]. by rewrite Hc, IH.
Qed.

Lemma removeWhiteSpace_notWhiteSpace t :
  SidebarSpec.allChars SidebarSpec.notWhiteSpace (JS.removeWhiteSpace t) = true.
Proof.
  unfold JS.removeWhiteSpace. induction t as [|c t IH]; [done|].
  cbn [JS.filterChars]. destruct (JS.isWhiteSpace c) eqn:Hc; cbn [negb]; [done|].
  cbn [SidebarSpec.allChars]. unfold SidebarSpec.notWhiteSpace at 1.
  by rewrite Hc, IH.
Qed.

(** X1.  [normalizeFrameworkName] gives a canonical name: the result holds
    no white space, normalising it again changes nothing, and two names
    that are equal up to the case of their letters and up to white space
    have the same normal form. *)
Theorem normalizeFrameworkName_canonical (name : string) :
  normalizeFrameworkName (normalizeFrameworkName name)
  = normalizeFrameworkName name
  ∧ SidebarSpec.allChars SidebarSpec.notWhiteSpace (normalizeFrameworkName name)
    = true
  ∧ normalizeFrameworkName (JS.toLowerCase name) = normalizeFrameworkName name
  ∧ normalizeFrameworkName (JS.removeWhiteSpace name)
    = normalizeFrameworkName name.
Proof.
  unfold normalizeFrameworkName. split_and!.
  - by rewrite toLowerCase_removeWhiteSpace, toLowerCase_toLowerCase,
      removeWhiteSpace_removeWhiteSpace.
  - apply removeWhiteSpace_notWhiteSpace.
  - by rewrite toLowerCase_toLowerCase.
  - by rewrite toLowerCase_removeWhiteSpace, removeWhiteSpace_removeWhiteSpace.
Qed.

(** *** The buttons of a switcher *)

Section Buttons.

Variable CONFIG : config.

Lemma selectFramework_elem cur (available : list string) :
  available ≠ [] → selectFramework cur available ∈ available.
Proof.
  destruct available as [|first rest]; [done|]. intros _.
  unfold selectFramework, includes. case_bool_decide; [done|].
  apply list_elem_of_here.
Qed.

Definition buttonFor (selected framework : string) : button :=
  {| btn_textContent := formatFrameworkName CONFIG framework;
     btn_framework := framework;
     btn_pressed := if bool_decide (framework = selected) then "true" else "false";
     btn_label :=
       "Switch to " +:+ formatFrameworkName CONFIG framework +:+ " examples";
     btn_display := "" |}.

Lemma buttonFor_other selected (l : list string) :
  selected ∉ l →
  Forall (λ b, btn_pressed b = "false") (map (buttonFor selected) l).
Proof.
  intros Hnot. apply Forall_forall. intros b Hb.
  apply list_elem_of_fmap in Hb as (fw & -> & Hfw). cbn.
  rewrite bool_decide_eq_false_2; [done|]. by intros ->.
Qed.

(** X2.  The switcher made for a group whose frameworks are
    [available] (without repetition, not empty) has one button for each of
    them, in their order, and exactly one of the buttons is pressed: the
    button of the framework selected for the group, which is the current
    framework when it is available and else the first available one. *)
Theorem createSwitcher_one_pressed (cur : string) (available : list string) :
  NoDup available →
  available ≠ [] →
  ∃ before b after,
    createSwitcher CONFIG (selectFramework cur available) available
    = GSwitcher (before ++ b :: after)
    ∧ map btn_framework (before ++ b :: after) = available
    ∧ btn_framework b = selectFramework cur available
    ∧ btn_pressed b = "true"
    ∧ Forall (λ b', btn_pressed b' = "false") (before ++ after)
    ∧ (cur ∈ available → btn_framework b = cur)
    ∧ (cur ∉ available → head available = Some (btn_framework b)).
Proof.
  intros Hnodup Hne.
  pose proof (selectFramework_elem cur available Hne) as Hsel.
  set (selected := selectFramework cur available) in *.
  apply list_elem_of_split in Hsel as (l1 & l2 & Hsplit).
  assert ((selected ∉ l1) ∧ (selected ∉ l2)) as [Hl1 Hl2].
  { rewrite Hsplit in Hnodup. apply NoDup_app in Hnodup as (_ & Hdisj & Hcons).
    apply NoDup_cons in Hcons as [? _]. split; [|done].
    intros Hin. apply (Hdisj _ Hin). apply list_elem_of_here. }
  exists (map (buttonFor selected) l1), (buttonFor selected selected),
         (map (buttonFor selected) l2).
  split_and!.
  - unfold createSwitcher. fold (buttonFor selected).
    by rewrite Hsplit, map_app.
  - rewrite Hsplit, !map_app. cbn [map]. rewrite !map_map. cbn.
    by rewrite !map_id.
  - done.
  - cbn. by rewrite bool_decide_eq_true_2.
  - apply Forall_app. split; by apply buttonFor_other.
  - intros Hcur. cbn. subst selected. unfold selectFramework, includes.
    destruct available; [done|]. by rewrite bool_decide_eq_true_2.
  - intros Hcur. cbn. subst selected. unfold selectFramework, includes.
    destruct available; [done|]. by rewrite bool_decide_eq_false_2.
Qed.

(** The effect of [pressFirst] when no two buttons are for the same
    framework. *)
Definition press (b : button) : button :=
  {| btn_textContent := btn_textContent b; btn_framework := btn_framework b;
     btn_pressed := "true"; btn_label := btn_label b;
     btn_display := btn_display b |}.

Lemma pressFirst_absent framework (bs : list button) :
  framework ∉ map btn_framework bs → pressFirst framework bs = bs.
Proof.
  induction bs as [|b bs IH]; [done|]. cbn [map pressFirst].
  intros Hnot. rewrite bool_decide_eq_false_2.
  - rewrite IH; [done|]. intros Hin. apply Hnot. by apply list_elem_of_further.
  - intros Heq. apply Hnot. rewrite Heq. apply list_elem_of_here.
Qed.

Lemma pressFirst_map framework (bs : list button) :
  NoDup (map btn_framework bs) →
  pressFirst framework bs
  = map (λ b, if bool_decide (btn_framework b = framework) then press b else b) bs.
Proof.
  induction bs as [|b bs IH]; [done|]. cbn [map pressFirst].
  intros [Hb Hbs]%NoDup_cons. case_bool_decide as Hfw.
  - f_equal. symmetry. rewrite <- (map_id bs) at 2. apply map_ext_in.
    intros b' Hb'%list_elem_of_In. rewrite bool_decide_eq_false_2; [done|].
    intros Heq. apply Hb. rewrite Hfw, <- Heq.
    apply list_elem_of_fmap. by exists b'.
  - by rewrite IH.
Qed.

Lemma updateButton_framework cur available b :
  btn_framework (updateButton cur available b) = btn_framework b.
Proof. unfold updateButton. by destruct (includes available (btn_framework b)). Qed.

(** X3.  What [updateAllSwitchers] does to the buttons of a group's
    switcher, when no two buttons are for the same framework: the buttons
    keep their frameworks and texts; a button whose framework the group
    does not have is hidden ([display: none]); a button whose framework
    the group has is shown, and it is pressed exactly when its framework
    is the one selected for the group (the current framework when the
    group has it, else the first available one). *)
Theorem updateSwitcherButtons_consistent (cur : string)
    (available : list string) (bs : list button) :
  NoDup (map btn_framework bs) →
  map btn_framework (updateSwitcherButtons cur available bs)
  = map btn_framework bs
  ∧ map btn_textContent (updateSwitcherButtons cur available bs)
    = map btn_textContent bs
  ∧ ∀ b, b ∈ updateSwitcherButtons cur available bs →
      (btn_framework b ∈ available →
       btn_display b = ""
       ∧ (btn_pressed b = "true"
          ↔ btn_framework b = selectFramework cur available))
      ∧ (btn_framework b ∉ available → btn_display b = "none").
Proof.
  intros Hnodup.
  set (bs1 := map (updateButton cur available) bs).
  assert (map btn_framework bs1 = map btn_framework bs) as Hfw1.
  { unfold bs1. rewrite map_map. apply map_ext. intros b.
    apply updateButton_framework. }
  assert (map btn_textContent bs1 = map btn_textContent bs) as Htext1.
  { unfold bs1. rewrite map_map. apply map_ext. intros b.
    unfold updateButton. by destruct (includes available (btn_framework b)). }
  assert (∀ b, b ∈ bs1 →
            (btn_framework b ∈ available →
             btn_display b = ""
             ∧ btn_pressed b
               = if bool_decide (btn_framework b = cur) then "true" else "false")
            ∧ (btn_framework b ∉ available → btn_display b = "none")) as Hbs1.
  { intros b (b0 & -> & _)%list_elem_of_fmap. unfold updateButton, includes.
    case_bool_decide; cbn; split; done. }
  unfold updateSwitcherButtons. fold bs1.
  destruct available as [|first rest] eqn:Havail.
  { split_and!; [done..|]. intros b Hb. split; [by intros ?%elem_of_nil|].
    intros Hnot. by apply (Hbs1 b Hb). }
  rewrite <- Havail in *.
  assert (first ∈ available) as Hfirst by (rewrite Havail; apply list_elem_of_here).
  unfold includes. case_bool_decide as Hcur; cbn [negb].
  - assert (selectFramework cur available = cur) as ->.
    { unfold selectFramework, includes. rewrite Havail, <- Havail.
      by rewrite bool_decide_eq_true_2. }
    split_and!; [done..|]. intros b Hb. destruct (Hbs1 b Hb) as [H1 H2].
    split; [|done]. intros Hin. destruct (H1 Hin) as [-> ->]. split; [done|].
    case_bool_decide; split; done.
  - assert (selectFramework cur available = first) as ->.
    { unfold selectFramework, includes. rewrite Havail, <- Havail.
      by rewrite bool_decide_eq_false_2. }
    rewrite pressFirst_map by by rewrite Hfw1.
    split_and!.
    + rewrite map_map. rewrite <- Hfw1. apply map_ext. intros b.
      by case_bool_decide.
    + rewrite map_map. rewrite <- Htext1. apply map_ext. intros b.
      by case_bool_decide.
    + intros b (b1 & -> & Hb1)%list_elem_of_fmap.
      destruct (Hbs1 b1 Hb1) as [H1 H2].
      destruct (decide (btn_framework b1 = first)) as [Hb|Hb].
      * rewrite bool_decide_eq_true_2 by done. cbn.
        split; [|by rewrite Hb]. intros _. split; [|done].
        apply H1. by rewrite Hb.
      * rewrite bool_decide_eq_false_2 by done.
        split; [|done]. intros Hin. destruct (H1 Hin) as [-> ->].
        split; [done|]. rewrite bool_decide_eq_false_2; [split; done|].
        intros Heq. apply Hcur. by rewrite <- Heq.
Qed.

End Buttons.

(** The three frameworks of the example while Koa is current and the
    group has Hono and Express. *)
Lemma createSwitcher_one_pressed_witness :
  ∃ before b after,
    createSwitcher Samples.sampleConfig
      (selectFramework "koa" ["hono"; "express"]) ["hono"; "express"]
    = GSwitcher (before ++ b :: after)
    ∧ btn_framework b = "hono"
    ∧ btn_pressed b = "true"
    ∧ Forall (λ b', btn_pressed b' = "false") (before ++ after).
Proof.
  destruct (createSwitcher_one_pressed Samples.sampleConfig "koa"
              ["hono"; "express"])
    as (before & b & after & Hsw & _ & Hfw & Hp & Hrest & _).
  - apply NoDup_cons. split; [|apply NoDup_singleton].
    intros Hin%list_elem_of_singleton. discriminate.
  - discriminate.
  - exists before, b, after. split_and!; [exact Hsw|exact Hfw|exact Hp|exact Hrest].
Defined.

Lemma updateSwitcherButtons_consistent_witness :
  map btn_framework
    (updateSwitcherButtons "koa" ["hono"]
       (map (buttonFor Samples.sampleConfig "express") ["hono"; "express"]))
  = ["hono"; "express"]
  ∧ map btn_display
      (updateSwitcherButtons "koa" ["hono"]
         (map (buttonFor Samples.sampleConfig "express") ["hono"; "express"]))
    = [EmptyString; "none"].
Proof.
  split; [|reflexivity].
  apply (updateSwitcherButtons_consistent "koa" ["hono"]
           (map (buttonFor Samples.sampleConfig "express") ["hono"; "express"])).
  vm_compute. apply NoDup_cons. split; [|apply NoDup_singleton].
  intros Hin%list_elem_of_singleton. discriminate.
Defined.

(** *** The blocks of a group *)

Section GroupBlocks.

Variable CONFIG : config.

Lemma setPreClasses_setPreClasses l l' p :
  setPreClasses l (setPreClasses l' p) = setPreClasses l p.
Proof. done. Qed.

Lemma classRemove_classRemove c l : classRemove c (classRemove c l) = classRemove c l.
Proof.
  unfold classRemove. induction l as [|x l IH]; [done|].
  rewrite !filter_cons. destruct (decide (x ≠ c)) as [Hx|Hx]; [|done].
  rewrite filter_cons. destruct (decide (x ≠ c)); [|done]. by rewrite IH.
Qed.

Lemma classAdd_classAdd c l : classAdd c (classAdd c l) = classAdd c l.
Proof.
  unfold classAdd at 1. rewrite bool_decide_eq_true_2; [done|].
  apply classAdd_elem.
Qed.

Lemma classRemove_classAdd c l : classRemove c (classAdd c l) = classRemove c l.
Proof.
  unfold classAdd. case_bool_decide; [done|]. unfold classRemove.
  rewrite filter_app, filter_cons. destruct (decide (c ≠ c)); [done|].
  rewrite filter_nil. apply app_nil_r.
Qed.

Lemma classAdd_classRemove_elem c l : c ∈ classAdd c (classRemove c l).
Proof. apply classAdd_elem. Qed.

Lemma fwOf_shownFirst first para p :
  fwOf CONFIG para (shownFirst CONFIG first para p) = fwOf CONFIG para p.
Proof.
  unfold shownFirst. case_bool_decide.
  - by rewrite fwOf_setPreClasses, fwOf_cached.
  - apply fwOf_cached.
Qed.

(** What [updateGroupVisibility] makes of a block, by the case the group
    is in: a block of the current framework exists, or [available] are the
    frameworks to fall back to. *)
Definition shownAs (cur : string) (available : list string)
    (para : option string) (p : preElement) : preElement :=
  match available with
  | first :: _ =>
      shownFirst CONFIG first para
        (cached CONFIG para (shownFor CONFIG cur para p))
  | [] => cached CONFIG para (shownFor CONFIG cur para p)
  end.

Definition shownIn (cur : string) (kids : list groupChild)
    (para : option string) (p : preElement) : preElement :=
  if existsb (matchesCurrent CONFIG cur) (withPrev None kids)
  then shownFor CONFIG cur para p
  else shownAs cur (getAvailableFrameworks CONFIG kids).2 para p.

Lemma onPre_no_blocks f g (W : list (option string * groupChild)) :
  existsb isPreChild (map snd W) = false → map (onPre f) W = map (onPre g) W.
Proof.
  induction W as [|[para k] W IH]; [done|]. cbn [map existsb snd].
  intros [Hk HW]%orb_false_elim. rewrite IH by done. f_equal.
  by destruct k.
Qed.

Lemma map_snd_withPrev para kids : map snd (withPrev para kids) = kids.
Proof.
  revert para. induction kids as [|k kids IH]; intros para; [done|].
  cbn [withPrev map snd]. by rewrite IH.
Qed.

Lemma updateGroupVisibility_map cur kids :
  updateGroupVisibility CONFIG cur kids
  = map (onPre (shownIn cur kids)) (withPrev None kids).
Proof.
  destruct (updateGroupVisibility_cases CONFIG cur kids) as [Hav Hupd].
  cbn zeta in Hav, Hupd. rewrite Hupd. unfold shownIn. rewrite Hav.
  destruct (existsb (matchesCurrent CONFIG cur) (withPrev None kids)); [done|].
  destruct (existsb isPreChild kids) eqn:Hpre.
  - destruct (filter _ (frameworks CONFIG)) as [|first rest];
      rewrite ?map_map; apply map_ext; by intros [para [bs|text|p]].
  - assert (∀ f g, map (onPre f) (withPrev None kids)
                   = map (onPre g) (withPrev None kids)) as Hany.
    { intros f g. apply onPre_no_blocks. by rewrite map_snd_withPrev. }
    destruct (filter _ (frameworks CONFIG)); apply Hany.
Qed.

Lemma pre_ext (p q : preElement) :
  pre_id p = pre_id q → pre_classList p = pre_classList q →
  pre_code p = pre_code q → p = q.
Proof. destruct p, q. cbn. by intros -> -> ->. Qed.

(** The parts of a block after each of the three loops: the identity
    stays, the code element is the one [detectFramework] leaves, and the
    classes depend on the framework of the block. *)
Definition codeOf (para : option string) (p : preElement) : codeElement :=
  (detectFramework CONFIG para (pre_code p)).2.

Definition classesFor (cur : string) (r : option string) (l : list string)
  : list string :=
  if isTruthy r then
    if bool_decide (r = Some cur) then classRemove "fw-hidden" l
    else classAdd "fw-hidden" l
  else l.

Definition classesFirst (first : string) (r : option string) (l : list string)
  : list string :=
  if bool_decide (r = Some first) then classRemove "fw-hidden" l else l.

Definition classesIn (cur : string) (kids : list groupChild)
    (r : option string) (l : list string) : list string :=
  if existsb (matchesCurrent CONFIG cur) (withPrev None kids)
  then classesFor cur r l
  else match (getAvailableFrameworks CONFIG kids).2 with
       | first :: _ => classesFirst first r (classesFor cur r l)
       | [] => classesFor cur r l
       end.

Lemma codeOf_codeOf para p q :
  pre_code q = codeOf para p →
  codeOf para q = codeOf para p ∧ fwOf CONFIG para q = fwOf CONFIG para p.
Proof.
  unfold codeOf, fwOf. intros ->. by rewrite detectFramework_stable.
Qed.

Lemma shownFor_parts cur para p :
  pre_id (shownFor CONFIG cur para p) = pre_id p
  ∧ pre_code (shownFor CONFIG cur para p) = codeOf para p
  ∧ pre_classList (shownFor CONFIG cur para p)
    = classesFor cur (fwOf CONFIG para p) (pre_classList p).
Proof.
  unfold shownFor, classesFor. destruct (isTruthy _); [case_bool_decide|]; done.
Qed.

Lemma shownFirst_parts first para p :
  pre_id (shownFirst CONFIG first para p) = pre_id p
  ∧ pre_code (shownFirst CONFIG first para p) = codeOf para p
  ∧ pre_classList (shownFirst CONFIG first para p)
    = classesFirst first (fwOf CONFIG para p) (pre_classList p).
Proof. unfold shownFirst, classesFirst. case_bool_decide; done. Qed.

Lemma shownIn_parts cur kids para p :
  pre_id (shownIn cur kids para p) = pre_id p
  ∧ pre_code (shownIn cur kids para p) = codeOf para p
  ∧ pre_classList (shownIn cur kids para p)
    = classesIn cur kids (fwOf CONFIG para p) (pre_classList p).
Proof.
  unfold shownIn, shownAs, classesIn.
  destruct (shownFor_parts cur para p) as (Hid & Hcode & Hcls).
  destruct (existsb _ _); [done|].
  set (q := cached CONFIG para (shownFor CONFIG cur para p)).
  assert (pre_id q = pre_id p ∧ pre_code q = codeOf para p
          ∧ pre_classList q
            = classesFor cur (fwOf CONFIG para p) (pre_classList p)
          ∧ fwOf CONFIG para q = fwOf CONFIG para p) as (Hid' & Hcode' & Hcls' & Hfw').
  { unfold q. split_and!; [done| |done|by rewrite fwOf_cached, fwOf_shownFor].
    change (pre_code (cached CONFIG para (shownFor CONFIG cur para p)))
      with (codeOf para (shownFor CONFIG cur para p)).
    by apply codeOf_codeOf. }
  destruct ((getAvailableFrameworks CONFIG kids).2) as [|first rest]; [done|].
  destruct (shownFirst_parts first para q) as (Hid'' & Hcode'' & Hcls'').
  rewrite Hid'', Hcode'', Hcls'', Hid', Hcls', Hfw'. split_and!; [done| |done].
  by apply codeOf_codeOf.
Qed.

Lemma classesIn_classesIn cur kids r l :
  classesIn cur kids r (classesIn cur kids r l) = classesIn cur kids r l.
Proof.
  unfold classesIn, classesFirst, classesFor.
  destruct (existsb _ _), ((getAvailableFrameworks CONFIG kids).2),
    (isTruthy r); repeat case_bool_decide;
    by rewrite ?classRemove_classAdd, ?classRemove_classRemove,
         ?classAdd_classAdd, ?classRemove_classAdd, ?classRemove_classRemove.
Qed.

Lemma shownIn_shownIn cur kids para p :
  shownIn cur kids para (shownIn cur kids para p) = shownIn cur kids para p.
Proof.
  destruct (shownIn_parts cur kids para p) as (Hid & Hcode & Hcls).
  destruct (shownIn_parts cur kids para (shownIn cur kids para p))
    as (Hid' & Hcode' & Hcls').
  destruct (codeOf_codeOf para p _ Hcode) as [Hcc Hfw].
  apply pre_ext.
  - by rewrite Hid'.
  - by rewrite Hcls', Hfw, Hcls, classesIn_classesIn.
  - by rewrite Hcode', Hcc.
Qed.

Lemma fwOf_shownIn cur kids para p :
  fwOf CONFIG para (shownIn cur kids para p) = fwOf CONFIG para p.
Proof.
  destruct (shownIn_parts cur kids para p) as (_ & Hcode & _).
  by apply codeOf_codeOf.
Qed.

Lemma matchesCurrent_onPre cur h x :
  (∀ para p, fwOf CONFIG para (h para p) = fwOf CONFIG para p) →
  matchesCurrent CONFIG cur (x.1, onPre h x) = matchesCurrent CONFIG cur x.
Proof.
  intros Hh. destruct x as [para [bs|text|p]]; try done.
  unfold matchesCurrent, onPre. cbn [fst snd]. by rewrite Hh.
Qed.

Lemma foundIn_onPre h x :
  (∀ para p, fwOf CONFIG para (h para p) = fwOf CONFIG para p) →
  foundIn CONFIG (x.1, onPre h x) = foundIn CONFIG x.
Proof.
  intros Hh. destruct x as [para [bs|text|p]]; try done.
  unfold foundIn, onPre. cbn [fst snd]. by rewrite Hh.
Qed.

(** The group after a function that keeps the frameworks of the blocks
    was applied to its blocks is in the same case. *)
Lemma existsb_fmap_ext {X : Type} (f : X → bool) (g : X → X) (l : list X) :
  (∀ x, f (g x) = f x) → existsb f (map g l) = existsb f l.
Proof.
  intros Hfg. induction l as [|x l IH]; [done|]. cbn [map existsb].
  by rewrite IH, Hfg.
Qed.

Lemma shownIn_onPre cur kids h :
  (∀ para p, fwOf CONFIG para (h para p) = fwOf CONFIG para p) →
  shownIn cur (map (onPre h) (withPrev None kids)) = shownIn cur kids.
Proof.
  intros Hh. unfold shownIn.
  destruct (updateGroupVisibility_cases CONFIG cur kids) as [Hav _].
  destruct (updateGroupVisibility_cases CONFIG cur
              (map (onPre h) (withPrev None kids))) as [Hav' _].
  cbn zeta in Hav, Hav'. rewrite Hav, Hav'. rewrite withPrev_map.
  rewrite existsb_fmap_ext by (intros x; by apply matchesCurrent_onPre).
  assert (flat_map (foundIn CONFIG)
            (map (λ x, (x.1, onPre h x)) (withPrev None kids))
          = flat_map (foundIn CONFIG) (withPrev None kids)) as ->.
  { rewrite flat_map_fmap. apply flat_map_ext. intros x. by apply foundIn_onPre. }
  done.
Qed.

(** X4.  [getAvailableFrameworks] gives configured frameworks only, in
    the configured order; a framework is in the list exactly when it is
    configured and a block of the group has it.  The call leaves what it
    detected in the blocks, so that asking again gives the same list and
    changes nothing any more. *)
Theorem getAvailableFrameworks_stable (kids : list groupChild) :
  (getAvailableFrameworks CONFIG kids).2 `sublist_of` frameworks CONFIG
  ∧ (∀ fw, fw ∈ (getAvailableFrameworks CONFIG kids).2
           ↔ fw ∈ frameworks CONFIG
             ∧ ∃ para p, (para, GPre p) ∈ withPrev None kids
                         ∧ (detectFramework CONFIG para (pre_code p)).1 = Some fw
                         ∧ JS.truthy fw = true)
  ∧ getAvailableFrameworks CONFIG (getAvailableFrameworks CONFIG kids).1
    = getAvailableFrameworks CONFIG kids.
Proof.
  unfold getAvailableFrameworks. rewrite groupFrameworks_map.
  cbn [fst snd paragraphOfChild]. split_and!.
  - apply sublist_filter.
  - intros fw. rewrite list_elem_of_filter.
    assert (fw ∈ flat_map (foundIn CONFIG) (withPrev None kids)
            ↔ ∃ para p, (para, GPre p) ∈ withPrev None kids
                        ∧ (detectFramework CONFIG para (pre_code p)).1 = Some fw
                        ∧ JS.truthy fw = true) as Hiff.
    { rewrite list_elem_of_In, in_flat_map. split.
      + intros ([para k] & Hx%list_elem_of_In & Hin%list_elem_of_In).
        apply foundIn_fwOf in Hin as (p & Hk & Hfw & Ht). cbn [fst snd] in *.
        subst k. by exists para, p.
      + intros (para & p & Hx & Hfw & Ht). exists (para, GPre p).
        split; [by apply list_elem_of_In|].
        apply list_elem_of_In, foundIn_fwOf. by exists p. }
    rewrite Hiff. tauto.
  - rewrite groupFrameworks_map. cbn [paragraphOfChild]. rewrite withPrev_map.
    rewrite map_map, flat_map_fmap. f_equal.
    + apply map_ext. intros [para [bs|text|p]]; try done.
      unfold onPre. cbn [fst snd]. by rewrite cached_cached.
    + assert (flat_map (λ x, foundIn CONFIG (x.1, onPre (cached CONFIG) x))
                (withPrev None kids)
              = flat_map (foundIn CONFIG) (withPrev None kids)) as ->; [|done].
      apply flat_map_ext. intros x. apply foundIn_onPre.
      intros para p. apply fwOf_cached.
Qed.

(** X5.  [updateGroupVisibility] is idempotent: a second call for the
    same current framework finds the group as the first call left it. *)
Theorem updateGroupVisibility_idempotent (cur : string)
    (kids : list groupChild) :
  updateGroupVisibility CONFIG cur (updateGroupVisibility CONFIG cur kids)
  = updateGroupVisibility CONFIG cur kids.
Proof.
  rewrite (updateGroupVisibility_map cur kids).
  rewrite updateGroupVisibility_map.
  rewrite shownIn_onPre by apply fwOf_shownIn.
  rewrite withPrev_map, map_map. apply map_ext.
  intros [para [bs|text|p]]; try done.
  unfold onPre. cbn [fst snd]. by rewrite shownIn_shownIn.
Qed.

(** X6.  After [updateGroupVisibility] a group shows the blocks of one
    framework only: a block with a framework in its dataset that does not
    carry [fw-hidden] has the current framework or, when no block of the
    group has the current framework, the first available framework. *)
Theorem updateGroupVisibility_shows_one_framework (cur : string)
    (kids : list groupChild) (p : preElement) (fw : string) :
  GPre p ∈ updateGroupVisibility CONFIG cur kids →
  dataset_framework (pre_code p) = Some fw →
  JS.truthy fw = true →
  "fw-hidden" ∉ pre_classList p →
  fw = cur
  ∨ ((cur ∉ (groupFrameworks CONFIG None kids).2)
     ∧ head (getAvailableFrameworks CONFIG kids).2 = Some fw).
Proof.
  rewrite updateGroupVisibility_map.
  intros ([para k] & Hk & Hx)%list_elem_of_fmap Hdata Ht Hvisible.
  destruct k as [bs|text|q]; try done. unfold onPre in Hk. cbn [fst snd] in Hk.
  injection Hk as ->.
  destruct (shownIn_parts cur kids para q) as (_ & Hcode & Hcls).
  rewrite Hcode in Hdata. rewrite Hcls in Hvisible. clear Hcode Hcls.
  assert (fwOf CONFIG para q = Some fw) as Hfw.
  { unfold codeOf in Hdata. unfold fwOf.
    destruct (detectFramework_dataset CONFIG para (pre_code q)) as [H1 H2].
    destruct (isTruthy (detectFramework CONFIG para (pre_code q)).1) eqn:Hr.
    - by rewrite <- H1.
    - specialize (H2 eq_refl). rewrite Hdata in H2. cbn in H2. congruence. }
  rewrite Hfw in Hvisible. unfold classesIn, classesFor in Hvisible.
  cbn [isTruthy] in Hvisible. rewrite Ht in Hvisible.
  destruct (existsb (matchesCurrent CONFIG cur) (withPrev None kids)) eqn:Hex.
  - left. destruct (decide (fw = cur)) as [|Hne]; [done|].
    rewrite bool_decide_eq_false_2 in Hvisible by congruence.
    exfalso. apply Hvisible. apply classAdd_elem.
  - assert (fw ≠ cur) as Hne.
    { intros ->. apply not_true_iff_false in Hex. apply Hex.
      apply existsb_exists. exists (para, GPre q).
      split; [by apply list_elem_of_In|].
      unfold matchesCurrent. cbn [fst snd]. rewrite Hfw. cbn [isTruthy].
      by rewrite Ht, bool_decide_eq_true_2. }
    rewrite (bool_decide_eq_false_2 (Some fw = Some cur)) in Hvisible
      by congruence.
    right. split.
    + rewrite groupFrameworks_map. cbn [snd paragraphOfChild].
      intros Hin. apply not_true_iff_false in Hex. apply Hex.
      apply list_elem_of_In, in_flat_map in Hin as ([para' k'] & Hx' & Hin).
      apply list_elem_of_In, foundIn_fwOf in Hin as (p' & Hk' & Hf' & Ht').
      cbn [fst snd] in *. subst k'.
      apply existsb_exists. exists (para', GPre p'). split; [done|].
      unfold matchesCurrent. cbn [fst snd]. rewrite Hf'. cbn [isTruthy].
      by rewrite Ht', bool_decide_eq_true_2.
    + destruct ((getAvailableFrameworks CONFIG kids).2) as [|first rest].
      * exfalso. apply Hvisible. apply classAdd_elem.
      * cbn [head]. f_equal. unfold classesFirst in Hvisible.
        destruct (decide (fw = first)) as [|Hnf]; [done|].
        rewrite bool_decide_eq_false_2 in Hvisible by congruence.
        exfalso. apply Hvisible. apply classAdd_elem.
Qed.

End GroupBlocks.

(** The group of the example, with Hono and Express, while Koa is
    current: the Hono block is the one shown. *)
Lemma updateGroupVisibility_shows_one_framework_witness :
  "hono" = "koa"
  ∨ (("koa" ∉ (groupFrameworks Samples.sampleConfig None Samples.hiddenGroup).2)
     ∧ head (getAvailableFrameworks Samples.sampleConfig Samples.hiddenGroup).2
       = Some "hono").
Proof.
  apply (updateGroupVisibility_shows_one_framework Samples.sampleConfig "koa"
           Samples.hiddenGroup
           {| pre_id := 1; pre_classList := [];
              pre_code :=
                {| textContent := "// framework: hono"; classList := ["lang-js"];
                   dataset_framework := Some "hono";
                   dataset_markerStripped := None |} |} "hono").
  - vm_compute. apply list_elem_of_further, list_elem_of_here.
  - reflexivity.
  - reflexivity.
  - cbn. by intros ?%elem_of_nil.
Defined.

(** *** The stored selection *)

Section Persistence.

Variable CONFIG : config.

(** The clicks of a reader: every button carries a name of a framework. *)
Definition namedClick (ev : event) : Prop :=
  match ev with
  | Click framework => JS.truthy framework = true
  | _ => True
  end.

Definition run (st : state) (evs : list event) : state :=
  foldl (λ st ev, handle CONFIG ev st) st evs.

(** What the local storage holds is what loading the script reads back. *)
Definition restores (st : state) : Prop :=
  JS.orElse (localStorage st !! storageKey CONFIG) (defaultFramework CONFIG)
  = currentFramework st.

Lemma handle_restores ev st :
  namedClick ev → restores st → restores (handle CONFIG ev st).
Proof.
  unfold restores. intros Hev Hst. destruct ev as [| |framework]; cbn [handle].
  - unfold init. destruct (includes _ _); [done|].
    cbn [localStorage currentFramework]. rewrite lookup_insert_eq.
    cbn. by destruct (JS.truthy _).
  - done.
  - unfold setFramework. case_bool_decide; [done|].
    cbn [localStorage currentFramework]. rewrite lookup_insert_eq.
    cbn in *. by rewrite Hev.
Qed.

(** X7.  The selection survives a reload.  Whatever the local storage
    held when the script was loaded, and whatever the hooks and the clicks
    of the reader did since, loading the script again with the local
    storage as it is now gives the current framework as its initial
    selection. *)
Theorem reload_restores_selection (storage : gmap string string)
    (dom dom' : list node) (evs : list event) :
  Forall namedClick evs →
  currentFramework (load CONFIG (localStorage (run (load CONFIG storage dom) evs))
                      dom')
  = currentFramework (run (load CONFIG storage dom) evs).
Proof.
  intros Hevs.
  assert (restores (load CONFIG storage dom)) as Hload by done.
  revert Hload. generalize (load CONFIG storage dom). unfold run.
  induction Hevs as [|ev evs Hev _ IH]; intros st Hst; [done|].
  cbn [foldl]. apply IH. by apply handle_restores.
Qed.

End Persistence.

(** The reader picks Express, the page is rendered again, the reader
    picks Koa. *)
Lemma reload_restores_selection_witness :
  currentFramework
    (load Samples.sampleConfig
       (localStorage
          (run Samples.sampleConfig
             (load Samples.sampleConfig ∅ Samples.honoExpressPage)
             [Init; DoneEach; Click "express"; DoneEach; Click "koa"]))
       [])
  = "koa".
Proof.
  rewrite (reload_restores_selection Samples.sampleConfig ∅
             Samples.honoExpressPage []
             [Init; DoneEach; Click "express"; DoneEach; Click "koa"]).
  - vm_compute. reflexivity.
  - repeat constructor.
Defined.

(** *** Adjacent blocks *)

Section Adjacency.

Variable CONFIG : config.

Lemma splitAtPre_Some id (nodes front behind : list node) p :
  splitAtPre id nodes = Some (front, p, behind) →
  nodes = front ++ NPre p :: behind ∧ pre_id p = id.
Proof.
  revert front. induction nodes as [|n nodes IH]; intros front; [done|].
  cbn [splitAtPre].
  destruct (match n with NPre q => bool_decide (pre_id q = id) | _ => false end)
    eqn:Hn.
  - destruct n as [| |q| |]; try done. intros [= <- <- <-].
    by apply bool_decide_eq_true in Hn.
  - destruct (splitAtPre id nodes) as [[[front' q] behind']|]; [|done].
    intros [= <- <- <-]. destruct (IH front' eq_refl) as [-> ?]. done.
Qed.

Lemma walkToBlock_true id (siblings : list node) :
  walkToBlock CONFIG id siblings = true →
  ∃ seps p rest,
    siblings = seps ++ NPre p :: rest ∧ pre_id p = id
    ∧ forallb (isSeparator CONFIG) seps = true.
Proof.
  induction siblings as [|n siblings IH]; [done|].
  destruct n as [data|text|q|kids|tag]; cbn [walkToBlock]; try done.
  - intros (seps & p & rest & -> & Hp & Hseps)%IH.
    by exists (NText data :: seps), p, rest.
  - destruct (isBlank text) eqn:Hblank.
    + intros (seps & p & rest & -> & Hp & Hseps)%IH.
      exists (NPara text :: seps), p, rest. split_and!; [done..|].
      cbn [forallb isSeparator]. by rewrite Hblank.
    + destruct (isLabelText CONFIG text) eqn:Hlabel; [|done].
      intros (seps & p & rest & -> & Hp & Hseps)%IH.
      exists (NPara text :: seps), p, rest. split_and!; [done..|].
      cbn [forallb isSeparator]. by rewrite Hlabel, orb_true_r.
  - intros Hq%bool_decide_eq_true. by exists [], q, siblings.
Qed.

Lemma allCodeBlocks_separators (seps : list node) :
  forallb (isSeparator CONFIG) seps = true → allCodeBlocks seps = [].
Proof.
  induction seps as [|n seps IH]; [done|]. cbn [forallb].
  intros [Hn Hseps]%andb_prop. rewrite allCodeBlocks_cons, IH by done.
  by destruct n.
Qed.

(** X8.  [isAdjacentBlock]: a block is adjacent to a batch exactly when it
    comes behind the last block of the batch with nothing but text nodes,
    empty paragraphs and framework-label paragraphs between the two.  For
    an empty batch the answer is [false]. *)
Theorem isAdjacentBlock_iff (nodes : list node) (batch : list nat)
    (lastBlock codeBlock : nat) :
  NoDup (allCodeBlocks nodes) →
  last batch = Some lastBlock →
  isAdjacentBlock CONFIG nodes [] codeBlock = false
  ∧ (isAdjacentBlock CONFIG nodes batch codeBlock = true
     ↔ ∃ front pl seps p behind,
         nodes = front ++ NPre pl :: seps ++ NPre p :: behind
         ∧ pre_id pl = lastBlock ∧ pre_id p = codeBlock
         ∧ forallb (isSeparator CONFIG) seps = true).
Proof.
  intros Hnodup Hlast. split; [done|]. unfold isAdjacentBlock. rewrite Hlast.
  split.
  - destruct (splitAtPre lastBlock nodes) as [[[front pl] behind]|] eqn:Hsplit;
      [|done].
    apply splitAtPre_Some in Hsplit as [-> Hpl].
    intros (seps & p & rest & -> & Hp & Hseps)%walkToBlock_true.
    by exists front, pl, seps, p, rest.
  - intros (front & pl & seps & p & behind & -> & Hpl & Hp & Hseps).
    subst lastBlock. rewrite splitAtPre_here.
    + rewrite (walkToBlock_trail CONFIG codeBlock seps p behind); [done| |done].
      by apply allCodeBlocks_separators.
    + rewrite allCodeBlocks_app, allCodeBlocks_cons in Hnodup.
      apply NoDup_app in Hnodup as (_ & Hdisj & _).
      intros Hin. apply (Hdisj _ Hin). apply list_elem_of_here.
Qed.

End Adjacency.

(** The two blocks of the example, with a line feed between them. *)
Lemma isAdjacentBlock_iff_witness :
  isAdjacentBlock Samples.sampleConfig Samples.honoExpressPage [1] 2 = true.
Proof.
  apply (isAdjacentBlock_iff Samples.sampleConfig Samples.honoExpressPage [1] 1 2).
  - vm_compute. apply NoDup_cons. split; [|apply NoDup_singleton].
    intros Hin%list_elem_of_singleton. discriminate.
  - reflexivity.
  - eexists [NPara "Create the app:"], _, [NText Samples.LF], _,
      [NPara "Then start it."].
    split_and!; reflexivity.
Defined.

(** *** The lines of a block *)

Definition isLF (c : ascii) : bool := if decide (c = "010"%char) then true else false.

Definition noLineFeed (line : string) : bool :=
  SidebarSpec.allChars (λ c, negb (isLF c)) line.

(** The line ends with a carriage return. *)
Fixpoint endsWithCR (line : string) : bool :=
  match line with
  | EmptyString => false
  | String c EmptyString => if decide (c = "013"%char) then true else false
  | String _ rest => endsWithCR rest
  end.

Lemma splitLines_cons_line (c : ascii) (t : string) :
  c ≠ "010"%char →
  (c = "013"%char → JS.startsWithLF t = false) →
  ∃ line rest, JS.splitLines t = line :: rest
               ∧ JS.splitLines (String c t) = String c line :: rest.
Proof.
  intros Hc Hcr. cbn [JS.splitLines].
  destruct (decide (c = "010"%char)); [done|].
  assert ((if decide (c = "013"%char) then JS.startsWithLF t else false) = false)
    as ->.
  { destruct (decide (c = "013"%char)); [by apply Hcr|done]. }
  destruct t as [|d t'].
  - by exists EmptyString, [].
  - destruct (JS.splitLines (String d t')) as [|line rest] eqn:Hsplit.
    + exfalso. cbn [JS.splitLines] in Hsplit.
      destruct (decide (d = "010"%char)); [done|].
      destruct (if decide (d = "013"%char) then JS.startsWithLF t' else false).
      * clear Hcr. revert d n0 Hsplit. induction t' as [|e t' IH]; [done|].
        intros d _ Hsplit. cbn [JS.splitLines] in Hsplit.
        destruct (decide (e = "010"%char)); [done|].
        destruct (if decide (e = "013"%char) then JS.startsWithLF t' else false);
          [by eapply IH|].
        by destruct (JS.splitLines t').
      * by destruct (JS.splitLines t').
    + by exists line, rest.
Qed.

Lemma splitLines_not_nil (t : string) : JS.splitLines t ≠ [].
Proof.
  induction t as [|c t IH]; [done|]. cbn [JS.splitLines].
  destruct (decide (c = "010"%char)); [done|].
  destruct (if decide (c = "013"%char) then JS.startsWithLF t else false);
    [done|]. by destruct (JS.splitLines t).
Qed.

Lemma splitLines_noLineFeed (t : string) :
  Forall (λ line, noLineFeed line = true) (JS.splitLines t).
Proof.
  induction t as [|c t IH]; [by repeat constructor|]. cbn [JS.splitLines].
  destruct (decide (c = "010"%char)) as [Hc|Hc]; [by constructor|].
  destruct (if decide (c = "013"%char) then JS.startsWithLF t else false);
    [done|].
  destruct (JS.splitLines t) as [|line rest].
  - constructor; [|done]. unfold noLineFeed, isLF. cbn.
    by destruct (decide (c = "010"%char)).
  - apply Forall_cons in IH as [Hline Hrest]. constructor; [|done].
    unfold noLineFeed, isLF in *. cbn.
    destruct (decide (c = "010"%char)); [done|]. done.
Qed.

(** A line in front of a line feed. *)
Lemma splitLines_line (line t : string) :
  noLineFeed line = true → endsWithCR line = false →
  JS.splitLines (line +:+ String "010"%char t) = line :: JS.splitLines t.
Proof.
  induction line as [|c line IH]; intros Hlf Hcr.
  - cbn. by destruct (decide ("010"%char = "010"%char)).
  - rewrite SidebarSpec.append_cons.
    unfold noLineFeed in Hlf. cbn [SidebarSpec.allChars] in Hlf.
    apply andb_prop in Hlf as [Hc Hlf]. unfold isLF in Hc.
    destruct (decide (c = "010"%char)) as [|Hne]; [done|].
    assert (endsWithCR line = false) as Hcr'.
    { destruct line; [done|]. exact Hcr. }
    specialize (IH Hlf Hcr').
    destruct (splitLines_cons_line c (line +:+ String "010"%char t))
      as (l & rest & Hsplit & ->); [done| |].
    + intros ->. destruct line as [|d line]; [done|].
      rewrite SidebarSpec.append_cons. cbn [JS.startsWithLF].
      unfold noLineFeed in Hlf. cbn [SidebarSpec.allChars] in Hlf.
      apply andb_prop in Hlf as [Hd _]. unfold isLF in Hd.
      by destruct (decide (d = "010"%char)).
    + rewrite IH in Hsplit. by injection Hsplit as <- <-.
Qed.

Lemma splitLines_last_line (line : string) :
  noLineFeed line = true → JS.splitLines line = [line].
Proof.
  induction line as [|c line IH]; [done|]. intros Hlf.
  unfold noLineFeed in Hlf. cbn [SidebarSpec.allChars] in Hlf.
  apply andb_prop in Hlf as [Hc Hlf]. unfold isLF in Hc.
  destruct (decide (c = "010"%char)) as [|Hne]; [done|].
  destruct (splitLines_cons_line c line) as (l & rest & Hsplit & ->); [done| |].
  - intros _. destruct line as [|d line]; [done|]. cbn [JS.startsWithLF].
    unfold noLineFeed in Hlf. cbn [SidebarSpec.allChars] in Hlf.
    apply andb_prop in Hlf as [Hd _]. unfold isLF in Hd.
    by destruct (decide (d = "010"%char)).
  - rewrite IH in Hsplit by done. by injection Hsplit as <- <-.
Qed.

(** Joining lines and splitting the text again gives the lines back. *)
Lemma splitLines_joinLines (lines : list string) :
  lines ≠ [] →
  Forall (λ line, noLineFeed line = true) lines →
  Forall (λ line, endsWithCR line = false) lines →
  JS.splitLines (JS.joinLines lines) = lines.
Proof.
  induction lines as [|line lines IH]; [done|]. intros _ Hlf Hcr.
  apply Forall_cons in Hlf as [Hline Hlf].
  apply Forall_cons in Hcr as [Hline' Hcr].
  destruct lines as [|line2 lines].
  - cbn [JS.joinLines]. by apply splitLines_last_line.
  - change (JS.joinLines (line :: line2 :: lines))
      with (line +:+ String "010"%char (JS.joinLines (line2 :: lines))).
    rewrite splitLines_line by done. f_equal. by apply IH.
Qed.

Section Lines.

Variable CONFIG : config.

(** X9.  [stripMarkerLine] takes out a whole line and nothing else: when
    no line of the block ends with a carriage return, the lines of the
    text after the call are the lines before it, or these lines without
    one of the first [maxLinesToCheck] lines (the text of a block whose
    only line goes is empty, which is one empty line). *)
Theorem stripMarkerLine_keeps_other_lines (c : codeElement) :
  let lines := JS.splitLines (textContent c) in
  Forall (λ line, endsWithCR line = false) lines →
  JS.splitLines (textContent (stripMarkerLine CONFIG c)) = lines
  ∨ ∃ i, i < length lines ∧ i < maxLinesToCheck CONFIG
         ∧ JS.splitLines (textContent (stripMarkerLine CONFIG c))
           = match delete i lines with
             | [] => [EmptyString]
             | rest => rest
             end.
Proof.
  intros lines Hcr. unfold stripMarkerLine. case_bool_decide; [by left|].
  fold lines.
  destruct (markerLineIndex CONFIG (maxLinesToCheck CONFIG) 0 lines) as [i|]
    eqn:Hindex; [|by left].
  right. apply markerLineIndex_found in Hindex
    as (j & line & -> & Hj & Hline & _).
  exists j. cbn [Nat.add]. split_and!; [by eapply lookup_lt_Some|done|].
  cbn [textContent setMarkerStripped setTextContent].
  destruct (delete j lines) as [|l rest] eqn:Hdel; [done|].
  rewrite <- Hdel. apply splitLines_joinLines.
  - by rewrite Hdel.
  - apply Forall_delete, splitLines_noLineFeed.
  - by apply Forall_delete.
Qed.

End Lines.

(** The Hono block of the example: the marker line goes, the line of
    code stays. *)
Lemma stripMarkerLine_keeps_other_lines_witness :
  JS.splitLines
    (textContent
       (stripMarkerLine Samples.sampleConfig
          (Samples.code ("// framework: hono" +:+ Samples.LF
                         +:+ "const app = new Hono()"))))
  = ["const app = new Hono()"].
Proof.
  destruct (stripMarkerLine_keeps_other_lines Samples.sampleConfig
              (Samples.code ("// framework: hono" +:+ Samples.LF
                             +:+ "const app = new Hono()")))
    as [Hsame|(i & _ & _ & Hi)].
  - vm_compute. repeat constructor.
  - vm_compute. reflexivity.
  - vm_compute. reflexivity.
Defined.

(** *** Pages and batches *)

Section Pages.

Variable CONFIG : config.
Variable cur : string.

Lemma detectFramework_None para c :
  (detectFramework CONFIG para c).1 = None →
  detectFramework CONFIG para c = (None, c).
Proof.
  unfold detectFramework, detectUncached.
  destruct (dataset_framework c) as [cached|];
    [destruct (JS.truthy cached); [done|]|];
    repeat match goal with
           | |- context [match ?x with _ => _ end] => destruct x; try done
           end.
Qed.

Lemma detectFramework_keeps para c :
  classList (detectFramework CONFIG para c).2 = classList c
  ∧ textContent (detectFramework CONFIG para c).2 = textContent c
  ∧ dataset_markerStripped (detectFramework CONFIG para c).2
    = dataset_markerStripped c.
Proof.
  unfold detectFramework.
  destruct (dataset_framework c) as [cached|];
    [destruct (JS.truthy cached); [done|]|];
    by destruct (detectUncached_cases CONFIG para c) as [->|(fw & _ & ->)].
Qed.

Lemma clearExistingGroups_no_groups (nodes : list node) :
  (∀ kids, NGroup kids ∉ nodes) → clearExistingGroups nodes = nodes.
Proof.
  intros Hno. unfold clearExistingGroups. rewrite <- (map_id nodes) at 2.
  apply map_ext_in. intros n Hn%list_elem_of_In.
  destruct n as [| | |kids|]; try done. by destruct (Hno kids).
Qed.

Lemma scan_undetected (l : list node) :
  ∀ A,
    (∀ l1 p l2, l = l1 ++ NPre p :: l2 →
       (detectFramework CONFIG (lastParagraph (A ++ l1)) (pre_code p)).1 = None) →
    foldl (zstep CONFIG cur)
      {| zdone := A; zseg := []; ztrail := []; zfws := ∅ |} l
    = {| zdone := A ++ l; zseg := []; ztrail := []; zfws := ∅ |}.
Proof.
  induction l as [|n l IH]; intros A Hl; [by rewrite app_nil_r|].
  cbn [foldl].
  assert (zstep CONFIG cur
            {| zdone := A; zseg := []; ztrail := []; zfws := ∅ |} n
          = {| zdone := A ++ [n]; zseg := []; ztrail := []; zfws := ∅ |}) as ->.
  { destruct n as [data|text|p|kids|tag]; try done.
    cbn [zstep zdone zseg ztrail zfws]. rewrite !app_nil_r.
    specialize (Hl [] p l eq_refl). rewrite app_nil_r in Hl.
    rewrite (detectFramework_None _ _ Hl). cbn [isTruthy].
    by rewrite setCode_same. }
  rewrite IH.
  - by rewrite <- app_assoc.
  - intros l1 p l2 ->. rewrite <- app_assoc. apply (Hl (n :: l1) p l2). done.
Qed.

(** X10.  A page on which no framework is detected for any block stays as
    it is: [processPage] makes no group, and it changes no block and no
    other node. *)
Theorem processPage_nothing_detected (nodes : list node) :
  NoDup (allCodeBlocks nodes) →
  (∀ kids, NGroup kids ∉ nodes) →
  (∀ front p behind,
     nodes = front ++ NPre p :: behind →
     (detectFramework CONFIG (paragraphOfNode (previousElementSibling front))
        (pre_code p)).1 = None) →
  processPage CONFIG cur nodes = nodes.
Proof.
  intros Hnodup Hgroups Hnone.
  rewrite processPage_scan by done.
  rewrite clearExistingGroups_no_groups by done.
  unfold zinit. rewrite scan_undetected.
  - unfold zfinish. cbn. by rewrite app_nil_r.
  - intros l1 p l2 Heq. by apply (Hnone l1 p l2).
Qed.

(** X11.  A block with a detected framework that has no annotated
    neighbour is not put into a group: it stays where it is with the
    classes it has (it is not hidden), with its framework cached in the
    dataset and with its marker line taken out. *)
Theorem lone_block_not_grouped (before after : list node) (b : preElement) :
  NoDup (allCodeBlocks (before ++ NPre b :: after)) →
  isTruthy (detectedAt CONFIG before b) = true →
  closedLeft CONFIG (rev before) = true →
  closedRight CONFIG [NPre b] after = true →
  ∃ b' after',
    processPage CONFIG cur (before ++ NPre b :: after)
    = processPage CONFIG cur before ++ NPre b' :: after'
    ∧ allPreIds after' = allPreIds after
    ∧ pre_id b' = pre_id b
    ∧ pre_classList b' = pre_classList b
    ∧ classList (pre_code b') = classList (pre_code b)
    ∧ dataset_framework (pre_code b') = detectedAt CONFIG before b
    ∧ dataset_markerStripped (pre_code b') = Some "true"
    ∧ pre_code b'
      = stripMarkerLine CONFIG
          (detectFramework CONFIG (paragraphOfNode (previousElementSibling before))
             (pre_code b)).2.
Proof.
  intros Hnodup Hdet Hleft Hright.
  destruct (run_decomposition CONFIG cur before after b [] Hnodup Hdet I
              Hleft Hright) as (after' & Hpage & Hids).
  exists (processedBlock CONFIG before b), after'.
  split_and!; [exact Hpage|exact Hids|done|done| | | |done].
  - unfold processedBlock. cbn [pre_code setCode].
    rewrite stripMarkerLine_classes. apply detectFramework_keeps.
  - by apply processedBlock_dataset.
  - unfold processedBlock. cbn [pre_code setCode]. apply stripMarkerLine_marks.
Qed.

End Pages.

(** *** The groups of a page *)

Section PageGroups.

Variable CONFIG : config.
Variable cur : string.

(** A block as the loop of [processPage] leaves it when it has found a
    framework for it. *)
Definition annotated (q : preElement) : Prop :=
  ∃ fw, dataset_framework (pre_code q) = Some fw
        ∧ JS.truthy fw = true
        ∧ dataset_markerStripped (pre_code q) = Some "true".

(** A group as [createGroupFromBatch] makes it. *)
Definition wellFormedGroup (kids : list groupChild) : Prop :=
  ∃ available members,
    kids = createSwitcher CONFIG (selectFramework cur available) available
           :: members
    ∧ Forall notSwitcher members
    ∧ 2 ≤ length (groupPreIds members)
    ∧ available `sublist_of` frameworks CONFIG
    ∧ (∀ fw, fw ∈ available
             ↔ fw ∈ frameworks CONFIG
               ∧ ∃ q, GPre q ∈ members
                      ∧ dataset_framework (pre_code q) = Some fw)
    ∧ ∀ q, GPre q ∈ members →
           annotated q
           ∧ (dataset_framework (pre_code q)
              ≠ Some (selectFramework cur available) →
              "fw-hidden" ∈ pre_classList q).

Definition goodNode (n : node) : Prop :=
  match n with NGroup kids => wellFormedGroup kids | _ => True end.

Definition segNode (n : node) : Prop :=
  match n with
  | NPre q => annotated q
  | NGroup _ => False
  | _ => True
  end.

Definition trailNode (n : node) : Prop :=
  match n with NPre _ | NGroup _ => False | _ => True end.

Definition blockFrameworks (seg : list node) : list string :=
  omap (λ n, match n with
             | NPre q => dataset_framework (pre_code q)
             | _ => None
             end) seg.

Definition scanOk (st : zstate) : Prop :=
  Forall goodNode (zdone st)
  ∧ Forall segNode (zseg st)
  ∧ (∀ fw, fw ∈ zfws st ↔ fw ∈ blockFrameworks (zseg st))
  ∧ Forall trailNode (ztrail st).

Lemma trailNode_goodNode n : trailNode n → goodNode n.
Proof. by destruct n. Qed.

Lemma trailNode_segNode n : trailNode n → segNode n.
Proof. by destruct n. Qed.

Lemma segNode_goodNode n : segNode n → goodNode n.
Proof. by destruct n. Qed.

Lemma blockFrameworks_trail (trail : list node) :
  Forall trailNode trail → blockFrameworks trail = [].
Proof.
  induction 1 as [|n trail Hn _ IH]; [done|].
  unfold blockFrameworks in *. cbn [omap list_omap]. fold (@omap list _).
  by destruct n.
Qed.

Lemma blockFrameworks_app l k :
  blockFrameworks (l ++ k) = blockFrameworks l ++ blockFrameworks k.
Proof. apply omap_app. Qed.

Lemma elem_of_blockFrameworks fw seg :
  fw ∈ blockFrameworks seg
  ↔ ∃ q, NPre q ∈ seg ∧ dataset_framework (pre_code q) = Some fw.
Proof.
  unfold blockFrameworks. rewrite list_elem_of_omap. split.
  - intros (n & Hn & Hfw). destruct n as [| |q| |]; try done. by exists q.
  - intros (q & Hq & Hfw). by exists (NPre q).
Qed.

Lemma elem_of_movedOf q seg : GPre q ∈ movedOf CONFIG seg ↔ NPre q ∈ seg.
Proof.
  unfold movedOf. rewrite list_elem_of_omap. split.
  - intros (n & Hn & Hk). destruct n as [|text|p| |]; try done.
    + by destruct (isLabelText CONFIG text).
    + by injection Hk as ->.
  - intros Hq. by exists (NPre q).
Qed.

Lemma flushSeg_good seg fws :
  Forall segNode seg →
  (∀ fw, fw ∈ fws ↔ fw ∈ blockFrameworks seg) →
  Forall goodNode (flushSeg CONFIG cur seg fws).
Proof.
  intros Hseg Hfws. unfold flushSeg.
  destruct (allCodeBlocks seg) as [|id1 [|id2 ids]] eqn:Hids;
    try (eapply Forall_impl; [exact Hseg|apply segNode_goodNode]).
  constructor.
  2:{ unfold keptOf. apply Forall_forall. intros n [_ Hn]%list_elem_of_filter.
      apply segNode_goodNode. by eapply Forall_forall in Hseg. }
  cbn [goodNode]. unfold groupOf.
  set (available := availableOf CONFIG fws).
  set (selected := selectFramework cur available).
  assert (∀ q, GPre q ∈ movedOf CONFIG seg → annotated q) as Hmoved.
  { intros q Hq%elem_of_movedOf. rewrite Forall_forall in Hseg.
    apply (Hseg (NPre q) Hq). }
  rewrite hideOthers_cached.
  2:{ intros q [Hq|Hq]%elem_of_cons; [done|].
      destruct (Hmoved q Hq) as (fw & -> & Ht & _). done. }
  exists available, (map (hideOne selected) (movedOf CONFIG seg)).
  fold selected. split_and!.
  - done.
  - apply movedOf_hideOne_notSwitcher.
  - rewrite groupPreIds_hideOne, groupPreIds_movedOf, Hids. cbn. lia.
  - apply sublist_filter.
  - intros fw. unfold available, availableOf. rewrite list_elem_of_filter.
    rewrite Hfws, elem_of_blockFrameworks. split.
    + intros [(q & Hq & Hfw) Hcfg]. split; [done|].
      exists (match hideOne selected (GPre q) with GPre q' => q' | _ => q end).
      split.
      * assert (hideOne selected (GPre q)
                ∈ map (hideOne selected) (movedOf CONFIG seg)) as Hin.
        { apply list_elem_of_fmap. exists (GPre q). split; [done|].
          by apply elem_of_movedOf. }
        cbn [hideOne] in *. by case_bool_decide.
      * cbn [hideOne]. by case_bool_decide.
    + intros [Hcfg (q' & Hq' & Hfw)]. split; [|done].
      apply list_elem_of_fmap in Hq' as (k & Hk & Hin).
      destruct k as [bs|text|q]; try done.
      * cbn [hideOne] in Hk. exists q. split; [by apply elem_of_movedOf|].
        case_bool_decide; by injection Hk as ->.
  - intros q' (k & Hk & Hin)%list_elem_of_fmap.
    destruct k as [bs|text|q]; try done.
    destruct (Hmoved q Hin) as (fw & Hfw & Ht & Hs).
    cbn [hideOne] in Hk. case_bool_decide as Hsel; injection Hk as ->.
    + split; [by exists fw|]. done.
    + split; [by exists fw|]. intros _. cbn. apply classAdd_elem.
Qed.

Lemma zstep_other_scanOk st n :
  trailNode n → scanOk st → scanOk (zstep CONFIG cur st n).
Proof.
  intros Hn (Hdone & Hseg & Hfws & Htrail).
  assert (Forall goodNode (ztrail st)) as Htrail'
    by (eapply Forall_impl; [exact Htrail|apply trailNode_goodNode]).
  assert (zstep CONFIG cur st n
          = match zseg st with
            | [] => {| zdone := zdone st ++ ztrail st ++ [n]; zseg := [];
                       ztrail := []; zfws := zfws st |}
            | _ => {| zdone := zdone st; zseg := zseg st;
                      ztrail := ztrail st ++ [n]; zfws := zfws st |}
            end) as -> by by destruct n.
  destruct (zseg st) as [|s seg] eqn:Hs.
  - unfold scanOk. cbn [zdone zseg ztrail zfws]. split_and!; [|done|done|done].
    rewrite !Forall_app. split_and!; [done|done|].
    constructor; [by apply trailNode_goodNode|done].
  - unfold scanOk. cbn [zdone zseg ztrail zfws]. split_and!; [done|done|done|].
    rewrite Forall_app. split; [done|]. by constructor.
Qed.

Lemma zstep_scanOk st n :
  (∀ kids, n ≠ NGroup kids) → scanOk st → scanOk (zstep CONFIG cur st n).
Proof.
  intros Hn Hst.
  destruct n as [data|text|p|kids|tag];
    [by apply zstep_other_scanOk|by apply zstep_other_scanOk|
     |by destruct (Hn kids)|by apply zstep_other_scanOk].
  destruct Hst as (Hdone & Hseg & Hfws & Htrail).
  assert (Forall goodNode (flushSeg CONFIG cur (zseg st) (zfws st))) as Hflush
    by by apply flushSeg_good.
  assert (Forall goodNode (ztrail st)) as Htrail'
    by (eapply Forall_impl; [exact Htrail|apply trailNode_goodNode]).
  cbn [zstep].
  destruct (detectFramework CONFIG
              (lastParagraph (zdone st ++ zseg st ++ ztrail st)) (pre_code p))
    as [r c] eqn:Hdet.
  destruct (isTruthy r) eqn:Hr.
  - destruct r as [fw|]; [|done]. cbn [isTruthy] in Hr.
    assert (dataset_framework (stripMarkerLine CONFIG c) = Some fw) as Hdata.
    { rewrite stripMarkerLine_framework.
      destruct (detectFramework_dataset CONFIG
                  (lastParagraph (zdone st ++ zseg st ++ ztrail st)) (pre_code p))
        as [Hd _].
      rewrite Hdet in Hd. cbn [fst snd isTruthy] in Hd. by apply Hd. }
    assert (annotated (setCode (stripMarkerLine CONFIG c) p)) as Hblock.
    { exists fw. cbn [pre_code setCode]. split_and!; [done|done|].
      apply stripMarkerLine_marks. }
    assert (blockFrameworks [NPre (setCode (stripMarkerLine CONFIG c) p)] = [fw])
      as Hone.
    { unfold blockFrameworks. cbn [omap list_omap pre_code setCode].
      by rewrite Hdata. }
    destruct (match zseg st with [] => true | _ => false end
              || forallb (isSeparator CONFIG) (ztrail st)).
    + unfold scanOk. cbn [zdone zseg ztrail zfws]. split_and!; [done| | |done].
      * rewrite !Forall_app. split_and!; [done| |by repeat constructor].
        eapply Forall_impl; [exact Htrail|apply trailNode_segNode].
      * intros fw'. rewrite !blockFrameworks_app, Hone.
        rewrite (blockFrameworks_trail _ Htrail). cbn [app].
        rewrite elem_of_union, elem_of_singleton, elem_of_app,
          list_elem_of_singleton, Hfws. tauto.
    + unfold scanOk. cbn [zdone zseg ztrail zfws]. split_and!; [|by repeat constructor| |done].
      * rewrite !Forall_app. by split_and!.
      * intros fw'. rewrite Hone.
        by rewrite elem_of_singleton, list_elem_of_singleton.
  - unfold scanOk. cbn [zdone zseg ztrail zfws]. split_and!; [|done| |done].
    + rewrite !Forall_app. split_and!; try done. by repeat constructor.
    + intros fw'. split; [by intros ?%elem_of_empty|by intros ?%elem_of_nil].
Qed.

Lemma foldl_zstep_scanOk (l : list node) :
  ∀ st, (∀ kids, NGroup kids ∉ l) → scanOk st →
        scanOk (foldl (zstep CONFIG cur) st l).
Proof.
  induction l as [|n l IH]; intros st Hno Hst; [done|]. cbn [foldl].
  apply IH.
  - intros kids Hin. apply (Hno kids). by apply list_elem_of_further.
  - apply zstep_scanOk; [|done]. intros kids ->. apply (Hno kids).
    apply list_elem_of_here.
Qed.

(** X12.  On a page that holds no group yet, every group that
    [processPage] makes is well formed: its first child is its one
    switcher, made for the configured frameworks that occur in the group
    and with the selected framework pressed; it holds at least two blocks;
    every block in it has its framework in the dataset and its marker line
    taken out; and every block of another framework than the selected one
    carries [fw-hidden]. *)
Theorem processPage_groups_wellFormed (nodes : list node)
    (kids : list groupChild) :
  NoDup (allCodeBlocks nodes) →
  (∀ kids', NGroup kids' ∉ nodes) →
  NGroup kids ∈ processPage CONFIG cur nodes →
  wellFormedGroup kids.
Proof.
  intros Hnodup Hno Hin.
  rewrite processPage_scan in Hin by done.
  assert (clearExistingGroups nodes = nodes) as Hclear.
  { unfold clearExistingGroups. rewrite <- (map_id nodes) at 2.
    apply map_ext_in. intros n Hn%list_elem_of_In.
    destruct n as [| | |kids'|]; try done. by destruct (Hno kids'). }
  rewrite Hclear in Hin.
  assert (scanOk zinit) as Hinit.
  { unfold scanOk, zinit. cbn. split_and!; [done|done| |done].
    intros fw. split; [by intros ?%elem_of_empty|by intros ?%elem_of_nil]. }
  destruct (foldl_zstep_scanOk nodes zinit Hno Hinit)
    as (Hdone & Hseg & Hfws & Htrail).
  unfold zfinish in Hin.
  assert (Forall goodNode
            (zdone (foldl (zstep CONFIG cur) zinit nodes)
             ++ flushSeg CONFIG cur (zseg (foldl (zstep CONFIG cur) zinit nodes))
                  (zfws (foldl (zstep CONFIG cur) zinit nodes))
             ++ ztrail (foldl (zstep CONFIG cur) zinit nodes))) as Hall.
  { rewrite !Forall_app. split_and!; [done|by apply flushSeg_good|].
    eapply Forall_impl; [exact Htrail|apply trailNode_goodNode]. }
  by eapply Forall_forall in Hall; [|exact Hin].
Qed.

End PageGroups.

(** A page with a block that has no annotation, and a page with a single
    annotated block. *)
Definition plainPage : list node :=
  [NPara "Install the package:"; Samples.block 1 "npm install"; NOther "H2"].

Definition loneBlockPage : list node :=
  [ NPara "Create the app:";
    Samples.block 1 ("// framework: hono" +:+ Samples.LF
                     +:+ "const app = new Hono()");
    NOther "H2" ].

Lemma processPage_nothing_detected_witness :
  processPage Samples.sampleConfig "hono" plainPage = plainPage.
Proof.
  apply processPage_nothing_detected.
  - vm_compute. apply NoDup_singleton.
  - intros kids Hin. unfold plainPage, Samples.block in Hin.
    repeat (apply elem_of_cons in Hin as [Hin|Hin]; [discriminate|]).
    by apply elem_of_nil in Hin.
  - intros front p behind Heq. unfold plainPage, Samples.block in Heq.
    destruct front as [|n1 [|n2 [|n3 [|n4 front]]]]; try discriminate.
    injection Heq; intros; subst. vm_compute. reflexivity.
Defined.

Lemma lone_block_not_grouped_witness :
  ∃ b' after',
    processPage Samples.sampleConfig "koa" loneBlockPage
    = processPage Samples.sampleConfig "koa" [NPara "Create the app:"]
      ++ NPre b' :: after'
    ∧ pre_classList b' = []
    ∧ dataset_framework (pre_code b') = Some "hono".
Proof.
  destruct (lone_block_not_grouped Samples.sampleConfig "koa"
              [NPara "Create the app:"] [NOther "H2"]
              {| pre_id := 1; pre_classList := [];
                 pre_code := Samples.code
                   ("// framework: hono" +:+ Samples.LF
                    +:+ "const app = new Hono()") |})
    as (b' & after' & Hpage & _ & _ & Hcls & _ & Hdata & _).
  - vm_compute. apply NoDup_singleton.
  - vm_compute. reflexivity.
  - vm_compute. reflexivity.
  - vm_compute. reflexivity.
  - exists b', after'. split_and!; [exact Hpage|exact Hcls|].
    rewrite Hdata. vm_compute. reflexivity.
Defined.

Lemma processPage_groups_wellFormed_witness :
  ∃ kids,
    NGroup kids ∈ processPage Samples.sampleConfig "koa" Samples.honoExpressPage
    ∧ wellFormedGroup Samples.sampleConfig "koa" kids.
Proof.
  eexists. split.
  - vm_compute. apply list_elem_of_further, list_elem_of_here.
  - apply (processPage_groups_wellFormed Samples.sampleConfig "koa"
             Samples.honoExpressPage).
    + vm_compute. apply NoDup_cons. split; [|apply NoDup_singleton].
      intros Hin%list_elem_of_singleton. discriminate.
    + intros kids Hin. unfold Samples.honoExpressPage, Samples.block in Hin.
      repeat (apply elem_of_cons in Hin as [Hin|Hin]; [discriminate|]).
      by apply elem_of_nil in Hin.
    + vm_compute. apply list_elem_of_further, list_elem_of_here.
Defined.
End SwitcherProps.

(* ===================================================================== *)
(** ** More properties of the "on this page" sidebar *)
(* ===================================================================== *)

Module SidebarProps.

Import OnThisPage SidebarSpec.

(** *** The address of the markdown file *)

Lemma startsWith_append (t u p : string) :
  JS.startsWith t p = true → JS.startsWith (t +:+ u) p = true.
Proof.
  revert t. induction p as [|a p IH]; intros t.
  { intros _. by destruct (t +:+ u). }
  destruct t as [|b t]; [done|]. rewrite append_cons. cbn [JS.startsWith].
  destruct (decide (a = b)); [apply IH|done].
Qed.

Lemma startsWith_refl (t : string) : JS.startsWith t t = true.
Proof.
  induction t as [|c t IH]; [done|]. cbn [JS.startsWith].
  by destruct (decide (c = c)).
Qed.

Lemma endsWith_append (t u p : string) :
  endsWith u p = true → endsWith (t +:+ u) p = true.
Proof. unfold endsWith. rewrite rev_append. apply startsWith_append. Qed.

Section Markdown.

Context {sidebarNav : Type}.

Implicit Types d : document sidebarNav.

(** X13.  The "view as markdown" link points to a markdown file below the
    path of the page: its address is the path of the location, closed by
    a slash, followed by a file name that ends in [.md]; for the home page
    (an empty route, [/] or [README]) the file is [README.md], and a route
    that names a markdown file already is taken as it is. *)
Theorem createViewAsMarkdownLink_md d :
  ∃ prefix file,
    createViewAsMarkdownLink _ d = prefix +:+ file
    ∧ JS.startsWith prefix (pathname (windowLocation _ d)) = true
    ∧ endsWith prefix "/" = true
    ∧ endsWith file ".md" = true
    ∧ (currentRoute _ d = "" ∨ currentRoute _ d = "/"
       ∨ currentRoute _ d = "README" ∨ currentRoute _ d = "/README" →
       file = "README.md")
    ∧ (endsWith (currentRoute _ d) ".md" = true →
       JS.startsWith (currentRoute _ d) "/" = false →
       file = currentRoute _ d).
Proof.
  unfold createViewAsMarkdownLink.
  set (path1 := if JS.startsWith (currentRoute _ d) "/"
                then JS.substring 1 (currentRoute _ d) else currentRoute _ d).
  eexists _, _. split_and!; [reflexivity| | | | |].
  - destruct (endsWith (pathname (windowLocation _ d)) "/").
    + apply startsWith_refl.
    + apply startsWith_append, startsWith_refl.
  - destruct (endsWith (pathname (windowLocation _ d)) "/") eqn:Hslash; [done|].
    by apply endsWith_append.
  - destruct (negb (JS.truthy path1) || bool_decide (path1 = "README")); [done|].
    destruct (endsWith path1 ".md") eqn:Hmd; cbn [negb]; [done|].
    by apply endsWith_append.
  - intros Hhome.
    assert (path1 = "" ∨ path1 = "README") as [-> | ->]; [|done..].
    unfold path1. destruct Hhome as [-> | [-> | [-> | ->]]]; cbn; auto.
  - intros Hmd Hslash. unfold path1. rewrite Hslash, Hmd. cbn [negb].
    destruct (currentRoute _ d) as [|c r] eqn:Hroute; [done|].
    cbn [JS.truthy negb orb]. case_bool_decide as Hreadme; [|done].
    rewrite Hreadme in Hmd. done.
Qed.

End Markdown.

(** *** Slugs *)

(** The characters of a slug: small letters, digits, the underscore and
    the hyphen. *)
Definition isSlugChar (c : ascii) : bool :=
  let n := nat_of_ascii c in
  ((97 <=? n) && (n <=? 122)) || ((48 <=? n) && (n <=? 57)) || (n =? 95)
  || (n =? 45).

(** No two hyphens in a row; [afterHyphen] tells that a hyphen stands in
    front of the string. *)
Fixpoint noHyphenRun (afterHyphen : bool) (t : string) : bool :=
  match t with
  | EmptyString => true
  | String c r =>
      if JS.isHyphen c then negb afterHyphen && noHyphenRun true r
      else noHyphenRun false r
  end.

Definition slugKeeps (c : ascii) : bool :=
  JS.isWordChar c || JS.isWhiteSpace c || JS.isHyphen c.

Lemma slugKeeps_lowerChar c :
  slugKeeps (JS.lowerChar c) = true →
  isSlugChar (JS.lowerChar c) || JS.isWhiteSpace (JS.lowerChar c) = true.
Proof. destruct c as [[] [] [] [] [] [] [] []]; vm_compute; done. Qed.

Lemma isSlugChar_facts c :
  isSlugChar c = true →
  JS.lowerChar c = c ∧ slugKeeps c = true ∧ JS.isWhiteSpace c = false.
Proof. destruct c as [[] [] [] [] [] [] [] []]; vm_compute; done. Qed.

Lemma isHyphen_eq c : JS.isHyphen c = true → c = "-"%char.
Proof. unfold JS.isHyphen. by destruct (decide (c = "-"%char)). Qed.

Lemma filterChars_lower t :
  allChars (λ c, isSlugChar c || JS.isWhiteSpace c)
    (JS.filterChars slugKeeps (JS.toLowerCase t)) = true.
Proof.
  induction t as [|c t IH]; [done|]. cbn [JS.toLowerCase JS.filterChars].
  destruct (slugKeeps (JS.lowerChar c)) eqn:Hc; [|done].
  cbn [allChars]. by rewrite slugKeeps_lowerChar, IH.
Qed.

Lemma replaceRuns_whiteSpace_slug inRun t :
  allChars (λ c, isSlugChar c || JS.isWhiteSpace c) t = true →
  allChars isSlugChar (JS.replaceRuns JS.isWhiteSpace inRun t) = true.
Proof.
  revert inRun. induction t as [|c t IH]; intros inRun; [done|].
  cbn [allChars JS.replaceRuns]. intros [Hc Ht]%andb_prop.
  destruct (JS.isWhiteSpace c) eqn:Hws.
  - destruct inRun; [by apply IH|]. cbn [allChars]. by rewrite IH.
  - cbn [allChars]. rewrite orb_false_r in Hc. by rewrite Hc, IH.
Qed.

Lemma replaceRuns_hyphen_slug inRun t :
  allChars isSlugChar t = true →
  allChars isSlugChar (JS.replaceRuns JS.isHyphen inRun t) = true.
Proof.
  revert inRun. induction t as [|c t IH]; intros inRun; [done|].
  cbn [allChars JS.replaceRuns]. intros [Hc Ht]%andb_prop.
  destruct (JS.isHyphen c).
  - destruct inRun; [by apply IH|]. cbn [allChars]. by rewrite IH.
  - cbn [allChars]. by rewrite Hc, IH.
Qed.

Lemma replaceRuns_noHyphenRun inRun t :
  noHyphenRun inRun (JS.replaceRuns JS.isHyphen inRun t) = true.
Proof.
  revert inRun. induction t as [|c t IH]; intros inRun; [done|].
  cbn [JS.replaceRuns]. destruct (JS.isHyphen c) eqn:Hc.
  - destruct inRun; [apply IH|]. cbn [noHyphenRun]. cbn. apply IH.
  - cbn [noHyphenRun]. rewrite Hc. apply IH.
Qed.

Lemma slugOfText_slug t :
  allChars isSlugChar (slugOfText t) = true
  ∧ noHyphenRun false (slugOfText t) = true.
Proof.
  unfold slugOfText, JS.collapseHyphens. split.
  - apply replaceRuns_hyphen_slug, replaceRuns_whiteSpace_slug, filterChars_lower.
  - apply replaceRuns_noHyphenRun.
Qed.

(** On a slug every step of the chain is the identity. *)
Lemma toLowerCase_slug t : allChars isSlugChar t = true → JS.toLowerCase t = t.
Proof.
  induction t as [|c t IH]; [done|]. cbn [allChars JS.toLowerCase].
  intros [Hc Ht]%andb_prop. destruct (isSlugChar_facts c Hc) as (-> & _).
  by rewrite IH.
Qed.

Lemma filterChars_slug t :
  allChars isSlugChar t = true → JS.filterChars slugKeeps t = t.
Proof.
  induction t as [|c t IH]; [done|]. cbn [allChars JS.filterChars].
  intros [Hc Ht]%andb_prop. destruct (isSlugChar_facts c Hc) as (_ & -> & _).
  by rewrite IH.
Qed.

Lemma replaceRuns_whiteSpace_id inRun t :
  allChars isSlugChar t = true → JS.replaceRuns JS.isWhiteSpace inRun t = t.
Proof.
  revert inRun. induction t as [|c t IH]; intros inRun; [done|].
  cbn [allChars JS.replaceRuns]. intros [Hc Ht]%andb_prop.
  destruct (isSlugChar_facts c Hc) as (_ & _ & ->). by rewrite IH.
Qed.

Lemma replaceRuns_hyphen_id inRun t :
  noHyphenRun inRun t = true → JS.replaceRuns JS.isHyphen inRun t = t.
Proof.
  revert inRun. induction t as [|c t IH]; intros inRun; [done|].
  cbn [noHyphenRun JS.replaceRuns]. destruct (JS.isHyphen c) eqn:Hc.
  - intros [Hrun Ht]%andb_prop. destruct inRun; [done|].
    rewrite (isHyphen_eq c Hc). by rewrite IH.
  - intros Ht. by rewrite IH.
Qed.

(** X14.  The id made from the text of a heading is a slug: it holds
    small letters, digits, underscores and hyphens only, no two hyphens
    follow each other, and making a slug of a slug gives it back. *)
Theorem slugify_slug (text : string) :
  allChars isSlugChar (slugify text) = true
  ∧ noHyphenRun false (slugify text) = true
  ∧ slugify (slugify text) = slugify text.
Proof.
  rewrite !slugify_slugOfText.
  destruct (slugOfText_slug text) as [Hchars Hruns]. split_and!; [done..|].
  unfold slugOfText at 1. fold slugKeeps. unfold JS.collapseHyphens.
  rewrite toLowerCase_slug, filterChars_slug, replaceRuns_whiteSpace_id by done.
  by apply replaceRuns_hyphen_id.
Qed.

(** *** Running the script again *)

Lemma headingId_withId e : headingId (withId e) = headingId e.
Proof.
  unfold withId. destruct (el_heading e) as [[]|]; try done;
    unfold headingId; cbn [el_id setId el_textContent];
    destruct (JS.truthy (el_id e)) eqn:Hid; rewrite ?Hid; try done;
    by destruct (JS.truthy (slugify (JS.trim (el_textContent e)))).
Qed.

Lemma withId_parts e :
  el_heading (withId e) = el_heading e
  ∧ el_textContent (withId e) = el_textContent e
  ∧ el_top (withId e) = el_top e
  ∧ el_id (withId e)
    = match el_heading e with
      | Some H1 | None => el_id e
      | Some _ => headingId e
      end.
Proof.
  unfold withId. destruct (el_heading e) as [[]|] eqn:Htag;
    cbn [el_heading el_textContent el_top el_id setId]; by rewrite ?Htag.
Qed.

Lemma withId_withId e : withId (withId e) = withId e.
Proof.
  destruct (withId_parts e) as (Hh & Ht & Htop & Hid).
  unfold withId at 1. rewrite Hh, headingId_withId.
  destruct (el_heading e) as [[]|] eqn:Htag; try done;
    unfold withId; rewrite Htag; done.
Qed.

Lemma addHeading_withId route hash b tag e :
  (addHeading route hash b tag (withId e)).1 = (addHeading route hash b tag e).1.
Proof.
  destruct (withId_parts e) as (_ & Ht & _).
  unfold addHeading. rewrite Ht, headingId_withId.
  destruct (levelOf tag =? 1); [done|].
  cbn [createElement]. done.
Qed.

Lemma addHeadings_withId route hash els :
  ∀ b, (addHeadings route hash b (withId <$> els)).1
       = (addHeadings route hash b els).1.
Proof.
  induction els as [|e els IH]; intros b; [done|].
  cbn [fmap list_fmap addHeadings].
  destruct (withId_parts e) as (-> & _).
  assert ((match el_heading e with
           | Some tag => addHeading route hash b tag (withId e)
           | None => (b, withId e)
           end).1
          = (match el_heading e with
             | Some tag => addHeading route hash b tag e
             | None => (b, e)
             end).1) as Hstep.
  { destruct (el_heading e); [apply addHeading_withId|done]. }
  destruct (match el_heading e with
            | Some tag => addHeading route hash b tag (withId e)
            | None => (b, withId e)
            end) as [b1 e1].
  destruct (match el_heading e with
            | Some tag => addHeading route hash b tag e
            | None => (b, e)
            end) as [b1' e1'].
  cbn [fst] in Hstep. subst b1'. specialize (IH b1).
  change (list_fmap _ _ withId els) with (withId <$> els).
  destruct (addHeadings route hash b1 (withId <$> els)) as [b2 els2].
  destruct (addHeadings route hash b1 els) as [b2' els2'].
  cbn [fst] in *. done.
Qed.

Lemma existsb_isHeading_withId els :
  existsb isHeading (withId <$> els) = existsb isHeading els.
Proof.
  induction els as [|e els IH]; [done|]. cbn [fmap list_fmap existsb].
  change (list_fmap _ _ withId els) with (withId <$> els). rewrite IH.
  f_equal. unfold isHeading. by destruct (withId_parts e) as (-> & _).
Qed.

Section Again.

Context {sidebarNav : Type} (rewriteSidebarNav : sidebarNav → sidebarNav).

Implicit Types d : document sidebarNav.

(** What a call leaves of the document, but for the left sidebar, the
    listeners and the timeouts. *)
Lemma updateActiveLink_frame (s : spy) d :
  elements _ (updateActiveLink _ s d) = elements _ d
  ∧ currentRoute _ (updateActiveLink _ s d) = currentRoute _ d
  ∧ windowLocation _ (updateActiveLink _ s d) = windowLocation _ d.
Proof. unfold updateActiveLink. by destruct (onThisPage _ d). Qed.

Lemma setupScrollSpy_frame d :
  elements _ (setupScrollSpy _ d) = elements _ d
  ∧ currentRoute _ (setupScrollSpy _ d) = currentRoute _ d
  ∧ windowLocation _ (setupScrollSpy _ d) = windowLocation _ d.
Proof.
  unfold setupScrollSpy. destruct (spy_headings _); [done|].
  apply (updateActiveLink_frame _ (addScrollListener _ _ d)).
Qed.

Lemma updateActiveLink_sidebar (s : spy) d d' :
  onThisPage _ d = onThisPage _ d' → elements _ d = elements _ d' →
  onThisPage _ (updateActiveLink _ s d) = onThisPage _ (updateActiveLink _ s d').
Proof.
  intros Hsb Hels. unfold updateActiveLink. rewrite <- Hsb, <- Hels.
  destruct (onThisPage _ d) eqn:Hd; [done|].
  cbn [updateLeftSidebarActiveState onThisPage]. congruence.
Qed.

Lemma setupScrollSpy_sidebar d d' :
  onThisPage _ d = onThisPage _ d' → elements _ d = elements _ d' →
  onThisPage _ (setupScrollSpy _ d) = onThisPage _ (setupScrollSpy _ d').
Proof.
  intros Hsb Hels.
  assert (collectSpy _ d = collectSpy _ d') as Hspy
    by (unfold collectSpy; by rewrite Hsb, Hels).
  unfold setupScrollSpy. rewrite <- Hspy.
  destruct (spy_headings (collectSpy _ d)); [done|].
  by apply updateActiveLink_sidebar.
Qed.

Lemma createOnThisPageSidebar_frame d :
  elements _ (createOnThisPageSidebar _ rewriteSidebarNav d)
  = (if existsb isHeading (elements _ d) then withId <$> elements _ d
     else elements _ d)
  ∧ currentRoute _ (createOnThisPageSidebar _ rewriteSidebarNav d)
    = currentRoute _ d
  ∧ windowLocation _ (createOnThisPageSidebar _ rewriteSidebarNav d)
    = windowLocation _ d.
Proof.
  unfold createOnThisPageSidebar. cbn [setOnThisPage elements].
  destruct (existsb isHeading (elements _ d)) eqn:Hex; cbn [negb]; [|done].
  set (d2 := updateLeftSidebarActiveState _ _).
  assert (elements _ d2 = elements _ d
          ∧ currentRoute _ d2 = currentRoute _ d
          ∧ windowLocation _ d2 = windowLocation _ d) as (Hels & Hroute & Hloc).
  { unfold d2, updateLeftSidebarActiveState, removeNestedFromLeftSidebar.
    cbn [setOnThisPage leftSidebar]. by destruct (leftSidebar _ d) as [[nav|]|]. }
  destruct (addHeadings_ok (currentRoute _ d2) (hash (windowLocation _ d2))
              (elements _ d2) _ newBuilder_ok) as (_ & _ & Hids & _).
  destruct (addHeadings _ _ newBuilder (elements _ d2)) as [b els].
  cbn [snd] in Hids. subst els.
  match goal with
  | |- context [setupScrollSpy _ ?d'] =>
      destruct (setupScrollSpy_frame d') as (-> & -> & ->)
  end.
  cbn [setOnThisPage setElements elements currentRoute windowLocation].
  by rewrite Hels.
Qed.

(** X15.  [createOnThisPageSidebar] changes nothing of the content but
    the ids of headings that have none: every element keeps its place, its
    tag, its text and its position; an element that has an id keeps it;
    and an element that is no heading, or is an [h1], is not changed at
    all. *)
Theorem createOnThisPageSidebar_keeps_content d :
  length (elements _ (createOnThisPageSidebar _ rewriteSidebarNav d))
  = length (elements _ d)
  ∧ ∀ i e, elements _ d !! i = Some e →
      ∃ e', elements _ (createOnThisPageSidebar _ rewriteSidebarNav d) !! i
            = Some e'
            ∧ el_heading e' = el_heading e
            ∧ el_textContent e' = el_textContent e
            ∧ el_top e' = el_top e
            ∧ (JS.truthy (el_id e) = true → e' = e)
            ∧ (el_heading e = None ∨ el_heading e = Some H1 → e' = e).
Proof.
  destruct (createOnThisPageSidebar_frame d) as (-> & _).
  destruct (existsb isHeading (elements _ d)).
  - split; [by rewrite length_fmap|]. intros i e Hi.
    exists (withId e). rewrite list_lookup_fmap, Hi.
    destruct (withId_parts e) as (Hh & Ht & Htop & Hid).
    split_and!; [done..| |].
    + intros Htruthy. unfold withId.
      destruct (el_heading e) as [[]|]; try done;
        unfold headingId; rewrite Htruthy; by destruct e.
    + unfold withId. by intros [-> | ->].
  - split; [done|]. intros i e Hi. exists e. by split_and!.
Qed.

(** The sidebar a run builds, before the scroll spy marks a link. *)
Definition sidebarOf d : sidebar :=
  {| sb_title := "ON THIS PAGE";
     sb_store :=
       tocStore (addHeadings (currentRoute _ d) (hash (windowLocation _ d))
                   newBuilder (elements _ d)).1;
     sb_markdown := createViewAsMarkdownLink _ d |}.

Lemma createOnThisPageSidebar_sidebar d :
  existsb isHeading (elements _ d) = true →
  onThisPage _ (createOnThisPageSidebar _ rewriteSidebarNav d)
  = onThisPage _
      (setupScrollSpy _
         (setOnThisPage _ (Some (sidebarOf d))
            (setElements _ (withId <$> elements _ d) d))).
Proof.
  intros Hex. unfold createOnThisPageSidebar. cbn [setOnThisPage elements].
  rewrite Hex. cbn [negb].
  set (d2 := updateLeftSidebarActiveState _ _).
  assert (elements _ d2 = elements _ d
          ∧ currentRoute _ d2 = currentRoute _ d
          ∧ windowLocation _ d2 = windowLocation _ d) as (Hels & Hroute & Hloc).
  { unfold d2, updateLeftSidebarActiveState, removeNestedFromLeftSidebar.
    cbn [setOnThisPage leftSidebar]. by destruct (leftSidebar _ d) as [[nav|]|]. }
  assert (createViewAsMarkdownLink _ d2 = createViewAsMarkdownLink _ d) as Hmd.
  { unfold createViewAsMarkdownLink. by rewrite Hroute, Hloc. }
  unfold sidebarOf. rewrite Hmd, Hels, Hroute, Hloc.
  destruct (addHeadings_ok (currentRoute _ d) (hash (windowLocation _ d))
              (elements _ d) _ newBuilder_ok) as (_ & _ & Hids & _).
  destruct (addHeadings _ _ newBuilder (elements _ d)) as [b els].
  cbn [fst snd] in *. subst els. by apply setupScrollSpy_sidebar.
Qed.

(** X16.  A second run of [createOnThisPageSidebar] on the page finds the
    ids the first run made and builds the same sidebar again: the sidebar
    in the document and the elements of the content are as the first run
    left them. *)
Theorem createOnThisPageSidebar_again d :
  onThisPage _
    (createOnThisPageSidebar _ rewriteSidebarNav
       (createOnThisPageSidebar _ rewriteSidebarNav d))
  = onThisPage _ (createOnThisPageSidebar _ rewriteSidebarNav d)
  ∧ elements _
      (createOnThisPageSidebar _ rewriteSidebarNav
         (createOnThisPageSidebar _ rewriteSidebarNav d))
    = elements _ (createOnThisPageSidebar _ rewriteSidebarNav d).
Proof.
  set (d' := createOnThisPageSidebar _ rewriteSidebarNav d).
  destruct (createOnThisPageSidebar_frame d) as (Hels & Hroute & Hloc).
  fold d' in Hels, Hroute, Hloc.
  destruct (createOnThisPageSidebar_frame d') as (Hels' & _).
  destruct (existsb isHeading (elements _ d)) eqn:Hd.
  - assert (existsb isHeading (elements _ d') = true) as Hex
      by by rewrite Hels, existsb_isHeading_withId.
    assert (withId <$> elements _ d' = elements _ d') as Hagain.
    { rewrite Hels, <- list_fmap_compose. apply list_fmap_ext. intros i e _.
      apply withId_withId. }
    split; [|by rewrite Hels', Hex].
    rewrite (createOnThisPageSidebar_sidebar d' Hex).
    pose proof (createOnThisPageSidebar_sidebar d Hd) as Hfirst.
    fold d' in Hfirst. rewrite Hfirst.
    apply setupScrollSpy_sidebar;
      cbn [setOnThisPage setElements onThisPage elements]; [|by rewrite Hagain].
    f_equal. unfold sidebarOf. rewrite Hroute, Hloc, Hels.
    rewrite addHeadings_withId. f_equal.
    unfold createViewAsMarkdownLink. by rewrite Hroute, Hloc.
  - assert (d' = setOnThisPage _ None d) as Hd'.
    { unfold d', createOnThisPageSidebar. cbn [setOnThisPage elements].
      by rewrite Hd. }
    rewrite Hd'. unfold createOnThisPageSidebar. cbn [setOnThisPage elements].
    by rewrite Hd.
Qed.

End Again.

(** *** The order of the links *)

Implicit Types (s : list tocElement) (i : nat).

Lemma flat_map_ext_Forall {X Y : Type} (f g : X → list Y) (l : list X) :
  Forall (λ x, f x = g x) l → flat_map f l = flat_map g l.
Proof.
  induction 1 as [|x l Hx _ IH]; [done|]. cbn [flat_map]. by rewrite Hx, IH.
Qed.

Lemma elem_of_flat_map {X Y : Type} (f : X → list Y) (l : list X) (y : Y) :
  y ∈ flat_map f l ↔ ∃ x, x ∈ l ∧ y ∈ f x.
Proof.
  rewrite list_elem_of_In, in_flat_map. split.
  - intros (x & Hx & Hy). exists x. by rewrite !list_elem_of_In.
  - intros (x & Hx & Hy). exists x. by rewrite <- !list_elem_of_In.
Qed.

(** The elements below [c] were made after [c]. *)
Lemma descendants_ge s fuel :
  wfStore s → ∀ c i, i ∈ descendants fuel s c → c ≤ i.
Proof.
  intros Hwf. induction fuel as [|fuel IH]; intros c i; [by intros ?%elem_of_nil|].
  cbn [descendants]. destruct (s !! c) as [e|] eqn:Hc; [|by intros ?%elem_of_nil].
  intros [->|Hin]%elem_of_cons; [done|].
  apply elem_of_flat_map in Hin as (ch & Hch & Hi).
  specialize (Hwf _ _ Hc _ Hch). specialize (IH _ _ Hi). lia.
Qed.

(** More fuel than the store is long changes nothing. *)
Lemma descendants_fuel s :
  wfStore s →
  ∀ f1 f2 r, length s ≤ f1 + r → length s ≤ f2 + r →
             descendants f1 s r = descendants f2 s r.
Proof.
  intros Hwf f1. induction f1 as [|f1 IH]; intros f2 r H1 H2.
  - assert (s !! r = None) as Hr by (apply lookup_ge_None; lia).
    destruct f2; [done|]. cbn [descendants]. by rewrite Hr.
  - destruct (s !! r) as [e|] eqn:Hr.
    + pose proof (lookup_lt_Some _ _ _ Hr).
      destruct f2 as [|f2]; [lia|]. cbn [descendants]. rewrite Hr. f_equal.
      apply flat_map_ext_Forall, Forall_forall. intros c Hc.
      specialize (Hwf _ _ Hr _ Hc). apply IH; lia.
    + destruct f2; cbn [descendants]; by rewrite ?Hr.
Qed.

(** [spine s r p]: [p] is reached from [r] by going to the last child
    again and again. *)
Inductive spine (s : list tocElement) : nat → nat → Prop :=
  | spine_here r : is_Some (s !! r) → spine s r r
  | spine_last r e c p :
      s !! r = Some e → last (toc_children e) = Some c → spine s c p →
      spine s r p.

Lemma spine_reaches s r p : spine s r p → reaches s r p.
Proof.
  induction 1 as [r Hr|r e c p He Hlast _ IH]; [by apply reaches_here|].
  eapply reaches_child; [exact He| |exact IH]. by apply last_Some_elem_of.
Qed.

Lemma spine_le s r p : wfStore s → spine s r p → r ≤ p.
Proof.
  intros Hwf. induction 1 as [r Hr|r e c p He Hlast _ IH]; [done|].
  apply last_Some_elem_of in Hlast. specialize (Hwf _ _ He _ Hlast). lia.
Qed.

Lemma spine_trans s a b c : spine s a b → spine s b c → spine s a c.
Proof.
  induction 1 as [r Hr|r e ch p He Hlast _ IH]; [done|].
  intros Hbc. eapply spine_last; [exact He|exact Hlast|]. by apply IH.
Qed.

Lemma spine_snoc s a p e m :
  spine s a p → s !! p = Some e → last (toc_children e) = Some m →
  is_Some (s !! m) → spine s a m.
Proof.
  intros Hap He Hlast Hm. eapply spine_trans; [exact Hap|].
  eapply spine_last; [exact He|exact Hlast|]. by apply spine_here.
Qed.

Lemma spine_is_Some s r p : spine s r p → is_Some (s !! p).
Proof. induction 1; done. Qed.

Section Attach.

(** [s'] is [s] with new elements at its end, of which [m] is made the
    last child of [p]; [D] are [m] and the elements below it. *)
Variables (s s' : list tocElement) (p m : nat) (e : tocElement) (D : list nat).

Hypothesis Hwf : wfStore s.
Hypothesis Hp : s !! p = Some e.
Hypothesis Hp' : s' !! p = Some (addChild m e).
Hypothesis Hsame : ∀ i, i ≠ p → i < length s → s' !! i = s !! i.
Hypothesis Hlen : length s ≤ length s'.
Hypothesis Hpm : p < m.
Hypothesis Hm : is_Some (s' !! m).
Hypothesis HD : ∀ f, length s' ≤ f + m → descendants f s' m = D.

Lemma descendants_same f :
  ∀ c, (∀ i, i ∈ descendants f s c → i ≠ p) → c < length s →
       descendants f s' c = descendants f s c.
Proof using All.
  induction f as [|f IH]; intros c Hnot Hc; [done|].
  destruct (lookup_lt_is_Some_2 s c Hc) as [ec Hec].
  cbn [descendants] in *. rewrite Hec in Hnot |- *.
  rewrite Hsame, Hec; [|apply Hnot, list_elem_of_here|done].
  f_equal. apply flat_map_ext_Forall, Forall_forall. intros ch Hch.
  apply IH.
  - intros i Hi. apply Hnot, list_elem_of_further, elem_of_flat_map.
    by exists ch.
  - specialize (Hwf _ _ Hec _ Hch). lia.
Qed.

Lemma attach_spine_to r q :
  spine s r q → q = p →
  ∀ f, length s' ≤ f + r → NoDup (descendants f s r) →
       descendants f s' r = descendants f s r ++ D.
Proof using All.
  induction 1 as [r Hr|r er c q Her Hlast Hspine IH]; intros -> f Hf Hnodup.
  - pose proof (lookup_lt_Some _ _ _ Hp) as Hlt.
    destruct f as [|f]; [lia|]. cbn [descendants]. rewrite Hp, Hp'.
    cbn [toc_children addChild]. rewrite flat_map_app. cbn [flat_map].
    rewrite app_nil_r, HD by lia. cbn [app]. f_equal. f_equal.
    apply flat_map_ext_Forall, Forall_forall. intros ch Hch.
    pose proof (Hwf _ _ Hp _ Hch) as Hrange. apply descendants_same; [|lia].
    intros i Hi%descendants_ge; [lia|done].
  - pose proof (lookup_lt_Some _ _ _ Her) as Hlt.
    pose proof (spine_le _ _ _ Hwf Hspine) as Hcp.
    pose proof (Hwf _ _ Her _ (last_Some_elem_of _ _ Hlast)) as Hrc.
    destruct f as [|f]; [lia|].
    apply last_Some in Hlast as [cs Hcs].
    cbn [descendants] in *. rewrite Her in Hnodup |- *.
    rewrite Hsame, Her by lia. rewrite Hcs in Hnodup |- *.
    rewrite !flat_map_app in *. cbn [flat_map] in *. rewrite !app_nil_r in *.
    apply NoDup_cons in Hnodup as [_ Hnodup].
    apply NoDup_app in Hnodup as (_ & Hdisj & Hnodup).
    rewrite IH by (done || lia). cbn [app]. rewrite <- app_assoc. f_equal. f_equal.
    apply flat_map_ext_Forall, Forall_forall. intros ch Hch.
    assert (ch ∈ toc_children er) as Hch'
      by (rewrite Hcs; apply elem_of_app; by left).
    pose proof (Hwf _ _ Her _ Hch') as Hrange. apply descendants_same; [|lia].
    intros i Hi ->. apply (Hdisj p).
    + apply elem_of_flat_map. by exists ch.
    + apply descendants_complete; [done|by apply spine_reaches|lia].
Qed.

Lemma attach_spine r :
  spine s r p →
  ∀ f, length s' ≤ f + r → NoDup (descendants f s r) →
       descendants f s' r = descendants f s r ++ D.
Proof using All. intros Hspine. by eapply attach_spine_to. Qed.

Lemma spine_keep a b : spine s a b → spine s b p → spine s' a b.
Proof using All.
  induction 1 as [r Hr|r er c b Her Hlast Hspine IH]; intros Hbp.
  - apply spine_here. destruct (decide (r = p)) as [->|Hne]; [by eexists|].
    destruct Hr as [er Her]. rewrite Hsame; [by eexists|done|].
    by eapply lookup_lt_Some.
  - pose proof (lookup_lt_Some _ _ _ Her) as Hlt.
    pose proof (spine_le _ _ _ Hwf Hspine) as Hcb.
    pose proof (spine_le _ _ _ Hwf Hbp) as Hbp'.
    pose proof (Hwf _ _ Her _ (last_Some_elem_of _ _ Hlast)) as Hrc.
    eapply spine_last; [|exact Hlast|by apply IH].
    rewrite Hsame by lia. done.
Qed.

Lemma spine_new a : spine s a p → spine s' a m.
Proof using All.
  intros Hap. eapply spine_snoc; [|exact Hp'| |exact Hm].
  - apply spine_keep; [done|]. apply spine_here. by eexists.
  - cbn. apply last_snoc.
Qed.

End Attach.

(** The elements of the sidebar stand in the store in document order. *)
Definition preorderOk (s : list tocElement) : Prop :=
  descendants (length s) s 0 = seq 0 (length s).

Lemma attach_preorder s s' p m e k :
  wfStore s → s !! p = Some e → s' !! p = Some (addChild m e) →
  (∀ i, i ≠ p → i < length s → s' !! i = s !! i) →
  p < m → is_Some (s' !! m) →
  (∀ f, length s' ≤ f + m → descendants f s' m = seq (length s) k) →
  length s' = length s + k →
  spine s 0 p → preorderOk s → preorderOk s'.
Proof.
  intros Hwf Hp Hp' Hsame Hpm Hm HD Hlen Hspine Hpre. unfold preorderOk in *.
  rewrite (attach_spine s s' p m e (seq (length s) k)); try done; try lia.
  - rewrite (descendants_fuel s Hwf (length s') (length s) 0) by lia.
    by rewrite Hpre, Hlen, seq_app.
  - rewrite (descendants_fuel s Hwf (length s') (length s) 0) by lia.
    rewrite Hpre. apply NoDup_seq.
Qed.

(** The lists on the stack lie on the way from [nav] to the current list,
    each below the next one. *)
Fixpoint chain (s : list tocElement) (stack : list nat) : Prop :=
  match stack with
  | [] => True
  | u :: rest => spine s (default 0 (head rest)) u ∧ chain s rest
  end.

Lemma chain_top s u rest :
  chain s (u :: rest) → ∀ v, v ∈ u :: rest → spine s v u.
Proof.
  revert u. induction rest as [|w rest IH]; intros u [Hu Hrest] v Hv.
  - apply list_elem_of_singleton in Hv as ->. apply spine_here.
    by eapply spine_is_Some.
  - apply elem_of_cons in Hv as [->|Hv].
    + apply spine_here. by eapply spine_is_Some.
    + eapply spine_trans; [by apply IH|]. exact Hu.
Qed.

Lemma chain_root s u rest : chain s (u :: rest) → spine s 0 u.
Proof.
  revert u. induction rest as [|w rest IH]; intros u [Hu Hrest]; [done|].
  eapply spine_trans; [by apply IH|]. exact Hu.
Qed.

Lemma chain_keep s s' p m e D stack :
  wfStore s → s !! p = Some e → s' !! p = Some (addChild m e) →
  (∀ i, i ≠ p → i < length s → s' !! i = s !! i) →
  length s ≤ length s' → p < m → is_Some (s' !! m) →
  (∀ f, length s' ≤ f + m → descendants f s' m = D) →
  chain s stack → (∀ v, v ∈ stack → spine s v p) → chain s' stack.
Proof.
  intros Hwf Hp Hp' Hsame Hlen Hpm Hm HD.
  induction stack as [|u rest IH]; [done|]. intros [Hu Hrest] Hall.
  split.
  - eapply (spine_keep s s' p m e D Hwf Hp Hp' Hsame Hlen Hpm Hm HD);
      [exact Hu|].
    apply Hall, list_elem_of_here.
  - apply IH; [done|]. intros v Hv. by apply Hall, list_elem_of_further.
Qed.

Lemma popLists_chain s n stack : chain s stack → chain s (popLists n stack).
Proof.
  revert stack. induction n as [|n IH]; intros stack Hs; [by destruct stack|].
  destruct stack as [|u [|v rest]]; [done..|]. cbn [popLists]. apply IH.
  by destruct Hs.
Qed.

Lemma popLists_not_nil n stack : stack ≠ [] → popLists n stack ≠ [].
Proof.
  revert stack. induction n as [|n IH]; intros stack Hs; [by destruct stack|].
  destruct stack as [|u [|v rest]]; [done..|]. cbn [popLists]. by apply IH.
Qed.

Definition builderTree (b : builder) : Prop :=
  wfStore (tocStore b)
  ∧ preorderOk (tocStore b)
  ∧ head (listStack b) = Some (currentList b)
  ∧ chain (tocStore b) (listStack b).

Lemma newBuilder_tree : builderTree newBuilder.
Proof.
  destruct newBuilder_ok as (Hwf & _). split_and!; [done|done|done|].
  split; [|done]. apply spine_here. by eexists.
Qed.

(** A new list under [p], which is the current list or its last child. *)
Lemma attach_list b p level :
  builderTree b →
  spine (tocStore b) (currentList b) p →
  builderTree
    {| tocStore := appendChild p (length (tocStore b))
                     (tocStore b ++ [newElement UL]);
       currentLevel := level;
       currentList := length (tocStore b);
       listStack := length (tocStore b) :: listStack b |}.
Proof.
  intros (Hwf & Hpre & Hhead & Hchain) Hp.
  set (s := tocStore b) in *. set (m := length s).
  set (s' := appendChild p m (s ++ [newElement UL])).
  destruct (listStack b) as [|cur rest] eqn:Hstack; [done|].
  injection Hhead as Hcur. rewrite <- Hcur in *. subst cur.
  pose proof (chain_root _ _ _ Hchain) as Hroot.
  assert (spine s 0 p) as Hrootp by by eapply spine_trans.
  destruct (spine_is_Some _ _ _ Hp) as [e He].
  pose proof (lookup_lt_Some _ _ _ He) as Hlt. fold m in Hlt.
  assert (length s' = m + 1) as Hlen
    by (unfold s', appendChild; rewrite length_alter, length_app; done).
  assert (s' !! p = Some (addChild m e)) as Hp'.
  { unfold s', appendChild. rewrite list_lookup_alter_eq.
    by rewrite lookup_app_l, He by done. }
  assert (∀ i, i ≠ p → i < length s → s' !! i = s !! i) as Hsame.
  { intros i Hne Hi. unfold s', appendChild.
    rewrite list_lookup_alter_ne by done. by apply lookup_app_l. }
  assert (s' !! m = Some (newElement UL)) as Hm.
  { unfold s', appendChild. rewrite list_lookup_alter_ne by lia.
    apply list_lookup_middle. done. }
  assert (∀ f, length s' ≤ f + m → descendants f s' m = seq (length s) 1) as HD.
  { intros f Hf. destruct f as [|f]; [lia|]. cbn [descendants]. by rewrite Hm. }
  split_and!.
  - apply wfStore_appendChild; [by apply wfStore_snoc|].
    rewrite length_app. cbn. fold m. lia.
  - eapply (attach_preorder s s' p m e 1); try done; try by eexists.
  - done.
  - change (spine s' (currentList b) m ∧ chain s' (currentList b :: rest)).
    split.
    + eapply (spine_new s s' p m e _ Hwf He Hp' Hsame); try done; try lia;
        try by eexists.
    + eapply (chain_keep s s' p m e); try done; try lia; try (by eexists).
      intros v Hv. eapply spine_trans; [|exact Hp]. by eapply chain_top.
Qed.

(** A new item with its link in the current list. *)
Lemma attach_item b a level :
  builderTree b → toc_children a = [] →
  builderTree
    {| tocStore :=
         appendChild (currentList b) (length (tocStore b))
           (appendChild (length (tocStore b)) (S (length (tocStore b)))
              ((tocStore b ++ [newElement LI]) ++ [a]));
       currentLevel := level;
       currentList := currentList b;
       listStack := listStack b |}.
Proof.
  intros (Hwf & Hpre & Hhead & Hchain) Ha.
  set (s := tocStore b) in *. set (li := length s).
  set (s2 := (s ++ [newElement LI]) ++ [a]).
  set (s' := appendChild (currentList b) li (appendChild li (S li) s2)).
  destruct (listStack b) as [|cur rest] eqn:Hstack; [done|].
  injection Hhead as Hcur. rewrite <- Hcur in *. subst cur.
  pose proof (chain_root _ _ _ Hchain) as Hroot.
  destruct (spine_is_Some _ _ _ Hroot) as [e He].
  pose proof (lookup_lt_Some _ _ _ He) as Hlt. fold li in Hlt.
  assert (length s2 = li + 2) as Hlen2
    by (unfold s2; rewrite !length_app; cbn; fold li; lia).
  assert (length s' = li + 2) as Hlen
    by (unfold s', appendChild; by rewrite !length_alter).
  assert (s2 !! li = Some (newElement LI)) as Hli2.
  { unfold s2. rewrite lookup_app_l by (rewrite length_app; cbn; fold li; lia).
    by apply list_lookup_middle. }
  assert (s2 !! S li = Some a) as Hlink2.
  { unfold s2. apply list_lookup_middle. rewrite length_app. cbn. fold li. lia. }
  assert (s' !! currentList b = Some (addChild li e)) as Hp'.
  { unfold s', appendChild. rewrite list_lookup_alter_eq.
    rewrite list_lookup_alter_ne by lia.
    unfold s2. by rewrite <- app_assoc, lookup_app_l, He by done. }
  assert (∀ i, i ≠ currentList b → i < length s → s' !! i = s !! i) as Hsame.
  { intros i Hne Hi. unfold s', appendChild.
    rewrite !list_lookup_alter_ne by (done || (fold li in Hi; lia)).
    unfold s2. rewrite <- app_assoc. by apply lookup_app_l. }
  assert (s' !! li = Some (addChild (S li) (newElement LI))) as Hli.
  { unfold s', appendChild. rewrite list_lookup_alter_ne by lia.
    by rewrite list_lookup_alter_eq, Hli2. }
  assert (s' !! S li = Some a) as Hlink.
  { unfold s', appendChild. by rewrite !list_lookup_alter_ne by lia. }
  assert (∀ f, length s' ≤ f + li → descendants f s' li = seq (length s) 2)
    as HD.
  { intros f Hf. destruct f as [|[|f]]; [lia..|].
    cbn [descendants]. rewrite Hli. cbn [toc_children addChild newElement app].
    cbn [flat_map descendants]. rewrite Hlink, Ha. done. }
  split_and!.
  - apply wfStore_appendChild;
      [|unfold appendChild; rewrite length_alter; lia].
    apply wfStore_appendChild; [|lia].
    apply wfStore_snoc; [done|]. by apply wfStore_snoc.
  - eapply (attach_preorder s s' (currentList b) li e 2); try done; try lia;
      try by eexists.
  - done.
  - cbn [tocStore listStack].
    eapply (chain_keep s s' (currentList b) li e); try done; try lia;
      try (by eexists).
    intros v Hv. by eapply chain_top.
Qed.

Lemma nestLists_tree n b : builderTree b → builderTree (nestLists n b).
Proof.
  revert b. induction n as [|n IH]; intros b Hb; [done|].
  cbn [nestLists createElement]. apply IH.
  pose proof Hb as (Hwf & _ & Hhead & Hchain).
  destruct (listStack b) as [|cur rest] eqn:Hstack; [done|].
  injection Hhead as Hcur.
  pose proof (chain_root _ _ _ Hchain) as Hroot. rewrite Hcur in Hroot.
  destruct (spine_is_Some _ _ _ Hroot) as [e He].
  pose proof (lookup_lt_Some _ _ _ He) as Hlt.
  unfold lastElementChild. rewrite lookup_app_l, He by done.
  rewrite <- Hstack.
  destruct (last (toc_children e)) as [lastLi|] eqn:Hlast.
  - apply attach_list; [done|].
    eapply spine_last; [exact He|exact Hlast|]. apply spine_here.
    apply lookup_lt_is_Some.
    pose proof (Hwf _ _ He _ (last_Some_elem_of _ _ Hlast)). lia.
  - apply attach_list; [done|]. apply spine_here. by eexists.
Qed.

Lemma adjustNesting_tree level b :
  builderTree b → builderTree (adjustNesting level b).
Proof.
  intros Hb. unfold adjustNesting.
  destruct (currentLevel b <? level); [by apply nestLists_tree|].
  destruct (level <? currentLevel b); [|done].
  destruct Hb as (Hwf & Hpre & Hhead & Hchain).
  pose proof (popLists_chain _ (currentLevel b - level + 1) _ Hchain) as Hpop.
  assert (listStack b ≠ []) as Hne by (by destruct (listStack b)).
  pose proof (popLists_not_nil (currentLevel b - level + 1) _ Hne) as Hpop'.
  split_and!; [done|done| |done].
  cbn [listStack currentList]. by destruct (popLists _ _).
Qed.

Lemma addHeading_tree route hash b tag heading :
  builderTree b → builderTree (addHeading route hash b tag heading).1.
Proof.
  intros Hb. unfold addHeading. destruct (levelOf tag =? 1); [done|].
  pose proof (adjustNesting_tree (levelOf tag) b Hb) as Hb1.
  cbn [createElement fst]. rewrite length_app. cbn [length].
  rewrite Nat.add_1_r.
  by apply (attach_item (adjustNesting (levelOf tag) b)).
Qed.

Lemma addHeadings_tree route hash els :
  ∀ b, builderTree b → builderTree (addHeadings route hash b els).1.
Proof.
  induction els as [|e els IH]; intros b Hb; [done|]. cbn [addHeadings].
  assert (builderTree (match el_heading e with
                       | Some tag => addHeading route hash b tag e
                       | None => (b, e)
                       end).1) as Hb1.
  { destruct (el_heading e); [by apply addHeading_tree|done]. }
  destruct (match el_heading e with
            | Some tag => addHeading route hash b tag e
            | None => (b, e)
            end) as [b1 e1].
  specialize (IH b1 Hb1).
  by destruct (addHeadings route hash b1 els).
Qed.

(** What a link of the sidebar shows: its address, its text and its
    [data-heading-id]. *)
Definition linkData (e : tocElement) : string * string * option string :=
  (toc_href e, toc_textContent e, toc_headingId e).

Definition asLink (e : tocElement) : option (string * string * option string) :=
  match toc_tag e, toc_headingId e with
  | A, Some _ => Some (linkData e)
  | _, _ => None
  end.

(** The links of the sidebar as [querySelectorAll] lists them. *)
Definition linksOf (sb : sidebar) : list (string * string * option string) :=
  omap (λ i, linkData <$> sb_store sb !! i) (sidebarLinks sb).

(** The headings that get an entry: the headings other than [h1]. *)
Definition isEntry (e : element) : bool :=
  match el_heading e with
  | Some H1 | None => false
  | Some _ => true
  end.

Lemma omap_pointwise {X Y} (f g : X → option Y) (l : list X) :
  (∀ x, f x = g x) → omap f l = omap g l.
Proof.
  intros Hfg. induction l as [|x l IH]; [done|]. cbn. by rewrite Hfg, IH.
Qed.

Lemma omap_alter {X Y} (g : X → option Y) (f : X → X) (l : list X) i :
  (∀ x, g (f x) = g x) → omap g (alter f i l) = omap g l.
Proof.
  intros Hg. revert i. induction l as [|x l IH]; intros [|i]; try done.
  - cbn. by rewrite Hg.
  - cbn. by rewrite IH.
Qed.

Lemma omap_filter_links s (l : list nat) :
  omap (λ i, linkData <$> s !! i) (filter (λ i, isLink s i = true) l)
  = omap (λ i, s !! i ≫= asLink) l.
Proof.
  induction l as [|i l IH]; [done|]. rewrite filter_cons.
  change (omap (λ i, s !! i ≫= asLink) (i :: l))
    with (match s !! i ≫= asLink with
          | Some y => y :: omap (λ i, s !! i ≫= asLink) l
          | None => omap (λ i, s !! i ≫= asLink) l
          end).
  rewrite <- IH.
  destruct (decide (isLink s i = true)) as [H|H]; unfold isLink in H;
    destruct (s !! i) as [e|] eqn:Hi; try done; unfold asLink at 1;
    cbn [mbind option_bind].
  - cbn [omap list_omap]. rewrite Hi. cbn [fmap option_fmap option_map].
    by destruct (toc_tag e), (toc_headingId e).
  - by destruct (toc_tag e), (toc_headingId e).
Qed.

Lemma omap_lookup_seq {Y} (g : tocElement → option Y) pre suf :
  omap (λ i, (pre ++ suf) !! i ≫= g) (seq (length pre) (length suf))
  = omap g suf.
Proof.
  revert pre. induction suf as [|x suf IH]; intros pre; [done|].
  cbn [length seq]. cbn [omap list_omap].
  rewrite list_lookup_middle by done. cbn [mbind option_bind].
  specialize (IH (pre ++ [x])). rewrite <- app_assoc in IH. cbn [app] in IH.
  rewrite length_app in IH. cbn [length] in IH. rewrite Nat.add_1_r in IH.
  by rewrite IH.
Qed.

(** In a store that is in document order the links of the sidebar are the
    links of the store. *)
Lemma linksOf_preorder sb :
  preorderOk (sb_store sb) → linksOf sb = omap asLink (sb_store sb).
Proof.
  intros Hpre. unfold linksOf, sidebarLinks. rewrite Hpre.
  rewrite omap_filter_links. apply (omap_lookup_seq asLink []).
Qed.

Lemma linksOf_shape sb1 sb2 :
  shape <$> sb_store sb1 = shape <$> sb_store sb2 → linksOf sb1 = linksOf sb2.
Proof.
  intros H. unfold linksOf. rewrite (sidebarLinks_shape _ _ H).
  apply omap_pointwise. intros i. pose proof (shape_lookup _ _ i H) as Hi.
  destruct (sb_store sb1 !! i) as [e1|], (sb_store sb2 !! i) as [e2|];
    try done.
  cbn in *. unfold linkData. injection Hi as _ _ -> -> ->. done.
Qed.

Lemma asLink_addChild c e : asLink (addChild c e) = asLink e.
Proof. done. Qed.

Lemma nestLists_links n b :
  omap asLink (tocStore (nestLists n b)) = omap asLink (tocStore b).
Proof.
  revert b. induction n as [|n IH]; intros b; [done|].
  cbn [nestLists createElement]. rewrite IH. cbn [tocStore].
  assert (∀ p, omap asLink
                 (appendChild p (length (tocStore b))
                    (tocStore b ++ [newElement UL]))
               = omap asLink (tocStore b)) as Hp.
  { intros p. unfold appendChild.
    rewrite omap_alter by apply asLink_addChild.
    rewrite omap_app. cbn. apply app_nil_r. }
  by destruct (lastElementChild _ _).
Qed.

Lemma adjustNesting_links level b :
  omap asLink (tocStore (adjustNesting level b)) = omap asLink (tocStore b).
Proof.
  unfold adjustNesting. destruct (currentLevel b <? level).
  - apply nestLists_links.
  - by destruct (level <? currentLevel b).
Qed.

Lemma addHeading_links route hash b tag heading :
  el_heading heading = Some tag →
  omap asLink (tocStore (addHeading route hash b tag heading).1)
  = omap asLink (tocStore b)
    ++ (if isEntry heading then [linkData (linkFor route hash heading)] else []).
Proof.
  intros Htag. unfold addHeading, isEntry. rewrite Htag.
  destruct (levelOf tag =? 1) eqn:Hlevel.
  - destruct tag; try done. cbn. by rewrite app_nil_r.
  - cbn [createElement fst tocStore]. unfold appendChild.
    rewrite !omap_alter by apply asLink_addChild.
    rewrite !omap_app, adjustNesting_links. cbn.
    rewrite app_nil_r. by destruct tag.
Qed.

Lemma addHeadings_links route hash els :
  ∀ b, omap asLink (tocStore (addHeadings route hash b els).1)
       = omap asLink (tocStore b)
         ++ ((λ e, linkData (linkFor route hash e)) <$> filter isEntry els).
Proof.
  induction els as [|e els IH]; intros b; [cbn; by rewrite app_nil_r|].
  cbn [addHeadings].
  assert (omap asLink
            (tocStore (match el_heading e with
                       | Some tag => addHeading route hash b tag e
                       | None => (b, e)
                       end).1)
          = omap asLink (tocStore b)
            ++ (if isEntry e then [linkData (linkFor route hash e)] else []))
    as Hb1.
  { destruct (el_heading e) as [tag|] eqn:Htag.
    - by apply addHeading_links.
    - unfold isEntry. rewrite Htag. cbn. by rewrite app_nil_r. }
  destruct (match el_heading e with
            | Some tag => addHeading route hash b tag e
            | None => (b, e)
            end) as [b1 e1].
  specialize (IH b1). destruct (addHeadings route hash b1 els) as [b2 rest].
  cbn [fst snd] in *. rewrite IH, Hb1, <- app_assoc. f_equal.
  rewrite filter_cons. destruct (isEntry e); cbn; done.
Qed.

Section Listing.

Context {sidebarNav : Type} (rewriteSidebarNav : sidebarNav → sidebarNav).

(** X17.  On a page with a heading, the links of the sidebar that
    [createOnThisPageSidebar] builds are, in the order of the document,
    the links of the headings other than [h1] and no others: one link for
    every such heading, with the address, the text and the
    [data-heading-id] made for that heading, however the levels of the
    headings made the lists nest. *)
Theorem createOnThisPageSidebar_lists_headings
    (d : document sidebarNav) :
  existsb isHeading (elements _ d) = true →
  ∃ sb,
    onThisPage _ (createOnThisPageSidebar _ rewriteSidebarNav d) = Some sb
    ∧ linksOf sb
      = (λ e, linkData
                (linkFor (currentRoute _ d) (hash (windowLocation _ d)) e))
          <$> filter isEntry (elements _ d).
Proof.
  intros Hex. rewrite (createOnThisPageSidebar_sidebar rewriteSidebarNav d Hex).
  set (d3 := setOnThisPage _ _ _).
  destruct (setupScrollSpy_sameShape d3 (sidebarOf d) eq_refl)
    as (sb0 & sb & [= <-] & Hsb & Hshape & _).
  exists sb. split; [done|]. rewrite (linksOf_shape _ _ Hshape).
  rewrite linksOf_preorder.
  - cbn [sidebarOf sb_store]. by rewrite addHeadings_links.
  - cbn [sidebarOf sb_store].
    by destruct (addHeadings_tree (currentRoute _ d)
                   (hash (windowLocation _ d)) (elements _ d) _
                   newBuilder_tree) as (_ & Hpre & _).
Qed.

End Listing.

(** The page of the example: a title and two sections. *)
Lemma createOnThisPageSidebar_lists_headings_witness :
  ∃ sb,
    onThisPage unit (createOnThisPageSidebar unit id Samples.pageWithSections)
    = Some sb
    ∧ linksOf sb
      = [ ("#/routing?id=defining-routes", "Defining routes",
           Some "defining-routes");
          ("#/routing?id=shorthand-routes", "Shorthand routes",
           Some "shorthand-routes") ].
Proof.
  apply (createOnThisPageSidebar_lists_headings id Samples.pageWithSections).
  reflexivity.
Defined.

(** *** The scroll listeners *)

Lemma omap_omap {X Y Z} (f : X → option Y) (g : Y → option Z) (l : list X) :
  omap g (omap f l) = omap (λ x, f x ≫= g) l.
Proof.
  induction l as [|x l IH]; [done|]. cbn. destruct (f x) as [y|]; cbn; [|done].
  destruct (g y); by rewrite IH.
Qed.

Lemma omap_fmap {X Y Z} (f : X → Y) (g : Y → option Z) (l : list X) :
  omap g (f <$> l) = omap (λ x, g (f x)) l.
Proof.
  induction l as [|x l IH]; [done|]. cbn. destruct (g (f x)); by rewrite IH.
Qed.

Lemma omap_nil {X Y} (f : X → option Y) (l : list X) :
  (∀ x, x ∈ l → f x = None) → omap f l = [].
Proof.
  induction l as [|x l IH]; intros Hl; [done|]. cbn.
  rewrite (Hl x) by apply list_elem_of_here. apply IH.
  intros y Hy. by apply Hl, list_elem_of_further.
Qed.

Lemma omap_not_nil {X Y} (f : X → option Y) (l : list X) x :
  x ∈ l → is_Some (f x) → omap f l ≠ [].
Proof.
  intros Hx [y Hy] Hnil.
  assert (y ∈ omap f l) as Hin by (apply list_elem_of_omap; eauto).
  rewrite Hnil in Hin. by apply elem_of_nil in Hin.
Qed.

(** The headings whose links the scroll spy can follow: the id of the
    heading is not empty. *)
Definition isSpied (e : element) : bool :=
  isEntry e && JS.truthy (headingId e).

Section Listeners.

Context {sidebarNav : Type} (rewriteSidebarNav : sidebarNav → sidebarNav).

Implicit Types d : document sidebarNav.

Lemma updateActiveLink_listeners (s : spy) d :
  scrollListeners _ (updateActiveLink _ s d) = scrollListeners _ d.
Proof. unfold updateActiveLink. by destruct (onThisPage _ d). Qed.

(** The headings the spy of a new sidebar resolves. *)
Lemma collectSpy_headings d :
  spy_headings
    (collectSpy _
       (setOnThisPage _ (Some (sidebarOf d))
          (setElements _ (withId <$> elements _ d) d)))
  = omap (λ e, getElementById (headingId e) (withId <$> elements _ d))
      (filter isEntry (elements _ d)).
Proof.
  unfold collectSpy. cbn [setOnThisPage setElements onThisPage elements].
  cbn [spy_headings].
  set (els := withId <$> elements _ d).
  transitivity
    (omap (λ l : string * string * option string,
             l.2 ≫= λ id, getElementById id els)
       (linksOf (sidebarOf d))).
  - unfold linksOf. rewrite omap_omap. apply omap_pointwise. intros i.
    destruct (sb_store (sidebarOf d) !! i) as [e|]; [|done]. cbn.
    by destruct (toc_headingId e).
  - rewrite linksOf_preorder.
    + cbn [sidebarOf sb_store]. rewrite addHeadings_links. cbn.
      by rewrite omap_fmap.
    + cbn [sidebarOf sb_store].
      by destruct (addHeadings_tree (currentRoute _ d)
                     (hash (windowLocation _ d)) (elements _ d) _
                     newBuilder_tree) as (_ & Hpre & _).
Qed.

Lemma spied_resolves els e :
  e ∈ els → isSpied e = true →
  is_Some (getElementById (headingId e) (withId <$> els)).
Proof.
  intros He [Hentry Hid]%andb_true_iff. unfold getElementById. rewrite Hid.
  apply fmap_is_Some.
  apply (list_find_elem_of _ _ (withId e)).
  - apply list_elem_of_fmap. by exists e.
  - unfold withId, isEntry in *. by destruct (el_heading e) as [[]|].
Qed.

(** X18.  [createOnThisPageSidebar] never removes a scroll listener, and
    it adds one whenever the page has a heading other than [h1] whose id
    is not empty: the listeners of the sidebars of earlier pages stay
    registered on the window. *)
Theorem createOnThisPageSidebar_adds_listener d :
  ∃ new,
    scrollListeners _ (createOnThisPageSidebar _ rewriteSidebarNav d)
    = new ++ scrollListeners _ d
    ∧ length new = if existsb isSpied (elements _ d) then 1 else 0.
Proof.
  unfold createOnThisPageSidebar. cbn [setOnThisPage elements].
  destruct (existsb isHeading (elements _ d)) eqn:Hex; cbn [negb].
  - set (d2 := updateLeftSidebarActiveState _ _).
    assert (elements _ d2 = elements _ d
            ∧ currentRoute _ d2 = currentRoute _ d
            ∧ windowLocation _ d2 = windowLocation _ d
            ∧ scrollListeners _ d2 = scrollListeners _ d)
      as (Hels & Hroute & Hloc & Hls).
    { unfold d2, updateLeftSidebarActiveState, removeNestedFromLeftSidebar.
      cbn [setOnThisPage leftSidebar].
      by destruct (leftSidebar _ d) as [[nav|]|]. }
    assert (createViewAsMarkdownLink _ d2 = createViewAsMarkdownLink _ d)
      as Hmd by (unfold createViewAsMarkdownLink; by rewrite Hroute, Hloc).
    rewrite Hmd, Hels, Hroute, Hloc.
    pose proof (collectSpy_headings d) as Hspy.
    destruct (addHeadings_ok (currentRoute _ d) (hash (windowLocation _ d))
                (elements _ d) _ newBuilder_ok) as (_ & _ & Hids & _).
    unfold sidebarOf in Hspy.
    destruct (addHeadings _ _ newBuilder (elements _ d)) as [b els].
    cbn [fst snd] in *. subst els. unfold setupScrollSpy.
    match goal with
    | |- context [spy_headings ?s] =>
        assert (spy_headings s
                = omap (λ e, getElementById (headingId e)
                               (withId <$> elements _ d))
                    (filter isEntry (elements _ d))) as Hs
          by (rewrite <- Hspy; reflexivity)
    end.
    destruct (existsb isSpied (elements _ d)) eqn:Hspied.
    + apply existsb_exists in Hspied as (e & He%list_elem_of_In & Hspied).
      assert (isEntry e = true) as Hentry
        by by apply andb_true_iff in Hspied as [? _].
      assert (e ∈ filter isEntry (elements _ d)) as Hin
        by (apply list_elem_of_filter; split; [by apply Is_true_true|done]).
      pose proof (omap_not_nil
                    (λ e, getElementById (headingId e)
                            (withId <$> elements _ d))
                    _ e Hin (spied_resolves _ _ He Hspied)) as Hne.
      rewrite <- Hs in Hne.
      destruct (spy_headings _) as [|h hs]; [done|].
      rewrite updateActiveLink_listeners.
      cbn [addScrollListener setOnThisPage setElements scrollListeners].
      rewrite Hls. by eexists [_].
    + assert (omap (λ e, getElementById (headingId e)
                           (withId <$> elements _ d))
                (filter isEntry (elements _ d)) = []) as Hnil.
      { apply omap_nil. intros e [Hentry He]%list_elem_of_filter.
        assert (isSpied e = false) as Hno.
        { apply not_true_is_false. intros Hyes.
          assert (existsb isSpied (elements _ d) = true) as Habs
            by (apply existsb_exists; exists e;
                split; [by apply list_elem_of_In|done]).
          congruence. }
        unfold isSpied in Hno. apply Is_true_true in Hentry.
        rewrite Hentry in Hno. cbn in Hno. unfold getElementById.
        by rewrite Hno. }
      rewrite Hnil in Hs. rewrite Hs.
      cbn [setOnThisPage setElements scrollListeners]. rewrite Hls.
      by exists [].
  - exists []. split; [done|].
    assert (existsb isSpied (elements _ d) = false) as ->; [|done].
    apply not_true_is_false. intros (e & He & Hspied)%existsb_exists.
    assert (existsb isHeading (elements _ d) = true) as Habs.
    { apply existsb_exists. exists e. split; [done|].
      unfold isSpied, isEntry, isHeading in *.
      by destruct (el_heading e). }
    congruence.
Qed.

End Listeners.

(** *** The throttle of the scroll handler *)

Section Throttle.

Context {sidebarNav : Type}.










End Throttle.
End SidebarProps.

(* ===================================================================== *)
(** ** The link of the section scrolled to *)
(* ===================================================================== *)

Module ScrollSpySpec.

Import OnThisPage SidebarSpec SidebarProps.

(** The ids that can stand between the quotes of the selector
    [a[data-heading-id="..."]] and mean themselves there: those without a
    double quote, a backslash, a line break or a NUL.  With one of these
    in it the text is another selector, or none. *)
Definition selectorSafe (id : string) : bool :=
  allChars
    (λ c, negb (bool_decide (nat_of_ascii c ∈ [0; 10; 12; 13; 34; 92]))) id.

(** The headings of the sidebar can be found by their ids: the id of
    every heading other than [h1] is not empty, can stand in the selector,
    and no element in front of the heading has it.  [seen] holds the ids
    of the elements in front of [els]. *)
Fixpoint distinctIds (seen : list string) (els : list element) : bool :=
  match els with
  | [] => true
  | e :: rest =>
      (if isEntry e
       then JS.truthy (el_id e) && selectorSafe (el_id e)
            && negb (bool_decide (el_id e ∈ seen))
       else true)
      && distinctIds (el_id e :: seen) rest
  end.

(** The places of the headings other than [h1] among the elements, in
    the order of the document; [n] is the place of the first element. *)
Fixpoint entryIndices (n : nat) (els : list element) : list nat :=
  match els with
  | [] => []
  | e :: rest =>
      if isEntry e then n :: entryIndices (S n) rest
      else entryIndices (S n) rest
  end.

(** The sidebar [sb] shows the section that the page with the elements
    [els] is scrolled to.  The active heading is the [k]-th heading other
    than [h1]: the last one in the order of the document whose top is at
    most 100, or the first one when no heading is that far up.  The
    [k]-th link of the sidebar is the link of that heading, it carries
    the class [active], and no other link does. *)
Definition marksCurrentSection (els : list element) (sb : sidebar) : Prop :=
  ∃ (k h : nat) (heading : element) (link : nat) (a : tocElement),
    entryIndices 0 els !! k = Some h
    ∧ els !! h = Some heading
    ∧ (((el_top heading <= 100)%Q
        ∧ ∀ k' h' e', k < k' → entryIndices 0 els !! k' = Some h' →
                      els !! h' = Some e' → ¬ (el_top e' <= 100)%Q)
       ∨ (k = 0
          ∧ ∀ h' e', h' ∈ entryIndices 0 els → els !! h' = Some e' →
                     ¬ (el_top e' <= 100)%Q))
    ∧ length (sidebarLinks sb) = length (entryIndices 0 els)
    ∧ sidebarLinks sb !! k = Some link
    ∧ sb_store sb !! link = Some a
    ∧ toc_headingId a = Some (el_id heading)
    ∧ toc_textContent a = JS.trim (el_textContent heading)
    ∧ ∀ j i, sidebarLinks sb !! j = Some i →
             toc_active <$> sb_store sb !! i = Some (bool_decide (j = k)).

(** What of an element stays while the page is scrolled. *)
Definition content (e : element) : option headingTag * string * string :=
  (el_heading e, el_id e, el_textContent e).

Lemma entryIndices_heading n (els els' : list element) :
  el_heading <$> els = el_heading <$> els' →
  entryIndices n els = entryIndices n els'.
Proof.
  revert n els'. induction els as [|e els IH]; intros n [|e' els'] Heq;
    try done.
  pose proof (f_equal head Heq) as He. pose proof (f_equal tail Heq) as Hels.
  cbn [fmap list_fmap head tail] in He, Hels. apply (inj Some) in He.
  cbn [entryIndices]. rewrite (IH (S n) els' Hels).
  unfold isEntry. by rewrite He.
Qed.

Lemma entryIndices_content n (els els' : list element) :
  content <$> els = content <$> els' →
  entryIndices n els = entryIndices n els'.
Proof.
  intros Heq. apply entryIndices_heading.
  apply (f_equal (fmap (λ c : option headingTag * string * string, c.1.1)))
    in Heq.
  by rewrite <- !list_fmap_compose in Heq.
Qed.

Lemma filter_cons_bool {X} (f : X → bool) (x : X) (xs : list X) :
  filter f (x :: xs) = if f x then x :: filter f xs else filter f xs.
Proof.
  rewrite filter_cons. destruct (f x).
  - by rewrite decide_True.
  - rewrite decide_False; [done|]. by intros [].
Qed.

Lemma entryIndices_lookup n (els : list element) k h :
  entryIndices n els !! k = Some h →
  ∃ e, n ≤ h ∧ els !! (h - n) = Some e ∧ isEntry e = true
       ∧ filter isEntry els !! k = Some e.
Proof.
  revert n k. induction els as [|e els IH]; intros n k Hk; [done|].
  cbn [entryIndices] in Hk. rewrite filter_cons_bool.
  destruct (isEntry e) eqn:He.
  - destruct k as [|k].
    + injection Hk as <-. exists e. rewrite Nat.sub_diag. by split_and!.
    + cbn in Hk. destruct (IH _ _ Hk) as (e' & Hle & Hh & He' & Hf).
      exists e'. split_and!; [lia| |done|done].
      replace (h - n) with (S (h - S n)) by lia. done.
  - destruct (IH _ _ Hk) as (e' & Hle & Hh & He' & Hf).
    exists e'. split_and!; [lia| |done|done].
    replace (h - n) with (S (h - S n)) by lia. done.
Qed.

Lemma length_entryIndices n (els : list element) :
  length (entryIndices n els) = length (filter isEntry els).
Proof.
  revert n. induction els as [|e els IH]; intros n; [done|].
  cbn [entryIndices]. rewrite filter_cons_bool. destruct (isEntry e).
  - cbn. by rewrite IH.
  - done.
Qed.

Lemma omap_on_elements {X Y} (f g : X → option Y) (xs : list X) :
  (∀ x, x ∈ xs → f x = g x) → omap f xs = omap g xs.
Proof.
  induction xs as [|x xs IH]; intros Hfg; [done|]. cbn.
  rewrite (Hfg x) by apply list_elem_of_here.
  rewrite IH; [done|]. intros y Hy. by apply Hfg, list_elem_of_further.
Qed.

(** With ids that tell the headings apart, [getElementById] finds every
    heading by its id. *)
Lemma getElementById_entries (pre suf : list element) (seen : list string) :
  (∀ e, e ∈ pre → el_id e ∈ seen) →
  distinctIds seen suf = true →
  omap (λ e, getElementById (el_id e) (pre ++ suf)) (filter isEntry suf)
  = entryIndices (length pre) suf.
Proof.
  revert pre seen. induction suf as [|e suf IH]; intros pre seen Hseen Hd;
    [done|].
  cbn [distinctIds entryIndices] in *. apply andb_prop in Hd as [He Hd].
  assert (omap (λ e0, getElementById (el_id e0) (pre ++ e :: suf))
            (filter isEntry suf)
          = entryIndices (S (length pre)) suf) as Hrest.
  { rewrite (cons_middle e pre suf), app_assoc.
    rewrite (IH (pre ++ [e]) (el_id e :: seen)); [|..|done].
    - rewrite length_app. cbn. by rewrite Nat.add_1_r.
    - intros e0 [He0|He0]%elem_of_app.
      + apply list_elem_of_further. by apply Hseen.
      + apply list_elem_of_singleton in He0 as ->. apply list_elem_of_here. }
  rewrite filter_cons_bool. destruct (isEntry e) eqn:Hentry.
  - cbn [omap list_omap].
    apply andb_prop in He as [He Hnew]. apply andb_prop in He as [Hid _].
    apply negb_true_iff, bool_decide_eq_false in Hnew.
    assert (getElementById (el_id e) (pre ++ e :: suf) = Some (length pre))
      as ->.
    { unfold getElementById. rewrite Hid.
      assert (list_find (λ e0, el_id e0 = el_id e) (pre ++ e :: suf)
              = Some (length pre, e)) as ->; [|done].
      apply list_find_Some. split_and!.
      - by apply list_lookup_middle.
      - done.
      - intros j y Hj Hlt Hy. apply Hnew. rewrite <- Hy. apply Hseen.
        rewrite lookup_app_l in Hj by done.
        by eapply list_elem_of_lookup_2. }
    by rewrite Hrest.
  - exact Hrest.
Qed.

(** The ids of the headings other than [h1] are pairwise distinct. *)
Lemma distinctIds_NoDup (els : list element) (seen : list string) :
  distinctIds seen els = true →
  NoDup (el_id <$> filter isEntry els)
  ∧ ∀ e, e ∈ filter isEntry els →
         (el_id e ∉ seen) ∧ JS.truthy (el_id e) = true
         ∧ selectorSafe (el_id e) = true.
Proof.
  revert seen. induction els as [|e els IH]; intros seen Hd.
  - split; [apply NoDup_nil_2|]. by intros e ?%elem_of_nil.
  - cbn [distinctIds] in Hd. apply andb_prop in Hd as [He Hd].
    destruct (IH _ Hd) as [Hnd Hall]. rewrite filter_cons_bool.
    destruct (isEntry e) eqn:Hentry.
    + apply andb_prop in He as [He Hnew]. apply andb_prop in He as [Hid Hsafe].
      apply negb_true_iff, bool_decide_eq_false in Hnew.
      split.
      * cbn [fmap list_fmap]. apply NoDup_cons. split; [|done].
        intros (e' & Heq & He')%list_elem_of_fmap.
        destruct (Hall e' He') as (Hout & _). apply Hout. rewrite <- Heq.
        apply list_elem_of_here.
      * intros e' [->|He']%elem_of_cons; [done|].
        destruct (Hall e' He') as (Hout & Ht & Hs). split_and!; [|done..].
        intros Hin. apply Hout. by apply list_elem_of_further.
    + split; [done|].
      intros e' He'. destruct (Hall e' He') as (Hout & Ht & Hs).
      split_and!; [|done..]. intros Hin. apply Hout.
      by apply list_elem_of_further.
Qed.

(** In a list without two elements of the same key the first element
    with the key of [x] is [x]. *)
Lemma head_filter_key {X Y} `{EqDecision Y} (f : X → Y) (xs : list X) k x :
  NoDup (f <$> xs) → xs !! k = Some x →
  head (filter (λ y, f y = f x) xs) = Some x.
Proof.
  revert k. induction xs as [|y xs IH]; intros k Hnd Hk; [done|].
  cbn [fmap list_fmap] in Hnd. apply NoDup_cons in Hnd as [Hy Hnd].
  rewrite filter_cons. destruct k as [|k].
  - injection Hk as ->. by rewrite decide_True.
  - cbn in Hk. rewrite decide_False; [by eapply IH|].
    intros Heq. apply Hy. rewrite Heq. apply list_elem_of_fmap.
    exists x. split; [done|]. by eapply list_elem_of_lookup_2.
Qed.

Lemma omap_total_lookup {X Y} (f : X → option Y) (xs : list X) k x :
  (∀ y, y ∈ xs → is_Some (f y)) → xs !! k = Some x →
  omap f xs !! k = f x.
Proof.
  revert k. induction xs as [|y xs IH]; intros k Hall Hk; [done|].
  destruct (Hall y) as [z Hz]; [apply list_elem_of_here|]. cbn. rewrite Hz.
  destruct k as [|k].
  - injection Hk as ->. by rewrite Hz.
  - cbn in Hk. cbn. apply IH; [|done]. intros y' Hy'.
    by apply Hall, list_elem_of_further.
Qed.

Lemma omap_total_length {X Y} (f : X → option Y) (xs : list X) :
  (∀ y, y ∈ xs → is_Some (f y)) → length (omap f xs) = length xs.
Proof.
  induction xs as [|y xs IH]; intros Hall; [done|].
  destruct (Hall y) as [z Hz]; [apply list_elem_of_here|]. cbn. rewrite Hz.
  cbn. rewrite IH; [done|]. intros y' Hy'. by apply Hall, list_elem_of_further.
Qed.

Section Spy.

Context {sidebarNav : Type} (rewriteSidebarNav : sidebarNav → sidebarNav).

Implicit Types p d : document sidebarNav.

(** The pages the scroll handler [s] of the sidebar of [p] meets: the
    page as [createOnThisPageSidebar] left it, with the handler
    registered and the first update done; from then on the page is
    scrolled and the handler runs. *)
Inductive scrolledFrom p (s : spy) : document sidebarNav → Prop :=
  | from_created :
      scrolledFrom p s (createOnThisPageSidebar _ rewriteSidebarNav p)
  | from_scroll tops d :
      scrolledFrom p s d → scrolledFrom p s (scrolled _ tops d)
  | from_update d :
      scrolledFrom p s d → scrolledFrom p s (updateActiveLink _ s d).

(** The page at the call of [setupScrollSpy]. *)
Lemma createOnThisPageSidebar_setup p :
  existsb isHeading (elements _ p) = true →
  ∃ d0,
    createOnThisPageSidebar _ rewriteSidebarNav p = setupScrollSpy _ d0
    ∧ onThisPage _ d0 = Some (sidebarOf p)
    ∧ elements _ d0 = withId <$> elements _ p.
Proof.
  intros Hex. unfold createOnThisPageSidebar. cbn [setOnThisPage elements].
  rewrite Hex. cbn [negb].
  set (d2 := updateLeftSidebarActiveState _ _).
  assert (elements _ d2 = elements _ p
          ∧ currentRoute _ d2 = currentRoute _ p
          ∧ windowLocation _ d2 = windowLocation _ p) as (Hels & Hroute & Hloc).
  { unfold d2, updateLeftSidebarActiveState, removeNestedFromLeftSidebar.
    cbn [setOnThisPage leftSidebar]. by destruct (leftSidebar _ p) as [[nav|]|]. }
  assert (createViewAsMarkdownLink _ d2 = createViewAsMarkdownLink _ p) as Hmd.
  { unfold createViewAsMarkdownLink. by rewrite Hroute, Hloc. }
  unfold sidebarOf. rewrite Hmd, Hels, Hroute, Hloc.
  destruct (addHeadings_ok (currentRoute _ p) (hash (windowLocation _ p))
              (elements _ p) _ newBuilder_ok) as (_ & _ & Hids & _).
  destruct (addHeadings _ _ newBuilder (elements _ p)) as [b els].
  cbn [fst snd] in *. subst els. eexists. split; [reflexivity|]. done.
Qed.

Lemma collectSpy_ext d d' :
  onThisPage _ d = onThisPage _ d' → elements _ d = elements _ d' →
  collectSpy _ d = collectSpy _ d'.
Proof. intros Hsb Hels. unfold collectSpy. by rewrite Hsb, Hels. Qed.

Lemma isEntry_withId e : isEntry (withId e) = isEntry e.
Proof. unfold isEntry. by destruct (withId_parts e) as (-> & _). Qed.

Lemma el_id_withId e : isEntry e = true → el_id (withId e) = headingId e.
Proof. unfold isEntry, withId. by destruct (el_heading e) as [[]|]. Qed.

Lemma filter_isEntry_withId (els : list element) :
  filter isEntry (withId <$> els) = withId <$> filter isEntry els.
Proof.
  induction els as [|e els IH]; [done|]. cbn [fmap list_fmap].
  rewrite !filter_cons_bool, isEntry_withId.
  change (list_fmap _ _ withId els) with (withId <$> els). rewrite IH.
  by destruct (isEntry e).
Qed.

(** The spy of a new sidebar holds the links of the sidebar and the
    headings other than [h1]. *)
Lemma spy_of_page p d0 :
  onThisPage _ d0 = Some (sidebarOf p) →
  elements _ d0 = withId <$> elements _ p →
  distinctIds [] (withId <$> elements _ p) = true →
  spy_links (collectSpy _ d0) = sidebarLinks (sidebarOf p)
  ∧ spy_headings (collectSpy _ d0) = entryIndices 0 (elements _ p).
Proof.
  intros Hsb Hels Hd. split; [unfold collectSpy; by rewrite Hsb|].
  rewrite (collectSpy_ext d0
             (setOnThisPage _ (Some (sidebarOf p))
                (setElements _ (withId <$> elements _ p) p))) by done.
  rewrite collectSpy_headings.
  pose proof (getElementById_entries [] (withId <$> elements _ p) [])
    as Hfound.
  cbn [app length] in Hfound. rewrite filter_isEntry_withId in Hfound.
  rewrite omap_fmap in Hfound.
  rewrite (entryIndices_heading 0 _ (elements _ p)) in Hfound.
  - rewrite <- Hfound; [|by intros e ?%elem_of_nil|done].
    apply omap_on_elements. intros e [He _]%list_elem_of_filter.
    by rewrite el_id_withId by by apply Is_true_true.
  - rewrite <- list_fmap_compose. apply list_fmap_ext. intros _ e _.
    cbn. by destruct (withId_parts e) as (-> & _).
Qed.

(** Scrolling and updating leave the elements what they are, but for
    their tops. *)
Lemma follows_content d0 d :
  follows d0 d → content <$> elements _ d = content <$> elements _ d0.
Proof.
  intros Hd. induction Hd as [|tops d _ IH|d _ IH].
  - done.
  - rewrite <- IH. cbn [scrolled setElements elements].
    apply list_eq. intros i.
    rewrite !list_lookup_fmap, list_lookup_imap.
    by destruct (elements _ d !! i).
  - by destruct (updateActiveLink_frame (collectSpy _ d0) d) as (-> & _).
Qed.

(** The links of a new sidebar stand for the headings other than [h1],
    one for one. *)
Lemma sidebarOf_linksOf p :
  linksOf (sidebarOf p)
  = (λ e, linkData
            (linkFor (currentRoute _ p) (hash (windowLocation _ p)) e))
      <$> filter isEntry (elements _ p).
Proof.
  rewrite linksOf_preorder.
  - cbn [sidebarOf sb_store]. by rewrite addHeadings_links.
  - cbn [sidebarOf sb_store].
    by destruct (addHeadings_tree (currentRoute _ p)
                   (hash (windowLocation _ p)) (elements _ p) _
                   newBuilder_tree) as (_ & Hpre & _).
Qed.

Lemma sidebarLinks_total (sb : sidebar) (y : nat) :
  y ∈ sidebarLinks sb → is_Some (linkData <$> sb_store sb !! y).
Proof. intros Hy. by apply fmap_is_Some, sidebarLinks_lookup. Qed.

Lemma sidebarOf_link p k (link : nat) :
  sidebarLinks (sidebarOf p) !! k = Some link →
  ∃ e a,
    filter isEntry (elements _ p) !! k = Some e
    ∧ sb_store (sidebarOf p) !! link = Some a
    ∧ toc_headingId a = Some (headingId e)
    ∧ toc_textContent a = JS.trim (el_textContent e).
Proof.
  intros Hk.
  pose proof (omap_total_lookup (λ i, linkData <$> sb_store (sidebarOf p) !! i)
                _ k link (sidebarLinks_total _) Hk) as Hlink.
  fold (linksOf (sidebarOf p)) in Hlink.
  rewrite sidebarOf_linksOf, list_lookup_fmap in Hlink.
  destruct (sidebarLinks_lookup (sidebarOf p) link) as [a Ha];
    [by eapply list_elem_of_lookup_2|].
  rewrite Ha in Hlink.
  destruct (filter isEntry (elements _ p) !! k) as [e|]; [|done].
  cbn in Hlink. injection Hlink as _ Htext Hid.
  exists e, a. by split_and!.
Qed.

Lemma sidebarOf_links_length p :
  length (sidebarLinks (sidebarOf p))
  = length (filter isEntry (elements _ p)).
Proof.
  rewrite <- (omap_total_length
                (λ i, linkData <$> sb_store (sidebarOf p) !! i)
                _ (sidebarLinks_total _)).
  fold (linksOf (sidebarOf p)). by rewrite sidebarOf_linksOf, length_fmap.
Qed.


Lemma aboveFold_top (els : list element) (h' : nat) (e : element) :
  els !! h' = Some e → aboveFold els h' = true ↔ (el_top e <= 100)%Q.
Proof. intros He. unfold aboveFold. rewrite He. apply Qle_bool_iff. Qed.

(** Ids that tell the headings apart tell the links apart. *)
Lemma sidebarOf_links_NoDup p :
  distinctIds [] (withId <$> elements _ p) = true →
  NoDup ((λ i, sb_store (sidebarOf p) !! i ≫= toc_headingId)
           <$> sidebarLinks (sidebarOf p)).
Proof.
  intros Hd. destruct (distinctIds_NoDup _ _ Hd) as [Hnd _].
  rewrite filter_isEntry_withId, <- list_fmap_compose in Hnd.
  apply NoDup_alt. intros j1 j2 x H1 H2.
  rewrite list_lookup_fmap in H1, H2.
  destruct (sidebarLinks (sidebarOf p) !! j1) as [l1|] eqn:Hl1; [|done].
  destruct (sidebarLinks (sidebarOf p) !! j2) as [l2|] eqn:Hl2; [|done].
  destruct (sidebarOf_link p j1 l1 Hl1) as (e1 & a1 & He1 & Ha1 & Hid1 & _).
  destruct (sidebarOf_link p j2 l2 Hl2) as (e2 & a2 & He2 & Ha2 & Hid2 & _).
  cbn [fmap option_fmap option_map] in H1, H2.
  rewrite Ha1 in H1. rewrite Ha2 in H2. cbn [mbind option_bind] in H1, H2.
  assert (headingId e1 = headingId e2) as Heq by congruence.
  apply (NoDup_lookup _ j1 j2 (headingId e1) Hnd).
  - rewrite list_lookup_fmap, He1. cbn. f_equal. apply el_id_withId.
    apply list_elem_of_lookup_2, list_elem_of_filter in He1 as [He1 _].
    by apply Is_true_true.
  - rewrite list_lookup_fmap, He2. cbn. f_equal. rewrite Heq.
    apply el_id_withId.
    apply list_elem_of_lookup_2, list_elem_of_filter in He2 as [He2 _].
    by apply Is_true_true.
Qed.

(** A run of the handler on a page that follows the call of
    [setupScrollSpy]. *)
Lemma update_marks p d0 d :
  filter isEntry (elements _ p) ≠ [] →
  distinctIds [] (withId <$> elements _ p) = true →
  onThisPage _ d0 = Some (sidebarOf p) →
  elements _ d0 = withId <$> elements _ p →
  follows d0 d →
  ∃ sb,
    onThisPage _ (updateActiveLink _ (collectSpy _ d0) d) = Some sb
    ∧ marksCurrentSection (elements _ d) sb.
Proof.
  intros Hsome Hd H0 Hels0 Hfollows.
  destruct (spy_of_page p d0 H0 Hels0 Hd) as [Hlinks Hheadings].
  assert (spy_headings (collectSpy _ d0) ≠ []) as Hne.
  { rewrite Hheadings. intros Hnil. apply Hsome.
    apply length_zero_iff_nil. rewrite <- (length_entryIndices 0).
    by rewrite Hnil. }
  destruct (updateActiveLink_marks_first_match d0 d Hne Hfollows)
    as (sb & h & heading & link & Hsb & _ & Hcases & Hheading & Hfind
        & _ & HL & Hall).
  destruct (updateActiveLink_sameShape (collectSpy _ d0) d0 d
              (follows_sameShape d0 d Hne Hfollows))
    as (sb0 & sb' & H0' & Hsb' & Hshape & _).
  rewrite H0 in H0'. injection H0' as <-.
  rewrite Hsb in Hsb'. injection Hsb' as <-.
  pose proof (follows_content d0 d Hfollows) as Hcontent.
  rewrite Hels0 in Hcontent.
  assert (entryIndices 0 (elements _ d) = entryIndices 0 (elements _ p))
    as Hentries.
  { rewrite (entryIndices_content 0 _ _ Hcontent).
    apply entryIndices_heading. rewrite <- list_fmap_compose.
    apply list_fmap_ext. intros _ e _. cbn.
    by destruct (withId_parts e) as (-> & _). }
  rewrite Hheadings in Hcases. rewrite Hlinks in HL.
  (* the place of the active heading among the headings *)
  assert (∃ k, entryIndices 0 (elements _ p) !! k = Some h
               ∧ (((el_top heading <= 100)%Q
                   ∧ ∀ k' h' e', k < k' →
                       entryIndices 0 (elements _ p) !! k' = Some h' →
                       elements _ d !! h' = Some e' →
                       ¬ (el_top e' <= 100)%Q)
                  ∨ (k = 0
                     ∧ ∀ h' e', h' ∈ entryIndices 0 (elements _ p) →
                         elements _ d !! h' = Some e' →
                         ¬ (el_top e' <= 100)%Q)))
    as (k & Hk & Hplace).
  { destruct Hcases as [(before & after & Heq & Hh & Hafter)|[Hnone Hhead]].
    - exists (length before). split; [rewrite Heq; by apply list_lookup_middle|].
      left. split; [by apply (aboveFold_top _ h heading Hheading)|].
      intros k' h' e' Hlt Hk' He' Hle.
      rewrite Heq in Hk'. rewrite lookup_app_r in Hk' by lia.
      destruct (k' - length before) as [|m] eqn:Hm; [lia|]. cbn in Hk'.
      rewrite Forall_forall in Hafter.
      pose proof (Hafter h' (list_elem_of_lookup_2 _ _ _ Hk')) as Hno.
      cbn beta in Hno. apply (aboveFold_top _ h' e' He') in Hle. congruence.
    - exists 0. split; [by destruct (entryIndices 0 (elements _ p))|].
      right. split; [done|]. intros h' e' Hh' He' Hle.
      rewrite Forall_forall in Hnone. pose proof (Hnone h' Hh') as Hno.
      cbn beta in Hno. apply (aboveFold_top _ h' e' He') in Hle. congruence. }
  (* the heading and its link *)
  destruct (entryIndices_lookup 0 _ k h Hk) as (e & _ & He & Hentry & Hke).
  rewrite Nat.sub_0_r in He.
  assert (content heading = content (withId e)) as Hsame.
  { assert (content <$> elements _ d !! h
            = content <$> (withId <$> elements _ p) !! h) as Hl
      by by rewrite <- !list_lookup_fmap, Hcontent.
    rewrite Hheading, list_lookup_fmap, He in Hl.
    cbn [fmap option_fmap option_map] in Hl. by apply (inj Some) in Hl. }
  assert (el_id heading = headingId e ∧ el_textContent heading = el_textContent e)
    as [Hid Htext].
  { unfold content in Hsame. injection Hsame as _ Hi Ht.
    rewrite Hi, Ht. split; [by apply el_id_withId|].
    by destruct (withId_parts e) as (_ & -> & _). }
  assert (k < length (sidebarLinks (sidebarOf p))) as Hlt.
  { rewrite sidebarOf_links_length. by eapply lookup_lt_Some. }
  destruct (lookup_lt_is_Some_2 _ _ Hlt) as [lk Hlk].
  destruct (sidebarOf_link p k lk Hlk) as (e' & a0 & Hke' & Ha0 & Hid0 & Htext0).
  rewrite Hke in Hke'. injection Hke' as <-.
  assert (link = lk) as ->.
  { set (idOfLink := λ i : nat, sb_store (sidebarOf p) !! i ≫= toc_headingId).
    assert (idOfLink lk = Some (el_id heading)) as Hlkid.
    { unfold idOfLink. rewrite Ha0. cbn [mbind option_bind].
      by rewrite Hid0, Hid. }
    assert (head (filter (λ i, idOfLink i = Some (el_id heading))
                    (sidebarLinks (sidebarOf p))) = Some lk) as Hfirst.
    { rewrite <- Hlkid.
      apply (head_filter_key idOfLink _ k lk (sidebarOf_links_NoDup p Hd) Hlk). }
    unfold findLink in Hfind. rewrite HL in Hfind.
    rewrite (list_filter_iff _ (λ i, idOfLink i = Some (el_id heading)))
      in Hfind.
    - rewrite Hfirst in Hfind. by injection Hfind.
    - intros i. unfold idOfLink. by rewrite (headingId_shape _ _ i Hshape). }
  pose proof (shape_lookup _ _ lk Hshape) as Hlook. rewrite Ha0 in Hlook.
  destruct (sb_store sb !! lk) as [a|] eqn:Ha; [|done].
  cbn in Hlook. injection Hlook as _ _ Hida _ Htexta.
  exists sb. split; [done|].
  exists k, h, heading, lk, a. rewrite Hentries, HL. split_and!.
  - done.
  - done.
  - done.
  - by rewrite sidebarOf_links_length, (length_entryIndices 0).
  - done.
  - done.
  - by rewrite Hida, Hid0, Hid.
  - by rewrite Htexta, Htext0, Htext.
  - intros j i Hj. rewrite Hall by (rewrite HL; by eapply list_elem_of_lookup_2).
    f_equal. apply bool_decide_ext. split.
    + intros ->.
      apply (NoDup_lookup (sidebarLinks (sidebarOf p)) j k lk); [|done..].
      eapply NoDup_fmap_1, (sidebarOf_links_NoDup p Hd).
    + intros ->. rewrite Hlk in Hj. by injection Hj.
Qed.

(** C6, amended.  [p] is a page with at least one heading other than
    [h1], and the ids that the headings have once the sidebar is built
    tell them apart: the id of every heading other than [h1] is not
    empty, holds no double quote, backslash, line break or NUL, and is
    the id of no element in front of the heading.  [s] is the scroll
    handler that [createOnThisPageSidebar] registers for [p].  Then the
    first update, made by [createOnThisPageSidebar] itself, and every run
    of the handler on a page [d] that follows leave exactly one link of
    the sidebar active, the link of the section scrolled to: the active
    heading is the last heading other than [h1] in the order of the
    document whose top is at most 100, or the first one when there is no
    such heading; its link is marked and every other link is not. *)
Theorem updateActiveLink_marks_current_section p (s : spy) d :
  existsb isEntry (elements _ p) = true →
  distinctIds [] (withId <$> elements _ p) = true →
  head (scrollListeners _ (createOnThisPageSidebar _ rewriteSidebarNav p))
  = Some s →
  scrolledFrom p s d →
  (∃ sb,
     onThisPage _ (createOnThisPageSidebar _ rewriteSidebarNav p) = Some sb
     ∧ marksCurrentSection
         (elements _ (createOnThisPageSidebar _ rewriteSidebarNav p)) sb)
  ∧ ∃ sb,
      onThisPage _ (updateActiveLink _ s d) = Some sb
      ∧ marksCurrentSection (elements _ d) sb.
Proof.
  intros Hentry Hd Hhead Hfrom.
  apply existsb_exists in Hentry as (e & He & Hentry).
  assert (filter isEntry (elements _ p) ≠ []) as Hsome.
  { intros Hnil.
    assert (e ∈ filter isEntry (elements _ p)) as Hin
      by (apply list_elem_of_filter;
          split; [by apply Is_true_true|by apply list_elem_of_In]).
    rewrite Hnil in Hin. by apply elem_of_nil in Hin. }
  assert (existsb isHeading (elements _ p) = true) as Hex.
  { apply existsb_exists. exists e. split; [done|].
    unfold isEntry, isHeading in *. by destruct (el_heading e). }
  destruct (createOnThisPageSidebar_setup p Hex) as (d0 & Hcreate & H0 & Hels0).
  destruct (spy_of_page p d0 H0 Hels0 Hd) as [_ Hheadings].
  assert (createOnThisPageSidebar _ rewriteSidebarNav p
          = updateActiveLink _ (collectSpy _ d0)
              (addScrollListener _ (collectSpy _ d0) d0)) as Hfirst.
  { rewrite Hcreate. unfold setupScrollSpy.
    destruct (spy_headings (collectSpy _ d0)) eqn:Hspy; [|done].
    exfalso. apply Hsome. apply length_zero_iff_nil.
    by rewrite <- (length_entryIndices 0), <- Hheadings. }
  assert (s = collectSpy _ d0) as ->.
  { rewrite Hfirst, updateActiveLink_listeners in Hhead.
    cbn [addScrollListener scrollListeners head] in Hhead. by injection Hhead. }
  assert (follows d0 d) as Hfollows.
  { induction Hfrom as [|tops d _ IH|d _ IH].
    - rewrite Hfirst. apply follows_update, follows_setup.
    - by apply follows_scroll.
    - by apply follows_update. }
  split; [|by apply (update_marks p d0 d)].
  destruct (update_marks p d0 (addScrollListener _ (collectSpy _ d0) d0)
              Hsome Hd H0 Hels0 (follows_setup d0)) as (sb & Hsb & Hmarks).
  exists sb. rewrite Hfirst. split; [done|].
  by destruct (updateActiveLink_frame (collectSpy _ d0)
                 (addScrollListener _ (collectSpy _ d0) d0)) as (-> & _).
Qed.
End Spy.

(** A page with two sections of the same title and a third one between
    them; the headings have no ids of their own. *)
Definition sameTitlePage : document unit :=
  {| onThisPage := None;
     elements :=
       [ {| el_heading := Some H2; el_id := "";
            el_textContent := "Setup"; el_top := 40 |};
         {| el_heading := Some H2; el_id := "";
            el_textContent := "Usage"; el_top := 400 |};
         {| el_heading := Some H2; el_id := "";
            el_textContent := "Setup"; el_top := 900 |} ];
     leftSidebar := None;
     scrollListeners := [];
     pendingTimeouts := 0;
     windowLocation := {| pathname := "/docs/"; hash := "#/guide" |};
     currentRoute := "/guide" |}.

(** The reader has scrolled down to the last section. *)
Definition atLastSection (i : nat) : Q :=
  match i with
  | 0 => (-500)%Q
  | 1 => (-200)%Q
  | _ => 50%Q
  end.

(** C6 as it is stated fails: the link marked is not always the link of
    the section scrolled to.  The links find their headings by id and the
    active heading finds its link by id, so of two sections with the same
    id the first one has the link marked while the reader is in the
    second. *)
Lemma same_title_marks_other_section :
  ¬ (∀ (p : document unit) (s : spy) (d : document unit),
       existsb isEntry (elements _ p) = true →
       head (scrollListeners _ (createOnThisPageSidebar _ id p)) = Some s →
       scrolledFrom id p s d →
       ∃ sb,
         onThisPage _ (updateActiveLink _ s d) = Some sb
         ∧ marksCurrentSection (elements _ d) sb).
Proof.
  intros H.
  destruct (H sameTitlePage
              {| spy_links := [3; 5; 7]; spy_headings := [0; 1; 0] |}
              (scrolled _ atLastSection
                 (createOnThisPageSidebar _ id sameTitlePage)))
    as (sb & Hsb
        & k & h & heading & link & a
        & Hk & Hh & Hplace & _ & _ & _ & _ & _ & Hall).
  - reflexivity.
  - reflexivity.
  - apply from_scroll, from_created.
  - vm_compute in Hsb. injection Hsb as <-.
    pose proof (Hall 0 3 eq_refl) as Hfirst.
    assert (k = 0) as ->.
    { cbn in Hfirst. injection Hfirst as Hfirst. symmetry in Hfirst.
      by apply bool_decide_eq_true in Hfirst. }
    assert (entryIndices 0
              (elements _ (scrolled _ atLastSection
                             (createOnThisPageSidebar _ id sameTitlePage)))
            = [0; 1; 2]) as Hentries by reflexivity.
    rewrite Hentries in Hk, Hplace. injection Hk as <-.
    destruct Hplace as [[_ Hlater]|[_ Hnone]].
    + apply (Hlater 2 2
               {| el_heading := Some H2; el_id := "setup";
                  el_textContent := "Setup"; el_top := 50 |});
        [lia|reflexivity|reflexivity|].
      by vm_compute.
    + apply (Hnone 0
               {| el_heading := Some H2; el_id := "setup";
                  el_textContent := "Setup"; el_top := (-500) |});
        [apply list_elem_of_here|reflexivity|].
      by vm_compute.
Qed.

(** A page whose second section has a title without a letter or digit:
    the slug of the title is empty, so the heading gets no id. *)
Definition untitledSectionPage : document unit :=
  {| onThisPage := None;
     elements :=
       [ {| el_heading := Some H2; el_id := "";
            el_textContent := "Intro"; el_top := 40 |};
         {| el_heading := Some H2; el_id := "";
            el_textContent := "???"; el_top := 500 |} ];
     leftSidebar := None;
     scrollListeners := [];
     pendingTimeouts := 0;
     windowLocation := {| pathname := "/docs/"; hash := "#/guide" |};
     currentRoute := "/guide" |}.

Definition atUntitledSection (i : nat) : Q :=
  match i with
  | 0 => (-400)%Q
  | _ => 20%Q
  end.

(** A heading without an id is not among the headings of the handler:
    while the reader is in its section the link of the section before
    stays marked. *)
Lemma heading_without_id_not_marked :
  ∃ sb,
    onThisPage unit
      (updateActiveLink unit {| spy_links := [3; 5]; spy_headings := [0] |}
         (scrolled unit atUntitledSection
            (createOnThisPageSidebar unit id untitledSectionPage)))
    = Some sb
    ∧ head (scrollListeners unit
              (createOnThisPageSidebar unit id untitledSectionPage))
      = Some {| spy_links := [3; 5]; spy_headings := [0] |}
    ∧ ¬ marksCurrentSection
          (elements unit
             (scrolled unit atUntitledSection
                (createOnThisPageSidebar unit id untitledSectionPage)))
          sb.
Proof.
  eexists. split; [vm_compute; reflexivity|]. split; [reflexivity|].
  intros (k & h & heading & link & a
          & Hk & Hh & Hplace & _ & _ & _ & _ & _ & Hall).
  pose proof (Hall 0 3 eq_refl) as Hfirst.
  assert (k = 0) as ->.
  { cbn in Hfirst. injection Hfirst as Hfirst. symmetry in Hfirst.
    by apply bool_decide_eq_true in Hfirst. }
  assert (entryIndices 0
            (elements _ (scrolled _ atUntitledSection
                           (createOnThisPageSidebar _ id untitledSectionPage)))
          = [0; 1]) as Hentries by reflexivity.
  rewrite Hentries in Hk, Hplace. injection Hk as <-.
  destruct Hplace as [[_ Hlater]|[_ Hnone]].
  - apply (Hlater 1 1
             {| el_heading := Some H2; el_id := "";
                el_textContent := "???"; el_top := 20 |});
      [lia|reflexivity|reflexivity|].
    by vm_compute.
  - apply (Hnone 0
             {| el_heading := Some H2; el_id := "intro";
                el_textContent := "Intro"; el_top := (-400) |});
      [apply list_elem_of_here|reflexivity|].
    by vm_compute.
Qed.

(** The page of the example, scrolled to its second section: the second
    link is the one marked. *)
Lemma updateActiveLink_marks_current_section_witness :
  ∃ sb first second a,
    onThisPage unit
      (updateActiveLink unit {| spy_links := [3; 5]; spy_headings := [1; 2] |}
         (scrolled unit Samples.atSecondSection
            (createOnThisPageSidebar unit id Samples.pageWithSections)))
    = Some sb
    ∧ sidebarLinks sb !! 0 = Some first
    ∧ sidebarLinks sb !! 1 = Some second
    ∧ length (sidebarLinks sb) = 2
    ∧ sb_store sb !! second = Some a
    ∧ toc_headingId a = Some "shorthand-routes"
    ∧ toc_active <$> sb_store sb !! first = Some false
    ∧ toc_active <$> sb_store sb !! second = Some true.
Proof.
  destruct (updateActiveLink_marks_current_section id
              Samples.pageWithSections
              {| spy_links := [3; 5]; spy_headings := [1; 2] |}
              (scrolled unit Samples.atSecondSection
                 (createOnThisPageSidebar unit id Samples.pageWithSections)))
    as (_ & sb & Hsb
        & k & h & heading & link & a
        & Hk & Hh & Hplace & Hlen & Hlk & Ha & Hid & _ & Hall).
  - reflexivity.
  - reflexivity.
  - reflexivity.
  - apply from_scroll, from_created.
  - assert (entryIndices 0
              (elements _ (scrolled unit Samples.atSecondSection
                             (createOnThisPageSidebar unit id
                                Samples.pageWithSections)))
            = [1; 2]) as Hentries by reflexivity.
    rewrite Hentries in Hk, Hplace, Hlen. cbn [length] in Hlen.
    assert (k = 1 ∧ h = 2) as [-> ->].
    { destruct k as [|[|k]]; [|by injection Hk|done].
      exfalso. destruct Hplace as [[_ Hlater]|[_ Hnone]].
      - apply (Hlater 1 2
                 {| el_heading := Some H2; el_id := "shorthand-routes";
                    el_textContent := "Shorthand routes"; el_top := 60 |});
          [lia|reflexivity|reflexivity|].
        by vm_compute.
      - apply (Hnone 1
                 {| el_heading := Some H2; el_id := "defining-routes";
                    el_textContent := "Defining routes"; el_top := (-560) |});
          [apply list_elem_of_here|reflexivity|].
        by vm_compute. }
    assert (heading
            = {| el_heading := Some H2; el_id := "shorthand-routes";
                 el_textContent := "Shorthand routes"; el_top := 60 |})
      as -> by (vm_compute in Hh; by injection Hh).
    destruct (lookup_lt_is_Some_2 (sidebarLinks sb) 0) as [first Hfirst];
      [lia|].
    exists sb, first, link, a.
    split_and!; [exact Hsb|exact Hfirst|exact Hlk|exact Hlen|exact Ha
                |exact Hid|exact (Hall 0 first Hfirst)|exact (Hall 1 link Hlk)].
Defined.

End ScrollSpySpec.
